(** * BloomWatch forecast core: a shallow embedding of [forecast.js]

    The development follows the source file by file.  [JSDate] holds the
    part of the ECMAScript [Date] built-in the program calls, written after
    the abstract operations of ECMA-262 (Day, DayFromYear, YearFromTime,
    MakeDay, ...).  The rest embeds [ForecastManager] of [src/forecast.js]
    and [Utils.doyToDate] of [src/app.js].

    Numbers.  Observation values, weather aggregates and model outputs are
    JS numbers; they are embedded as real numbers ([R]) with exact
    arithmetic, so rounding, overflow and the IEEE special values are not
    part of the model.  Where the program can obtain NaN from parsing
    (the configuration read by [run]) the embedding keeps NaN explicit
    ([jsnum]).  [null]/[undefined] values are [None].

    Two places are read a second time on the numbers the program has:
    [NaNForecast] is [_forecastNext30Days] with values that can be NaN, for
    what the clamp does to NaN, and [Binary64] holds the column mean and
    deviation of [_trainModel] in binary64, for what rounding does to the
    deviation of a constant column. *)

From Stdlib Require Import ZArith Lia List String Ascii Bool.
From Stdlib Require Import Reals Lra.
From Stdlib Require PrimFloat Uint63.
From Stdlib Require Import Permutation.
From stdpp Require Import gmap strings.
Import ListNotations.

(** ** Exceptions *)

Inductive jserror : Type :=
| TypeError                      (* property read on undefined *)
| RangeError                     (* toISOString on an invalid Date *)
| Error (msg : string).          (* throw new Error(msg) *)

Inductive result (A : Type) : Type :=
| Ok (a : A)
| Throw (e : jserror).
Arguments Ok {A} a.
Arguments Throw {A} e.

Definition rbind {A B} (r : result A) (k : A -> result B) : result B :=
  match r with
  | Ok a => k a
  | Throw e => Throw e
  end.

Notation "'let!' x ':=' r 'in' k" := (rbind r (fun x => k))
  (at level 10, x pattern, r at level 100, k at level 200).

(** ** The Date built-in *)

(** Time values are integers (milliseconds since 1970-01-01T00:00:00Z), as
    they are for every date the program handles; NaN, the time value of an
    invalid Date, is [None].  The definitions are those of ECMA-262,
    section "Time Values and Time Range" and following. *)

Module JSDate.
Local Open Scope Z_scope.

Definition msPerDay : Z := 86400000.

(** Day number and time within the day of a time value. *)
Definition Day (t : Z) : Z := t / msPerDay.
Definition TimeWithinDay (t : Z) : Z := t mod msPerDay.

(** Number of days of year [y], and day number of its first day. *)
Definition DaysInYear (y : Z) : Z :=
  if negb (y mod 4 =? 0) then 365
  else if negb (y mod 100 =? 0) then 366
  else if negb (y mod 400 =? 0) then 365
  else 366.

Definition DayFromYear (y : Z) : Z :=
  365 * (y - 1970) + (y - 1969) / 4 - (y - 1901) / 100 + (y - 1601) / 400.

(** The largest [y] with [DayFromYear y <= n]: an estimate from the mean
    length of a year, corrected by at most one (see [YearFromDay_spec]). *)
Definition YearFromDay (n : Z) : Z :=
  let y := 1970 + (n * 400) / 146097 in
  if DayFromYear (y + 1) <=? n then y + 1
  else if DayFromYear y <=? n then y
  else y - 1.

Definition YearFromTime (t : Z) : Z := YearFromDay (Day t).

(** 1 in a leap year, 0 otherwise. *)
Definition InLeapYear (t : Z) : Z :=
  if DaysInYear (YearFromTime t) =? 366 then 1 else 0.

Definition DayWithinYear (t : Z) : Z := Day t - DayFromYear (YearFromTime t).

(** Number of days before month [m] (0-based) in a year, [leap] being 0 or 1. *)
Definition DaysBeforeMonth (leap m : Z) : Z :=
  if m <=? 0 then 0
  else if m =? 1 then 31
  else if m =? 2 then 59 + leap
  else if m =? 3 then 90 + leap
  else if m =? 4 then 120 + leap
  else if m =? 5 then 151 + leap
  else if m =? 6 then 181 + leap
  else if m =? 7 then 212 + leap
  else if m =? 8 then 243 + leap
  else if m =? 9 then 273 + leap
  else if m =? 10 then 304 + leap
  else 334 + leap.

(** The month (0-based) of day [d] of a year. *)
Definition MonthFromDayWithinYear (leap d : Z) : Z :=
  if d <? 31 then 0
  else if d <? 59 + leap then 1
  else if d <? 90 + leap then 2
  else if d <? 120 + leap then 3
  else if d <? 151 + leap then 4
  else if d <? 181 + leap then 5
  else if d <? 212 + leap then 6
  else if d <? 243 + leap then 7
  else if d <? 273 + leap then 8
  else if d <? 304 + leap then 9
  else if d <? 334 + leap then 10
  else 11.

Definition MonthFromTime (t : Z) : Z :=
  MonthFromDayWithinYear (InLeapYear t) (DayWithinYear t).

(** The day of the month, from 1. *)
Definition DateFromTime (t : Z) : Z :=
  DayWithinYear t - DaysBeforeMonth (InLeapYear t) (MonthFromTime t) + 1.

Definition MakeTime (h m s ms : Z) : Z := ((h * 60 + m) * 60 + s) * 1000 + ms.

(** The day number of [date] in month [month] (0-based, any integer) of
    [year]; [date] may lie outside the month. *)
Definition MakeDay (year month date : Z) : Z :=
  let ym := year + month / 12 in
  let mn := month mod 12 in
  let leap := if DaysInYear ym =? 366 then 1 else 0 in
  DayFromYear ym + DaysBeforeMonth leap mn + date - 1.

Definition MakeDate (day time : Z) : Z := day * msPerDay + time.

(** A Date object holds a time value or NaN ([None]). *)
Definition Date : Type := option Z.

(** Time values further than 8.64e15 ms from the epoch are NaN. *)
Definition TimeClip (t : Z) : Date :=
  if 8640000000000000 <? Z.abs t then None else Some t.

(** [Date.UTC(year, month, date)] on integer arguments; years 0..99 mean
    1900..1999. *)
Definition MakeFullYear (y : Z) : Z :=
  if (0 <=? y) && (y <=? 99) then 1900 + y else y.

Definition Date_UTC (year month date : Z) : Date :=
  TimeClip (MakeDate (MakeDay (MakeFullYear year) month date) (MakeTime 0 0 0 0)).

Definition getUTCFullYear (d : Date) : option Z := option_map YearFromTime d.
Definition getUTCMonth (d : Date) : option Z := option_map MonthFromTime d.
Definition getUTCDate (d : Date) : option Z := option_map DateFromTime d.

(** [d.setUTCDate(dt)]: the new time value of [d]; [dt] is [None] for NaN. *)
Definition setUTCDate (d : Date) (dt : option Z) : Date :=
  match d, dt with
  | Some t, Some n =>
      TimeClip (MakeDate (MakeDay (YearFromTime t) (MonthFromTime t) n)
                         (TimeWithinDay t))
  | _, _ => None
  end.

Definition HourFromTime (t : Z) : Z := (t / 3600000) mod 24.
Definition MinFromTime (t : Z) : Z := (t / 60000) mod 60.
Definition SecFromTime (t : Z) : Z := (t / 1000) mod 60.
Definition msFromTime (t : Z) : Z := t mod 1000.

(** Days of month [m] (0-based) of year [y]. *)
Definition DaysInMonth (y m : Z) : Z :=
  if m =? 1 then (if DaysInYear y =? 366 then 29 else 28)
  else if (m =? 3) || (m =? 5) || (m =? 8) || (m =? 10) then 30
  else 31.

(** *** Date strings *)

(** The decimal digit of the units of [n], and its value. *)
Definition digit (n : Z) : ascii := ascii_of_nat (Z.to_nat (48 + n mod 10)).

Definition digit_val (c : ascii) : option Z :=
  let n := Z.of_nat (nat_of_ascii c) in
  if (48 <=? n) && (n <=? 57) then Some (n - 48) else None.

(** [n] on 2, 3, 4 or 6 digits. *)
Definition pad2 (n : Z) : string :=
  String (digit (n / 10)) (String (digit n) EmptyString).

Definition pad3 (n : Z) : string := String (digit (n / 100)) (pad2 n).
Definition pad4 (n : Z) : string := String (digit (n / 1000)) (pad3 n).
Definition pad6 (n : Z) : string :=
  String (digit (n / 100000)) (String (digit (n / 10000)) (pad4 n)).

(** Years 0..9999 print with four digits, the others as a sign and six. *)
Definition year_string (y : Z) : string :=
  if (0 <=? y) && (y <=? 9999) then pad4 y
  else String (if y <? 0 then "-"%char else "+"%char) (pad6 (Z.abs y)).

(** [d.toISOString()]; it throws a RangeError on an invalid Date. *)
Definition toISOString (d : Date) : result string :=
  match d with
  | None => Throw RangeError
  | Some t =>
      Ok (year_string (YearFromTime t) ++ "-" ++ pad2 (MonthFromTime t + 1)
          ++ "-" ++ pad2 (DateFromTime t)
          ++ "T" ++ pad2 (HourFromTime t) ++ ":" ++ pad2 (MinFromTime t)
          ++ ":" ++ pad2 (SecFromTime t) ++ "." ++ pad3 (msFromTime t) ++ "Z")%string
  end.

(** [s.slice(0,10)] *)
Definition slice_0_10 (s : string) : string := substring 0 10 s.

(** Year, month and day written as [YYYY-MM-DD]. *)
Definition parse_date_only (s : string) : option (Z * Z * Z) :=
  match list_ascii_of_string s with
  | [a; b; c; d; h1; e; f; h2; g; h] =>
      if Ascii.eqb h1 "-" && Ascii.eqb h2 "-" then
        a ← digit_val a; b ← digit_val b; c ← digit_val c; d ← digit_val d;
        e ← digit_val e; f ← digit_val f; g ← digit_val g; h ← digit_val h;
        Some (1000 * a + 100 * b + 10 * c + d, 10 * e + f, 10 * g + h)
      else None
  | _ => None
  end.

(** [new Date(s)] for the strings the program builds: a calendar date
    [YYYY-MM-DD] followed by [T00:00:00Z].  ECMA-262 gives NaN for illegal
    element values; for strings of another shape it lets the engine try its
    own formats, and the model gives NaN there too. *)
Definition Date_parse (s : string) : Date :=
  if String.eqb (substring 10 (String.length s - 10) s) "T00:00:00Z" then
    '(y, m, d) ← parse_date_only (substring 0 10 s);
    if (1 <=? m) && (m <=? 12) && (1 <=? d) && (d <=? DaysInMonth y (m - 1))
    then TimeClip (MakeDate (MakeDay y (m - 1) d) (MakeTime 0 0 0 0))
    else None
  else None.

(** A calendar date string in the sense of the data model. *)
Definition iso_date (s : string) (day : Z) : Prop :=
  Date_parse (s ++ "T00:00:00Z") = Some (day * msPerDay).

(** The ISO date of day number [n] (days since 1970-01-01). *)
Definition iso_of_day (n : Z) : string :=
  pad4 (YearFromDay n) ++ "-"
  ++ pad2 (MonthFromTime (n * msPerDay) + 1) ++ "-"
  ++ pad2 (DateFromTime (n * msPerDay)).

End JSDate.

(** ** Arrays, nullable values and numbers *)

(** [a.slice(start, end)] of Array.prototype: negative positions count from
    the end, and both are clamped to the array. *)
Definition js_slice {A} (l : list A) (start stop : Z) : list A :=
  let len := Z.of_nat (length l) in
  let k := if (start <? 0)%Z then Z.max (len + start) 0 else Z.min start len in
  let e := if (stop <? 0)%Z then Z.max (len + stop) 0 else Z.min stop len in
  firstn (Z.to_nat (e - k)) (skipn (Z.to_nat k) l).

(** [a.slice(start)] *)
Definition js_slice_from {A} (l : list A) (start : Z) : list A :=
  js_slice l start (Z.of_nat (length l)).

(** [a[i]] for an integer [i]: [undefined] outside the array. *)
Definition js_index {A} (l : list A) (i : Z) : option A :=
  if (i <? 0)%Z then None else nth_error l (Z.to_nat i).

(** [a.reduce((acc, x, idx) => f(acc, x, idx), init)] *)
Fixpoint reduce_from {A B} (f : B -> A -> nat -> B) (k : nat) (l : list A) (acc : B) : B :=
  match l with
  | [] => acc
  | a :: l' => reduce_from f (S k) l' (f acc a k)
  end.

Definition reduce {A B} (f : B -> A -> nat -> B) (l : list A) (init : B) : B :=
  reduce_from f 0 l init.

(** [a.filter(v => v != null)] *)
Fixpoint non_null {A} (l : list (option A)) : list A :=
  match l with
  | [] => []
  | Some a :: l' => a :: non_null l'
  | None :: l' => non_null l'
  end.

Section Numbers.
Local Open Scope R_scope.

(** [arr.reduce((a,b)=>a+b, 0)] *)
Definition sum (arr : list R) : R := fold_left Rplus arr 0.

(** [arr.length ? sum/arr.length : dflt] *)
Definition mean_or {A} (none : A) (some : R -> A) (arr : list R) : A :=
  match arr with
  | [] => none
  | _ => some (sum arr / INR (length arr))
  end.

(** [Math.sqrt(x) || 1]: 0 is falsy. *)
Definition sqrt_or_1 (x : R) : R :=
  if Req_dec_T (sqrt x) 0 then 1 else sqrt x.

End Numbers.

(** Numbers that can be NaN or infinite: the configuration parsed from text. *)
Inductive jsnum : Type :=
| NaN
| PosInf
| NegInf
| Num (x : R).

Definition Math_min (a b : jsnum) : jsnum :=
  match a, b with
  | NaN, _ | _, NaN => NaN
  | NegInf, _ | _, NegInf => NegInf
  | PosInf, c | c, PosInf => c
  | Num x, Num y => Num (Rmin x y)
  end.

Definition Math_max (a b : jsnum) : jsnum :=
  match a, b with
  | NaN, _ | _, NaN => NaN
  | PosInf, _ | _, PosInf => PosInf
  | NegInf, c | c, NegInf => c
  | Num x, Num y => Num (Rmax x y)
  end.

(** [Math.ceil(x)] *)
Definition Math_ceil (x : R) : Z := (- Int_part (- x))%Z.

(** *** parseInt and parseFloat *)

Module Parse.
Local Open Scope Z_scope.

(** White space and line terminators, among the ASCII characters (the
    strings of this development hold no others). *)
Definition is_space (c : ascii) : bool :=
  let n := Z.of_nat (nat_of_ascii c) in
  ((9 <=? n) && (n <=? 13)) || (n =? 32).

Fixpoint trim_start (l : list ascii) : list ascii :=
  match l with
  | c :: l' => if is_space c then trim_start l' else l
  | [] => []
  end.

(** The sign and what follows it. *)
Definition take_sign (l : list ascii) : Z * list ascii :=
  match l with
  | c :: l' =>
      if Ascii.eqb c "-" then (-1, l')
      else if Ascii.eqb c "+" then (1, l')
      else (1, l)
  | [] => (1, [])
  end.

(** The value of a hexadecimal digit. *)
Definition hex_val (c : ascii) : option Z :=
  let n := Z.of_nat (nat_of_ascii c) in
  if (48 <=? n) && (n <=? 57) then Some (n - 48)
  else if (65 <=? n) && (n <=? 70) then Some (n - 55)
  else if (97 <=? n) && (n <=? 102) then Some (n - 87)
  else None.

(** The longest prefix of digits (read by [dv]) and the rest. *)
Fixpoint take_digits (dv : ascii -> option Z) (l : list ascii) : list Z * list ascii :=
  match l with
  | c :: l' =>
      match dv c with
      | Some d => let '(ds, r) := take_digits dv l' in (d :: ds, r)
      | None => ([], l)
      end
  | [] => ([], [])
  end.

(** The number that the digits [ds] write in base [radix]. *)
Definition digits_value (radix : Z) (ds : list Z) : Z :=
  fold_left (fun acc d => acc * radix + d) ds 0.

(** What follows a prefix [0x] or [0X]. *)
Definition strip_hex (l : list ascii) : option (list ascii) :=
  match l with
  | z :: x :: l' =>
      if Ascii.eqb z "0" && (Ascii.eqb x "x" || Ascii.eqb x "X") then Some l' else None
  | _ => None
  end.

(** [parseInt(s)] with no radix argument. *)
Definition parseInt (s : string) : jsnum :=
  let '(sign, l) := take_sign (trim_start (list_ascii_of_string s)) in
  let '(ds, radix) :=
    match strip_hex l with
    | Some l' => (fst (take_digits hex_val l'), 16)
    | None => (fst (take_digits JSDate.digit_val l), 10)
    end in
  match ds with
  | [] => NaN
  | _ => Num (IZR (sign * digits_value radix ds))
  end.

Definition starts_with (p l : list ascii) : bool :=
  String.eqb (string_of_list_ascii (firstn (length p) l)) (string_of_list_ascii p).

(** The exponent part [e±ddd], when it is complete. *)
Definition take_exponent (l : list ascii) : Z :=
  match l with
  | e :: l' =>
      if Ascii.eqb e "e" || Ascii.eqb e "E" then
        let '(sg, l'') := take_sign l' in
        match fst (take_digits JSDate.digit_val l'') with
        | [] => 0
        | ds => sg * digits_value 10 ds
        end
      else 0
  | [] => 0
  end.

(** [parseFloat(s)]: the longest prefix that is a decimal literal. *)
Definition parseFloat (s : string) : jsnum :=
  let '(sign, l) := take_sign (trim_start (list_ascii_of_string s)) in
  if starts_with (list_ascii_of_string "Infinity") l then
    (if sign <? 0 then NegInf else PosInf)
  else
    let '(ip, r1) := take_digits JSDate.digit_val l in
    let '(fp, r2) :=
      match r1 with
      | c :: r1' => if Ascii.eqb c "." then take_digits JSDate.digit_val r1' else ([], r1)
      | [] => ([], [])
      end in
    match ip, fp with
    | [], [] => NaN
    | _, _ =>
        Num (IZR sign
             * (IZR (digits_value 10 ip)
                + IZR (digits_value 10 fp) / 10 ^ length fp)
             * powerRZ 10 (take_exponent r2))%R
    end.

End Parse.

(** ** Strings *)

Module JSString.
Import JSDate.
Local Open Scope Z_scope.

(** The decimal digits of [n >= 0] written before [acc]; [fuel] bounds the
    number of digits. *)
Fixpoint decimal (fuel : nat) (n : Z) (acc : string) : string :=
  match fuel with
  | O => acc
  | S k =>
      let acc := String (digit n) acc in
      if n <? 10 then acc else decimal k (n / 10) acc
  end.

(** [String(n)] and [`${n}`] for an integer [n]; the fuel exceeds the number
    of digits. *)
Definition Number_toString (n : Z) : string :=
  if n <? 0 then String "-" (decimal (S (Z.to_nat (Z.log2 (- n)))) (- n) "")
  else decimal (S (Z.to_nat (Z.log2 n))) n "".

(** [s.padStart(2,'0')] *)
Definition padStart2 (s : string) : string :=
  match s with
  | EmptyString => "00"
  | String c EmptyString => String "0" s
  | _ => s
  end.

(** [s.replace(/-/g,'')] *)
Fixpoint remove_dashes (s : string) : string :=
  match s with
  | EmptyString => EmptyString
  | String c s' =>
      if Ascii.eqb c "-" then remove_dashes s' else String c (remove_dashes s')
  end.

(** [c.toLowerCase()] on ASCII: the letters [A-Z]. *)
Definition lower (c : ascii) : ascii :=
  let n := nat_of_ascii c in
  if (65 <=? n)%nat && (n <=? 90)%nat then ascii_of_nat (n + 32) else c.

(** [s.toLowerCase()] *)
Fixpoint toLowerCase (s : string) : string :=
  match s with
  | EmptyString => EmptyString
  | String c s' => String (lower c) (toLowerCase s')
  end.

(** [s.includes(p)] *)
Fixpoint includes (s p : string) : bool :=
  String.prefix p s
  || match s with
     | EmptyString => false
     | String _ s' => includes s' p
     end.

End JSString.

(** ** Utils (src/app.js) *)

Module Utils.
Import JSDate.

(** [doyToDate: (year, doy) => { const d = new Date(Date.UTC(year, 0, 1));
    d.setUTCDate(doy); return d.toISOString().slice(0, 10); }] *)
Definition doyToDate (year doy : Z) : result string :=
  let d := Date_UTC year 0 1 in
  let d := setUTCDate d (Some doy) in
  let! s := toISOString d in
  Ok (slice_0_10 s).

(** [clamp: (v, a, b) => Math.max(a, Math.min(b, v))] *)
Definition clamp (v a b : jsnum) : jsnum := Math_max a (Math_min b v).

(** [numOrNull(v)], on [n = Number(v)]. *)
Definition numOrNull (n : jsnum) : option R :=
  match n with
  | Num x => if Rle_dec x (-900) then None else Some x
  | _ => None
  end.

(** The loop of [genDates]: [d <= d1] compares the time values, and is false
    when one is NaN.  [fuel] bounds the number of turns; [None] when it is
    used up. *)
Fixpoint genDates_loop (fuel : nat) (step : Z) (d d1 : Date) (arr : list string)
  : option (result (list string)) :=
  match fuel with
  | O => None
  | S k =>
      match d, d1 with
      | Some t, Some t1 =>
          if (t <=? t1)%Z then
            match (let! s := toISOString d in Ok (slice_0_10 s)) with
            | Ok iso =>
                genDates_loop k step
                  (setUTCDate d (option_map (fun g => g + step)%Z (getUTCDate d)))
                  d1 (arr ++ [iso])
            | Throw e => Some (Throw e)
            end
          else Some (Ok arr)
      | _, _ => Some (Ok arr)
      end
  end.

(** [genDates(year, step)] for integers [year] and [step]. *)
Definition genDates (fuel : nat) (year step : Z) : option (result (list string)) :=
  let d0 := Date_parse (JSString.Number_toString year ++ "-01-01T00:00:00Z") in
  let d1 := Date_parse (JSString.Number_toString year ++ "-12-31T00:00:00Z") in
  match genDates_loop fuel step d0 d1 [] with
  | Some (Ok arr) =>
      let dec31 := (JSString.Number_toString year ++ "-12-31")%string in
      Some (Ok (match last arr with
                | Some s => if String.eqb s dec31 then arr else arr ++ [dec31]
                | None => arr ++ [dec31]
                end))
  | r => r
  end.
End Utils.

(** ** ForecastManager (src/forecast.js) *)

Module ForecastManager.
Import JSDate.
Import JSString.
Local Open Scope R_scope.

(** [{ date, value }]: one composite of the vegetation index; forecast
    points have the same shape. *)
Record Observation := { date : string; value : option R }.

(** [{ tMean, pSum }], one per composite date. *)
Record WeatherAggregate := { tMean : option R; pSum : option R }.

(** [wxByDate]: an object keyed by date.  Its keys are date strings, which
    are not array indices, so [Object.keys] lists them in insertion order:
    the object is the list of its entries in that order (keys distinct). *)
Abbreviation wxmap := (list (string * WeatherAggregate)).

(** [wxByDate[d]] *)
Definition wx_get (wxByDate : wxmap) (d : string) : option WeatherAggregate :=
  option_map snd (find (fun kv => String.eqb (fst kv) d) wxByDate).

(** [Object.keys(wxByDate)] *)
Definition Object_keys (wxByDate : wxmap) : list string := map fst wxByDate.

(** *** helpers *)

(** [_doyToDate(year, doy) { const d = new Date(Date.UTC(year, 0, 1));
    d.setUTCDate(d.getUTCDate() + (doy - 1)); return d.toISOString().slice(0,10); }] *)
Definition _doyToDate (year doy : Z) : result string :=
  let d := Date_UTC year 0 1 in
  let d := setUTCDate d (option_map (fun g => g + (doy - 1))%Z (getUTCDate d)) in
  let! s := toISOString d in
  Ok (slice_0_10 s).

(** [\d], and [Number] of a string of digits. *)
Definition is_digit (c : ascii) : bool :=
  match digit_val c with Some _ => true | None => false end.

Definition digits_Z (l : list ascii) : Z :=
  fold_left (fun acc c => acc * 10 + default 0 (digit_val c))%Z l 0%Z.

(** [_toISO(modisDate)]; [has_Utils] is the test [global.Utils && Utils.doyToDate]. *)
Definition _toISO (has_Utils : bool) (modisDate : string) : result (option string) :=
  match list_ascii_of_string modisDate with
  | [a; b; c; d; h; e; f; g] =>
      (* /^\d{4}-\d{3}$/ *)
      if forallb is_digit [a; b; c; d; e; f; g] && Ascii.eqb h "-" then
        let year := digits_Z [a; b; c; d] in
        let doy := digits_Z [e; f; g] in
        let! iso := (if has_Utils then Utils.doyToDate year doy
                     else _doyToDate year doy) in
        Ok (Some iso)
      else Ok None
  | [a; b; c; d; h1; e; f; h2; g; h] =>
      (* /^\d{4}-\d{2}-\d{2}$/ *)
      if forallb is_digit [a; b; c; d; e; f; g; h]
         && Ascii.eqb h1 "-" && Ascii.eqb h2 "-"
      then Ok (Some modisDate) else Ok None
  | _ => Ok None
  end.

(** [_doy(iso)]; [None] is NaN (the string is no calendar date). *)
Definition _doy (iso : string) : option Z :=
  t ← Date_parse (iso ++ "T00:00:00Z");
  start ← Date_UTC (YearFromTime t) 0 0;
  Some ((t - start) / (1000 * 60 * 60 * 24))%Z.

(** The day of year as a number of the model.  Where [_doy] is NaN the
    real-number model has no value to give and uses 0; statements that read
    the seasonal features assume calendar dates. *)
Definition doy_num (iso : string) : R :=
  match _doy iso with Some n => IZR n | None => 0 end.

(** [_ymd(d)]: the year is not padded, the month and the day are; every
    part of an invalid Date prints as [NaN]. *)
Definition _ymd (d : Date) : string :=
  match d with
  | None => "NaNNaNNaN"
  | Some t =>
      Number_toString (YearFromTime t)
      ++ padStart2 (Number_toString (MonthFromTime t + 1)%Z)
      ++ padStart2 (Number_toString (DateFromTime t))
  end.

(** *** linear algebra *)

(** Matrices are arrays of rows.  [A[r][c]] outside the array is
    [undefined] in JS and arithmetic turns it to NaN; the model reads 0
    there.  The two agree on arrays of the right shape, which is what the
    program builds and what the statements below are about.  In the same
    way [A[0]] of an empty array, a TypeError in JS, is the empty row here:
    [_trainModel] has thrown at [X[0].length] before [_transpose] and
    [_matMul] could meet an empty array. *)
Abbreviation matrix := (list (list R)).

(** [A[r][c]] *)
Definition entry (A : matrix) (r c : nat) : R := nth c (nth r A []) 0.

(** [A[0].map((_,i) => A.map(r => r[i]))] *)
Definition _transpose (A : matrix) : matrix :=
  imap (fun i _ => map (fun r => nth i r 0) A) (hd [] A).

(** [A.map((r,ri) => B[0].map((_,j) => r.reduce((s,_,k) => s + A[ri][k]*B[k][j], 0)))] *)
Definition _matMul (A B : matrix) : matrix :=
  imap (fun ri r =>
          imap (fun j _ => reduce (fun s _ k => s + entry A ri k * entry B k j) r 0)
               (hd [] B)) A.

(** [A.map(r => r.reduce((s,_,j) => s + r[j]*v[j], 0))] *)
Definition _matVec (A : matrix) (v : list R) : list R :=
  map (fun r => reduce (fun s _ j => s + nth j r 0 * nth j v 0) r 0) A.

(** [const n=y.length; let s=0; for(let i=0;i<n;i++) s+=(yhat[i]-y[i])**2;
    return s/Math.max(1,n);] *)
Definition _mse (yhat y : list R) : R :=
  let n := length y in
  fold_left (fun s i => s + (nth i yhat 0 - nth i y 0) ^ 2) (seq 0 n) 0
  / INR (Nat.max 1 n).

(** [Array.from({length:n}, (_,i)=> Array.from({length:n}, (_,j)=> i===j?1:0))] *)
Definition identity (n : nat) : matrix :=
  map (fun i => map (fun j => if Nat.eqb i j then 1 else 0) (seq 0 n)) (seq 0 n).

(** [let p=i; for(let r=i+1;r<n;r++) if (Math.abs(A[r][i])>Math.abs(A[p][i])) p=r;] *)
Definition find_pivot (A : matrix) (i n : nat) : nat :=
  fold_left (fun p r => if Rgt_dec (Rabs (entry A r i)) (Rabs (entry A p i)) then r else p)
            (seq (S i) (n - S i)) i.

(** [[A[i],A[p]]=[A[p],A[i]]] *)
Definition swap_rows (A : matrix) (i p : nat) : matrix :=
  <[p := nth i A []]> (<[i := nth p A []]> A).

(** [for (let j=0;j<n;j++) A[i][j]*=c] *)
Definition scale_row (n i : nat) (c : R) (A : matrix) : matrix :=
  imap (fun r row => if Nat.eqb r i
                     then imap (fun j a => if (j <? n)%nat then a * c else a) row
                     else row) A.

(** [for r<n, r!==i: f=A[r][i]; for j<n: A[r][j]-=f*A[i][j]; I[r][j]-=f*I[i][j]].
    Row [i] is only read, and each row [r] is written at its own turn, so
    the loop is a map over the rows; [F] is the matrix the factors come from. *)
Definition eliminate (n i : nat) (F B : matrix) : matrix :=
  imap (fun r row =>
          if Nat.eqb r i then row
          else if (r <? n)%nat then
            imap (fun j b => if (j <? n)%nat then b - entry F r i * entry B i j else b) row
          else row) B.

(** The threshold of [if (Math.abs(A[p][i])<1e-8) throw new Error('Singular matrix')]. *)
Definition singular_eps : R := 1e-8.

(** One turn of the outer loop of [_invSym] on the pair [(A, I)] (the
    source's [I] is written [I'] here). *)
Definition gauss_jordan_step (n : nat) (st : matrix * matrix) (i : nat)
  : result (matrix * matrix) :=
  let '(A, I') := st in
  let p := find_pivot A i n in
  if Rlt_dec (Rabs (entry A p i)) singular_eps then Throw (Error "Singular matrix")
  else
    let A := swap_rows A i p in
    let I' := swap_rows I' i p in
    let invPivot := 1 / entry A i i in
    let A := scale_row n i invPivot A in
    let I' := scale_row n i invPivot I' in
    Ok (eliminate n i A A, eliminate n i A I').

(** The turns [steps] of the outer loop, one after the other; an exception
    ends the loop. *)
Definition gauss_jordan_loop (n : nat) (steps : list nat) (st : matrix * matrix)
  : result (matrix * matrix) :=
  fold_left (fun acc i => let! st := acc in gauss_jordan_step n st i) steps (Ok st).

(** [_invSym(M)]: [A] is a copy of [M], [I] the identity, and the loop runs
    for [i = 0 .. n-1]. *)
Definition _invSym (M : matrix) : result matrix :=
  let n := length M in
  let A := map (fun r => r) M in
  let I' := identity n in
  let! st := gauss_jordan_loop n (seq 0 n) (A, I') in
  Ok (snd st).

(** *** dataset and features *)

(** [{ x, y }]: the feature vectors and the targets. *)
Record Dataset := { x : list (list R); y : list R }.

(** [new Map(viSeries.map(v => [v.date, v.value]))]: a later entry replaces
    an earlier one with the same date. *)
Definition date_map (viSeries : list Observation) : gmap string (option R) :=
  fold_left (fun m v => <[date v := value v]> m) viSeries ∅.

(** [byDate.get(d)]; [undefined] and [null] are both [== null]. *)
Definition Map_get (byDate : gmap string (option R)) (d : string) : option R :=
  mjoin (byDate !! d).

(** [roll(idx, win)] of [_buildDataset] *)
Definition roll (viSeries : list Observation) (idx win : Z) : option R :=
  let s := Z.max 0 (idx - win + 1) in
  let arr := non_null (map value (js_slice viSeries s (idx + 1))) in
  mean_or None Some arr.

(** The feature vector [f] built at date [iso]. *)
Definition feature_vector (lag1 lag2 r3 : R) (iso : string) (t p : R) : list R :=
  [lag1; lag2; r3;
   sin (2 * PI * doy_num iso / 365); cos (2 * PI * doy_num iso / 365);
   t; p].

(** The body of the loop of [_buildDataset] at index [i]: the sample pushed,
    or [None] for [continue]. *)
Definition dataset_sample (viSeries : list Observation) (wxByDate : wxmap)
    (i : nat) : option (list R * R) :=
  let byDate := date_map viSeries in
  let dates := map date viSeries in
  let d := nth i dates ""%string in
  let v := Map_get byDate d in
  let lag1 := Map_get byDate (nth (i - 1) dates ""%string) in
  let lag2 := Map_get byDate (nth (i - 2) dates ""%string) in
  let r7 := roll viSeries (Z.of_nat i) 3 in
  let wx := wx_get wxByDate d in
  match v, lag1, lag2, r7, wx ≫= tMean, wx ≫= pSum with
  | Some v, Some lag1, Some lag2, Some r7, Some t, Some p =>
      Some (feature_vector lag1 lag2 r7 d t p, v)
  | _, _, _, _, _, _ => None
  end.

(** [x.push(f); y.push(v);] *)
Definition push_sample (ds : Dataset) (s : option (list R * R)) : Dataset :=
  match s with
  | Some (f, v) => {| x := x ds ++ [f]; y := y ds ++ [v] |}
  | None => ds
  end.

(** [for (let i=2; i<viSeries.length; i++) ...] *)
Definition _buildDataset (viSeries : list Observation) (wxByDate : wxmap) : Dataset :=
  fold_left (fun ds i => push_sample ds (dataset_sample viSeries wxByDate i))
            (seq 2 (length viSeries - 2)) {| x := []; y := [] |}.

(** *** model *)

(** [{ type:'tf'|'lin', infer, rmse }] *)
Inductive model_type : Type := tf_model | lin_model.

Record Model := { type : model_type; infer : list R -> R; rmse : R }.

(** [{ epochs, lr }] *)
Record Config := { epochs : jsnum; lr : jsnum }.

(** The optional tf.js backend ([global.tf]): what fitting the network on the
    standardized data gives, as the prediction for one standardized row. *)
Definition TfBackend : Type :=
  list (list R) -> list R -> Config -> result (list R -> R).

(** Mean and standard deviation of a column as [_trainModel] computes them:
    [col.reduce((a,b)=>a+b,0)/col.length] and
    [Math.sqrt(col.reduce((a,b)=>a+(b-m)*(b-m),0)/Math.max(1,(col.length-1))) || 1],
    over exact real numbers; [Binary64] reads the same two expressions in
    binary64. *)
Definition column_mean (col : list R) : R := sum col / INR (length col).

Definition column_sd (col : list R) : R :=
  let m := column_mean col in
  sqrt_or_1 (fold_left (fun a b => a + (b - m) * (b - m)) col 0
             / INR (Nat.max 1 (length col - 1))).

(** [X.map(r=>r[j])] *)
Definition column (X : matrix) (j : nat) : list R := map (fun r => nth j r 0) X.

(** [mu] and [sig], for [cols] columns. *)
Definition feature_mu (X : matrix) (cols : nat) : list R :=
  map (fun j => column_mean (column X j)) (seq 0 cols).

Definition feature_sig (X : matrix) (cols : nat) : list R :=
  map (fun j => column_sd (column X j)) (seq 0 cols).

(** [row.map((v,j) => (v-mu[j])/sig[j])] *)
Definition standardize (mu sig : list R) (row : list R) : list R :=
  imap (fun j v => (v - nth j mu 0) / nth j sig 0) row.

(** [xN] and [yN] *)
Definition standardized_x (X : matrix) (cols : nat) : matrix :=
  map (standardize (feature_mu X cols) (feature_sig X cols)) X.

Definition standardized_y (Y : list R) : list R :=
  map (fun v => (v - column_mean Y) / column_sd Y) Y.

(** The weights [w] of the linear baseline. *)
Definition linear_weights (xN : matrix) (yN : list R) : result (list R) :=
  let XT := _transpose xN in
  let XTX := _matMul XT xN in
  let XTy := _matVec XT yN in
  let! XTXinv := _invSym XTX in
  Ok (_matVec XTXinv XTy).

(** [infer] of the linear baseline. *)
Definition linear_infer (mu sig w : list R) (yMu ySig : R) (row : list R) : R :=
  let r := standardize mu sig row in
  let yn := reduce (fun a b idx => a + b * nth idx w 0) r 0 in
  yn * ySig + yMu.

(** [_trainModel(ds, { epochs, lr })]; [tf] is [global.tf].  [X[0].length]
    throws a TypeError on an empty dataset. *)
Definition _trainModel (tf : option TfBackend) (ds : Dataset) (cfg : Config)
  : result Model :=
  let X := x ds in
  let Y := y ds in
  match X with
  | [] => Throw TypeError
  | X0 :: _ =>
      let cols := length X0 in
      let mu := feature_mu X cols in
      let sig := feature_sig X cols in
      let xN := standardized_x X cols in
      let yMu := column_mean Y in
      let ySig := column_sd Y in
      let yN := standardized_y Y in
      match tf with
      | Some fit =>
          let! predict := fit xN yN cfg in
          let sq := map (fun rv => (predict (fst rv) - snd rv) ^ 2) (combine xN yN) in
          let rmse := sqrt (sum sq / INR (length sq)) * ySig in
          let infer row := predict (standardize mu sig row) * ySig + yMu in
          Ok {| type := tf_model; infer := infer; rmse := rmse |}
      | None =>
          let! w := linear_weights xN yN in
          let rmse := sqrt (_mse (_matVec xN w) yN) * ySig in
          Ok {| type := lin_model;
                infer := linear_infer mu sig w yMu ySig;
                rmse := rmse |}
      end
  end.

(** *** forecast *)

Abbreviation ForecastPoint := Observation (only parsing).

(** [tConst] and [pConst] *)
Definition weather_proxies (wxByDate : wxmap) : R * R :=
  let keys := Object_keys wxByDate in
  let take := js_slice_from keys (- Z.min 30 (Z.of_nat (length keys))) in
  let tArr := non_null (map (fun d => wx_get wxByDate d ≫= tMean) take) in
  let pArr := non_null (map (fun d => wx_get wxByDate d ≫= pSum) take) in
  (mean_or 10 (fun m => m) tArr, mean_or 10 (fun m => m) pArr).

(** [Math.max(-0.1, Math.min(1.0, vhat))] for a [vhat] that is a real
    number; [NaNForecast.clip] is the same expression on numbers that can be
    NaN. *)
Definition clip (vhat : R) : R := Rmax (-0.1) (Rmin 1.0 vhat).

(** What one turn of the loop computes from the rolling history [hist] at
    date [iso]: the value of the point pushed to [out]; when it is a number
    the same point is pushed to [hist] too. *)
Definition forecast_value (model : Model) (tConst pConst : R)
    (hist : list Observation) (iso : string) : option R :=
  let len := Z.of_nat (length hist) in
  let lag1 := js_index hist (len - 1) ≫= value in
  let lag2 := js_index hist (len - 2) ≫= value in
  let r3 := mean_or None Some (non_null (map value (js_slice_from hist (-3)))) in
  match lag1, lag2, r3 with
  | Some lag1, Some lag2, Some r3 =>
      let f := feature_vector lag1 lag2 r3 iso tConst pConst in
      let vhat := infer model f in
      Some (clip vhat)
  | _, _, _ => None
  end.

(** [d.setUTCDate(d.getUTCDate()+1); const iso = d.toISOString().slice(0,10);] *)
Definition next_day (d : Date) : Date :=
  setUTCDate d (option_map (fun g => g + 1)%Z (getUTCDate d)).

(** [d.toISOString().slice(0,10)] *)
Definition iso_of (d : Date) : result string :=
  let! s := toISOString d in Ok (slice_0_10 s).

(** The state of the loop: the date [d], [hist] and [out]. *)
Abbreviation forecast_state :=
  (Date * list Observation * list Observation)%type.

(** One turn of the loop, [out.push] and [hist.push] included. *)
Definition forecast_step (model : Model) (tConst pConst : R)
    (st : forecast_state) : result forecast_state :=
  let '(d, hist, out) := st in
  let d := next_day d in
  let! iso := iso_of d in
  match forecast_value model tConst pConst hist iso with
  | None => Ok (d, hist, out ++ [{| date := iso; value := None |}])
  | Some clipped =>
      Ok (d, hist ++ [{| date := iso; value := Some clipped |}],
             out ++ [{| date := iso; value := Some clipped |}])
  end.

(** [for (let i=1; i<=30; i++) { ... }], for [turns] turns. *)
Fixpoint forecast_loop (model : Model) (tConst pConst : R) (turns : nat)
    (st : forecast_state) : result forecast_state :=
  match turns with
  | O => Ok st
  | S k =>
      let! st := forecast_step model tConst pConst st in
      forecast_loop model tConst pConst k st
  end.

(** The loop of [_forecastNext30Days] entered with the copy [hist]. *)
Definition forecast_run (hist : list Observation) (wxByDate : wxmap) (model : Model)
  : result forecast_state :=
  let '(tConst, pConst) := weather_proxies wxByDate in
  match js_index hist (Z.of_nat (length hist) - 1) with
  | None => Throw TypeError
  | Some last =>
      let d := Date_parse (date last ++ "T00:00:00Z") in
      forecast_loop model tConst pConst 30 (d, hist, [])
  end.

(** [_forecastNext30Days(viSeries, wxByDate, model)]; [hist[hist.length-1].date]
    throws a TypeError on an empty history. *)
Definition _forecastNext30Days (viSeries : list Observation) (wxByDate : wxmap)
    (model : Model) : result (list ForecastPoint) :=
  let hist := js_slice_from viSeries 0 in
  let! st := forecast_run hist wxByDate model in
  Ok (snd st).

(** *** the same function on a store of arrays

    Arrays are mutable objects: [viSeries] is a reference that the caller
    keeps, [viSeries.slice()] allocates a new array and [hist.push] writes
    to it.  The store maps references to array contents.  The observation
    objects are shared between the two arrays but no statement assigns to
    their fields, so they are kept as values; [out] is a new array that only
    this function holds until it returns. *)

Abbreviation loc := nat (only parsing).
Abbreviation store := (gmap nat (list Observation)).

(** A new array holding [a]: its reference is one the store does not use. *)
Definition alloc (a : list Observation) (h : store) : loc * store :=
  let l := fresh (dom h) in (l, <[l := a]> h).

(** [l.push(v)] and the contents of [l]. *)
Definition array_push (l : loc) (v : Observation) (h : store) : store :=
  alter (fun a => a ++ [v]) l h.

Definition array_read (l : loc) (h : store) : list Observation :=
  default [] (h !! l).

(** One turn of the loop and the loop itself, as [forecast_step] and
    [forecast_loop] above, with [hist] a reference. *)
Definition forecast_step_store (model : Model) (tConst pConst : R) (hist : loc)
    (st : Date * list ForecastPoint) (h : store)
  : result (Date * list ForecastPoint) * store :=
  let '(d, out) := st in
  let d := next_day d in
  match iso_of d with
  | Throw e => (Throw e, h)
  | Ok iso =>
      match forecast_value model tConst pConst (array_read hist h) iso with
      | None => (Ok (d, out ++ [{| date := iso; value := None |}]), h)
      | Some clipped =>
          (Ok (d, out ++ [{| date := iso; value := Some clipped |}]),
           array_push hist {| date := iso; value := Some clipped |} h)
      end
  end.

Fixpoint forecast_loop_store (model : Model) (tConst pConst : R) (hist : loc)
    (turns : nat) (st : Date * list ForecastPoint) (h : store)
  : result (Date * list ForecastPoint) * store :=
  match turns with
  | O => (Ok st, h)
  | S k =>
      match forecast_step_store model tConst pConst hist st h with
      | (Ok st, h) => forecast_loop_store model tConst pConst hist k st h
      | (Throw e, h) => (Throw e, h)
      end
  end.

(** [_forecastNext30Days(viSeries, wxByDate, model)] with [viSeries] a
    reference into the store [h]: the value returned (or the exception) and
    the store afterwards. *)
Definition _forecastNext30Days_store (viSeries : loc) (wxByDate : wxmap)
    (model : Model) (h : store) : result (list ForecastPoint) * store :=
  let '(tConst, pConst) := weather_proxies wxByDate in
  let '(hist, h) := alloc (js_slice_from (array_read viSeries h) 0) h in
  let a := array_read hist h in
  match js_index a (Z.of_nat (length a) - 1) with
  | None => (Throw TypeError, h)
  | Some last =>
      let d := Date_parse (date last ++ "T00:00:00Z") in
      match forecast_loop_store model tConst pConst hist 30 (d, []) h with
      | (Ok st, h) => (Ok (snd st), h)
      | (Throw e, h) => (Throw e, h)
      end
  end.

(** *** data fetching *)

(** What [fetch(url)] and [r.json()] deliver for POWER's daily series:
    [r.ok], [r.status] and the two objects [data.properties.parameter.T2M]
    and [...PRECTOTCORR] ([None] where the path is missing).  Their values
    are JSON numbers, keyed by [YYYYMMDD]. *)
Record PowerReply := {
  reply_ok : bool;
  reply_status : Z;
  T2M : option (gmap string R);
  PRECTOTCORR : option (gmap string R)
}.

(** [get(obj, ymd)]: a missing key gives [Number(undefined)], NaN, so
    [null]; a number is kept when [n > -900]. *)
Definition get (obj : gmap string R) (ymd : string) : option R :=
  match obj !! ymd with
  | Some n => if Rgt_dec n (-900) then Some n else None
  | None => None
  end.

(** [k = -8 .. 8] *)
Definition day_offsets : list Z := map (fun i => Z.of_nat i - 8)%Z (seq 0 17).

(** The keys read for one composite date: [_ymd] of the date moved by [k]
    days, for each [k]. *)
Definition window_keys (date : string) : list string :=
  let d0 := Date_parse (date ++ "T00:00:00Z") in
  map (fun k => _ymd (setUTCDate d0 (option_map (fun g => g + k)%Z (getUTCDate d0))))
      day_offsets.

(** [{ tMean, pSum }] of one composite date. *)
Definition aggregate (T P : gmap string R) (date : string) : WeatherAggregate :=
  let keys := window_keys date in
  let tList := non_null (map (get T) keys) in
  let pList := non_null (map (get P) keys) in
  {| tMean := mean_or None Some tList;
     pSum := match pList with [] => None | _ => Some (sum pList) end |}.

(** [wx[k] = v]: the entry is replaced where the key exists and added at the
    end where it does not (the keys are dates: none is an array index, which
    [Object.keys] would list first). *)
Fixpoint wx_set (wx : wxmap) (k : string) (v : WeatherAggregate) : wxmap :=
  match wx with
  | [] => [(k, v)]
  | (k', v') :: rest =>
      if String.eqb k' k then (k', v) :: rest else (k', v') :: wx_set rest k v
  end.

(** [_fetchWeatherByDate(viSeries, lat, lng)]; [fetch start end] is the reply
    to the request for the days [start] to [end] at the point (or the
    exception of [fetch] or of [r.json()]). *)
Definition _fetchWeatherByDate (fetch : string -> string -> result PowerReply)
    (viSeries : list Observation) : result wxmap :=
  match viSeries with
  | [] => Ok []
  | first :: _ =>
      let start := remove_dashes (date first) in
      let end' := remove_dashes (date (List.last viSeries first)) in
      let! r := fetch start end' in
      if negb (reply_ok r)
      then Throw (Error ("POWER error " ++ Number_toString (reply_status r)))
      else
        let T := default ∅ (T2M r) in
        let P := default ∅ (PRECTOTCORR r) in
        Ok (fold_left (fun wx o => wx_set wx (date o) (aggregate T P (date o)))
                      viSeries [])
  end.

(** An entry of [datesJson.dates]: a string, or an object that may hold
    [modis_date]. *)
Inductive DateEntry : Type :=
| EntryString (s : string)
| EntryObject (modis_date : option string).

(** [d?.modis_date || d] when it is a string; [None] when it is the object
    [d] itself (no [modis_date], or an empty one). *)
Definition entry_md (d : DateEntry) : option string :=
  match d with
  | EntryString s => Some s
  | EntryObject (Some s) => if String.eqb s "" then None else Some s
  | EntryObject None => None
  end.

(** A band of a subset reply, [{ band, data }]: [data] is an array of
    numbers or a single one, [null] allowed. *)
Inductive BandData : Type :=
| DataArray (l : list (option R))
| DataValue (v : option R).

Record Band := { band : option string; data : BandData }.

(** [bands.find(b => (b.band || '').toLowerCase().includes(viType))], then
    [raw] and [val]. *)
Definition vi_value (bands : list Band) (viType : string) : option R :=
  let mtch := find (fun b => includes (toLowerCase (default ""%string (band b))) viType)
                   bands in
  let raw := match mtch with
             | Some b => match data b with
                         | DataArray l => mjoin (head l)
                         | DataValue v => v
                         end
             | None => None
             end in
  match raw with
  | None => None
  | Some raw => if Rle_dec raw (-9000) then None else Some (raw * 0.0001)
  end.

(** The body of the loop for one entry: the observation pushed, if any.  An
    exception of [fetchSubset] (or of [_toISO]) is caught and the entry
    skipped; an [md] that is no string matches none of the patterns of
    [_toISO]. *)
Definition vi_entry (fetchSubset : string -> result (option (list Band)))
    (has_Utils : bool) (viType : string) (d : DateEntry) : option Observation :=
  match entry_md d with
  | None => None
  | Some md =>
      match fetchSubset md with
      | Throw _ => None
      | Ok subset =>
          let bands := default [] subset in
          let val := vi_value bands viType in
          match _toISO has_Utils md with
          | Throw _ => None
          | Ok iso =>
              match val, iso with
              | Some v, Some iso =>
                  if String.eqb iso "" then None
                  else Some {| date := iso; value := Some v |}
              | _, _ => None
              end
          end
      end
  end.

(** The start given to [slice]: [-Math.ceil((365/16)*years)] as an integer
    position (NaN counts as 0, an infinite one as beyond the array). *)
Definition history_start (years : jsnum) (len : nat) : Z :=
  match years with
  | NaN => 0
  | PosInf => - Z.of_nat len
  | NegInf => Z.of_nat len
  | Num y => - Math_ceil (365 / 16 * y)
  end.

(** [_fetchVISeries(product, viType, lat, lng, years)].  [fetchDates] is the
    reply of [VegetationManager.fetchDates] at the point (its [dates], [None]
    when missing) and [fetchSubset md] that of [fetchSubset] for the date
    [md].  [sort] is [series.sort((a,b)=> (a.date < b.date ? -1 : 1))]: the
    comparator never answers 0, so ECMA-262 leaves the order to the engine;
    it is a parameter. *)
Definition _fetchVISeries (sort : list Observation -> list Observation)
    (fetchDates : result (option (list DateEntry)))
    (fetchSubset : string -> result (option (list Band)))
    (has_Utils : bool) (viType : string) (years : jsnum)
  : result (list Observation) :=
  let! datesJson := fetchDates in
  let dates := default [] datesJson in
  let entries := js_slice_from dates (history_start years (length dates)) in
  let series := non_null (map (vi_entry fetchSubset has_Utils viType) entries) in
  Ok (sort series).

(** *** run *)

(** The texts written to [#fc-stats]. *)
Inductive status : Type :=
| FetchingHistory          (* 'Fetching history…' *)
| NoHistory                (* 'No VI history for this point.' *)
| FetchingWeather          (* 'Fetching weather…' *)
| BuildingDataset          (* 'Building dataset…' *)
| InsufficientSamples      (* 'Insufficient samples for training.' *)
| TrainingTF               (* 'Training TF.js model…' *)
| TrainingLinear           (* 'Training linear baseline…' *)
| Forecasting              (* 'Forecasting 30 days…' *)
| Done (samples : nat) (rmse : R)   (* `Done. Samples: …, RMSE (train): …` *)
| Failed (e : jserror).    (* `Failed: ${e.message}` *)

(** What [run] reads: the input fields (their [value], [None] when the
    element is missing), the globals and the two fetches.  [has_managers]
    is [global.MapManager && global.VegetationManager], [tf] is [global.tf],
    [fc_chart] says whether the element [#fc-chart] exists, and [Plotly] is
    [global.Plotly]: what [Plotly.newPlot] does with the two series, an
    exception included. *)
Record Env := {
  fc_years : option string;
  fc_epochs : option string;
  fc_lr : option string;
  has_managers : bool;
  tf : option TfBackend;
  fetchVISeries : jsnum -> result (list Observation);
  fetchWeatherByDate : list Observation -> result wxmap;
  fc_chart : bool;
  Plotly : option (list Observation -> list ForecastPoint -> result unit)
}.

(** What [run] leaves on the page: the successive texts of [#fc-stats], what
    [_plot] drew (history and forecast), whether [alert] was called. *)
Record Page := {
  stats : list status;
  chart : option (list Observation * list ForecastPoint);
  alerted : bool
}.

(** [el?.value || dflt]: the empty string is falsy. *)
Definition value_or (v : option string) (dflt : string) : string :=
  match v with
  | Some s => if String.eqb s "" then dflt else s
  | None => dflt
  end.

(** [years], [epochs] and [lr] as [run] reads them from the page. *)
Definition run_years (env : Env) : jsnum :=
  Math_max (Num 1) (Math_min (Num 8) (Parse.parseInt (value_or (fc_years env) "3"))).
Definition run_epochs (env : Env) : jsnum :=
  Math_max (Num 20) (Math_min (Num 1000) (Parse.parseInt (value_or (fc_epochs env) "120"))).
Definition run_lr (env : Env) : jsnum :=
  Math_max (Num 0.001) (Math_min (Num 0.1) (Parse.parseFloat (value_or (fc_lr env) "0.01"))).

(** A page where only texts were shown. *)
Definition shown (texts : list status) : Page :=
  {| stats := texts; chart := None; alerted := false |}.

(** [_plot(hist, fc, label)]: the two series drawn, [None] when [#fc-chart]
    is missing ([if (!el) return]).  Without Plotly they are written as text
    into the element; with it [Plotly.newPlot] draws them, or throws. *)
Definition _plot (env : Env) (hist : list Observation) (fc : list ForecastPoint)
  : result (option (list Observation * list ForecastPoint)) :=
  if negb (fc_chart env) then Ok None
  else
    match Plotly env with
    | None => Ok (Some (hist, fc))
    | Some newPlot => let! _ := newPlot hist fc in Ok (Some (hist, fc))
    end.

(** [run()]: every exception of the [try] block ends in [Failed]. *)
Definition run (env : Env) : Page :=
  let years := run_years env in
  let epochs := run_epochs env in
  let lr := run_lr env in
  if negb (has_managers env) then {| stats := []; chart := None; alerted := true |}
  else
    let log := [FetchingHistory] in
    match fetchVISeries env years with
    | Throw e => shown (log ++ [Failed e])
    | Ok viSeries =>
        if Nat.eqb (length viSeries) 0 then shown (log ++ [NoHistory])
        else
          let log := log ++ [FetchingWeather] in
          match fetchWeatherByDate env viSeries with
          | Throw e => shown (log ++ [Failed e])
          | Ok wxByDate =>
              let log := log ++ [BuildingDataset] in
              let ds := _buildDataset viSeries wxByDate in
              if (length (x ds) <? 24)%nat then shown (log ++ [InsufficientSamples])
              else
                let log := log ++ [match tf env with
                                   | Some _ => TrainingTF
                                   | None => TrainingLinear
                                   end] in
                match _trainModel (tf env) ds {| epochs := epochs; lr := lr |} with
                | Throw e => shown (log ++ [Failed e])
                | Ok model =>
                    let log := log ++ [Forecasting] in
                    match _forecastNext30Days viSeries wxByDate model with
                    | Throw e => shown (log ++ [Failed e])
                    | Ok fc =>
                        match _plot env viSeries fc with
                        | Throw e => shown (log ++ [Failed e])
                        | Ok drawn =>
                            {| stats := log ++ [Done (length (x ds)) (rmse model)];
                               chart := drawn;
                               alerted := false |}
                        end
                    end
                end
          end
    end.

End ForecastManager.

(** ** [_forecastNext30Days] on the numbers of JS (src/forecast.js)

    [model.infer] is any function from numbers to a number, and NaN is a
    number: a model whose weights are NaN returns it.  This module reads
    the function again with values that can be NaN; on models that return
    real numbers it agrees with the one above. *)
Module NaNForecast.
Import JSDate ForecastManager.
Local Open Scope R_scope.

(** [a + b] *)
Definition add (a b : jsnum) : jsnum :=
  match a, b with
  | NaN, _ | _, NaN => NaN
  | PosInf, NegInf | NegInf, PosInf => NaN
  | PosInf, _ | _, PosInf => PosInf
  | NegInf, _ | _, NegInf => NegInf
  | Num x, Num y => Num (x + y)
  end.

(** [a / n] for a length [n >= 1]. *)
Definition div_length (a : jsnum) (n : nat) : jsnum :=
  match a with
  | Num x => Num (x / INR n)
  | _ => a
  end.

(** [{ date, value }]: [value] is a number, NaN included, or [null]. *)
Record Point := { date : string; value : option jsnum }.

(** An observation of the history, whose value is a real number or [null]. *)
Definition of_observation (o : Observation) : Point :=
  {| date := ForecastManager.date o; value := option_map Num (ForecastManager.value o) |}.

(** [Math.max(-0.1, Math.min(1.0, vhat))] *)
Definition clip (vhat : jsnum) : jsnum := Math_max (Num (-0.1)) (Math_min (Num 1.0) vhat).

(** [Math.sin(2*Math.PI*this._doy(iso)/365)], and the same with [Math.cos]. *)
Definition seasonal (f : R -> R) (iso : string) : jsnum :=
  match _doy iso with
  | Some n => Num (f (2 * PI * IZR n / 365))
  | None => NaN
  end.

(** [arr.length ? (arr.reduce((a,b)=>a+b,0)/arr.length) : null] *)
Definition mean_or_null (arr : list jsnum) : option jsnum :=
  match arr with
  | [] => None
  | _ => Some (div_length (fold_left add arr (Num 0)) (length arr))
  end.

(** One turn of the loop on the rolling history [hist] at date [iso]: the
    value of the point pushed. *)
Definition forecast_value (infer : list jsnum -> jsnum) (tConst pConst : R)
    (hist : list Point) (iso : string) : option jsnum :=
  let len := Z.of_nat (length hist) in
  let lag1 := js_index hist (len - 1) ≫= value in
  let lag2 := js_index hist (len - 2) ≫= value in
  let r3 := mean_or_null (non_null (map value (js_slice_from hist (-3)))) in
  match lag1, lag2, r3 with
  | Some lag1, Some lag2, Some r3 =>
      let f := [lag1; lag2; r3; seasonal sin iso; seasonal cos iso;
                Num tConst; Num pConst] in
      let vhat := infer f in
      Some (clip vhat)
  | _, _, _ => None
  end.

Abbreviation forecast_state := (Date * list Point * list Point)%type.

Definition forecast_step (infer : list jsnum -> jsnum) (tConst pConst : R)
    (st : forecast_state) : result forecast_state :=
  let '(d, hist, out) := st in
  let d := next_day d in
  let! iso := iso_of d in
  match forecast_value infer tConst pConst hist iso with
  | None => Ok (d, hist, out ++ [{| date := iso; value := None |}])
  | Some clipped =>
      Ok (d, hist ++ [{| date := iso; value := Some clipped |}],
             out ++ [{| date := iso; value := Some clipped |}])
  end.

Fixpoint forecast_loop (infer : list jsnum -> jsnum) (tConst pConst : R) (turns : nat)
    (st : forecast_state) : result forecast_state :=
  match turns with
  | O => Ok st
  | S k =>
      let! st := forecast_step infer tConst pConst st in
      forecast_loop infer tConst pConst k st
  end.

(** [_forecastNext30Days(viSeries, wxByDate, model)], [infer] being
    [model.infer]. *)
Definition _forecastNext30Days (viSeries : list Point) (wxByDate : wxmap)
    (infer : list jsnum -> jsnum) : result (list Point) :=
  let '(tConst, pConst) := weather_proxies wxByDate in
  let hist := js_slice_from viSeries 0 in
  match js_index hist (Z.of_nat (length hist) - 1) with
  | None => Throw TypeError
  | Some last =>
      let d := Date_parse (date last ++ "T00:00:00Z") in
      let! st := forecast_loop infer tConst pConst 30 (d, hist, []) in
      Ok (snd st)
  end.

End NaNForecast.

(** ** The column statistics of [_trainModel] in binary64 (src/forecast.js)

    The numbers of JS are binary64 floating-point numbers.  Sums and means
    are rounded, so the deviation of a constant column need not be 0; this
    module reads lines 195-196 of [_trainModel] on them. *)
Module Binary64.
Import PrimFloat.
Local Open Scope float_scope.

(** [col.length] as a number. *)
Definition of_length {A} (l : list A) : float :=
  PrimFloat.of_uint63 (Uint63.of_Z (Z.of_nat (length l))).

(** [Math.max(a, b)] *)
Definition Math_max (a b : float) : float :=
  if PrimFloat.is_nan a || PrimFloat.is_nan b then PrimFloat.nan
  else if PrimFloat.ltb a b then b else a.

(** [s || 1]: 0, -0 and NaN are falsy. *)
Definition or_1 (s : float) : float :=
  if PrimFloat.eqb s 0 || PrimFloat.is_nan s then 1 else s.

(** [col.reduce((a,b)=>a+b,0)/col.length] *)
Definition column_mean (col : list float) : float :=
  fold_left (fun a b => a + b) col 0 / of_length col.

(** [col.reduce((a,b)=>a+(b-m)*(b-m),0)], the sum of the squared deviations. *)
Definition squared_deviations (col : list float) (m : float) : float :=
  fold_left (fun a b => a + (b - m) * (b - m)) col 0.

(** [Math.sqrt(col.reduce((a,b)=>a+(b-m)*(b-m),0)/Math.max(1,(col.length-1))) || 1] *)
Definition column_sd (col : list float) : float :=
  let m := column_mean col in
  or_1 (PrimFloat.sqrt (squared_deviations col m / Math_max 1 (of_length col - 1))).

(** [(v-mu[j])/sig[j]] *)
Definition standardize (v m s : float) : float := (v - m) / s.

End Binary64.

(** ** PhotoManager (src/app.js) *)
Module PhotoManager.
Import Utils.
Local Open Scope R_scope.

(** [parseInt(el?.value)]: [undefined] reads as the text [undefined]. *)
Definition parseInt_value (v : option string) : jsnum :=
  match v with
  | Some s => Parse.parseInt s
  | None => NaN
  end.

(** [n || d]: NaN and 0 are falsy. *)
Definition or_number (n : jsnum) (d : R) : jsnum :=
  match n with
  | NaN => Num d
  | Num x => if Req_dec_T x 0 then Num d else n
  | _ => n
  end.

(** [maxPages] and [radiusKm] of [loadPhotosAroundPoint]. *)
Definition maxPages (v : option string) : jsnum :=
  clamp (or_number (parseInt_value v) 5) (Num 1) (Num 20).

Definition radiusKm (v : option string) : jsnum :=
  clamp (or_number (parseInt_value v) 25) (Num 1) (Num 200).
End PhotoManager.

(** ** HeatmapHelper (src/app.js) *)
Module HeatmapHelper.
Import Utils.
Local Open Scope R_scope.

(** [norm], [normT] and [normP] of [buildPointsAroundSelection]. *)
Definition norm (v : option R) : jsnum :=
  match v with None => Num 0 | Some v => clamp (Num ((v + 0.1) / 0.7)) (Num 0) (Num 1) end.

Definition normT (v : option R) : jsnum :=
  match v with None => Num 0 | Some v => clamp (Num ((v + 10) / 45)) (Num 0) (Num 1) end.

Definition normP (v : option R) : jsnum :=
  match v with None => Num 0 | Some v => clamp (Num (v / 200)) (Num 0) (Num 1) end.
End HeatmapHelper.

(** ** PhenologyManager and DataHub (src/app.js) *)
Module PhenologyManager.
Import JSDate.
Local Open Scope R_scope.

(** [{ doy, days, gdd }] *)
Record Estimate := { doy : option Z; days : option Z; gdd : R }.

(** The loop of [estimateGDD] from index [i] on, with the accumulation so
    far. *)
Fixpoint estimateGDD_from (tempDaily : list (option R)) (i : Z)
    (base threshold accumulation : R) : Estimate :=
  match tempDaily with
  | [] => {| doy := None; days := None; gdd := accumulation |}
  | None :: rest => estimateGDD_from rest (i + 1) base threshold accumulation
  | Some temp :: rest =>
      let accumulation := accumulation + Rmax 0 (temp - base) in
      if Rge_dec accumulation threshold
      then {| doy := Some (i + 1)%Z; days := Some (i + 1)%Z; gdd := accumulation |}
      else estimateGDD_from rest (i + 1) base threshold accumulation
  end.

(** [estimateGDD(tempDaily, base, threshold)], for numbers [base] and
    [threshold] (the caller has tested them with [Number.isFinite]). *)
Definition estimateGDD (tempDaily : list (option R)) (base threshold : R) : Estimate :=
  estimateGDD_from tempDaily 0 base threshold 0.

(** What [calculateFlowerPredictions] writes in the cell of a flower: the
    date, or [None] for 'Not Reached'.  [if (result.doy)]: 0 is falsy. *)
Definition prediction (year : Z) (tempDaily : list (option R)) (base threshold : R)
  : result (option string) :=
  match doy (estimateGDD tempDaily base threshold) with
  | Some d => if (d =? 0)%Z then Ok None
              else let! s := Utils.doyToDate year d in Ok (Some s)
  | None => Ok None
  end.
End PhenologyManager.

Module DataHub.
Import JSDate.
Local Open Scope R_scope.

(** [{ doy, date, gdd }] *)
Record Estimate := { doy : option Z; date : option string; gdd : R }.

(** [estimate(base, thr)] of [_buildPhenology], from index [i] on. *)
Fixpoint estimate_from (year : Z) (temps : list (option R)) (i : Z)
    (base thr acc : R) : result Estimate :=
  match temps with
  | [] => Ok {| doy := None; date := None; gdd := acc |}
  | None :: rest => estimate_from year rest (i + 1) base thr acc
  | Some t :: rest =>
      let acc := acc + Rmax 0 (t - base) in
      if Rge_dec acc thr
      then let! s := Utils.doyToDate year (i + 1) in
           Ok {| doy := Some (i + 1)%Z; date := Some s; gdd := acc |}
      else estimate_from year rest (i + 1) base thr acc
  end.

Definition estimate (year : Z) (temps : list (option R)) (base thr : R) : result Estimate :=
  estimate_from year temps 0 base thr 0.
End DataHub.

(** ** VegetationManager (src/app.js) *)
Module VegetationManager.
Import JSString.
Local Open Scope R_scope.

(** [scaleValue(bandName, raw)], [raw] a number or [null]. *)
Definition scaleValue (bandName : option string) (raw : option R) : option R :=
  match raw with
  | None => None
  | Some n =>
      if Rle_dec n (-9000) then None
      else
        let b := toLowerCase (default ""%string bandName) in
        if includes b "reflectance" then Some (n * 0.0001)
        else if includes b "ndvi" || includes b "evi" then Some (n * 0.0001)
        else if includes b "zenith" || includes b "azimuth" then Some (n * 0.01)
        else Some n
  end.
End VegetationManager.

(** ** vegetation-adapter.js *)
Module VegetationAdapter.
Import JSDate ForecastManager.

(** [modisToISO(md)] *)
Definition modisToISO (md : string) : result string :=
  match list_ascii_of_string md with
  | [a; b; c; d; h; e; f; g] =>
      if forallb is_digit [a; b; c; d; e; f; g] && Ascii.eqb h "-" then
        let y := digits_Z [a; b; c; d] in
        let doy := digits_Z [e; f; g] in
        let d := Date_UTC y 0 1 in
        let d := setUTCDate d (option_map (fun g => g + (doy - 1))%Z (getUTCDate d)) in
        let! s := toISOString d in
        Ok (slice_0_10 s)
      else Ok md
  | _ => Ok md
  end.
End VegetationAdapter.

(** ** ForecastManager, the copy in src/app.js *)
Module AppForecastManager.
Import JSDate ForecastManager.
Local Open Scope R_scope.

(** [_toISO(modisDate)] *)
Definition _toISO (modisDate : string) : result (option string) :=
  match list_ascii_of_string modisDate with
  | [a; b; c; d; h; e; f; g] =>
      if forallb is_digit [a; b; c; d; e; f; g] && Ascii.eqb h "-" then
        let y := digits_Z [a; b; c; d] in
        let doy := digits_Z [e; f; g] in
        let d := Date_UTC y 0 1 in
        let d := setUTCDate d (option_map (fun g => g + (doy - 1))%Z (getUTCDate d)) in
        let! s := toISOString d in
        Ok (Some (slice_0_10 s))
      else Ok None
  | [a; b; c; d; h1; e; f; h2; g; h] =>
      if forallb is_digit [a; b; c; d; e; f; g; h]
         && Ascii.eqb h1 "-" && Ascii.eqb h2 "-"
      then Ok (Some modisDate) else Ok None
  | _ => Ok None
  end.

(** One turn of [_invSym]: the threshold is [1e-10] and the message
    'Singular'. *)
Definition gauss_jordan_step (n : nat) (st : matrix * matrix) (i : nat)
  : result (matrix * matrix) :=
  let '(A, I') := st in
  let p := find_pivot A i n in
  if Rlt_dec (Rabs (entry A p i)) 1e-10 then Throw (Error "Singular")
  else
    let A := swap_rows A i p in
    let I' := swap_rows I' i p in
    let inv := 1 / entry A i i in
    let A := scale_row n i inv A in
    let I' := scale_row n i inv I' in
    Ok (eliminate n i A A, eliminate n i A I').

Definition _invSym (M : matrix) : result matrix :=
  let n := length M in
  let A := map (fun r => r) M in
  let I' := identity n in
  let! st := fold_left (fun acc i => let! st := acc in gauss_jordan_step n st i)
                       (seq 0 n) (Ok (A, I')) in
  Ok (snd st).

(** [tConst] and [pConst] of [_forecastNext30Days]: the precipitation
    constant is the sum. *)
Definition weather_proxies (wxByDate : wxmap) : R * R :=
  let keys := Object_keys wxByDate in
  let last30 := js_slice_from keys (- Z.min 30 (Z.of_nat (length keys))) in
  let tArr := non_null (map (fun d => wx_get wxByDate d ≫= tMean) last30) in
  let pArr := non_null (map (fun d => wx_get wxByDate d ≫= pSum) last30) in
  (mean_or 10 (fun m => m) tArr,
   match pArr with [] => 10 | _ => sum pArr end).
End AppForecastManager.

(** ** The specification's formulations

    Definitions that follow the words of the specification, to compare
    with the ones taken from the source. *)

Module SpecWords.
Import JSDate ForecastManager.
Local Open Scope R_scope.

(** The ordinal of day [n] in its year: 1 for 1 January. *)
Definition day_of_year (n : Z) : Z := (n - DayFromYear (YearFromDay n) + 1)%Z.

(** An observation dated on day [n], a calendar date from year 100 on
    (below 100 [Date.UTC] reads the year as 19xx). *)
Definition dated (o : Observation) (n : Z) : Prop :=
  iso_date (date o) n /\ (100 <= YearFromDay n)%Z.

(** "the up-to-3 most recent non-absent values ending at [i] inclusive":
    the values present at positions [max(0,i-2) .. i]. *)
Definition recent3 (viSeries : list Observation) (i : nat) : list R :=
  non_null (map value (skipn (i - 2) (firstn (S i) viSeries))).

(** Section 4.3: the sample at index [i], [days] giving the day of each
    observation; absent as soon as one required field is. *)
Definition spec_sample (viSeries : list Observation) (wxByDate : wxmap)
    (days : list Z) (i : nat) : option (list R * R) :=
  o ← viSeries !! i;
  target ← value o;
  lag1 ← (viSeries !! (i - 1)%nat) ≫= value;
  lag2 ← (viSeries !! (i - 2)%nat) ≫= value;
  r ← mean_or None Some (recent3 viSeries i);
  n ← days !! i;
  w ← wx_get wxByDate (date o);
  t ← tMean w;
  p ← pSum w;
  Some ([lag1; lag2; r;
         sin (2 * PI * IZR (day_of_year n) / 365);
         cos (2 * PI * IZR (day_of_year n) / 365);
         t; p], target).

(** The texts [run] shows up to the sample count test. *)
Definition before_training : list status :=
  [FetchingHistory; FetchingWeather; BuildingDataset].

(** The forecast points that carry a value. *)
Definition present (points : list ForecastPoint) : list ForecastPoint :=
  List.filter (fun p => match value p with Some _ => true | None => false end) points.

(** Section 4.5: "mean temperature and summed precipitation over the most
    recent min(30, available) dates in the weather mapping (default to 10 /
    10 if no weather data exists at all)". *)
Definition spec_proxies (wxByDate : wxmap) : R * R :=
  let recent := skipn (length wxByDate - 30) wxByDate in
  let ts := non_null (map (fun kv => tMean (snd kv)) recent) in
  let ps := non_null (map (fun kv => pSum (snd kv)) recent) in
  (mean_or 10 (fun m => m) ts,
   match ps with [] => 10 | _ => sum ps end).

(** What forecast.js computes: the mean of both. *)
Definition mean_proxies (wxByDate : wxmap) : R * R :=
  let recent := skipn (length wxByDate - 30) wxByDate in
  let ts := non_null (map (fun kv => tMean (snd kv)) recent) in
  let ps := non_null (map (fun kv => pSum (snd kv)) recent) in
  (mean_or 10 (fun m => m) ts, mean_or 10 (fun m => m) ps).

(** [sum_below n f] is f(0) + ... + f(n-1). *)
Fixpoint sum_below (n : nat) (f : nat -> R) : R :=
  match n with
  | O => 0
  | S k => sum_below k f + f k
  end.

(** Entry of the identity matrix. *)
Definition delta (r c : nat) : R := if Nat.eqb r c then 1 else 0.

(** An [n] by [n] matrix: [n] rows of [n] entries. *)
Definition square (n : nat) (A : matrix) : Prop :=
  length A = n /\ forall r, (r < n)%nat -> length (nth r A []) = n.

(** Entry of the product of two [n] by [n] matrices, and of a matrix by a
    vector. *)
Definition product_entry (n : nat) (A B : matrix) (r c : nat) : R :=
  sum_below n (fun k => entry A r k * entry B k c).

Definition apply_entry (n : nat) (A : matrix) (v : list R) (r : nat) : R :=
  sum_below n (fun k => entry A r k * nth k v 0).

(** [m] rows of [n] entries. *)
Definition rows_cols (m n : nat) (A : matrix) : Prop :=
  length A = m /\ forall r, (r < m)%nat -> length (nth r A []) = n.

(** [A] is the product of [J] and [M]. *)
Definition linked (n : nat) (M A J : matrix) : Prop :=
  forall r c, (r < n)%nat -> (c < n)%nat -> entry A r c = product_entry n J M r c.

(** The state before turn [i]: both matrices are square, [A] is [J] times
    [M], and the first [i] columns of [A] are those of the identity. *)
Definition elimination_state (n : nat) (M : matrix) (i : nat)
    (st : matrix * matrix) : Prop :=
  square n (fst st) /\ square n (snd st)
  /\ linked n M (fst st) (snd st)
  /\ forall r c, (r < n)%nat -> (c < i)%nat -> entry (fst st) r c = delta r c.

(** The sample standard deviation (denominator [n - 1]), 1 where it is 0. *)
Definition sample_sd (col : list R) : R :=
  sqrt_or_1 (sum (map (fun b => (b - column_mean col) * (b - column_mean col)) col)
             / (INR (length col) - 1)).

(** The dataset made of the samples that are present, in order. *)
Definition samples_of (l : list (option (list R * R))) : Dataset :=
  {| x := map fst (non_null l); y := map snd (non_null l) |}.

End SpecWords.

(** ** Notions used by the statements on the rest of the code *)

Module Notions.
Import JSDate ForecastManager.

(** The last two observations of a history carry a value. *)
Definition lags_present (hist : list Observation) : bool :=
  let len := Z.of_nat (length hist) in
  match js_index hist (len - 1) ≫= value, js_index hist (len - 2) ≫= value with
  | Some _, Some _ => true
  | _, _ => false
  end.

Section Reals.
Local Open Scope R_scope.

(** The degree days above [base] of the days that have a temperature. *)
Definition degree_days (base : R) (temps : list (option R)) : R :=
  sum (map (fun t => Rmax 0 (t - base)) (non_null temps)).

(** The coefficients of the target among the seven features. *)
Definition target_coefficient (j : nat) : R :=
  match j with
  | 0%nat | 1%nat => -1
  | 2%nat => 3
  | _ => 0
  end.
End Reals.

Section Integers.
Local Open Scope Z_scope.

(** The dates of a year taken every [step] days from 1 January, then
    31 December when the steps do not end on it. *)
Definition stepped_dates (year step : Z) : list string :=
  let first := DayFromYear year in
  let len := DaysInYear year in
  map (fun i => iso_of_day (first + Z.of_nat i * step))
      (seq 0 (Z.to_nat ((len - 1) / step + 1)))
  ++ (if (len - 1) mod step =? 0 then [] else [iso_of_day (first + len - 1)]).
End Integers.

End Notions.

(** ** Notions used by the statements on NaN in the forecast *)

Module NaNNotions.
Import JSDate ForecastManager.

(** The points that carry a value, NaN included. *)
Definition valued (points : list NaNForecast.Point) : list NaNForecast.Point :=
  List.filter (fun p => match NaNForecast.value p with Some _ => true | None => false end)
              points.

(** The last two points of a history carry a value, NaN included. *)
Definition lags_valued (hist : list NaNForecast.Point) : bool :=
  let len := Z.of_nat (length hist) in
  match js_index hist (len - 1) ≫= NaNForecast.value,
        js_index hist (len - 2) ≫= NaNForecast.value with
  | Some _, Some _ => true
  | _, _ => false
  end.

(** [infer] on real numbers is the function [g]. *)
Definition returns_reals (infer : list jsnum -> jsnum) (g : list R -> R) : Prop :=
  forall f, infer (map Num f) = Num (g f).
End NaNNotions.

(** ** A turn of the elimination, entry by entry *)

Module TurnWords.
Import ForecastManager.
Local Open Scope R_scope.

(** Gauss-Jordan elimination, one turn in words: with pivot row [p] for
    column [i] of [A], rows [i] and [p] change places, the new row [i] is
    divided by the pivot, and that row times the entry of column [i] is
    taken from every other row.  [turn_entry A B i p r c] is the entry
    [(r, c)] this leaves in a matrix [B] that undergoes the row operations
    decided on [A] ([B] is [A] itself, or the matrix that becomes the
    inverse). *)
Definition turn_entry (A B : matrix) (i p r c : nat) : R :=
  let k := 1 / entry A p i in
  let s := if Nat.eqb r i then p else if Nat.eqb r p then i else r in
  if Nat.eqb r i then entry B p c * k
  else entry B s c - entry A s i * (entry B p c * k).
End TurnWords.

(** ** Concrete inputs *)

Module Examples.
Import JSDate ForecastManager.
Local Open Scope R_scope.

(** A page whose three fields hold the given texts. *)
Definition form (years epochs lr : string) : Env :=
  {| fc_years := Some years; fc_epochs := Some epochs; fc_lr := Some lr;
     has_managers := true; tf := None;
     fetchVISeries := fun _ => Ok [];
     fetchWeatherByDate := fun _ => Ok [];
     fc_chart := true; Plotly := None |}.

(** [k] composites, one every 16 days from 2020-01-01 (day 18262). *)
Definition composite_days (k : nat) : list Z :=
  map (fun i => 18262 + 16 * Z.of_nat i)%Z (seq 0 k).

Definition series (k : nat) : list Observation :=
  map (fun n => {| date := iso_of_day n; value := Some 0.5 |}) (composite_days k).

Definition weather (k : nat) : wxmap :=
  map (fun n => (iso_of_day n, {| tMean := Some 20; pSum := Some 30 |}))
      (composite_days k).

(** A page where the fetches deliver [k] composites and their weather, and
    tf.js is not loaded. *)
Definition station (k : nat) : Env :=
  {| fc_years := Some "3"%string; fc_epochs := Some "120"%string;
     fc_lr := Some "0.01"%string;
     has_managers := true; tf := None;
     fetchVISeries := fun _ => Ok (series k);
     fetchWeatherByDate := fun _ => Ok (weather k);
     fc_chart := true; Plotly := None |}.

(** Three composites with distinct values. *)
Definition three : list Observation :=
  [ {| date := "2020-01-01"; value := Some 0.3 |};
    {| date := "2020-01-17"; value := Some 0.4 |};
    {| date := "2020-02-02"; value := Some 0.5 |} ].

(** Three samples with one feature, on a line. *)
Definition three_points : Dataset := {| x := [[0]; [1]; [2]]; y := [0; 1; 2] |}.

(** Two weather aggregates. *)
Definition two_aggregates : wxmap :=
  [ ("2020-01-17"%string, {| tMean := Some 10; pSum := Some 2 |});
    ("2020-02-02"%string, {| tMean := Some 10; pSum := Some 4 |}) ].

(** An insertion sort by date, one of the orders an engine may give. *)
Fixpoint insert_by_date (o : Observation) (l : list Observation) : list Observation :=
  match l with
  | [] => [o]
  | p :: r => if String.ltb (date o) (date p) then o :: l else p :: insert_by_date o r
  end.

Definition sort_by_date (l : list Observation) : list Observation :=
  fold_right insert_by_date [] l.

(** POWER's reply with two days of data, one of them a fill value. *)
Definition power_T : gmap string R :=
  {[ "20200101"%string := 20; "20200102"%string := -999 ]}.

Definition power_P : gmap string R := {[ "20200101"%string := 3 ]}.

Definition power_reply : PowerReply :=
  {| reply_ok := true; reply_status := 200;
     T2M := Some power_T; PRECTOTCORR := Some power_P |}.

(** The dates and subsets of two composites, the second one a fill value. *)
Definition two_dates : list DateEntry :=
  [ EntryObject (Some "2020-017"%string); EntryString "2020-01-01" ].

Definition subset_of (md : string) : result (option (list Band)) :=
  if String.eqb md "2020-017"
  then Ok (Some [ {| band := Some "250m_16_days_NDVI"%string; data := DataArray [Some 4321] |} ])
  else Ok (Some [ {| band := Some "250m_16_days_NDVI"%string; data := DataArray [Some 8765] |} ]).

(** A model whose [infer] is the function learnt from a leaking dataset. *)
Definition leaking_model : Model :=
  {| type := lin_model;
     infer := fun f => 3 * nth 2 f 0 - nth 0 f 0 - nth 1 f 0;
     rmse := 0 |}.
End Examples.

(** * Facts about the Date built-in *)

Module JSDateFacts.
Import JSDate.
Local Open Scope Z_scope.

Lemma bind_Some {A B} (a : A) (f : A -> option B) : Some a ≫= f = f a.
Proof. reflexivity. Qed.

Lemma DayFromYear_succ y : DayFromYear (y + 1) = DayFromYear y + DaysInYear y.
Proof.
  unfold DayFromYear, DaysInYear.
  repeat match goal with
         | |- context [?a =? ?b] => destruct (Z.eqb_spec a b)
         end; cbn [negb]; Z.div_mod_to_equations; lia.
Qed.

Lemma DaysInYear_cases y : DaysInYear y = 365 \/ DaysInYear y = 366.
Proof.
  unfold DaysInYear.
  repeat match goal with
         | |- context [?a =? ?b] => destruct (Z.eqb_spec a b)
         end; cbn [negb]; auto.
Qed.

Lemma DayFromYear_lt y1 y2 : y1 < y2 -> DayFromYear y1 < DayFromYear y2.
Proof. unfold DayFromYear. intros. Z.div_mod_to_equations. lia. Qed.

Lemma DayFromYear_le y1 y2 : y1 <= y2 -> DayFromYear y1 <= DayFromYear y2.
Proof.
  intros H. destruct (Z.eq_dec y1 y2) as [->|]; [lia|].
  apply Z.lt_le_incl, DayFromYear_lt. lia.
Qed.

(** [YearFromDay n] is the year of day [n]: ECMA-262's "largest y whose
    first day is not after n". *)
Lemma YearFromDay_spec n :
  DayFromYear (YearFromDay n) <= n < DayFromYear (YearFromDay n + 1).
Proof.
  unfold YearFromDay. cbv zeta.
  repeat match goal with
         | |- context [?a <=? ?b] => destruct (Z.leb_spec a b)
         end.
  - split; [lia|]. unfold DayFromYear in *. Z.div_mod_to_equations. lia.
  - lia.
  - split.
    + unfold DayFromYear in *. Z.div_mod_to_equations. lia.
    + replace (1970 + n * 400 / 146097 - 1 + 1) with (1970 + n * 400 / 146097) by lia.
      lia.
Qed.

Lemma YearFromDay_unique n y :
  DayFromYear y <= n < DayFromYear (y + 1) -> YearFromDay n = y.
Proof.
  intros Hy. pose proof (YearFromDay_spec n) as Hs.
  destruct (Z.lt_trichotomy (YearFromDay n) y) as [Hlt|[Heq|Hgt]]; [|exact Heq|].
  - assert (DayFromYear (YearFromDay n + 1) <= DayFromYear y)
      by (apply DayFromYear_le; lia). lia.
  - assert (DayFromYear (y + 1) <= DayFromYear (YearFromDay n))
      by (apply DayFromYear_le; lia). lia.
Qed.

Lemma Day_midnight n : Day (n * msPerDay) = n.
Proof. unfold Day, msPerDay. apply Z.div_mul. lia. Qed.

Lemma TimeWithinDay_midnight n : TimeWithinDay (n * msPerDay) = 0.
Proof. unfold TimeWithinDay, msPerDay. apply Z.mod_mul. lia. Qed.

Lemma MakeDate_midnight n : MakeDate n (MakeTime 0 0 0 0) = n * msPerDay.
Proof. unfold MakeDate, MakeTime. lia. Qed.

Lemma DayWithinYear_range t :
  0 <= DayWithinYear t < DaysInYear (YearFromTime t).
Proof.
  unfold DayWithinYear, YearFromTime.
  pose proof (YearFromDay_spec (Day t)) as H.
  rewrite DayFromYear_succ in H. lia.
Qed.

Lemma InLeapYear_cases t :
  (InLeapYear t = 0 /\ DaysInYear (YearFromTime t) = 365) \/
  (InLeapYear t = 1 /\ DaysInYear (YearFromTime t) = 366).
Proof.
  unfold InLeapYear.
  destruct (DaysInYear_cases (YearFromTime t)) as [H|H]; rewrite H; cbn; auto.
Qed.

Ltac split_ltb :=
  repeat match goal with
         | |- context [?a <? ?b] => destruct (Z.ltb_spec a b)
         | |- context [?a <=? ?b] => destruct (Z.leb_spec a b)
         | |- context [?a =? ?b] => destruct (Z.eqb_spec a b)
         end.

Lemma MonthFromTime_range t : 0 <= MonthFromTime t <= 11.
Proof. unfold MonthFromTime, MonthFromDayWithinYear. split_ltb; lia. Qed.

(** The date is a day of its month. *)
Lemma DateFromTime_range t :
  1 <= DateFromTime t <= DaysInMonth (YearFromTime t) (MonthFromTime t).
Proof.
  unfold DateFromTime, MonthFromTime, DaysInMonth.
  pose proof (DayWithinYear_range t) as Hr.
  destruct (InLeapYear_cases t) as [[-> Hd]|[-> Hd]]; rewrite Hd in *;
    unfold MonthFromDayWithinYear;
    repeat match goal with
           | |- context [?a <? ?b] => destruct (Z.ltb_spec a b)
           end; cbn; lia.
Qed.

(** Year, month and date of a time value give its day back. *)
Lemma MakeDay_of_time t k :
  MakeDay (YearFromTime t) (MonthFromTime t) (DateFromTime t + k) = Day t + k.
Proof.
  pose proof (MonthFromTime_range t) as Hm.
  unfold MakeDay. cbv zeta.
  rewrite (Z.div_small (MonthFromTime t) 12), (Z.mod_small (MonthFromTime t) 12) by lia.
  rewrite Z.add_0_r.
  unfold DateFromTime, DayWithinYear, InLeapYear. lia.
Qed.

(** The first day of a year. *)
Lemma YearFromDay_first y : YearFromDay (DayFromYear y) = y.
Proof.
  apply YearFromDay_unique. rewrite DayFromYear_succ.
  destruct (DaysInYear_cases y); lia.
Qed.

Lemma first_day_time y :
  let t := DayFromYear y * msPerDay in
  YearFromTime t = y /\ MonthFromTime t = 0 /\ DateFromTime t = 1.
Proof.
  cbv zeta.
  assert (Hy : YearFromTime (DayFromYear y * msPerDay) = y).
  { unfold YearFromTime. rewrite Day_midnight. apply YearFromDay_first. }
  assert (Hd : DayWithinYear (DayFromYear y * msPerDay) = 0).
  { unfold DayWithinYear. rewrite Hy, Day_midnight. lia. }
  assert (Hm : MonthFromTime (DayFromYear y * msPerDay) = 0).
  { unfold MonthFromTime. rewrite Hd. reflexivity. }
  repeat split; [exact Hy|exact Hm|].
  unfold DateFromTime. rewrite Hm, Hd. reflexivity.
Qed.

Lemma MakeDay_january y date : MakeDay y 0 date = DayFromYear y + date - 1.
Proof.
  unfold MakeDay. cbv zeta.
  change (0 / 12) with 0. change (0 mod 12) with 0.
  replace (y + 0) with y by lia.
  unfold DaysBeforeMonth. change (0 <=? 0) with true. cbv iota. lia.
Qed.

Lemma digit_val_digit k : digit_val (digit k) = Some (k mod 10).
Proof.
  unfold digit_val, digit.
  assert (Hk : 0 <= k mod 10 < 10) by (apply Z.mod_pos_bound; lia).
  rewrite nat_ascii_embedding by lia.
  rewrite Z2Nat.id by lia.
  destruct (Z.leb_spec 48 (48 + k mod 10)); [|lia].
  destruct (Z.leb_spec (48 + k mod 10) 57); [|lia].
  cbn. f_equal. lia.
Qed.

Lemma slice_toISOString t :
  0 <= YearFromTime t <= 9999 ->
  (let! s := toISOString (Some t) in Ok (slice_0_10 s)) =
  Ok (pad4 (YearFromTime t) ++ "-" ++ pad2 (MonthFromTime t + 1) ++ "-" ++ pad2 (DateFromTime t))%string.
Proof.
  intros Hy. unfold toISOString, rbind, year_string.
  destruct (Z.leb_spec 0 (YearFromTime t)); [|lia].
  destruct (Z.leb_spec (YearFromTime t) 9999); [|lia].
  cbn [andb]. reflexivity.
Qed.

Lemma parse_date_only_pads y m d :
  0 <= y <= 9999 -> 0 <= m <= 99 -> 0 <= d <= 99 ->
  parse_date_only (pad4 y ++ "-" ++ pad2 m ++ "-" ++ pad2 d) = Some (y, m, d).
Proof.
  intros Hy Hm Hd. unfold parse_date_only, pad4, pad3, pad2.
  lazy -[digit digit_val Z.mul Z.add Z.div Z.modulo mbind].
  rewrite !digit_val_digit. cbn -[Z.mul Z.add Z.div Z.modulo].
  f_equal. f_equal; [f_equal|]; Z.div_mod_to_equations; lia.
Qed.

Lemma year_range_day n :
  0 <= YearFromDay n <= 9999 -> -719528 <= n < 2932897.
Proof.
  intros Hy. pose proof (YearFromDay_spec n) as Hs.
  assert (DayFromYear 0 <= DayFromYear (YearFromDay n)) by (apply DayFromYear_le; lia).
  assert (DayFromYear (YearFromDay n + 1) <= DayFromYear 10000) by (apply DayFromYear_le; lia).
  change (DayFromYear 0) with (-719528) in *.
  change (DayFromYear 10000) with 2932897 in *. lia.
Qed.

Lemma TimeClip_small t : Z.abs t <= 8640000000000000 -> TimeClip t = Some t.
Proof. unfold TimeClip. intros. destruct (Z.ltb_spec 8640000000000000 (Z.abs t)); [lia|reflexivity]. Qed.

Lemma YearFromTime_midnight n : YearFromTime (n * msPerDay) = YearFromDay n.
Proof. unfold YearFromTime. now rewrite Day_midnight. Qed.

(** Reading a well-formed calendar date. *)
Lemma Date_parse_pads y m d :
  0 <= y <= 9999 -> 1 <= m <= 12 -> 1 <= d <= DaysInMonth y (m - 1) -> d <= 99 ->
  Date_parse (pad4 y ++ "-" ++ pad2 m ++ "-" ++ pad2 d ++ "T00:00:00Z")
  = TimeClip (MakeDate (MakeDay y (m - 1) d) (MakeTime 0 0 0 0)).
Proof.
  intros Hy Hm Hd Hd99. unfold Date_parse.
  match goal with
  | |- context [substring 10 ?l ?s] =>
      replace (substring 10 l s) with "T00:00:00Z"%string by reflexivity
  end.
  match goal with
  | |- context [substring 0 10 ?s] =>
      replace (substring 0 10 s)
        with (pad4 y ++ "-" ++ pad2 m ++ "-" ++ pad2 d)%string by reflexivity
  end.
  change (String.eqb "T00:00:00Z" "T00:00:00Z") with true. cbv iota.
  rewrite parse_date_only_pads by lia.
  cbn [mbind option_bind].
  destruct (Z.leb_spec 1 m); [|lia].
  destruct (Z.leb_spec m 12); [|lia].
  destruct (Z.leb_spec 1 d); [|lia].
  destruct (Z.leb_spec d (DaysInMonth y (m - 1))); [|lia].
  reflexivity.
Qed.

Lemma DaysInMonth_le_31 y m : DaysInMonth y m <= 31.
Proof.
  unfold DaysInMonth.
  repeat match goal with
         | |- context [?a =? ?b] => destruct (Z.eqb_spec a b)
         end; cbn; lia.
Qed.

(** Printing a day and reading it back. *)
Lemma iso_of_day_date n :
  0 <= YearFromDay n <= 9999 -> iso_date (iso_of_day n) n.
Proof.
  intros Hy. unfold iso_date, iso_of_day.
  pose proof (MonthFromTime_range (n * msPerDay)) as HM.
  pose proof (DateFromTime_range (n * msPerDay)) as HD.
  rewrite YearFromTime_midnight in HD.
  pose proof (DaysInMonth_le_31 (YearFromDay n) (MonthFromTime (n * msPerDay))).
  pose proof (MakeDay_of_time (n * msPerDay) 0) as Hk.
  rewrite YearFromTime_midnight, Day_midnight, !Z.add_0_r in Hk.
  match goal with
  | |- Date_parse ((pad4 ?a ++ "-" ++ pad2 ?b ++ "-" ++ pad2 ?c) ++ ?z) = _ =>
      change (Date_parse (pad4 a ++ "-" ++ pad2 b ++ "-" ++ pad2 c ++ z) = Some (n * msPerDay))
  end.
  rewrite Date_parse_pads;
    replace (MonthFromTime (n * msPerDay) + 1 - 1) with (MonthFromTime (n * msPerDay))
      by lia; try lia.
  rewrite Hk, MakeDate_midnight.
  apply year_range_day in Hy.
  apply TimeClip_small. unfold msPerDay. lia.
Qed.

Lemma YearFromDay_mono n m : n <= m -> YearFromDay n <= YearFromDay m.
Proof.
  intros Hnm. pose proof (YearFromDay_spec n). pose proof (YearFromDay_spec m).
  destruct (Z.le_gt_cases (YearFromDay n) (YearFromDay m)) as [|Hgt]; [assumption|].
  assert (DayFromYear (YearFromDay m + 1) <= DayFromYear (YearFromDay n))
    by (apply DayFromYear_le; lia). lia.
Qed.

Lemma TimeClip_Some t t' : TimeClip t = Some t' -> t' = t.
Proof. unfold TimeClip. destruct (_ <? _); congruence. Qed.

Lemma digit_val_range c k : digit_val c = Some k -> 0 <= k <= 9.
Proof.
  unfold digit_val. cbv zeta.
  destruct (Z.leb_spec 48 (Z.of_nat (nat_of_ascii c)));
    destruct (Z.leb_spec (Z.of_nat (nat_of_ascii c)) 57); cbn [andb];
    try discriminate.
  intros [= <-]. lia.
Qed.

Lemma parse_date_only_range s y m d :
  parse_date_only s = Some (y, m, d) -> 0 <= y <= 9999.
Proof.
  unfold parse_date_only.
  destruct (list_ascii_of_string s) as [|a [|b [|c [|e [|h1 [|f [|g [|h2 [|i [|j [|? ?]]]]]]]]]]];
    try discriminate.
  destruct (_ && _); [|discriminate].
  destruct (digit_val a) as [ka|] eqn:Ha; [|discriminate].
  destruct (digit_val b) as [kb|] eqn:Hb; [|discriminate].
  destruct (digit_val c) as [kc|] eqn:Hc; [|discriminate].
  destruct (digit_val e) as [ke|] eqn:He; [|discriminate].
  destruct (digit_val f) as [kf|]; [|discriminate].
  destruct (digit_val g) as [kg|]; [|discriminate].
  destruct (digit_val i) as [ki|]; [|discriminate].
  destruct (digit_val j) as [kj|]; [|discriminate].
  rewrite !bind_Some. intros H. injection H as Hy _ _.
  apply digit_val_range in Ha, Hb, Hc, He. lia.
Qed.

(** A day of a month is a day of its year. *)
Lemma MakeDay_in_year y m d :
  0 <= m <= 11 -> 1 <= d <= DaysInMonth y m ->
  DayFromYear y <= MakeDay y m d < DayFromYear (y + 1).
Proof.
  intros Hm Hd. unfold MakeDay. cbv zeta.
  rewrite (Z.div_small m 12), (Z.mod_small m 12) by lia.
  replace (y + 0) with y by lia.
  rewrite DayFromYear_succ. unfold DaysInMonth in Hd.
  destruct (DaysInYear_cases y) as [E|E]; rewrite E in *;
    cbn [Z.eqb Pos.eqb] in *;
    assert (Hcases : m = 0 \/ m = 1 \/ m = 2 \/ m = 3 \/ m = 4 \/ m = 5 \/ m = 6
                     \/ m = 7 \/ m = 8 \/ m = 9 \/ m = 10 \/ m = 11) by lia;
    repeat (destruct Hcases as [->|Hcases]; [cbn in *; lia|]);
    subst m; cbn in *; lia.
Qed.

(** A calendar date string has a four-digit year. *)
Lemma iso_date_year s n : iso_date s n -> 0 <= YearFromDay n <= 9999.
Proof.
  unfold iso_date, Date_parse.
  destruct (String.eqb _ _); [|discriminate].
  destruct (parse_date_only _) as [[[y m] d]|] eqn:Hp; [|discriminate].
  rewrite bind_Some.
  destruct (Z.leb_spec 1 m); [|discriminate].
  destruct (Z.leb_spec m 12); [|discriminate].
  destruct (Z.leb_spec 1 d); [|discriminate].
  destruct (Z.leb_spec d (DaysInMonth y (m - 1))); [|discriminate].
  cbn [andb]. intros Hc. apply TimeClip_Some in Hc.
  rewrite MakeDate_midnight in Hc.
  assert (Hn : n = MakeDay y (m - 1) d).
  { unfold msPerDay in Hc. lia. }
  rewrite (YearFromDay_unique n y).
  - eapply parse_date_only_range; eauto.
  - rewrite Hn. apply MakeDay_in_year; lia.
Qed.

End JSDateFacts.

(** * Facts about the helpers of ForecastManager *)

Module HelperFacts.
Import JSDate JSDateFacts ForecastManager.
Local Open Scope Z_scope.

Lemma Date_UTC_first year :
  Date_UTC year 0 1 = TimeClip (DayFromYear (MakeFullYear year) * msPerDay).
Proof.
  unfold Date_UTC. rewrite MakeDay_january, MakeDate_midnight.
  f_equal. f_equal. lia.
Qed.

Lemma setUTCDate_first y dt :
  setUTCDate (Some (DayFromYear y * msPerDay)) (Some dt)
  = TimeClip ((DayFromYear y + dt - 1) * msPerDay).
Proof.
  unfold setUTCDate.
  destruct (first_day_time y) as (-> & -> & _).
  rewrite MakeDay_january, TimeWithinDay_midnight.
  unfold MakeDate. f_equal. lia.
Qed.

Lemma doyToDate_same year doy :
  Utils.doyToDate year doy = _doyToDate year doy.
Proof.
  unfold Utils.doyToDate, _doyToDate. cbv zeta.
  rewrite Date_UTC_first.
  destruct (TimeClip (DayFromYear (MakeFullYear year) * msPerDay)) as [t|] eqn:Ht;
    [|reflexivity].
  apply TimeClip_Some in Ht. subst t.
  unfold getUTCDate, option_map.
  destruct (first_day_time (MakeFullYear year)) as (_ & _ & ->).
  replace (1 + (doy - 1)) with doy by lia. reflexivity.
Qed.

Lemma iso_of_midnight n :
  0 <= YearFromDay n <= 9999 -> iso_of (Some (n * msPerDay)) = Ok (iso_of_day n).
Proof.
  intros Hy. unfold iso_of. rewrite slice_toISOString.
  - unfold iso_of_day. now rewrite YearFromTime_midnight.
  - now rewrite YearFromTime_midnight.
Qed.

Lemma next_day_midnight n :
  0 <= YearFromDay (n + 1) <= 9999 ->
  next_day (Some (n * msPerDay)) = Some ((n + 1) * msPerDay).
Proof.
  intros Hy. apply year_range_day in Hy.
  unfold next_day, getUTCDate, option_map, setUTCDate.
  rewrite MakeDay_of_time, Day_midnight, TimeWithinDay_midnight.
  rewrite MakeDate_midnight || unfold MakeDate.
  rewrite ?Z.add_0_r. apply TimeClip_small. unfold msPerDay. lia.
Qed.

Lemma doyToDate_value year doy :
  let n := DayFromYear year + (doy - 1) in
  100 <= year -> 1 <= doy -> YearFromDay n <= 9999 ->
  _doyToDate year doy = Ok (iso_of_day n).
Proof.
  cbv zeta. intros Hyear Hdoy Hy.
  assert (Hy0 : 0 <= YearFromDay (DayFromYear year + (doy - 1))).
  { rewrite <- (YearFromDay_first year) in Hyear.
    pose proof (YearFromDay_mono (DayFromYear year) (DayFromYear year + (doy - 1))). lia. }
  pose proof (year_range_day _ (conj Hy0 Hy)) as Hn.
  assert (Hfull : MakeFullYear year = year).
  { unfold MakeFullYear. destruct (Z.leb_spec year 99); [lia|]. now rewrite andb_false_r. }
  assert (Hjan : -719528 <= DayFromYear year).
  { change (-719528) with (DayFromYear 0). apply DayFromYear_le. lia. }
  rewrite <- doyToDate_same. unfold Utils.doyToDate. cbv zeta.
  rewrite Date_UTC_first, Hfull, TimeClip_small by (unfold msPerDay; lia).
  rewrite setUTCDate_first, TimeClip_small by (unfold msPerDay; lia).
  replace (DayFromYear year + doy - 1) with (DayFromYear year + (doy - 1)) by lia.
  apply (iso_of_midnight _ (conj Hy0 Hy)).
Qed.

Lemma toISO_same has1 has2 token : _toISO has1 token = _toISO has2 token.
Proof.
  unfold _toISO.
  repeat (match goal with
          | |- context [match ?l with [] => _ | _ :: _ => _ end] => destruct l; try reflexivity
          end).
  destruct (_ && _); [|reflexivity].
  destruct has1, has2; try reflexivity; now rewrite doyToDate_same.
Qed.

Local Open Scope R_scope.

Lemma Math_clamp_num lo hi v :
  lo <= hi ->
  exists c, Math_max (Num lo) (Math_min (Num hi) (Num v)) = Num c /\ lo <= c <= hi.
Proof.
  intros Hlh. cbn. eexists; split; [reflexivity|].
  unfold Rmax, Rmin. repeat destruct Rle_dec; lra.
Qed.

Lemma Math_clamp lo hi (v : jsnum) :
  lo <= hi ->
  match v with
  | NaN => Math_max (Num lo) (Math_min (Num hi) v) = NaN
  | _ => exists c, Math_max (Num lo) (Math_min (Num hi) v) = Num c /\ lo <= c <= hi
  end.
Proof.
  intros Hlh. destruct v as [| | |v]; cbn.
  all: try (eexists; split; [reflexivity|]; unfold Rmax, Rmin;
            repeat destruct Rle_dec; lra).
  reflexivity.
Qed.

Lemma sqrt_or_1_nonzero q : sqrt_or_1 q <> 0.
Proof. unfold sqrt_or_1. destruct Req_dec_T; lra. Qed.

(** Whenever the text parses to a number, or to an infinity, the value
    [run] uses is inside the interval; NaN is the only way out. *)
Lemma run_config_clamped env :
  match Parse.parseInt (value_or (fc_epochs env) "120") with
  | NaN => run_epochs env = NaN
  | _ => exists e, run_epochs env = Num e /\ 20 <= e <= 1000
  end /\
  match Parse.parseFloat (value_or (fc_lr env) "0.01") with
  | NaN => run_lr env = NaN
  | _ => exists l, run_lr env = Num l /\ 0.001 <= l <= 0.1
  end.
Proof.
  split.
  - apply (Math_clamp 20 1000). lra.
  - apply (Math_clamp 0.001 0.1). lra.
Qed.

End HelperFacts.

(** * Facts about the dataset *)

Module DatasetFacts.
Import JSDate JSDateFacts ForecastManager HelperFacts SpecWords.
Local Open Scope R_scope.

Lemma date_map_fold_notin l : forall (m : gmap string (option R)) k,
  ~ In k (map date l) ->
  fold_left (fun m v => <[date v := value v]> m) l m !! k = m !! k.
Proof.
  induction l as [|o l IH]; intros m k Hk; cbn; [reflexivity|].
  cbn in Hk. rewrite IH by tauto.
  apply lookup_insert_ne. intros E. apply Hk. now left.
Qed.

Lemma date_map_lookup l i o :
  NoDup (map date l) -> l !! i = Some o ->
  date_map l !! date o = Some (value o).
Proof.
  unfold date_map. generalize (∅ : gmap string (option R)) as m.
  revert i. induction l as [|a l IH]; intros i m Hnd Hi; [discriminate|].
  cbn in Hnd. apply NoDup_cons in Hnd as [Ha Hnd].
  destruct i as [|i]; cbn in Hi |- *.
  - injection Hi as ->. rewrite date_map_fold_notin.
    + apply lookup_insert_eq.
    + intros HIn. apply Ha. now apply list_elem_of_In.
  - now apply (IH i).
Qed.

Local Open Scope Z_scope.

Lemma Date_parse_bound s t : Date_parse s = Some t -> Z.abs t <= 8640000000000000.
Proof.
  unfold Date_parse. destruct (String.eqb _ _); [|discriminate].
  destruct (parse_date_only _) as [[[y m] d]|]; [|discriminate]. cbn.
  destruct (_ && _); [|discriminate].
  unfold TimeClip. destruct (Z.ltb_spec 8640000000000000 (Z.abs (MakeDate (MakeDay y (m - 1) d) (MakeTime 0 0 0 0)))); [discriminate|].
  intros [= <-]. assumption.
Qed.

Lemma MakeFullYear_id y : 100 <= y -> MakeFullYear y = y.
Proof.
  intros Hy. unfold MakeFullYear. destruct (Z.leb_spec y 99); [lia|].
  now rewrite andb_false_r.
Qed.

Lemma DayFromYear_100 y : 100 <= y -> -683003 <= DayFromYear y.
Proof.
  intros Hy. assert (H : DayFromYear 100 <= DayFromYear y) by (apply DayFromYear_le; lia).
  exact H.
Qed.

Lemma Date_UTC_year_start y :
  100 <= y -> DayFromYear y <= 100000000 ->
  Date_UTC y 0 0 = Some ((DayFromYear y - 1) * msPerDay).
Proof.
  intros Hy Hb. pose proof (DayFromYear_100 y Hy).
  unfold Date_UTC. rewrite MakeFullYear_id, MakeDay_january, MakeDate_midnight by assumption.
  replace (DayFromYear y + 0 - 1) with (DayFromYear y - 1) by lia.
  apply TimeClip_small. unfold msPerDay. lia.
Qed.

(** On a calendar date from year 100 on, [_doy] is the ordinal of the day
    in its year (1 for 1 January). *)
Lemma doy_of_iso_date s n :
  iso_date s n -> 100 <= YearFromDay n -> _doy s = Some (day_of_year n).
Proof.
  intros Hs Hy. pose proof (Date_parse_bound _ _ Hs) as Hb.
  pose proof (YearFromDay_spec n) as Hspec.
  assert (Hstart : Date_UTC (YearFromDay n) 0 0
                   = Some ((DayFromYear (YearFromDay n) - 1) * msPerDay)).
  { apply Date_UTC_year_start; [assumption|]. unfold msPerDay in Hb. lia. }
  assert (Hdiv : (n * msPerDay - (DayFromYear (YearFromDay n) - 1) * msPerDay)
                 / (1000 * 60 * 60 * 24) = day_of_year n).
  { unfold day_of_year, msPerDay. Z.div_mod_to_equations. lia. }
  unfold _doy. unfold iso_date in Hs. rewrite Hs, bind_Some.
  rewrite YearFromTime_midnight, Hstart, bind_Some.
  now rewrite Hdiv.
Qed.

Lemma day_of_year_range n : 1 <= day_of_year n <= 366.
Proof.
  unfold day_of_year. pose proof (YearFromDay_spec n) as H.
  rewrite DayFromYear_succ in H.
  destruct (DaysInYear_cases (YearFromDay n)); lia.
Qed.

Local Open Scope R_scope.

Lemma roll_recent3 vi (i : nat) :
  (i < length vi)%nat -> roll vi (Z.of_nat i) 3 = mean_or None Some (recent3 vi i).
Proof.
  intros Hi. unfold roll, recent3, js_slice. cbv zeta.
  destruct (Z.ltb_spec (Z.max 0 (Z.of_nat i - 3 + 1)) 0); [lia|].
  destruct (Z.ltb_spec (Z.of_nat i + 1) 0); [lia|].
  replace (Z.to_nat (Z.min (Z.max 0 (Z.of_nat i - 3 + 1)) (Z.of_nat (length vi))))
    with (i - 2)%nat by lia.
  replace (Z.to_nat (Z.min (Z.of_nat i + 1) (Z.of_nat (length vi))
                     - Z.min (Z.max 0 (Z.of_nat i - 3 + 1)) (Z.of_nat (length vi))))
    with (S i - (i - 2))%nat by lia.
  now rewrite skipn_firstn_comm.
Qed.

Lemma doy_num_dated o n : dated o n -> doy_num (date o) = IZR (day_of_year n).
Proof. intros [Hd Hy]. unfold doy_num. now rewrite (doy_of_iso_date _ _ Hd Hy). Qed.

Lemma nth_lookup_date vi i o :
  vi !! i = Some o -> nth i (map date vi) ""%string = date o.
Proof.
  revert i. induction vi as [|a vi IH]; intros [|i] Hi; try discriminate; cbn in *.
  - now injection Hi as ->.
  - now apply IH.
Qed.

Lemma Map_get_date vi i o :
  NoDup (map date vi) -> vi !! i = Some o ->
  Map_get (date_map vi) (nth i (map date vi) ""%string) = value o.
Proof.
  intros Hnd Hi. unfold Map_get.
  rewrite (nth_lookup_date _ _ _ Hi), (date_map_lookup _ _ _ Hnd Hi). reflexivity.
Qed.

Lemma dataset_sample_spec vi wx days i :
  NoDup (map date vi) -> Forall2 dated vi days -> (i < length vi)%nat ->
  dataset_sample vi wx i = spec_sample vi wx days i.
Proof.
  intros Hnd Hdays Hi.
  destruct (lookup_lt_is_Some_2 vi i Hi) as [o Ho].
  destruct (lookup_lt_is_Some_2 vi (i - 1) ltac:(lia)) as [o1 Ho1].
  destruct (lookup_lt_is_Some_2 vi (i - 2) ltac:(lia)) as [o2 Ho2].
  destruct (Forall2_lookup_l _ _ _ _ _ Hdays Ho) as (n & Hn & Hdated).
  unfold dataset_sample, spec_sample. cbv zeta.
  rewrite (Map_get_date _ _ _ Hnd Ho), (Map_get_date _ _ _ Hnd Ho1),
          (Map_get_date _ _ _ Hnd Ho2).
  rewrite (nth_lookup_date _ _ _ Ho), (roll_recent3 _ _ Hi).
  rewrite Ho, Ho1, Ho2, Hn. rewrite !bind_Some.
  unfold feature_vector. rewrite (doy_num_dated _ _ Hdated).
  destruct (value o) as [v|]; [|reflexivity]. rewrite bind_Some.
  destruct (value o1) as [v1|]; [|reflexivity]. rewrite bind_Some.
  destruct (value o2) as [v2|]; [|reflexivity]. rewrite bind_Some.
  destruct (mean_or None Some (recent3 vi i)) as [r|]; [|reflexivity].
  rewrite !bind_Some.
  destruct (wx_get wx (date o)) as [w|]; [|reflexivity]. rewrite !bind_Some.
  destruct (tMean w) as [t|]; [|reflexivity]. rewrite bind_Some.
  destruct (pSum w) as [p|]; reflexivity.
Qed.

Lemma fold_push_sample {A} (f : A -> option (list R * R)) l : forall ds,
  fold_left (fun ds i => push_sample ds (f i)) l ds
  = {| x := x ds ++ map fst (non_null (map f l));
       y := y ds ++ map snd (non_null (map f l)) |}.
Proof.
  induction l as [|a l IH]; intros ds; cbn.
  - rewrite !app_nil_r. now destruct ds.
  - rewrite IH. destruct (f a) as [[fv v]|]; cbn; [|reflexivity].
    now rewrite <- !app_assoc.
Qed.

Lemma buildDataset_samples vi wx :
  _buildDataset vi wx
  = samples_of (map (dataset_sample vi wx) (seq 2 (length vi - 2))).
Proof. unfold _buildDataset. now rewrite fold_push_sample. Qed.

Lemma non_null_length {A} (l : list (option A)) : (length (non_null l) <= length l)%nat.
Proof. induction l as [|[a|] l IH]; cbn; lia. Qed.

Lemma non_null_In {A} (l : list (option A)) a : In a (non_null l) <-> In (Some a) l.
Proof.
  induction l as [|[b|] l IH]; cbn; [tauto| |].
  - rewrite IH. split; intros [H|H]; auto; left; congruence.
  - rewrite IH. split; [auto|]. intros [H|H]; [discriminate|auto].
Qed.

Lemma window3 (vi : list Observation) i o o1 o2 :
  (2 <= i)%nat -> vi !! i = Some o -> vi !! (i - 1)%nat = Some o1 ->
  vi !! (i - 2)%nat = Some o2 ->
  skipn (i - 2) (firstn (S i) vi) = [o2; o1; o].
Proof.
  intros Hi Ho Ho1 Ho2.
  pose proof (lookup_lt_Some _ _ _ Ho) as Hlen.
  apply list_eq. intros k.
  rewrite lookup_drop.
  destruct (decide (k < 3)%nat) as [Hk|Hk].
  - rewrite lookup_take_lt by lia.
    destruct k as [|[|[|k]]]; cbn; try lia.
    + now rewrite Nat.add_0_r.
    + now replace (i - 2 + 1)%nat with (i - 1)%nat by lia.
    + now replace (i - 2 + 2)%nat with i by lia.
  - rewrite lookup_take_ge by lia.
    destruct k as [|[|[|k]]]; cbn; try lia. reflexivity.
Qed.

Lemma mean3 a b c : mean_or None Some [a; b; c] = Some ((a + b + c) / 3).
Proof. unfold mean_or, sum. cbn. f_equal. field. Qed.

Lemma spec_sample_closed vi wx days i f v :
  (2 <= i)%nat -> spec_sample vi wx days i = Some (f, v) ->
  exists o o1 o2 v1 v2 n w t p,
    vi !! i = Some o /\ vi !! (i - 1)%nat = Some o1 /\ vi !! (i - 2)%nat = Some o2 /\
    value o = Some v /\ value o1 = Some v1 /\ value o2 = Some v2 /\
    days !! i = Some n /\ wx_get wx (date o) = Some w /\
    tMean w = Some t /\ pSum w = Some p /\
    f = [v1; v2; (v2 + v1 + v) / 3;
         sin (2 * PI * IZR (day_of_year n) / 365);
         cos (2 * PI * IZR (day_of_year n) / 365); t; p].
Proof.
  intros Hi. unfold spec_sample.
  destruct (vi !! i) as [o|] eqn:Ho; [|discriminate]. rewrite bind_Some.
  destruct (value o) as [v'|] eqn:Hv; [|discriminate]. rewrite bind_Some.
  destruct (vi !! (i - 1)%nat) as [o1|] eqn:Ho1; [|discriminate]. rewrite bind_Some.
  destruct (value o1) as [v1|] eqn:Hv1; [|discriminate]. rewrite bind_Some.
  destruct (vi !! (i - 2)%nat) as [o2|] eqn:Ho2; [|discriminate]. rewrite bind_Some.
  destruct (value o2) as [v2|] eqn:Hv2; [|discriminate]. rewrite bind_Some.
  unfold recent3. rewrite (window3 _ _ _ _ _ Hi Ho Ho1 Ho2).
  cbn [map non_null]. rewrite Hv, Hv1, Hv2. cbn [non_null]. rewrite mean3, bind_Some.
  destruct (days !! i) as [n|] eqn:Hn; [|discriminate]. rewrite bind_Some.
  destruct (wx_get wx (date o)) as [w|] eqn:Hw; [|discriminate]. rewrite bind_Some.
  destruct (tMean w) as [t|] eqn:Ht; [|discriminate]. rewrite bind_Some.
  destruct (pSum w) as [p|] eqn:Hp; [|discriminate]. rewrite bind_Some.
  intros [= <- <-].
  exists o, o1, o2, v1, v2, n, w, t, p. repeat split; auto.
Qed.

Lemma spec_sample_prefix vi vi' wx days i :
  firstn (S i) vi' = firstn (S i) vi ->
  spec_sample vi' wx days i = spec_sample vi wx days i.
Proof.
  intros Hp.
  assert (Hl : forall k, (k <= i)%nat -> vi' !! k = vi !! k).
  { intros k Hk. rewrite <- (lookup_take_lt vi' (S i) k), <- (lookup_take_lt vi (S i) k) by lia.
    now rewrite Hp. }
  unfold spec_sample, recent3. rewrite Hp, !Hl by lia. reflexivity.
Qed.

Lemma spec_sample_length vi wx days i f v :
  spec_sample vi wx days i = Some (f, v) -> length f = 7%nat.
Proof.
  unfold spec_sample. intros H.
  repeat match type of H with
         | (match ?a with _ => _ end) = _ => destruct a; try discriminate
         | (?a ≫= _) = Some _ => destruct a eqn:?; [rewrite bind_Some in H|discriminate]
         end.
  injection H as <- _. reflexivity.
Qed.

Lemma map_ext_seq {A} (f g : nat -> A) a n :
  (forall i, (a <= i < a + n)%nat -> f i = g i) -> map f (seq a n) = map g (seq a n).
Proof.
  intros H. apply map_ext_in. intros i Hi. apply in_seq in Hi. now apply H.
Qed.

End DatasetFacts.

(** * Facts about the forecast loop *)

Module ForecastFacts.
Import JSDate JSDateFacts ForecastManager HelperFacts SpecWords.
Local Open Scope R_scope.

Lemma clip_range v : -0.1 <= clip v <= 1.
Proof. unfold clip, Rmax, Rmin. repeat destruct Rle_dec; lra. Qed.

Lemma forecast_value_range model tC pC hist iso c :
  forecast_value model tC pC hist iso = Some c -> -0.1 <= c <= 1.
Proof.
  unfold forecast_value. cbv zeta.
  destruct (_ ≫= value); [|discriminate].
  destruct (_ ≫= value); [|discriminate].
  destruct (mean_or _ _ _); [|discriminate].
  intros [= <-]. apply clip_range.
Qed.

Lemma present_app a b : present (a ++ b) = present a ++ present b.
Proof. unfold present. apply List.filter_app. Qed.

Local Open Scope Z_scope.

Lemma forecast_step_day model tC pC n hist out :
  0 <= YearFromDay (n + 1) <= 9999 ->
  let p := {| date := iso_of_day (n + 1);
              value := forecast_value model tC pC hist (iso_of_day (n + 1)) |} in
  forecast_step model tC pC (Some (n * msPerDay), hist, out)
  = Ok (Some ((n + 1) * msPerDay), hist ++ present [p], out ++ [p]).
Proof.
  intros Hy p. unfold forecast_step.
  rewrite (next_day_midnight _ Hy), (iso_of_midnight _ Hy).
  unfold rbind, p, present. cbn [List.filter value].
  destruct (forecast_value model tC pC hist (iso_of_day (n + 1))); cbn [List.filter value];
    [reflexivity|now rewrite app_nil_r].
Qed.

Lemma forecast_loop_days model tC pC turns : forall n hist out,
  0 <= YearFromDay n -> YearFromDay (n + Z.of_nat turns) <= 9999 ->
  exists out',
    forecast_loop model tC pC turns (Some (n * msPerDay), hist, out)
    = Ok (Some ((n + Z.of_nat turns) * msPerDay), hist ++ present out', out ++ out')
    /\ length out' = turns
    /\ forall k, (k < turns)%nat ->
         exists p, out' !! k = Some p
                   /\ date p = iso_of_day (n + 1 + Z.of_nat k)
                   /\ value p = forecast_value model tC pC
                                  (hist ++ present (firstn k out'))
                                  (iso_of_day (n + 1 + Z.of_nat k)).
Proof.
  induction turns as [|turns IH]; intros n hist out Hlo Hhi.
  - exists []. cbn [forecast_loop]. rewrite Z.add_0_r, !app_nil_r.
    split; [reflexivity|]. split; [reflexivity|]. intros k Hk. lia.
  - assert (Hy1 : 0 <= YearFromDay (n + 1) <= 9999).
    { pose proof (YearFromDay_mono n (n + 1)).
      pose proof (YearFromDay_mono (n + 1) (n + Z.of_nat (S turns))). lia. }
    cbn [forecast_loop]. rewrite (forecast_step_day _ _ _ _ _ _ Hy1).
    cbv zeta. unfold rbind at 1.
    set (p := {| date := iso_of_day (n + 1);
                 value := forecast_value model tC pC hist (iso_of_day (n + 1)) |}).
    destruct (IH (n + 1) (hist ++ present [p]) (out ++ [p])) as (out' & Hrun & Hlen & Hk);
      [lia | replace (n + 1 + Z.of_nat turns) with (n + Z.of_nat (S turns)) by lia; exact Hhi |].
    exists (p :: out'). rewrite Hrun.
    split.
    { replace (n + 1 + Z.of_nat turns) with (n + Z.of_nat (S turns)) by lia.
      change (p :: out') with ([p] ++ out').
      now rewrite present_app, <- !app_assoc. }
    split; [cbn; lia|].
    intros [|k] Hlt.
    + exists p. cbn [lookup list_lookup firstn]. rewrite Z.add_0_r.
      unfold present at 1. cbn [List.filter]. rewrite app_nil_r. auto.
    + destruct (Hk k ltac:(lia)) as (q & Hq & Hd & Hv).
      exists q. cbn [lookup list_lookup]. split; [exact Hq|].
      replace (n + 1 + Z.of_nat (S k)) with (n + 1 + 1 + Z.of_nat k) by lia.
      split; [exact Hd|]. rewrite Hv. f_equal.
      cbn [firstn]. change (p :: firstn k out') with ([p] ++ firstn k out').
      now rewrite present_app, <- !app_assoc.
Qed.

Lemma js_slice_from_0 {A} (l : list A) : js_slice_from l 0 = l.
Proof.
  unfold js_slice_from, js_slice. cbv zeta.
  change (0 <? 0) with false. cbv iota.
  destruct (Z.ltb_spec (Z.of_nat (length l)) 0); [lia|].
  replace (Z.min 0 (Z.of_nat (length l))) with 0 by lia.
  replace (Z.min (Z.of_nat (length l)) (Z.of_nat (length l)))
    with (Z.of_nat (length l)) by lia.
  rewrite Z.sub_0_r, Nat2Z.id.
  change (Z.to_nat 0) with 0%nat. cbn [skipn]. apply firstn_all.
Qed.

Lemma js_index_last {A} (l : list A) :
  js_index l (Z.of_nat (length l) - 1) = last l.
Proof.
  unfold js_index. destruct l as [|a l]; [reflexivity|].
  destruct (Z.ltb_spec (Z.of_nat (length (a :: l)) - 1) 0) as [H|H]; [cbn in H; lia|].
  replace (Z.to_nat (Z.of_nat (length (a :: l)) - 1)) with (length l) by (cbn; lia).
  rewrite last_lookup. cbn [length Nat.pred].
  generalize (a :: l) (length l). clear. intros l n.
  revert n. induction l as [|b l IH]; intros [|n]; cbn; auto.
Qed.

Lemma js_slice_from_last {A} (l : list A) (k : Z) :
  (0 < k)%Z ->
  js_slice_from l (- Z.min k (Z.of_nat (length l))) = skipn (length l - Z.to_nat k) l.
Proof.
  intros Hk. unfold js_slice_from, js_slice. cbv zeta.
  set (len := Z.of_nat (length l)).
  assert (Hlen : (0 <= len)%Z) by (unfold len; lia).
  destruct (Z.ltb_spec len 0); [lia|].
  replace (Z.min len len) with len by lia.
  assert (Hk' : Z.to_nat (if (- Z.min k len <? 0)%Z
                          then Z.max (len + - Z.min k len) 0
                          else Z.min (- Z.min k len) len)
                = (length l - Z.to_nat k)%nat).
  { destruct (Z.ltb_spec (- Z.min k len) 0); unfold len in *; lia. }
  assert (He : Z.to_nat (len - (if (- Z.min k len <? 0)%Z
                                then Z.max (len + - Z.min k len) 0
                                else Z.min (- Z.min k len) len))
               = (length l - (length l - Z.to_nat k))%nat).
  { destruct (Z.ltb_spec (- Z.min k len) 0); unfold len in *; lia. }
  rewrite Hk', He. apply firstn_all2. rewrite length_skipn. lia.
Qed.

Lemma wx_get_In (wx : wxmap) kv :
  NoDup (map fst wx) -> In kv wx -> wx_get wx (fst kv) = Some (snd kv).
Proof.
  unfold wx_get. induction wx as [|a wx IH]; intros Hnd Hin; [destruct Hin|].
  cbn in Hnd. apply NoDup_cons in Hnd as [Ha Hnd]. cbn [find].
  destruct Hin as [->|Hin].
  - now rewrite String.eqb_refl.
  - destruct (String.eqb_spec (fst a) (fst kv)) as [E|_]; [|now apply IH].
    exfalso. apply Ha. rewrite E. apply list_elem_of_In, in_map, Hin.
Qed.

Lemma map_wx_get (wx : wxmap) (f : WeatherAggregate -> option R) l :
  NoDup (map fst wx) -> (forall kv, In kv l -> In kv wx) ->
  map (fun d => wx_get wx d ≫= f) (map fst l) = map (fun kv => f (snd kv)) l.
Proof.
  intros Hnd Hsub. rewrite map_map. apply map_ext_in. intros kv Hin.
  now rewrite (wx_get_In wx kv Hnd (Hsub kv Hin)).
Qed.

Lemma In_skipn_In {A} (a : A) n l : In a (skipn n l) -> In a l.
Proof. intros H. rewrite <- (firstn_skipn n l). apply in_or_app. now right. Qed.

(** What [_forecastNext30Days] of forecast.js takes as weather of the
    coming days: the means of the two aggregates over the last 30 keys. *)
Lemma weather_proxies_means wx :
  NoDup (Object_keys wx) -> weather_proxies wx = mean_proxies wx.
Proof.
  intros Hnd. unfold weather_proxies, mean_proxies, Object_keys in *. cbv zeta.
  rewrite js_slice_from_last by lia. rewrite length_map.
  change (Z.to_nat 30) with 30%nat. rewrite skipn_map.
  rewrite !(map_wx_get wx _ _ Hnd); [reflexivity| |];
    intros kv Hin; eapply In_skipn_In; eauto.
Qed.

Lemma array_push_insert (l : loc) v (h : store) a :
  h !! l = Some a -> array_push l v h = <[l := a ++ [v]]> h.
Proof.
  intros Hl. unfold array_push. apply map_eq. intros k.
  destruct (decide (l = k)) as [<-|Hne].
  - now rewrite lookup_alter_eq, lookup_insert_eq, Hl.
  - now rewrite lookup_alter_ne, lookup_insert_ne.
Qed.

Lemma forecast_step_store_sim model tC pC hist d out (h : store) a :
  h !! hist = Some a ->
  match forecast_step model tC pC (d, a, out) with
  | Ok (d', a', out') =>
      forecast_step_store model tC pC hist (d, out) h
      = (Ok (d', out'), <[hist := a']> h)
  | Throw e =>
      forecast_step_store model tC pC hist (d, out) h = (Throw e, h)
  end.
Proof.
  intros Ha. unfold forecast_step, forecast_step_store, array_read. rewrite Ha.
  change (default [] (Some a)) with a. destruct (iso_of (next_day d)) as [iso|e]; cbn [rbind]; [|reflexivity].
  destruct (forecast_value model tC pC a iso) as [c|].
  - now rewrite (array_push_insert _ _ _ _ Ha).
  - now rewrite insert_id.
Qed.

Lemma forecast_loop_store_sim model tC pC hist turns : forall d out (h : store) a,
  h !! hist = Some a ->
  exists a1,
    snd (forecast_loop_store model tC pC hist turns (d, out) h) = <[hist := a1]> h
    /\ fst (forecast_loop_store model tC pC hist turns (d, out) h)
       = match forecast_loop model tC pC turns (d, a, out) with
         | Ok (d', _, out') => Ok (d', out')
         | Throw e => Throw e
         end
    /\ forall st, forecast_loop model tC pC turns (d, a, out) = Ok st -> snd (fst st) = a1.
Proof.
  induction turns as [|turns IH]; intros d out h a Ha.
  - exists a. cbn. rewrite insert_id by assumption. repeat split.
    intros st [= <-]. reflexivity.
  - cbn [forecast_loop forecast_loop_store].
    pose proof (forecast_step_store_sim model tC pC hist d out h a Ha) as Hstep.
    destruct (forecast_step model tC pC (d, a, out)) as [[[d' a'] out']|e].
    + rewrite Hstep. cbn [rbind].
      destruct (IH d' out' (<[hist := a']> h) a') as (a1 & Hs & Hf & Hst);
        [apply lookup_insert_eq|].
      exists a1. rewrite Hs, Hf, insert_insert_eq. repeat split. exact Hst.
    + rewrite Hstep. exists a. cbn. rewrite insert_id by assumption.
      repeat split. discriminate.
Qed.

End ForecastFacts.

(** * Facts about the linear algebra kernel and the trainer *)

Module LinearFacts.
Import JSDate JSDateFacts ForecastManager HelperFacts SpecWords DatasetFacts Examples.
Local Open Scope R_scope.

Lemma pivot_fold (A : matrix) c l : forall p0,
  let p := fold_left (fun p r => if Rgt_dec (Rabs (entry A r c)) (Rabs (entry A p c))
                                 then r else p) l p0 in
  In p (p0 :: l)
  /\ Rabs (entry A p0 c) <= Rabs (entry A p c)
  /\ forall r, In r l -> Rabs (entry A r c) <= Rabs (entry A p c).
Proof.
  induction l as [|r l IH]; intros p0; cbn [fold_left].
  - split; [now left|]. split; [lra|]. intros r [].
  - destruct (IH (if Rgt_dec (Rabs (entry A r c)) (Rabs (entry A p0 c)) then r else p0))
      as (Hin & Hle & Hall).
    cbv zeta. split; [|split].
    + destruct Hin as [Hin|Hin]; [|right; now right].
      rewrite <- Hin. destruct Rgt_dec; [right; now left|now left].
    + destruct Rgt_dec; lra.
    + intros q [<-|Hq]; [|now apply Hall].
      destruct Rgt_dec; lra.
Qed.

Lemma find_pivot_spec (A : matrix) i n :
  (i < n)%nat ->
  (i <= find_pivot A i n < n)%nat
  /\ forall r, (i <= r < n)%nat ->
       Rabs (entry A r i) <= Rabs (entry A (find_pivot A i n) i).
Proof.
  intros Hi. unfold find_pivot.
  destruct (pivot_fold A i (seq (S i) (n - S i)) i) as (Hin & Hle & Hall).
  cbv zeta in Hin, Hle, Hall. split.
  - destruct Hin as [<-|Hin]; [lia|]. apply in_seq in Hin. lia.
  - intros r Hr. destruct (Nat.eq_dec r i) as [->|Hne]; [exact Hle|].
    apply Hall, in_seq. lia.
Qed.

Lemma gauss_jordan_step_throws n (A I' : matrix) i e :
  gauss_jordan_step n (A, I') i = Throw e <->
  Rabs (entry A (find_pivot A i n) i) < singular_eps /\ e = Error "Singular matrix".
Proof.
  unfold gauss_jordan_step. cbv zeta.
  destruct (Rlt_dec (Rabs (entry A (find_pivot A i n) i)) singular_eps) as [Hlt|Hge].
  - split; [intros [= <-]; auto|intros [_ ->]; reflexivity].
  - split; [discriminate|intros [H _]; contradiction].
Qed.

Lemma gauss_jordan_loop_throw n steps e :
  fold_left (fun acc i => let! st := acc in gauss_jordan_step n st i) steps (Throw e)
  = Throw e.
Proof. induction steps as [|i steps IH]; cbn; auto. Qed.

Lemma gauss_jordan_loop_snoc n steps i st :
  gauss_jordan_loop n (steps ++ [i]) st
  = let! st' := gauss_jordan_loop n steps st in gauss_jordan_step n st' i.
Proof. unfold gauss_jordan_loop. now rewrite fold_left_app. Qed.

Lemma gauss_jordan_loop_fails n st e k :
  gauss_jordan_loop n (seq 0 k) st = Throw e <->
  exists i st', (i < k)%nat /\ gauss_jordan_loop n (seq 0 i) st = Ok st'
                /\ gauss_jordan_step n st' i = Throw e.
Proof.
  induction k as [|k IH].
  - cbn. split; [discriminate|]. intros (i & _ & Hi & _). lia.
  - rewrite seq_S, gauss_jordan_loop_snoc. cbn [Nat.add].
    destruct (gauss_jordan_loop n (seq 0 k) st) as [st'|e'] eqn:Hk; cbn [rbind].
    + split.
      * intros Hs. exists k, st'. auto.
      * intros (i & st'' & Hi & Hrun & Hs).
        destruct (Nat.eq_dec i k) as [->|Hne]; [congruence|].
        assert (Hthrow : Ok st' = Throw e).
        { apply IH. exists i, st''. split; [lia|auto]. }
        discriminate.
    + split.
      * intros [= ->]. destruct IH as [IH _].
        destruct (IH eq_refl) as (i & st'' & Hi & Hrun & Hs).
        exists i, st''. split; [lia|auto].
      * intros (i & st'' & Hi & Hrun & Hs).
        destruct (Nat.eq_dec i k) as [->|Hne]; [congruence|].
        apply IH. exists i, st''. split; [lia|auto].
Qed.

Lemma invSym_fails M e :
  _invSym M = Throw e <->
  exists i A I', (i < length M)%nat
    /\ gauss_jordan_loop (length M) (seq 0 i) (M, identity (length M)) = Ok (A, I')
    /\ Rabs (entry A (find_pivot A i (length M)) i) < singular_eps
    /\ e = Error "Singular matrix".
Proof.
  unfold _invSym. cbv zeta. rewrite map_id.
  destruct (gauss_jordan_loop (length M) (seq 0 (length M)) (M, identity (length M)))
    as [st|e'] eqn:Hrun; cbn [rbind].
  - split; [discriminate|].
    intros (i & A & I' & Hi & Hreach & Hlt & ->).
    assert (Hthrow : Ok st = Throw (Error "Singular matrix")).
    { rewrite <- Hrun. apply gauss_jordan_loop_fails.
      exists i, (A, I'). split; [exact Hi|]. split; [exact Hreach|].
      now apply gauss_jordan_step_throws. }
    discriminate.
  - apply gauss_jordan_loop_fails in Hrun as (i & [A I'] & Hi & Hreach & Hs).
    apply gauss_jordan_step_throws in Hs as [Hlt ->].
    split.
    + intros [= <-]. exists i, A, I'. auto.
    + intros (_ & _ & _ & _ & _ & _ & ->). reflexivity.
Qed.

Lemma invSym_zero_2x2 : _invSym [[0; 0]; [0; 0]] = Throw (Error "Singular matrix").
Proof.
  apply invSym_fails. exists 0%nat, [[0; 0]; [0; 0]], (identity 2).
  split; [cbn; lia|]. split; [reflexivity|]. split; [|reflexivity].
  cbn [length]. unfold find_pivot. cbn [Nat.sub seq fold_left].
  unfold singular_eps.
  destruct Rgt_dec; unfold entry; cbn [nth]; rewrite Rabs_R0; lra.
Qed.

Lemma trainModel_linear ds cfg X0 rest :
  x ds = X0 :: rest ->
  _trainModel None ds cfg
  = let! w := linear_weights (standardized_x (x ds) (length X0)) (standardized_y (y ds)) in
    Ok {| type := lin_model;
          infer := linear_infer (feature_mu (x ds) (length X0))
                     (feature_sig (x ds) (length X0)) w
                     (column_mean (y ds)) (column_sd (y ds));
          rmse := sqrt (_mse (_matVec (standardized_x (x ds) (length X0)) w)
                             (standardized_y (y ds))) * column_sd (y ds) |}.
Proof. intros HX. unfold _trainModel. rewrite HX. reflexivity. Qed.

Lemma run_training_fails env vi wx e :
  has_managers env = true ->
  fetchVISeries env (run_years env) = Ok vi -> vi <> [] ->
  fetchWeatherByDate env vi = Ok wx ->
  (24 <= length (x (_buildDataset vi wx)))%nat ->
  _trainModel (tf env) (_buildDataset vi wx)
    {| epochs := run_epochs env; lr := run_lr env |} = Throw e ->
  run env = shown (before_training
                   ++ [match tf env with Some _ => TrainingTF | None => TrainingLinear end;
                       Failed e]).
Proof.
  intros Hm Hvi Hne Hwx Hn Ht.
  assert (Hlen : Nat.eqb (length vi) 0 = false).
  { destruct vi; [congruence|reflexivity]. }
  unfold run. rewrite Hm, Hvi, Hlen, Hwx. cbn [negb].
  destruct (Nat.ltb_spec (length (x (_buildDataset vi wx))) 24) as [|_]; [lia|].
  rewrite Ht. reflexivity.
Qed.

Lemma sum_from_constant c l : forall a,
  (forall b, In b l -> b = c) -> fold_left Rplus l a = a + INR (length l) * c.
Proof.
  induction l as [|b l IH]; intros a Hc; cbn [fold_left length].
  - cbn. lra.
  - rewrite IH by (intros; apply Hc; now right).
    rewrite (Hc b) by now left. rewrite S_INR. lra.
Qed.

Lemma column_mean_constant c l :
  l <> [] -> (forall b, In b l -> b = c) -> column_mean l = c.
Proof.
  intros Hne Hc. unfold column_mean, sum. rewrite (sum_from_constant c) by assumption.
  assert (INR (length l) <> 0).
  { apply not_0_INR. destruct l; [congruence|discriminate]. }
  field. assumption.
Qed.

Lemma reduce_from_zero {A} (g : nat -> R) (l : list A) : forall k a,
  (forall j, g j = 0) -> reduce_from (fun s _ j => s + g j) k l a = a.
Proof.
  induction l as [|b l IH]; intros k a Hg; cbn [reduce_from]; [reflexivity|].
  rewrite IH by assumption. rewrite Hg. lra.
Qed.

Lemma nth_imap_0 {A} (f : nat -> A -> R) (l : list A) :
  nth 0 (imap f l) 0 = match l with [] => 0 | a :: _ => f 0%nat a end.
Proof. destruct l; reflexivity. Qed.

Lemma nth_map_default {A B} (f : A -> B) (l : list A) k da db :
  nth k (map f l) db = if (k <? length l)%nat then f (nth k l da) else db.
Proof.
  revert k. induction l as [|a l IH]; intros [|k]; cbn; auto.
Qed.

Lemma nth_imap_default {A B} (f : nat -> A -> B) (l : list A) k da db :
  nth k (imap f l) db = if (k <? length l)%nat then f k (nth k l da) else db.
Proof.
  revert f k. induction l as [|a l IH]; intros f [|k]; cbn; auto.
  now rewrite IH.
Qed.

Lemma standardized_first_column (X : matrix) cols c k :
  X <> [] -> (0 < cols)%nat -> (forall r, In r X -> nth 0 r 0 = c) ->
  entry (standardized_x X cols) k 0 = 0.
Proof.
  intros HX Hcols Hc. unfold entry, standardized_x.
  rewrite (nth_map_default _ _ _ [] []).
  destruct (Nat.ltb_spec k (length X)) as [Hk|Hk]; [|reflexivity].
  unfold standardize. rewrite nth_imap_0.
  destruct (nth k X []) as [|v row] eqn:Hrow; [reflexivity|].
  assert (Hv : v = c).
  { rewrite <- (Hc (nth k X [])) by (apply nth_In; exact Hk). now rewrite Hrow. }
  assert (Hmu : nth 0 (feature_mu X cols) 0 = c).
  { unfold feature_mu. destruct cols as [|cols]; [lia|]. cbn [seq map nth].
    apply column_mean_constant.
    - unfold column. destruct X; [congruence|discriminate].
    - intros b Hb. unfold column in Hb. apply in_map_iff in Hb as (r & <- & Hr).
      now apply Hc. }
  rewrite Hmu, Hv. unfold Rdiv. replace (c - c) with 0 by lra. apply Rmult_0_l.
Qed.

Lemma matMul_zero_column (A B : matrix) r :
  (forall k, entry B k 0 = 0) -> entry (_matMul A B) r 0 = 0.
Proof.
  intros HB. unfold entry at 1, _matMul.
  rewrite (nth_imap_default _ _ _ [] []).
  destruct (Nat.ltb_spec r (length A)); [|reflexivity].
  rewrite nth_imap_0. destruct (hd [] B); [reflexivity|].
  unfold reduce. apply reduce_from_zero. intros j. rewrite HB. lra.
Qed.

Lemma invSym_zero_column (M : matrix) :
  M <> [] -> (forall r, entry M r 0 = 0) ->
  _invSym M = Throw (Error "Singular matrix").
Proof.
  intros HM Hz. unfold _invSym. cbv zeta. rewrite map_id.
  destruct M as [|row M]; [congruence|].
  cbn [length seq]. unfold gauss_jordan_loop. cbn [fold_left rbind].
  assert (Hs : gauss_jordan_step (S (length M)) (row :: M, identity (S (length M))) 0
               = Throw (Error "Singular matrix")).
  { apply gauss_jordan_step_throws. split; [|reflexivity].
    rewrite Hz, Rabs_R0. unfold singular_eps. lra. }
  rewrite Hs.
  assert (Hth : forall steps, fold_left (fun acc i => let! st := acc in
                   gauss_jordan_step (S (length M)) st i) steps
                   (Throw (Error "Singular matrix")) = Throw (Error "Singular matrix")).
  { induction steps; cbn; auto. }
  rewrite Hth. reflexivity.
Qed.

Lemma length_imap' {A B} (f : nat -> A -> B) l : length (imap f l) = length l.
Proof. revert f. induction l; intros; cbn; auto. Qed.

(** A dataset whose first feature is the same in every sample cannot be
    fitted: the normal matrix has a zero column. *)
Lemma constant_feature_singular ds cfg X0 rest c :
  x ds = X0 :: rest -> X0 <> [] ->
  (forall r, In r (x ds) -> nth 0 r 0 = c) ->
  _trainModel None ds cfg = Throw (Error "Singular matrix").
Proof.
  intros HX HX0 Hc. rewrite (trainModel_linear _ _ _ _ HX).
  unfold linear_weights. cbv zeta.
  rewrite invSym_zero_column; [reflexivity| |].
  - assert (Hl : length (_matMul (_transpose (standardized_x (x ds) (length X0)))
                                 (standardized_x (x ds) (length X0))) = length X0).
    { unfold _matMul, _transpose. rewrite !length_imap'.
      unfold standardized_x. rewrite HX. cbn [map hd]. unfold standardize.
      apply length_imap'. }
    intros E. rewrite E in Hl. destruct X0; [congruence|discriminate].
  - intros r. apply matMul_zero_column. intros k.
    apply (standardized_first_column _ _ c).
    + rewrite HX. discriminate.
    + destruct X0; [congruence|cbn; lia].
    + exact Hc.
Qed.

Lemma date_map_fold_values l : forall (m : gmap string (option R)) d v,
  fold_left (fun m o => <[date o := value o]> m) l m !! d = Some v ->
  m !! d = Some v \/ exists o, In o l /\ value o = v.
Proof.
  induction l as [|a l IH]; intros m d v H; cbn [fold_left] in H; [now left|].
  apply IH in H as [H|(o & Ho & Hv)].
  - destruct (decide (date a = d)) as [E|E].
    + rewrite E, lookup_insert_eq in H. injection H as <-.
      right. exists a. split; [now left|reflexivity].
    + rewrite lookup_insert_ne in H by assumption. now left.
  - right. exists o. split; [now right|exact Hv].
Qed.

Lemma Map_get_value vi d v :
  Map_get (date_map vi) d = Some v -> exists o, In o vi /\ value o = Some v.
Proof.
  unfold Map_get, date_map. intros H.
  destruct (fold_left _ vi ∅ !! d) as [ov|] eqn:E; [|discriminate].
  cbn in H. subst ov.
  apply date_map_fold_values in E as [E|E]; [|exact E].
  rewrite lookup_empty in E. discriminate.
Qed.

Lemma dataset_sample_lag1 vi wx i f v :
  dataset_sample vi wx i = Some (f, v) ->
  exists o, In o vi /\ value o = Some (nth 0 f 0).
Proof.
  unfold dataset_sample. cbv zeta. intros H.
  destruct (Map_get (date_map vi) (nth i (map date vi) "")) as [v0|]; [|discriminate].
  destruct (Map_get (date_map vi) (nth (i - 1) (map date vi) "")) as [lag1|] eqn:E1;
    [|discriminate].
  destruct (Map_get (date_map vi) (nth (i - 2) (map date vi) "")); [|discriminate].
  destruct (roll vi (Z.of_nat i) 3); [|discriminate].
  destruct (wx_get wx (nth i (map date vi) "") ≫= tMean); [|discriminate].
  destruct (wx_get wx (nth i (map date vi) "") ≫= pSum); [|discriminate].
  injection H as <- _. cbn [feature_vector nth]. eapply Map_get_value; eauto.
Qed.

Lemma dataset_rows vi wx f :
  In f (x (_buildDataset vi wx)) ->
  exists i v, dataset_sample vi wx i = Some (f, v).
Proof.
  rewrite buildDataset_samples. unfold samples_of. cbn [x].
  intros H. apply in_map_iff in H as ([f' v] & <- & Hin).
  apply non_null_In, in_map_iff in Hin as (i & Hi & _). eauto.
Qed.

Lemma dataset_rows_length vi wx f :
  In f (x (_buildDataset vi wx)) -> length f = 7%nat.
Proof.
  intros H. apply dataset_rows in H as (i & v & H).
  unfold dataset_sample in H. cbv zeta in H.
  repeat match type of H with
         | (match ?a with _ => _ end) = _ => destruct a; try discriminate
         end.
  injection H as <- _. reflexivity.
Qed.

(** The station with 26 constant composites: 24 samples, and no fit. *)
Lemma station_26_training cfg :
  _trainModel None (_buildDataset (series 26) (weather 26)) cfg
  = Throw (Error "Singular matrix").
Proof.
  destruct (x (_buildDataset (series 26) (weather 26))) as [|X0 rest] eqn:HX.
  { apply (f_equal (@length _)) in HX. vm_compute in HX. discriminate HX. }
  apply (constant_feature_singular _ _ X0 rest 0.5 HX).
  + assert (Hl : length X0 = 7%nat).
    { apply (dataset_rows_length (series 26) (weather 26)). rewrite HX. now left. }
    intros ->. discriminate Hl.
  + intros r Hr.
    apply dataset_rows in Hr as (i & v & Hs).
    apply dataset_sample_lag1 in Hs as (o & Ho & Hv).
    unfold series in Ho. apply in_map_iff in Ho as (n & <- & _).
    cbn [value] in Hv. injection Hv as Hv. now symmetry.
Qed.

Lemma length_swap_rows (A : matrix) i p : length (swap_rows A i p) = length A.
Proof. unfold swap_rows. now rewrite !length_insert. Qed.

Lemma length_scale_row n i c (A : matrix) : length (scale_row n i c A) = length A.
Proof. apply length_imap'. Qed.

Lemma length_eliminate n i (F B : matrix) : length (eliminate n i F B) = length B.
Proof. apply length_imap'. Qed.

Lemma gauss_jordan_step_length n (A I' A1 I1 : matrix) i :
  gauss_jordan_step n (A, I') i = Ok (A1, I1) ->
  length A1 = length A /\ length I1 = length I'.
Proof.
  unfold gauss_jordan_step. cbv zeta. destruct Rlt_dec; [discriminate|].
  intros [= <- <-].
  now rewrite !length_eliminate, !length_scale_row, !length_swap_rows.
Qed.

Lemma gauss_jordan_loop_length n k : forall (M J A I' : matrix),
  gauss_jordan_loop n (seq 0 k) (M, J) = Ok (A, I') ->
  length A = length M /\ length I' = length J.
Proof.
  induction k as [|k IH]; intros M J A I' H.
  - cbn in H. injection H as <- <-. auto.
  - rewrite seq_S, gauss_jordan_loop_snoc in H. cbn [Nat.add] in H.
    destruct (gauss_jordan_loop n (seq 0 k) (M, J)) as [[A0 I0]|] eqn:E; [|discriminate].
    cbn [rbind] in H. apply gauss_jordan_step_length in H as [H1 H2].
    destruct (IH _ _ _ _ E) as [H3 H4]. split; congruence.
Qed.

Lemma swap_rows_pivot (A : matrix) i p :
  (i < length A)%nat -> (p < length A)%nat ->
  nth i (swap_rows A i p) [] = nth p A [] /\ nth p (swap_rows A i p) [] = nth i A [].
Proof.
  intros Hi Hp. unfold swap_rows.
  assert (Hnth : forall (l : matrix) k, nth k l [] = default [] (l !! k)).
  { intros l k. apply nth_lookup. }
  rewrite !Hnth. split.
  - destruct (decide (p = i)) as [->|Hne].
    + now rewrite list_lookup_insert_eq by (rewrite length_insert; lia).
    + rewrite list_lookup_insert_ne, list_lookup_insert_eq by (auto; lia).
      reflexivity.
  - now rewrite list_lookup_insert_eq by (rewrite length_insert; lia).
Qed.

(** ** Sums *)

Lemma sum_below_ext n f g :
  (forall k, (k < n)%nat -> f k = g k) -> sum_below n f = sum_below n g.
Proof.
  induction n as [|n IH]; intros H; cbn; [reflexivity|].
  rewrite IH by (intros; apply H; lia). rewrite H by lia. reflexivity.
Qed.

Lemma sum_below_plus n f g :
  sum_below n (fun k => f k + g k) = sum_below n f + sum_below n g.
Proof. induction n as [|n IH]; cbn; [lra|]. rewrite IH. lra. Qed.

Lemma sum_below_minus n f g :
  sum_below n (fun k => f k - g k) = sum_below n f - sum_below n g.
Proof. induction n as [|n IH]; cbn; [lra|]. rewrite IH. lra. Qed.

Lemma sum_below_scal_l n c f :
  sum_below n (fun k => c * f k) = c * sum_below n f.
Proof. induction n as [|n IH]; cbn; [lra|]. rewrite IH. lra. Qed.

Lemma sum_below_scal_r n c f :
  sum_below n (fun k => f k * c) = sum_below n f * c.
Proof. induction n as [|n IH]; cbn; [lra|]. rewrite IH. lra. Qed.

Lemma sum_below_zero n f : (forall k, (k < n)%nat -> f k = 0) -> sum_below n f = 0.
Proof.
  induction n as [|n IH]; intros H; cbn; [reflexivity|].
  rewrite IH by (intros; apply H; lia). rewrite H by lia. lra.
Qed.

Lemma sum_below_swap n m (f : nat -> nat -> R) :
  sum_below n (fun i => sum_below m (fun j => f i j))
  = sum_below m (fun j => sum_below n (fun i => f i j)).
Proof.
  induction n as [|n IH]; cbn.
  - symmetry. apply sum_below_zero. reflexivity.
  - rewrite IH, <- sum_below_plus. reflexivity.
Qed.

(** A sum that picks one term. *)
Lemma sum_below_delta_l n c f :
  (c < n)%nat -> sum_below n (fun k => delta c k * f k) = f c.
Proof.
  induction n as [|n IH]; intros Hc; [lia|]. cbn [sum_below].
  destruct (Nat.eq_dec c n) as [->|Hne].
  - rewrite sum_below_zero.
    + unfold delta. rewrite Nat.eqb_refl. lra.
    + intros k Hk. unfold delta. destruct (Nat.eqb_spec n k); [lia|lra].
  - rewrite IH by lia. unfold delta. destruct (Nat.eqb_spec c n); [lia|lra].
Qed.

Lemma sum_below_delta_r n c f :
  (c < n)%nat -> sum_below n (fun k => f k * delta k c) = f c.
Proof.
  intros Hc. rewrite <- (sum_below_delta_l n c f Hc). apply sum_below_ext.
  intros k _. unfold delta. rewrite (Nat.eqb_sym k c). lra.
Qed.

Lemma reduce_from_sum {A} (g : nat -> R) (l : list A) : forall k a,
  reduce_from (fun s _ j => s + g j) k l a
  = a + sum_below (length l) (fun j => g (k + j)%nat).
Proof.
  induction l as [|b l IH]; intros k a; cbn [reduce_from length].
  - cbn. lra.
  - rewrite IH.
    assert (Hs : forall n, sum_below (S n) (fun j => g (k + j)%nat)
                 = g k + sum_below n (fun j => g (S k + j)%nat)).
    { induction n as [|n IHn]; cbn [sum_below].
      - rewrite Nat.add_0_r. lra.
      - cbn [sum_below] in IHn. rewrite IHn.
        replace (k + S n)%nat with (S k + n)%nat by lia. lra. }
    rewrite Hs. lra.
Qed.

Lemma reduce_sum {A} (g : nat -> R) (l : list A) :
  reduce (fun s _ j => s + g j) l 0 = sum_below (length l) g.
Proof.
  unfold reduce. rewrite reduce_from_sum. rewrite Rplus_0_l.
  apply sum_below_ext. reflexivity.
Qed.

(** ** Entries of the matrices built by [_invSym] *)

Lemma entry_out_of_rows (A : matrix) r c : (length A <= r)%nat -> entry A r c = 0.
Proof. intros H. unfold entry. rewrite (nth_overflow A) by exact H. now destruct c. Qed.

Lemma entry_out_of_row (A : matrix) r c :
  (length (nth r A []) <= c)%nat -> entry A r c = 0.
Proof. intros H. unfold entry. now rewrite nth_overflow. Qed.

Lemma nth_swap_rows (A : matrix) i p r :
  (i < length A)%nat -> (p < length A)%nat ->
  nth r (swap_rows A i p) []
  = nth (if Nat.eqb r i then p else if Nat.eqb r p then i else r) A [].
Proof.
  intros Hi Hp. unfold swap_rows.
  assert (Hnth : forall (l : matrix) k, nth k l [] = default [] (l !! k)).
  { intros l k. apply nth_lookup. }
  rewrite (Hnth (<[p:=_]> _)).
  destruct (Nat.eqb_spec r i) as [->|Hri].
  - destruct (decide (p = i)) as [->|Hne].
    + now rewrite list_lookup_insert_eq by (rewrite length_insert; lia).
    + rewrite list_lookup_insert_ne, list_lookup_insert_eq by (auto; lia).
      reflexivity.
  - destruct (Nat.eqb_spec r p) as [->|Hrp].
    + now rewrite list_lookup_insert_eq by (rewrite length_insert; lia).
    + rewrite !list_lookup_insert_ne by auto. now rewrite <- Hnth.
Qed.

Lemma entry_swap_rows (A : matrix) i p r c :
  (i < length A)%nat -> (p < length A)%nat ->
  entry (swap_rows A i p) r c
  = entry A (if Nat.eqb r i then p else if Nat.eqb r p then i else r) c.
Proof. intros Hi Hp. unfold entry. now rewrite nth_swap_rows. Qed.

Lemma entry_scale_row n i k (A : matrix) r c :
  (c < n)%nat ->
  entry (scale_row n i k A) r c
  = if Nat.eqb r i then entry A r c * k else entry A r c.
Proof.
  intros Hc. unfold entry at 1, scale_row.
  rewrite (nth_imap_default _ _ _ [] []).
  destruct (Nat.ltb_spec r (length A)) as [Hr|Hr].
  - destruct (Nat.eqb_spec r i) as [->|Hne]; [|reflexivity].
    rewrite (nth_imap_default _ _ _ 0 0).
    destruct (Nat.ltb_spec c (length (nth i A []))) as [Hl|Hl].
    + destruct (Nat.ltb_spec c n); [reflexivity|lia].
    + rewrite entry_out_of_row by exact Hl. lra.
  - rewrite entry_out_of_rows by exact Hr.
    destruct (Nat.eqb r i); destruct c; cbn; lra.
Qed.

Lemma entry_eliminate n i (F B : matrix) r c :
  (r < n)%nat -> (c < n)%nat -> (r < length B)%nat ->
  (c < length (nth r B []))%nat ->
  entry (eliminate n i F B) r c
  = if Nat.eqb r i then entry B r c
    else entry B r c - entry F r i * entry B i c.
Proof.
  intros Hr Hc HrB HcB. unfold entry at 1, eliminate.
  rewrite (nth_imap_default _ _ _ [] []).
  destruct (Nat.ltb_spec r (length B)); [|lia].
  destruct (Nat.eqb_spec r i) as [->|Hne]; [reflexivity|].
  destruct (Nat.ltb_spec r n); [|lia].
  rewrite (nth_imap_default _ _ _ 0 0).
  destruct (Nat.ltb_spec c (length (nth r B []))); [|lia].
  destruct (Nat.ltb_spec c n); [reflexivity|lia].
Qed.

Lemma square_swap_rows n (A : matrix) i p :
  (i < n)%nat -> (p < n)%nat -> square n A -> square n (swap_rows A i p).
Proof.
  intros Hi Hp [Hl Hrows]. split; [now rewrite length_swap_rows|].
  intros r Hr. rewrite nth_swap_rows by lia.
  apply Hrows. destruct (Nat.eqb r i); [lia|]. destruct (Nat.eqb r p); lia.
Qed.

Lemma square_scale_row n i k (A : matrix) : square n A -> square n (scale_row n i k A).
Proof.
  intros [Hl Hrows]. split; [now rewrite length_scale_row|].
  intros r Hr. unfold scale_row. rewrite (nth_imap_default _ _ _ [] []).
  destruct (Nat.ltb_spec r (length A)); [|lia].
  destruct (Nat.eqb r i); [rewrite length_imap'|]; now apply Hrows.
Qed.

Lemma square_eliminate n i (F B : matrix) : square n B -> square n (eliminate n i F B).
Proof.
  intros [Hl Hrows]. split; [now rewrite length_eliminate|].
  intros r Hr. unfold eliminate. rewrite (nth_imap_default _ _ _ [] []).
  destruct (Nat.ltb_spec r (length B)); [|lia].
  destruct (Nat.eqb r i); [now apply Hrows|].
  destruct (Nat.ltb_spec r n); [rewrite length_imap'|]; now apply Hrows.
Qed.

Lemma nth_map_seq {A} (f : nat -> A) n k d :
  (k < n)%nat -> nth k (map f (seq 0 n)) d = f k.
Proof.
  intros Hk. rewrite (nth_map_default f (seq 0 n) k 0%nat d).
  rewrite length_seq. destruct (Nat.ltb_spec k n); [|lia].
  now rewrite seq_nth.
Qed.

Lemma entry_identity n r c : (r < n)%nat -> (c < n)%nat -> entry (identity n) r c = delta r c.
Proof.
  intros Hr Hc. unfold entry, identity.
  rewrite (nth_map_seq _ n r []) by exact Hr. now rewrite nth_map_seq.
Qed.

Lemma square_identity n : square n (identity n).
Proof.
  split; [unfold identity; now rewrite length_map, length_seq|].
  intros r Hr. unfold identity. rewrite nth_map_seq by exact Hr.
  now rewrite length_map, length_seq.
Qed.

(** ** The invariant of the elimination *)

Lemma linked_swap n (M A J : matrix) i p :
  (i < n)%nat -> (p < n)%nat -> square n A -> square n J ->
  linked n M A J -> linked n M (swap_rows A i p) (swap_rows J i p).
Proof.
  intros Hi Hp [HA _] [HJ _] HL r c Hr Hc.
  rewrite entry_swap_rows by lia. unfold product_entry.
  rewrite (sum_below_ext n _
             (fun k => entry J (if Nat.eqb r i then p else if Nat.eqb r p then i else r) k
                       * entry M k c)).
  - apply HL; [|exact Hc]. destruct (Nat.eqb r i); [lia|]. destruct (Nat.eqb r p); lia.
  - intros k Hk. now rewrite entry_swap_rows by lia.
Qed.

Lemma linked_scale n (M A J : matrix) i k :
  linked n M A J -> linked n M (scale_row n i k A) (scale_row n i k J).
Proof.
  intros HL r c Hr Hc. rewrite entry_scale_row by exact Hc. unfold product_entry.
  destruct (Nat.eqb_spec r i) as [->|Hne].
  - rewrite (sum_below_ext n _ (fun j => entry J i j * entry M j c * k)).
    + rewrite sum_below_scal_r. f_equal. now apply HL.
    + intros j Hj. rewrite entry_scale_row by exact Hj. rewrite Nat.eqb_refl. lra.
  - rewrite (sum_below_ext n _ (fun j => entry J r j * entry M j c)).
    + now apply HL.
    + intros j Hj. rewrite entry_scale_row by exact Hj.
      destruct (Nat.eqb_spec r i); [contradiction|reflexivity].
Qed.

Lemma linked_eliminate n (M A J F : matrix) i :
  (i < n)%nat -> square n A -> square n J ->
  linked n M A J -> linked n M (eliminate n i F A) (eliminate n i F J).
Proof.
  intros Hi [HA HAr] [HJ HJr] HL r c Hr Hc.
  rewrite entry_eliminate by (rewrite ?HAr; lia). unfold product_entry.
  destruct (Nat.eqb_spec r i) as [->|Hne].
  - rewrite (sum_below_ext n _ (fun j => entry J i j * entry M j c)).
    + now apply HL.
    + intros j Hj. rewrite entry_eliminate by (rewrite ?HJr; lia).
      now rewrite Nat.eqb_refl.
  - rewrite (sum_below_ext n _
               (fun j => entry J r j * entry M j c
                         - entry F r i * (entry J i j * entry M j c))).
    + rewrite sum_below_minus, sum_below_scal_l.
      rewrite (HL r c Hr Hc), (HL i c Hi Hc). reflexivity.
    + intros j Hj. rewrite entry_eliminate by (rewrite ?HJr; lia).
      destruct (Nat.eqb_spec r i); [contradiction|]. lra.
Qed.

Lemma gauss_jordan_step_state n (M : matrix) i st st' :
  (i < n)%nat -> elimination_state n M i st ->
  gauss_jordan_step n st i = Ok st' ->
  elimination_state n M (S i) st'.
Proof.
  intros Hi (HsA & HsJ & HL & HC) Hstep. destruct st as [A J]. cbn [fst snd] in *.
  unfold gauss_jordan_step in Hstep. cbv zeta in Hstep.
  destruct (find_pivot_spec A i n Hi) as [Hp _].
  set (p := find_pivot A i n) in *.
  destruct (Rlt_dec (Rabs (entry A p i)) singular_eps) as [|Hbig]; [discriminate|].
  injection Hstep as <-. cbn [fst snd].
  assert (Hpiv : entry A p i <> 0).
  { intros E. apply Hbig. rewrite E, Rabs_R0. unfold singular_eps. lra. }
  assert (HlenA : length A = n) by apply HsA.
  set (A1 := swap_rows A i p). set (J1 := swap_rows J i p).
  assert (Ha1 : entry A1 i i = entry A p i).
  { unfold A1. rewrite entry_swap_rows by lia. now rewrite Nat.eqb_refl. }
  set (k := 1 / entry A1 i i).
  set (A2 := scale_row n i k A1). set (J2 := scale_row n i k J1).
  assert (HsA1 : square n A1) by (apply square_swap_rows; auto; lia).
  assert (HsJ1 : square n J1) by (apply square_swap_rows; auto; lia).
  assert (HsA2 : square n A2) by now apply square_scale_row.
  assert (HsJ2 : square n J2) by now apply square_scale_row.
  assert (HL1 : linked n M A1 J1) by (apply linked_swap; auto; lia).
  assert (HL2 : linked n M A2 J2) by now apply linked_scale.
  (* the first [i] columns after the swap and the scaling *)
  assert (HC1 : forall r c, (r < n)%nat -> (c < i)%nat -> entry A1 r c = delta r c).
  { intros r c Hr Hc. unfold A1. rewrite entry_swap_rows by lia.
    destruct (Nat.eqb_spec r i) as [->|Hri].
    - rewrite HC by lia. unfold delta.
      destruct (Nat.eqb_spec p c); [lia|]. destruct (Nat.eqb_spec i c); [lia|reflexivity].
    - destruct (Nat.eqb_spec r p) as [->|Hrp]; [|now apply HC].
      rewrite HC by lia. unfold delta.
      destruct (Nat.eqb_spec i c); [lia|]. destruct (Nat.eqb_spec p c); [lia|reflexivity]. }
  assert (HC2 : forall r c, (r < n)%nat -> (c < i)%nat -> entry A2 r c = delta r c).
  { intros r c Hr Hc. unfold A2. rewrite entry_scale_row by lia.
    destruct (Nat.eqb_spec r i) as [->|Hri]; [|now apply HC1].
    rewrite HC1 by lia. unfold delta. destruct (Nat.eqb_spec i c); [lia|lra]. }
  assert (Hone : entry A2 i i = 1).
  { unfold A2. rewrite entry_scale_row by lia. rewrite Nat.eqb_refl.
    unfold k. rewrite Ha1 in *. field. exact Hpiv. }
  split; [now apply square_eliminate|]. split; [now apply square_eliminate|].
  split; [now apply linked_eliminate|].
  intros r c Hr Hc.
  destruct HsA2 as [HlA2 HrA2]. cbn [fst snd].
  rewrite entry_eliminate by (rewrite ?HrA2; lia).
  destruct (Nat.eq_dec c i) as [->|Hci].
  - destruct (Nat.eqb_spec r i) as [->|Hri].
    + rewrite Hone. unfold delta. now rewrite Nat.eqb_refl.
    + rewrite Hone. unfold delta. destruct (Nat.eqb_spec r i); [contradiction|lra].
  - destruct (Nat.eqb_spec r i) as [->|Hri].
    + apply HC2; lia.
    + rewrite (HC2 r c), (HC2 i c) by lia. unfold delta at 2.
      destruct (Nat.eqb_spec i c); [lia|lra].
Qed.

Lemma elimination_state_start n (M : matrix) :
  square n M -> elimination_state n M 0 (M, identity n).
Proof.
  intros HM. split; [exact HM|]. split; [apply square_identity|]. split.
  - intros r c Hr Hc. cbn [fst snd]. unfold product_entry.
    rewrite (sum_below_ext n _ (fun k => delta r k * entry M k c)).
    + now rewrite sum_below_delta_l.
    + intros k Hk. now rewrite entry_identity.
  - intros r c _ Hc. lia.
Qed.

Lemma gauss_jordan_loop_state n (M : matrix) k : forall st,
  (k <= n)%nat -> square n M ->
  gauss_jordan_loop n (seq 0 k) (M, identity n) = Ok st ->
  elimination_state n M k st.
Proof.
  induction k as [|k IH]; intros st Hk HM Hrun.
  - cbn in Hrun. injection Hrun as <-. now apply elimination_state_start.
  - rewrite seq_S, gauss_jordan_loop_snoc in Hrun. cbn [Nat.add] in Hrun.
    destruct (gauss_jordan_loop n (seq 0 k) (M, identity n)) as [st0|] eqn:E;
      [|discriminate].
    cbn [rbind] in Hrun.
    apply (gauss_jordan_step_state n M k st0 st); [lia| |exact Hrun].
    apply IH; [lia|exact HM|reflexivity].
Qed.

(** What [_invSym] returns is a left inverse. *)
Lemma invSym_left_inverse (M Minv : matrix) :
  square (length M) M -> _invSym M = Ok Minv ->
  square (length M) Minv
  /\ forall r c, (r < length M)%nat -> (c < length M)%nat ->
       product_entry (length M) Minv M r c = delta r c.
Proof.
  intros HM Hinv. unfold _invSym in Hinv. cbv zeta in Hinv. rewrite map_id in Hinv.
  destruct (gauss_jordan_loop (length M) (seq 0 (length M)) (M, identity (length M)))
    as [[A J]|] eqn:E; [|discriminate].
  cbn [rbind snd] in Hinv. injection Hinv as <-.
  destruct (gauss_jordan_loop_state _ _ _ _ (Nat.le_refl _) HM E)
    as (_ & HsJ & HL & HC).
  cbn [fst snd] in *. split; [exact HsJ|].
  intros r c Hr Hc. rewrite <- HL by assumption. now apply HC.
Qed.

(** A left inverse of a symmetric matrix is symmetric, and a right inverse. *)
Lemma left_inverse_symmetric n (M J : matrix) :
  (forall r c, (r < n)%nat -> (c < n)%nat -> entry M r c = entry M c r) ->
  (forall r c, (r < n)%nat -> (c < n)%nat -> product_entry n J M r c = delta r c) ->
  (forall r c, (r < n)%nat -> (c < n)%nat -> entry J r c = entry J c r)
  /\ (forall r c, (r < n)%nat -> (c < n)%nat -> product_entry n M J r c = delta r c).
Proof.
  intros Hsym Hleft.
  (* M times the transpose of J is the identity *)
  assert (Hright' : forall r c, (r < n)%nat -> (c < n)%nat ->
             sum_below n (fun k => entry M r k * entry J c k) = delta r c).
  { intros r c Hr Hc. transitivity (product_entry n J M c r).
    - unfold product_entry. apply sum_below_ext. intros k Hk.
      rewrite (Hsym r k) by assumption. lra.
    - rewrite (Hleft c r Hc Hr). unfold delta. now rewrite Nat.eqb_sym. }
  assert (HJ : forall r c, (r < n)%nat -> (c < n)%nat -> entry J r c = entry J c r).
  { intros r c Hr Hc.
    rewrite <- (sum_below_delta_r n c (fun j => entry J r j) Hc).
    rewrite (sum_below_ext n _
               (fun j => sum_below n (fun k => entry J r j * entry M j k * entry J c k))).
    2:{ intros j Hj. rewrite <- (Hright' j c Hj Hc), <- sum_below_scal_l.
        apply sum_below_ext. intros k _. lra. }
    rewrite sum_below_swap.
    rewrite (sum_below_ext n _ (fun k => delta r k * entry J c k)).
    2:{ intros k Hk. rewrite <- (Hleft r k Hr Hk). unfold product_entry.
        now rewrite sum_below_scal_r. }
    now rewrite sum_below_delta_l. }
  split; [exact HJ|].
  intros r c Hr Hc. rewrite <- (Hright' r c Hr Hc). unfold product_entry.
  apply sum_below_ext. intros k Hk. now rewrite (HJ k c).
Qed.

(** ** The products as lists *)

Lemma hd_nth_0 {A} (l : list A) d : hd d l = nth 0 l d.
Proof. now destruct l. Qed.

Lemma length_transpose (A : matrix) : length (_transpose A) = length (hd [] A).
Proof. apply length_imap'. Qed.

Lemma nth_transpose (A : matrix) i :
  (i < length (hd [] A))%nat ->
  nth i (_transpose A) [] = map (fun r => nth i r 0) A.
Proof.
  intros Hi. unfold _transpose. rewrite (nth_imap_default _ _ _ 0 []).
  destruct (Nat.ltb_spec i (length (hd [] A))); [reflexivity|lia].
Qed.

Lemma entry_transpose (A : matrix) i k :
  (i < length (hd [] A))%nat -> entry (_transpose A) i k = entry A k i.
Proof.
  intros Hi. unfold entry at 1. rewrite nth_transpose by exact Hi.
  rewrite (nth_map_default _ _ _ [] 0).
  destruct (Nat.ltb_spec k (length A)); [reflexivity|].
  now rewrite entry_out_of_rows.
Qed.

Lemma length_matMul (A B : matrix) : length (_matMul A B) = length A.
Proof. apply length_imap'. Qed.

Lemma nth_matMul (A B : matrix) r :
  (r < length A)%nat ->
  nth r (_matMul A B) []
  = imap (fun j _ => reduce (fun s _ k => s + entry A r k * entry B k j) (nth r A []) 0)
         (hd [] B).
Proof.
  intros Hr. unfold _matMul. rewrite (nth_imap_default _ _ _ [] []).
  destruct (Nat.ltb_spec r (length A)); [reflexivity|lia].
Qed.

Lemma entry_matMul (A B : matrix) r c :
  (r < length A)%nat -> (c < length (hd [] B))%nat ->
  entry (_matMul A B) r c
  = sum_below (length (nth r A [])) (fun k => entry A r k * entry B k c).
Proof.
  intros Hr Hc. unfold entry at 1. rewrite nth_matMul by exact Hr.
  rewrite (nth_imap_default _ _ _ 0 0).
  destruct (Nat.ltb_spec c (length (hd [] B))); [|lia].
  apply reduce_sum.
Qed.

Lemma length_matVec (A : matrix) v : length (_matVec A v) = length A.
Proof. apply length_map. Qed.

Lemma nth_matVec (A : matrix) v r :
  (r < length A)%nat ->
  nth r (_matVec A v) 0
  = sum_below (length (nth r A [])) (fun j => entry A r j * nth j v 0).
Proof.
  intros Hr. unfold _matVec. rewrite (nth_map_default _ _ _ [] 0).
  destruct (Nat.ltb_spec r (length A)); [|lia].
  apply (reduce_sum (fun j => nth j (nth r A []) 0 * nth j v 0)).
Qed.

Lemma list_ext_nth {A} (d : A) (l1 l2 : list A) :
  length l1 = length l2 ->
  (forall k, (k < length l1)%nat -> nth k l1 d = nth k l2 d) -> l1 = l2.
Proof.
  revert l2. induction l1 as [|a l1 IH]; intros [|b l2] Hl H; try discriminate; auto.
  f_equal.
  - apply (H 0%nat). cbn. lia.
  - apply IH; [cbn in Hl; lia|]. intros k Hk. apply (H (S k)). cbn. lia.
Qed.

Lemma matrix_ext n (A B : matrix) :
  square n A -> square n B ->
  (forall r c, (r < n)%nat -> (c < n)%nat -> entry A r c = entry B r c) -> A = B.
Proof.
  intros [HA HAr] [HB HBr] H. apply (list_ext_nth []); [congruence|].
  intros r Hr. rewrite HA in Hr. apply (list_ext_nth 0).
  - rewrite HAr, HBr; auto.
  - intros c Hc. rewrite HAr in Hc by exact Hr. now apply H.
Qed.

Lemma square_matMul n (A B : matrix) :
  square n A -> square n B -> square n (_matMul A B).
Proof.
  intros [HA HAr] [HB HBr]. split; [now rewrite length_matMul|].
  intros r Hr. rewrite nth_matMul by lia. rewrite length_imap', hd_nth_0.
  apply HBr. lia.
Qed.

Lemma matMul_product n (A B : matrix) r c :
  square n A -> square n B -> (r < n)%nat -> (c < n)%nat ->
  entry (_matMul A B) r c = product_entry n A B r c.
Proof.
  intros [HA HAr] [HB HBr] Hr Hc.
  rewrite entry_matMul by (rewrite ?hd_nth_0, ?HBr; lia).
  now rewrite HAr.
Qed.

(** On a square matrix [_invSym] returns the matrix whose product with the
    argument is the identity. *)
Lemma invSym_inverse (M Minv : matrix) :
  square (length M) M -> _invSym M = Ok Minv ->
  _matMul Minv M = identity (length M).
Proof.
  intros HM Hinv. destruct (invSym_left_inverse M Minv HM Hinv) as [Hs Hleft].
  apply (matrix_ext (length M)).
  - now apply square_matMul.
  - apply square_identity.
  - intros r c Hr Hc. rewrite (matMul_product (length M)), entry_identity by assumption.
    now apply Hleft.
Qed.

(** ** The trainer *)

Lemma rows_cols_standardized m n (X : matrix) :
  rows_cols m n X -> rows_cols m n (standardized_x X n).
Proof.
  intros [HX HXr]. unfold standardized_x. split; [now rewrite length_map|].
  intros r Hr. rewrite (nth_map_default _ _ _ [] []).
  destruct (Nat.ltb_spec r (length X)); [|lia].
  unfold standardize. rewrite length_imap'. now apply HXr.
Qed.

Lemma normal_matrix m n (xN : matrix) :
  rows_cols m n xN -> (1 <= m)%nat ->
  let XTX := _matMul (_transpose xN) xN in
  square n XTX
  /\ (forall r c, (r < n)%nat -> (c < n)%nat ->
        entry XTX r c = sum_below m (fun k => entry xN k r * entry xN k c))
  /\ (forall yN r, (r < n)%nat ->
        nth r (_matVec (_transpose xN) yN) 0
        = sum_below m (fun k => entry xN k r * nth k yN 0)).
Proof.
  intros [Hm Hrows] Hm1 XTX.
  assert (Hhd : length (hd [] xN) = n).
  { rewrite hd_nth_0. apply Hrows. lia. }
  assert (HlT : length (_transpose xN) = n) by now rewrite length_transpose.
  assert (HrT : forall i, (i < n)%nat -> length (nth i (_transpose xN) []) = m).
  { intros i Hi. rewrite nth_transpose by lia. now rewrite length_map. }
  split; [|split].
  - split; [unfold XTX; now rewrite length_matMul|].
    intros r Hr. unfold XTX. rewrite nth_matMul by lia. now rewrite length_imap'.
  - intros r c Hr Hc. unfold XTX. rewrite entry_matMul by lia.
    rewrite HrT by exact Hr. apply sum_below_ext. intros k _.
    now rewrite entry_transpose by lia.
  - intros yN r Hr. rewrite nth_matVec by lia. rewrite HrT by exact Hr.
    apply sum_below_ext. intros k _. now rewrite entry_transpose by lia.
Qed.

(** The weights of the linear baseline solve the normal equations. *)
Lemma linear_weights_normal m n (xN : matrix) yN w :
  rows_cols m n xN -> (1 <= m)%nat ->
  linear_weights xN yN = Ok w ->
  let XTX := _matMul (_transpose xN) xN in
  let XTy := _matVec (_transpose xN) yN in
  exists XTXinv,
    _invSym XTX = Ok XTXinv
    /\ _matMul XTXinv XTX = identity n
    /\ w = _matVec XTXinv XTy
    /\ length w = n
    /\ forall r, (r < n)%nat -> apply_entry n XTX w r = nth r XTy 0.
Proof.
  intros Hx Hm1 Hw XTX XTy.
  destruct (normal_matrix m n xN Hx Hm1) as (Hsq & Hent & _). fold XTX in Hsq, Hent.
  unfold linear_weights in Hw. cbv zeta in Hw. fold XTX XTy in Hw.
  destruct (_invSym XTX) as [inv|] eqn:Hinv; [|discriminate].
  cbn [rbind] in Hw. injection Hw as <-.
  assert (Hn : length XTX = n) by apply Hsq.
  rewrite <- Hn in Hsq.
  destruct (invSym_left_inverse XTX inv Hsq Hinv) as [Hsi Hleft].
  pose proof (invSym_inverse XTX inv Hsq Hinv) as Hid.
  rewrite Hn in *.
  assert (Hsym : forall r c, (r < n)%nat -> (c < n)%nat -> entry XTX r c = entry XTX c r).
  { intros r c Hr Hc. rewrite !Hent by assumption. apply sum_below_ext.
    intros k _. lra. }
  destruct (left_inverse_symmetric n XTX inv Hsym Hleft) as [_ Hright].
  exists inv. split; [reflexivity|]. split; [exact Hid|]. split; [reflexivity|].
  destruct Hsi as [Hli Hri].
  split; [now rewrite length_matVec|].
  intros r Hr. unfold apply_entry.
  rewrite (sum_below_ext n _
             (fun c => sum_below n (fun j => entry XTX r c * entry inv c j * nth j XTy 0))).
  2:{ intros c Hc. rewrite nth_matVec by lia. rewrite Hri by exact Hc.
      rewrite <- sum_below_scal_l. apply sum_below_ext. intros j _. lra. }
  rewrite sum_below_swap.
  rewrite (sum_below_ext n _ (fun j => delta r j * nth j XTy 0)).
  2:{ intros j Hj. rewrite <- (Hright r j Hr Hj). unfold product_entry.
      now rewrite sum_below_scal_r. }
  now rewrite sum_below_delta_l.
Qed.

Lemma fold_left_plus_map {A} (f : A -> R) l : forall a,
  fold_left (fun a b => a + f b) l a = fold_left Rplus (map f l) a.
Proof. induction l as [|b l IH]; intros a; cbn; auto. Qed.

(** With two values or more the deviation is the sample standard deviation
    (denominator [n - 1]) unless it is 0, where it is 1. *)
Lemma column_sd_sample col :
  (2 <= length col)%nat ->
  column_sd col
  = sqrt_or_1 (sum (map (fun b => (b - column_mean col) * (b - column_mean col)) col)
               / (INR (length col) - 1)).
Proof.
  intros Hn. unfold column_sd. cbv zeta. rewrite fold_left_plus_map.
  replace (Nat.max 1 (length col - 1)) with (length col - 1)%nat by lia.
  rewrite minus_INR by lia. reflexivity.
Qed.

Lemma column_sd_constant c col :
  (forall b, In b col -> b = c) -> column_sd col = 1.
Proof.
  intros Hc. unfold column_sd. cbv zeta.
  assert (Hz : fold_left (fun a b => a + (b - column_mean col) * (b - column_mean col))
                 col 0 = 0).
  { destruct col as [|b0 col]; [reflexivity|].
    rewrite (column_mean_constant c) by (auto; discriminate).
    rewrite fold_left_plus_map.
    rewrite (sum_from_constant 0).
    - lra.
    - intros b Hb. apply in_map_iff in Hb as (b' & <- & Hb').
      rewrite (Hc b' Hb'). lra. }
  rewrite Hz. unfold Rdiv. rewrite Rmult_0_l. unfold sqrt_or_1.
  rewrite sqrt_0. destruct Req_dec_T; [reflexivity|contradiction].
Qed.

Lemma reduce_from_elements {A} (h : A -> nat -> R) d (l : list A) : forall k a,
  reduce_from (fun s b j => s + h b j) k l a
  = a + sum_below (length l) (fun j => h (nth j l d) (k + j)%nat).
Proof.
  induction l as [|b l IH]; intros k a; cbn [reduce_from length].
  - cbn. lra.
  - rewrite IH.
    assert (Hs : forall n (g : nat -> R), sum_below (S n) g
                 = g 0%nat + sum_below n (fun j => g (S j))).
    { clear. induction n as [|n IHn]; intros g; cbn [sum_below]; [lra|].
      rewrite <- Rplus_assoc. rewrite <- (IHn g). cbn [sum_below]. lra. }
    rewrite (Hs (length l)). cbn [nth]. rewrite Nat.add_0_r.
    rewrite (sum_below_ext _ (fun j => h (nth j l d) (S k + j)%nat)
                             (fun j => h (nth j l d) (k + S j)%nat)).
    + lra.
    + intros j _. f_equal. lia.
Qed.

(** [infer] of the linear baseline: standardize, apply [w], un-standardize. *)
Lemma linear_infer_value mu sig w yMu ySig row :
  linear_infer mu sig w yMu ySig row
  = sum_below (length row)
      (fun j => (nth j row 0 - nth j mu 0) / nth j sig 0 * nth j w 0) * ySig + yMu.
Proof.
  unfold linear_infer. cbv zeta. f_equal. f_equal. unfold reduce.
  rewrite (reduce_from_elements (fun b j => b * nth j w 0) 0).
  rewrite Rplus_0_l. unfold standardize. rewrite length_imap'.
  apply sum_below_ext. intros j Hj. cbn [Nat.add].
  rewrite (nth_imap_default _ _ _ 0 0).
  destruct (Nat.ltb_spec j (length row)); [reflexivity|lia].
Qed.

Lemma trainModel_throws ds cfg X0 rest e :
  x ds = X0 :: rest ->
  _trainModel None ds cfg = Throw e
  <-> _invSym (_matMul (_transpose (standardized_x (x ds) (length X0)))
                       (standardized_x (x ds) (length X0))) = Throw e.
Proof.
  intros HX. rewrite (trainModel_linear _ _ _ _ HX). unfold linear_weights. cbv zeta.
  destruct (_invSym _) as [inv|e']; cbn [rbind]; split; congruence.
Qed.

Lemma entry_standardized (X : matrix) cols k j :
  (k < length X)%nat -> (j < length (nth k X []))%nat ->
  entry (standardized_x X cols) k j
  = (entry X k j - nth j (feature_mu X cols) 0) / nth j (feature_sig X cols) 0.
Proof.
  intros Hk Hj. unfold entry at 1, standardized_x.
  rewrite (nth_map_default _ _ _ [] []).
  destruct (Nat.ltb_spec k (length X)); [|lia].
  unfold standardize. rewrite (nth_imap_default _ _ _ 0 0).
  destruct (Nat.ltb_spec j (length (nth k X []))); [reflexivity|lia].
Qed.

Lemma column_mean_012 : column_mean [0; 1; 2] = 1.
Proof. unfold column_mean, sum. cbn. lra. Qed.

Lemma column_sd_012 : column_sd [0; 1; 2] = 1.
Proof.
  unfold column_sd. cbv zeta. rewrite column_mean_012. cbn [fold_left length Nat.sub Nat.max INR].
  replace ((0 + (0 - 1) * (0 - 1) + (1 - 1) * (1 - 1) + (2 - 1) * (2 - 1)) / (1 + 1))
    with 1 by lra.
  unfold sqrt_or_1. rewrite sqrt_1. destruct Req_dec_T; lra.
Qed.

Lemma three_points_fit cfg e : _trainModel None three_points cfg <> Throw e.
Proof.
  intros E. apply (trainModel_throws _ _ [0] [[1]; [2]]) in E; [|reflexivity].
  apply invSym_fails in E as (i & A & J & Hi & Hreach & Hlt & _).
  change (length [0]) with 1%nat in *.
  set (XTX := _matMul (_transpose (standardized_x (x three_points) 1))
                      (standardized_x (x three_points) 1)) in *.
  assert (Hl : length XTX = 1%nat).
  { unfold XTX. rewrite length_matMul, length_transpose. reflexivity. }
  rewrite Hl in *. assert (i = 0%nat) by lia. subst i.
  cbn in Hreach. injection Hreach as <- _.
  unfold find_pivot in Hlt. cbn [Nat.sub seq fold_left] in Hlt.
  rewrite column_mean_012, column_sd_012 in Hlt. unfold entry in Hlt.
  cbn [nth] in Hlt.
  match type of Hlt with Rabs ?v < _ => replace v with 2 in Hlt by lra end.
  rewrite Rabs_pos_eq in Hlt by lra. unfold singular_eps in Hlt. lra.
Qed.

End LinearFacts.

(** ** Calendar dates and their strings *)

Module CalendarFacts.
Import JSDate JSDateFacts HelperFacts ForecastManager SpecWords DatasetFacts JSString.
Local Open Scope Z_scope.

Lemma MakeDay_month_date y m d :
  0 <= m <= 11 -> 1 <= d <= DaysInMonth y m ->
  MonthFromTime (MakeDay y m d * msPerDay) = m /\
  DateFromTime (MakeDay y m d * msPerDay) = d.
Proof.
  intros Hm Hd.
  pose proof (MakeDay_in_year y m d Hm Hd) as Hin.
  pose proof (YearFromDay_unique _ _ Hin) as Hy.
  assert (Hcases : m = 0 \/ m = 1 \/ m = 2 \/ m = 3 \/ m = 4 \/ m = 5 \/ m = 6
                   \/ m = 7 \/ m = 8 \/ m = 9 \/ m = 10 \/ m = 11) by lia.
  assert (HM : MonthFromTime (MakeDay y m d * msPerDay) = m).
  { unfold MonthFromTime, DayWithinYear, InLeapYear.
    rewrite YearFromTime_midnight, Day_midnight, Hy.
    unfold MakeDay. rewrite (Z.div_small m 12), (Z.mod_small m 12), Z.add_0_r by lia.
    unfold DaysInMonth in Hd. unfold MonthFromDayWithinYear.
    destruct (DaysInYear_cases y) as [Hl | Hl]; rewrite Hl in *;
      cbn [Z.eqb Pos.eqb] in *;
      repeat (destruct Hcases as [-> | Hcases]); try subst m;
      cbn in Hd |- *;
      repeat match goal with
             | |- context [?a <? ?b] => destruct (Z.ltb_spec a b); try lia
             end. }
  split; [exact HM|].
  unfold DateFromTime. rewrite HM. unfold DayWithinYear, InLeapYear.
  rewrite YearFromTime_midnight, Day_midnight, Hy.
  unfold MakeDay. rewrite (Z.div_small m 12), (Z.mod_small m 12), Z.add_0_r by lia.
  lia.
Qed.

Lemma digit_val_inv c k : digit_val c = Some k -> c = digit k.
Proof.
  unfold digit_val, digit.
  destruct (Z.leb_spec 48 (Z.of_nat (nat_of_ascii c))); [|discriminate].
  destruct (Z.leb_spec (Z.of_nat (nat_of_ascii c)) 57); [|discriminate].
  cbn [andb]. intros [= <-].
  rewrite Z.mod_small by lia.
  replace (48 + (Z.of_nat (nat_of_ascii c) - 48)) with (Z.of_nat (nat_of_ascii c)) by lia.
  now rewrite Nat2Z.id, ascii_nat_embedding.
Qed.

Lemma digit_mod a b : a mod 10 = b mod 10 -> digit a = digit b.
Proof. unfold digit. now intros ->. Qed.

Lemma parse_date_only_inv s y m d :
  parse_date_only s = Some (y, m, d) ->
  s = (pad4 y ++ "-" ++ pad2 m ++ "-" ++ pad2 d)%string.
Proof.
  unfold parse_date_only.
  do 10 (destruct s as [|? s]; [discriminate|]).
  destruct s; [|discriminate].
  cbn [list_ascii_of_string].
  destruct (Ascii.eqb_spec a3 "-"); [|discriminate].
  destruct (Ascii.eqb_spec a6 "-"); [|discriminate].
  cbn [andb]. subst.
  destruct (digit_val a) as [k0|] eqn:H0; [|discriminate].
  destruct (digit_val a0) as [k1|] eqn:H1; [|discriminate].
  destruct (digit_val a1) as [k2|] eqn:H2; [|discriminate].
  destruct (digit_val a2) as [k3|] eqn:H3; [|discriminate].
  destruct (digit_val a4) as [k4|] eqn:H4; [|discriminate].
  destruct (digit_val a5) as [k5|] eqn:H5; [|discriminate].
  destruct (digit_val a7) as [k6|] eqn:H6; [|discriminate].
  destruct (digit_val a8) as [k7|] eqn:H7; [|discriminate].
  rewrite !bind_Some. intros H. injection H as <- <- <-.
  repeat match goal with
         | H : digit_val _ = Some _ |- _ =>
             pose proof (digit_val_range _ _ H); apply digit_val_inv in H; subst
         end.
  lazy [pad4 pad3 pad2 String.append].
  repeat (f_equal; try (apply digit_mod; Z.div_mod_to_equations; lia)).
Qed.

Lemma length_substring s : forall n m,
  String.length (substring n m s) = Nat.min m (String.length s - n).
Proof.
  induction s as [|c s IH]; intros n m.
  - destruct n, m; reflexivity.
  - destruct n as [|n].
    + destruct m as [|m]; [reflexivity|]. cbn. now rewrite IH, Nat.sub_0_r.
    + cbn. apply IH.
Qed.

Lemma length_append' s1 s2 :
  String.length (s1 ++ s2) = (String.length s1 + String.length s2)%nat.
Proof.
  induction s1 as [|c s1 IH]; [reflexivity|].
  change (S (String.length (s1 ++ s2)) = S (String.length s1 + String.length s2)).
  now rewrite IH.
Qed.

Lemma iso_date_length s n : iso_date s n -> String.length s = 10%nat.
Proof.
  unfold iso_date, Date_parse.
  destruct (String.eqb_spec
              (substring 10 (String.length (s ++ "T00:00:00Z") - 10) (s ++ "T00:00:00Z"))
              "T00:00:00Z") as [He|]; [|discriminate].
  intros _. apply (f_equal String.length) in He.
  rewrite length_substring, length_append' in He.
  cbn [String.length] in He. lia.
Qed.

Lemma iso_date_canonical s n : iso_date s n -> s = iso_of_day n.
Proof.
  intros Hs. pose proof (iso_date_length _ _ Hs) as Hlen.
  pose proof Hs as Hs'. unfold iso_date, Date_parse in Hs.
  destruct (String.eqb _ _); [|discriminate].
  assert (Hsub : substring 0 10 (s ++ "T00:00:00Z") = s).
  { do 10 (destruct s as [|? s]; [discriminate|]).
    destruct s; [reflexivity|discriminate]. }
  rewrite Hsub in Hs.
  destruct (parse_date_only s) as [[[y m] d]|] eqn:Hp; [|discriminate].
  rewrite bind_Some in Hs.
  destruct (Z.leb_spec 1 m); [|discriminate].
  destruct (Z.leb_spec m 12); [|discriminate].
  destruct (Z.leb_spec 1 d); [|discriminate].
  destruct (Z.leb_spec d (DaysInMonth y (m - 1))); [|discriminate].
  cbn [andb] in Hs. apply TimeClip_Some in Hs.
  rewrite MakeDate_midnight in Hs.
  assert (Hn : n = MakeDay y (m - 1) d) by (unfold msPerDay in Hs; lia).
  destruct (MakeDay_month_date y (m - 1) d) as [HM HD]; [lia|lia|].
  assert (Hy : YearFromDay n = y).
  { apply YearFromDay_unique. rewrite Hn. apply MakeDay_in_year; lia. }
  unfold iso_of_day. rewrite Hy, Hn, HM, HD.
  replace (m - 1 + 1) with m by lia.
  now apply parse_date_only_inv.
Qed.

Lemma doyToDate_day year doy :
  let n := DayFromYear year + (doy - 1) in
  100 <= year <= 9999 -> 0 <= YearFromDay n <= 9999 ->
  _doyToDate year doy = Ok (iso_of_day n).
Proof.
  cbv zeta. intros Hyear Hy.
  pose proof (year_range_day _ Hy) as Hn.
  assert (Hfull : MakeFullYear year = year) by (apply MakeFullYear_id; lia).
  assert (Hjan : -719528 <= DayFromYear year <= 2932897).
  { change (-719528) with (DayFromYear 0). change 2932897 with (DayFromYear 10000).
    split; apply DayFromYear_le; lia. }
  rewrite <- doyToDate_same. unfold Utils.doyToDate. cbv zeta.
  rewrite Date_UTC_first, Hfull, TimeClip_small by (unfold msPerDay; lia).
  rewrite setUTCDate_first, TimeClip_small by (unfold msPerDay; lia).
  replace (DayFromYear year + doy - 1) with (DayFromYear year + (doy - 1)) by lia.
  apply (iso_of_midnight _ Hy).
Qed.

Lemma day_in_year year doy :
  1 <= doy <= DaysInYear year ->
  YearFromDay (DayFromYear year + (doy - 1)) = year.
Proof.
  intros H. apply YearFromDay_unique. rewrite DayFromYear_succ. lia.
Qed.

Lemma doy_roundtrip year doy :
  100 <= year <= 9999 -> 1 <= doy <= DaysInYear year ->
  exists iso,
    _doyToDate year doy = Ok iso /\ _doy iso = Some doy
    /\ iso_date iso (DayFromYear year + (doy - 1)).
Proof.
  intros Hyear Hdoy.
  pose proof (day_in_year year doy Hdoy) as Hy.
  exists (iso_of_day (DayFromYear year + (doy - 1))).
  assert (Hd : iso_date (iso_of_day (DayFromYear year + (doy - 1)))
                        (DayFromYear year + (doy - 1))).
  { apply iso_of_day_date. lia. }
  split; [apply doyToDate_day; lia|]. split; [|exact Hd].
  rewrite (doy_of_iso_date _ _ Hd) by lia.
  unfold day_of_year. rewrite Hy. f_equal. lia.
Qed.

Lemma date_roundtrip s n :
  iso_date s n -> 100 <= YearFromDay n ->
  exists doy, _doy s = Some doy /\ 1 <= doy <= DaysInYear (YearFromDay n)
              /\ _doyToDate (YearFromDay n) doy = Ok s.
Proof.
  intros Hs Hy. pose proof (iso_date_year _ _ Hs) as Hy'.
  exists (day_of_year n). split; [now apply doy_of_iso_date|].
  pose proof (YearFromDay_spec n) as Hspec. rewrite DayFromYear_succ in Hspec.
  split; [unfold day_of_year; lia|].
  rewrite (iso_date_canonical _ _ Hs).
  rewrite doyToDate_day; unfold day_of_year.
  - f_equal. f_equal. lia.
  - lia.
  - replace (DayFromYear (YearFromDay n) + (n - DayFromYear (YearFromDay n) + 1 - 1)) with n by lia.
    lia.
Qed.

Lemma decimal_small k n acc :
  0 <= n < 10 -> decimal (S k) n acc = String (digit n) acc.
Proof. intros H. cbn [decimal]. destruct (Z.ltb_spec n 10); [reflexivity|lia]. Qed.

Lemma decimal_large k n acc :
  10 <= n -> decimal (S k) n acc = decimal k (n / 10) (String (digit n) acc).
Proof. intros H. cbn [decimal]. destruct (Z.ltb_spec n 10); [lia|reflexivity]. Qed.

Lemma Number_toString_1 n : 0 <= n < 10 -> Number_toString n = String (digit n) "".
Proof.
  intros H. unfold Number_toString. destruct (Z.ltb_spec n 0); [lia|].
  now apply decimal_small.
Qed.

Lemma Number_toString_2 n : 10 <= n < 100 -> Number_toString n = pad2 n.
Proof.
  intros H. unfold Number_toString. destruct (Z.ltb_spec n 0); [lia|].
  assert (Hl : 3 <= Z.log2 n) by (apply Z.log2_le_pow2; lia).
  destruct (Z.to_nat (Z.log2 n)) as [|k] eqn:Hk; [lia|].
  rewrite decimal_large, decimal_small by (Z.div_mod_to_equations; lia).
  reflexivity.
Qed.

Lemma Number_toString_4 n : 1000 <= n <= 9999 -> Number_toString n = pad4 n.
Proof.
  intros H. unfold Number_toString. destruct (Z.ltb_spec n 0); [lia|].
  assert (Hl : 9 <= Z.log2 n) by (apply Z.log2_le_pow2; lia).
  destruct (Z.to_nat (Z.log2 n)) as [|[|[|k]]] eqn:Hk; try lia.
  rewrite !decimal_large, decimal_small by (Z.div_mod_to_equations; lia).
  unfold pad4, pad3, pad2. rewrite !Z.div_div by lia. reflexivity.
Qed.

Lemma padStart2_pad2 n : 0 <= n < 100 -> padStart2 (Number_toString n) = pad2 n.
Proof.
  intros H. destruct (Z.lt_ge_cases n 10).
  - rewrite Number_toString_1 by lia. unfold padStart2, pad2.
    rewrite (Z.div_small n 10) by lia. reflexivity.
  - rewrite Number_toString_2 by lia. reflexivity.
Qed.

Lemma digit_not_dash k : Ascii.eqb (digit k) "-" = false.
Proof.
  destruct (Ascii.eqb_spec (digit k) "-") as [He|]; [|reflexivity].
  pose proof (digit_val_digit k) as Hd. rewrite He in Hd. discriminate.
Qed.

Lemma remove_dashes_date y m d :
  remove_dashes (pad4 y ++ "-" ++ pad2 m ++ "-" ++ pad2 d)
  = (pad4 y ++ pad2 m ++ pad2 d)%string.
Proof.
  lazy [pad4 pad3 pad2 String.append remove_dashes].
  rewrite !digit_not_dash. reflexivity.
Qed.

Lemma ymd_day n :
  1000 <= YearFromDay n <= 9999 ->
  _ymd (Some (n * msPerDay)) = remove_dashes (iso_of_day n).
Proof.
  intros Hy. unfold _ymd, iso_of_day.
  pose proof (MonthFromTime_range (n * msPerDay)).
  pose proof (DateFromTime_range (n * msPerDay)).
  pose proof (DaysInMonth_le_31 (YearFromTime (n * msPerDay)) (MonthFromTime (n * msPerDay))).
  rewrite remove_dashes_date, YearFromTime_midnight.
  rewrite (Number_toString_4 (YearFromDay n)), !padStart2_pad2 by lia. reflexivity.
Qed.

Lemma ymd_date s n :
  iso_date s n -> 1000 <= YearFromDay n ->
  _ymd (Date_parse (s ++ "T00:00:00Z")) = remove_dashes s.
Proof.
  intros Hs Hy. pose proof (iso_date_year _ _ Hs).
  rewrite (iso_date_canonical _ _ Hs) at 2. unfold iso_date in Hs. rewrite Hs.
  apply ymd_day. lia.
Qed.

(** [_toISO] *)

Lemma is_digit_digit k : is_digit (digit k) = true.
Proof. unfold is_digit. now rewrite digit_val_digit. Qed.

Lemma digits_Z_pad4 y : 0 <= y <= 9999 ->
  digits_Z [digit (y / 1000); digit (y / 100); digit (y / 10); digit y] = y.
Proof.
  intros H. unfold digits_Z. cbn [fold_left]. rewrite !digit_val_digit.
  cbv [default from_option id Datatypes.id]. Z.div_mod_to_equations. lia.
Qed.

Lemma digits_Z_pad3 y : 0 <= y <= 999 ->
  digits_Z [digit (y / 100); digit (y / 10); digit y] = y.
Proof.
  intros H. unfold digits_Z. cbn [fold_left]. rewrite !digit_val_digit.
  cbv [default from_option id Datatypes.id]. Z.div_mod_to_equations. lia.
Qed.

Lemma toISO_doy_token has y doy :
  0 <= y <= 9999 -> 0 <= doy <= 999 ->
  _toISO has (pad4 y ++ "-" ++ pad3 doy)
  = let! iso := _doyToDate y doy in Ok (Some iso).
Proof.
  intros Hy Hd. rewrite (toISO_same has false).
  unfold _toISO.
  replace (list_ascii_of_string (pad4 y ++ "-" ++ pad3 doy))
    with [digit (y / 1000); digit (y / 100); digit (y / 10); digit y; "-"%char;
          digit (doy / 100); digit (doy / 10); digit doy] by reflexivity.
  cbn [forallb]. rewrite !is_digit_digit. cbn [andb Ascii.eqb Bool.eqb].
  now rewrite digits_Z_pad4, digits_Z_pad3.
Qed.

Lemma toISO_date has n : _toISO has (iso_of_day n) = Ok (Some (iso_of_day n)).
Proof.
  unfold _toISO.
  set (s := iso_of_day n).
  replace (list_ascii_of_string s)
    with [digit (YearFromDay n / 1000); digit (YearFromDay n / 100);
          digit (YearFromDay n / 10); digit (YearFromDay n); "-"%char;
          digit ((MonthFromTime (n * msPerDay) + 1) / 10);
          digit (MonthFromTime (n * msPerDay) + 1); "-"%char;
          digit (DateFromTime (n * msPerDay) / 10);
          digit (DateFromTime (n * msPerDay))] by reflexivity.
  cbn [forallb]. rewrite !is_digit_digit. reflexivity.
Qed.

Lemma digits_Z_range l : Forall (fun c => is_digit c = true) l ->
  0 <= digits_Z l < 10 ^ Z.of_nat (length l).
Proof.
  unfold digits_Z. induction l as [|c l IH] using rev_ind; intros H.
  - cbn. lia.
  - apply Forall_app in H as [Hl Hc]. specialize (IH Hl).
    inversion Hc as [|? ? Hd _]; subst.
    unfold is_digit in Hd. destruct (digit_val c) as [k|] eqn:Hk; [|discriminate].
    pose proof (digit_val_range _ _ Hk) as Hr.
    rewrite fold_left_app, length_app. cbn [fold_left length]. rewrite Hk.
    set (v := fold_left _ l 0) in *.
    change (default 0 (Some k)) with k.
    replace (Z.of_nat (length l + 1)) with (Z.succ (Z.of_nat (length l))) by lia.
    rewrite Z.pow_succ_r by lia. lia.
Qed.

Lemma doyToDate_total year doy :
  0 <= year <= 9999 -> 0 <= doy <= 999 -> exists iso, _doyToDate year doy = Ok iso.
Proof.
  intros Hy Hd.
  assert (Hfull : 100 <= MakeFullYear year <= 9999).
  { unfold MakeFullYear. destruct (Z.leb_spec 0 year), (Z.leb_spec year 99); cbn; lia. }
  assert (Hjan : -719528 <= DayFromYear (MakeFullYear year) <= 2932897).
  { change (-719528) with (DayFromYear 0). change 2932897 with (DayFromYear 10000).
    split; apply DayFromYear_le; lia. }
  rewrite <- doyToDate_same. unfold Utils.doyToDate. cbv zeta.
  rewrite Date_UTC_first, TimeClip_small by (unfold msPerDay; lia).
  rewrite setUTCDate_first, TimeClip_small by (unfold msPerDay; lia).
  cbn [toISOString rbind]. eexists. reflexivity.
Qed.

Lemma toISO_total has token : exists r, _toISO has token = Ok r.
Proof.
  rewrite (toISO_same has false). unfold _toISO.
  destruct (list_ascii_of_string token) as [|a [|b [|c [|d [|h [|e [|f [|g [|i [|j [|k l]]]]]]]]]]];
    try (eexists; reflexivity).
  - destruct (forallb is_digit [a; b; c; d; e; f; g] && Ascii.eqb h "-") eqn:Hm;
      [|eexists; reflexivity].
    apply andb_true_iff in Hm as [Hm _]. rewrite forallb_forall in Hm.
    destruct (doyToDate_total (digits_Z [a; b; c; d]) (digits_Z [e; f; g])) as [iso ->].
    + pose proof (digits_Z_range [a; b; c; d]) as Hr. cbn [length] in Hr.
      change (10 ^ Z.of_nat 4) with 10000 in Hr.
      assert (0 <= digits_Z [a; b; c; d] < 10000); [|lia].
      apply Hr. repeat constructor; apply Hm; cbn; tauto.
    + pose proof (digits_Z_range [e; f; g]) as Hr. cbn [length] in Hr.
      change (10 ^ Z.of_nat 3) with 1000 in Hr.
      assert (0 <= digits_Z [e; f; g] < 1000); [|lia].
      apply Hr. repeat constructor; apply Hm; cbn; tauto.
    + eexists. reflexivity.
  - destruct (_ && _); eexists; reflexivity.
Qed.

Lemma Number_toString_3 n : 100 <= n < 1000 -> Number_toString n = pad3 n.
Proof.
  intros H. unfold Number_toString. destruct (Z.ltb_spec n 0); [lia|].
  assert (Hl : 6 <= Z.log2 n) by (apply Z.log2_le_pow2; lia).
  destruct (Z.to_nat (Z.log2 n)) as [|[|k]] eqn:Hk; try lia.
  rewrite !decimal_large, decimal_small by (Z.div_mod_to_equations; lia).
  unfold pad3, pad2. rewrite !Z.div_div by lia. reflexivity.
Qed.

Lemma ymd_short n :
  0 <= YearFromDay n < 1000 -> (String.length (_ymd (Some (n * msPerDay)%Z)) < 8)%nat.
Proof.
  intros Hy. unfold _ymd.
  pose proof (MonthFromTime_range (n * msPerDay)).
  pose proof (DateFromTime_range (n * msPerDay)).
  pose proof (DaysInMonth_le_31 (YearFromTime (n * msPerDay)) (MonthFromTime (n * msPerDay))).
  rewrite YearFromTime_midnight, !padStart2_pad2 by lia.
  rewrite !length_append'. change (String.length (pad2 _)) with 2%nat.
  assert (String.length (Number_toString (YearFromDay n)) <= 3)%nat; [|cbn [String.length pad2]; lia].
  destruct (Z.lt_ge_cases (YearFromDay n) 10).
  - rewrite Number_toString_1 by lia. cbn. lia.
  - destruct (Z.lt_ge_cases (YearFromDay n) 100).
    + rewrite Number_toString_2 by lia. cbn. lia.
    + rewrite Number_toString_3 by lia. cbn. lia.
Qed.

End CalendarFacts.

(** ** The weather aggregates *)

Module WeatherFacts.
Import JSDate JSDateFacts HelperFacts ForecastManager SpecWords DatasetFacts.
Import JSString CalendarFacts.

Section Window.
Local Open Scope Z_scope.

Lemma setUTCDate_shift n k :
  0 <= YearFromDay (n + k) <= 9999 ->
  setUTCDate (Some (n * msPerDay))
             (option_map (fun g => g + k) (getUTCDate (Some (n * msPerDay))))
  = Some ((n + k) * msPerDay).
Proof.
  intros Hy. apply year_range_day in Hy.
  unfold getUTCDate, option_map, setUTCDate.
  rewrite MakeDay_of_time, Day_midnight, TimeWithinDay_midnight.
  unfold MakeDate. rewrite Z.add_0_r. apply TimeClip_small. unfold msPerDay. lia.
Qed.

Lemma window_keys_days s n :
  iso_date s n -> 1000 <= YearFromDay (n - 8) -> YearFromDay (n + 8) <= 9999 ->
  window_keys s = map (fun k => remove_dashes (iso_of_day (n + k))) day_offsets.
Proof.
  intros Hs Hlo Hhi. unfold window_keys. unfold iso_date in Hs. rewrite Hs.
  apply map_ext_in. intros k Hk.
  assert (Hr : -8 <= k <= 8).
  { unfold day_offsets in Hk. apply in_map_iff in Hk as (i & <- & Hi).
    apply in_seq in Hi. lia. }
  pose proof (YearFromDay_mono (n - 8) (n + k)).
  pose proof (YearFromDay_mono (n + k) (n + 8)).
  rewrite setUTCDate_shift by lia. apply ymd_day. lia.
Qed.

End Window.

Lemma wx_get_set_eq wx k v : wx_get (wx_set wx k v) k = Some v.
Proof.
  unfold wx_get. induction wx as [|[k' v'] wx IH]; cbn.
  - now rewrite String.eqb_refl.
  - destruct (String.eqb_spec k' k) as [->|Hne]; cbn.
    + now rewrite String.eqb_refl.
    + destruct (String.eqb_spec k' k); [contradiction|]. exact IH.
Qed.

Lemma wx_get_set_ne wx k k' v :
  k <> k' -> wx_get (wx_set wx k v) k' = wx_get wx k'.
Proof.
  intros Hne. unfold wx_get. induction wx as [|[k0 v0] wx IH]; cbn.
  - destruct (String.eqb_spec k k'); [contradiction|reflexivity].
  - destruct (String.eqb_spec k0 k) as [->|H0]; cbn.
    + destruct (String.eqb_spec k k'); [contradiction|reflexivity].
    + destruct (String.eqb_spec k0 k'); [reflexivity|exact IH].
Qed.

Lemma keys_wx_set_in wx k v :
  In k (Object_keys wx) -> Object_keys (wx_set wx k v) = Object_keys wx.
Proof.
  unfold Object_keys. induction wx as [|[k' v'] wx IH]; cbn; [tauto|].
  intros Hin. destruct (String.eqb_spec k' k) as [->|Hne]; [reflexivity|].
  cbn. f_equal. apply IH. destruct Hin; [contradiction|assumption].
Qed.

Lemma keys_wx_set_notin wx k v :
  ~ In k (Object_keys wx) -> Object_keys (wx_set wx k v) = Object_keys wx ++ [k].
Proof.
  unfold Object_keys. induction wx as [|[k' v'] wx IH]; cbn; [reflexivity|].
  intros Hin. destruct (String.eqb_spec k' k) as [->|Hne]; [tauto|].
  cbn. f_equal. apply IH. tauto.
Qed.

Section Fold.
Variable g : string -> WeatherAggregate.

Let build (l : list Observation) (wx0 : wxmap) : wxmap :=
  fold_left (fun wx o => wx_set wx (date o) (g (date o))) l wx0.

Lemma build_get_notin l : forall wx0 d,
  ~ In d (map date l) -> wx_get (build l wx0) d = wx_get wx0 d.
Proof.
  induction l as [|o l IH]; intros wx0 d Hd; [reflexivity|].
  cbn in Hd |- *. unfold build in IH. rewrite IH by tauto.
  apply wx_get_set_ne. tauto.
Qed.

Lemma build_get_in l : forall wx0 d,
  In d (map date l) -> wx_get (build l wx0) d = Some (g d).
Proof.
  induction l as [|o l IH]; intros wx0 d Hd; [destruct Hd|].
  cbn. destruct (in_dec string_dec d (map date l)) as [Hin|Hnin].
  - now apply IH.
  - destruct Hd as [<-|]; [|contradiction].
    fold (build l (wx_set wx0 (date o) (g (date o)))).
    rewrite build_get_notin by assumption. apply wx_get_set_eq.
Qed.

Lemma build_keys_nodup l : forall wx0,
  NoDup (Object_keys wx0) -> NoDup (Object_keys (build l wx0)).
Proof.
  induction l as [|o l IH]; intros wx0 Hnd; [exact Hnd|].
  cbn. apply IH.
  destruct (in_dec string_dec (date o) (Object_keys wx0)) as [Hin|Hnin].
  - now rewrite keys_wx_set_in.
  - rewrite keys_wx_set_notin by assumption.
    apply NoDup_app. split; [exact Hnd|]. split.
    + intros k Hk [<-| []]%list_elem_of_In. apply Hnin. now apply list_elem_of_In.
    + apply NoDup_singleton.
Qed.

Lemma build_keys_in l : forall wx0 k,
  In k (Object_keys (build l wx0)) <-> In k (Object_keys wx0) \/ In k (map date l).
Proof.
  induction l as [|o l IH]; intros wx0 k; cbn; [tauto|].
  fold (build l (wx_set wx0 (date o) (g (date o)))). rewrite IH.
  destruct (in_dec string_dec (date o) (Object_keys wx0)) as [Hin|Hnin].
  - rewrite keys_wx_set_in by assumption. split; [tauto|].
    intros [H|[<-|H]]; tauto.
  - rewrite keys_wx_set_notin by assumption. rewrite in_app_iff. cbn. tauto.
Qed.

Lemma build_keys_distinct l : forall wx0,
  NoDup (Object_keys wx0 ++ map date l) ->
  Object_keys (build l wx0) = Object_keys wx0 ++ map date l.
Proof.
  induction l as [|o l IH]; intros wx0 Hnd; cbn; [now rewrite app_nil_r|].
  fold (build l (wx_set wx0 (date o) (g (date o)))).
  cbn in Hnd.
  assert (Hnin : ~ In (date o) (Object_keys wx0)).
  { apply NoDup_app in Hnd as (_ & Hd & _). intros Hin.
    apply (Hd (date o)); [now apply list_elem_of_In|]. left. }
  rewrite IH; rewrite keys_wx_set_notin by assumption.
  - now rewrite <- app_assoc.
  - rewrite <- app_assoc. exact Hnd.
Qed.

End Fold.

Section Aggregates.
Local Open Scope R_scope.

Lemma get_Some obj k v : get obj k = Some v <-> obj !! k = Some v /\ v > -900.
Proof.
  unfold get. destruct (obj !! k) as [n|]; [|split; [discriminate|intros [? _]; discriminate]].
  destruct (Rgt_dec n (-900)); split.
  - intros [= <-]. auto.
  - intros [[= <-] _]. reflexivity.
  - discriminate.
  - intros [[= <-] ?]. contradiction.
Qed.

Lemma sum_bounds lo hi l : forall a,
  Forall (fun v => lo <= v <= hi) l ->
  a + INR (length l) * lo <= fold_left Rplus l a <= a + INR (length l) * hi.
Proof.
  induction l as [|v l IH]; intros a H.
  - cbn. lra.
  - inversion H as [|? ? Hv Hl]; subst. specialize (IH (a + v) Hl).
    cbn [fold_left]. change (length (v :: l)) with (S (length l)).
    rewrite S_INR. lra.
Qed.

Lemma mean_bounds lo hi l t :
  Forall (fun v => lo <= v <= hi) l -> mean_or None Some l = Some t -> lo <= t <= hi.
Proof.
  intros H. destruct l as [|v l]; [discriminate|].
  unfold mean_or, sum. intros [= <-].
  pose proof (sum_bounds lo hi (v :: l) 0 H) as Hs.
  assert (Hn : 0 < INR (length (v :: l))) by (apply lt_0_INR; cbn; lia).
  rewrite !Rplus_0_l in Hs. cbn [fold_left] in Hs. split.
  - apply Rmult_le_reg_r with (INR (length (v :: l))); [exact Hn|].
    unfold Rdiv. rewrite Rmult_assoc, Rinv_l by lra. lra.
  - apply Rmult_le_reg_r with (INR (length (v :: l))); [exact Hn|].
    unfold Rdiv. rewrite Rmult_assoc, Rinv_l by lra. lra.
Qed.

Lemma sum_gt lo l : forall a,
  l <> [] -> Forall (fun v => lo < v) l ->
  a + INR (length l) * lo < fold_left Rplus l a.
Proof.
  induction l as [|v l IH]; intros a Hne H; [congruence|].
  inversion H as [|? ? Hv Hl]; subst.
  cbn [fold_left]. change (length (v :: l)) with (S (length l)). rewrite S_INR.
  destruct l as [|v' l'].
  - cbn. lra.
  - specialize (IH (a + v) ltac:(discriminate) Hl). lra.
Qed.

Lemma mean_gt lo l t :
  Forall (fun v => lo < v) l -> mean_or None Some l = Some t -> lo < t.
Proof.
  intros H. destruct l as [|v l]; [discriminate|].
  unfold mean_or, sum. intros [= <-].
  pose proof (sum_gt lo (v :: l) 0 ltac:(discriminate) H) as Hs.
  assert (Hn : 0 < INR (length (v :: l))) by (apply lt_0_INR; cbn; lia).
  rewrite Rplus_0_l in Hs. cbn [fold_left] in Hs.
  apply Rmult_lt_reg_r with (INR (length (v :: l))); [exact Hn|].
  unfold Rdiv. rewrite Rmult_assoc, Rinv_l by lra. lra.
Qed.

Lemma non_null_nil {A} (l : list (option A)) :
  non_null l = [] <-> Forall (fun o => o = None) l.
Proof.
  induction l as [|[a|] l IH]; cbn.
  - split; auto.
  - split; [discriminate|]. intros H. inversion H. discriminate.
  - rewrite IH. split; [auto|]. intros H. now inversion H.
Qed.

Lemma mean_or_None l : mean_or (@None R) Some l = None <-> l = [].
Proof. destruct l; cbn; split; auto; discriminate. Qed.

Lemma length_window_keys s : length (window_keys s) = 17%nat.
Proof. unfold window_keys. now rewrite length_map. Qed.

End Aggregates.

End WeatherFacts.

(** ** The series of the vegetation index *)

Module SeriesFacts.
Import JSDate JSDateFacts HelperFacts ForecastManager SpecWords DatasetFacts ForecastFacts.
Import JSString.
Local Open Scope R_scope.

Lemma Math_ceil_unique x z : IZR z - 1 < x <= IZR z -> Math_ceil x = z.
Proof.
  intros [Hlo Hhi]. unfold Math_ceil, Int_part.
  rewrite <- (tech_up (- x) (1 - z)).
  - lia.
  - rewrite minus_IZR. lra.
  - rewrite minus_IZR. lra.
Qed.

Lemma Math_ceil_years k :
  Math_ceil (365 / 16 * IZR k) = ((365 * k + 15) / 16)%Z.
Proof.
  apply Math_ceil_unique.
  pose proof (Z.div_mod (365 * k + 15) 16 ltac:(lia)) as Hdm.
  pose proof (Z.mod_pos_bound (365 * k + 15) 16 ltac:(lia)) as Hr.
  set (z := ((365 * k + 15) / 16)%Z) in *.
  assert (H1 : (365 * k <= 16 * z)%Z) by lia.
  assert (H2 : (16 * z < 365 * k + 16)%Z) by lia.
  apply IZR_le in H1. apply IZR_lt in H2.
  repeat rewrite ?plus_IZR, ?mult_IZR in H1. repeat rewrite ?plus_IZR, ?mult_IZR in H2. lra.
Qed.

Lemma length_js_slice_from_neg {A} (l : list A) (c : Z) :
  (0 < c)%Z -> (Z.of_nat (length (js_slice_from l (- c))) <= c)%Z.
Proof.
  intros Hc. unfold js_slice_from, js_slice.
  destruct (Z.ltb_spec (- c) 0); [|lia].
  destruct (Z.ltb_spec (Z.of_nat (length l)) 0); [lia|].
  rewrite length_firstn, length_skipn. lia.
Qed.

Lemma In_firstn_In' {A} (x : A) n l : In x (firstn n l) -> In x l.
Proof.
  revert l. induction n as [|n IH]; intros [|a l]; cbn; try tauto.
  intros [->|H]; auto.
Qed.

Lemma In_js_slice {A} (l : list A) a b x : In x (js_slice l a b) -> In x l.
Proof.
  unfold js_slice. intros H. apply In_firstn_In' in H.
  eapply In_skipn_In; eauto.
Qed.

Lemma vi_value_Some bands viType v :
  vi_value bands viType = Some v -> exists raw, raw > -9000 /\ v = raw * 0.0001.
Proof.
  unfold vi_value. cbv zeta.
  destruct (match find _ bands with Some _ => _ | None => _ end) as [raw|]; [|discriminate].
  destruct (Rle_dec raw (-9000)); [discriminate|]. intros [= <-].
  exists raw. split; [lra|reflexivity].
Qed.

Lemma vi_entry_Some fetchSubset has viType d o :
  vi_entry fetchSubset has viType d = Some o ->
  exists md subset raw,
    entry_md d = Some md /\ fetchSubset md = Ok subset
    /\ _toISO has md = Ok (Some (date o))
    /\ raw > -9000 /\ value o = Some (raw * 0.0001).
Proof.
  unfold vi_entry.
  destruct (entry_md d) as [md|]; [|discriminate].
  destruct (fetchSubset md) as [subset|] eqn:Hf; [|discriminate].
  cbv zeta.
  destruct (_toISO has md) as [iso|] eqn:Hiso; [|discriminate].
  destruct (vi_value (default [] subset) viType) as [v|] eqn:Hv; [|discriminate].
  destruct iso as [iso|]; [|discriminate].
  destruct (String.eqb iso ""); [discriminate|]. intros [= <-].
  apply vi_value_Some in Hv as (raw & Hraw & ->).
  exists md, subset, raw. repeat split; auto.
Qed.

Lemma fetchVISeries_In sort fetchDates fetchSubset has viType years datesJson :
  (forall l, Permutation l (sort l)) -> fetchDates = Ok datesJson ->
  exists series,
    _fetchVISeries sort fetchDates fetchSubset has viType years = Ok series
    /\ (forall o, In o series ->
          exists d md subset raw,
            In d (default [] datesJson) /\ entry_md d = Some md
            /\ fetchSubset md = Ok subset
            /\ _toISO has md = Ok (Some (date o))
            /\ raw > -9000 /\ value o = Some (raw * 0.0001))
    /\ (length series <= length (default [] datesJson))%nat
    /\ (forall k, (1 <= k)%Z -> years = Num (IZR k) ->
          (Z.of_nat (length series) <= (365 * k + 15) / 16)%Z).
Proof.
  intros Hperm Hdates. unfold _fetchVISeries. rewrite Hdates. cbn [rbind].
  set (dates := default [] datesJson).
  set (entries := js_slice_from dates (history_start years (length dates))).
  set (series := non_null (map (vi_entry fetchSubset has viType) entries)).
  exists (sort series). split; [reflexivity|].
  assert (Hlen : (length series <= length entries)%nat).
  { unfold series. etransitivity; [apply non_null_length|]. now rewrite length_map. }
  split; [|split].
  - intros o Ho. apply (Permutation_in _ (Permutation_sym (Hperm series))) in Ho.
    apply non_null_In, in_map_iff in Ho as (d & Hd & Hin).
    apply In_js_slice in Hin.
    apply vi_entry_Some in Hd as (md & subset & raw & H1 & H2 & H3 & H4 & H5).
    exists d, md, subset, raw. repeat split; auto.
  - rewrite <- (Permutation_length (Hperm series)).
    etransitivity; [exact Hlen|]. unfold entries, js_slice_from, js_slice.
    rewrite length_firstn, length_skipn. lia.
  - intros k Hk ->. rewrite <- (Permutation_length (Hperm series)).
    assert (Z.of_nat (length entries) <= (365 * k + 15) / 16)%Z; [|lia].
    unfold entries, history_start. rewrite Math_ceil_years.
    apply length_js_slice_from_neg. Z.div_mod_to_equations. lia.
Qed.

End SeriesFacts.

(** ** Sorting by date *)

Module SortFacts.
Import JSDate ForecastManager Examples.

Lemma insert_by_date_perm o l : Permutation (o :: l) (insert_by_date o l).
Proof.
  induction l as [|p r IH]; cbn; [reflexivity|].
  destruct (String.ltb (date o) (date p)); [reflexivity|].
  rewrite perm_swap. now constructor.
Qed.

Lemma sort_by_date_perm l : Permutation l (sort_by_date l).
Proof.
  induction l as [|o l IH]; cbn; [constructor|].
  rewrite <- insert_by_date_perm. now constructor.
Qed.

End SortFacts.

(** ** The forecast loop and [run] *)

Module RunFacts.
Import JSDate JSDateFacts HelperFacts ForecastManager SpecWords Notions Examples.
Import DatasetFacts ForecastFacts LinearFacts JSString CalendarFacts.
Local Open Scope R_scope.

Lemma js_slice_from_neg {A} (l : list A) (k : nat) :
  (0 < k)%nat -> js_slice_from l (- Z.of_nat k) = skipn (length l - k) l.
Proof.
  intros Hk. unfold js_slice_from, js_slice.
  destruct (Z.ltb_spec (- Z.of_nat k) 0); [|lia].
  destruct (Z.ltb_spec (Z.of_nat (length l)) 0); [lia|].
  rewrite Z.min_id.
  replace (Z.to_nat (Z.max (Z.of_nat (length l) + - Z.of_nat k) 0))
    with (length l - k)%nat by lia.
  apply firstn_all2. rewrite length_skipn. lia.
Qed.

Lemma js_index_last_skipn {A} (l : list A) o n :
  js_index l (Z.of_nat (length l) - 1) = Some o -> (n < length l)%nat ->
  In o (skipn n l).
Proof.
  rewrite js_index_last. intros Hl Hn.
  apply last_Some in Hl as [l' ->].
  rewrite length_app in Hn. cbn in Hn.
  rewrite skipn_app. apply in_or_app. right.
  replace (n - length l')%nat with 0%nat by lia. now left.
Qed.

Lemma forecast_value_lags model tC pC hist iso :
  forecast_value model tC pC hist iso = None <-> lags_present hist = false.
Proof.
  unfold forecast_value, lags_present. cbv zeta.
  destruct (js_index hist (Z.of_nat (length hist) - 1)) as [o1|] eqn:H1; cbn [mbind option_bind];
    [|split; reflexivity].
  change (Some o1 ≫= value) with (value o1).
  destruct (value o1) as [v1|] eqn:Hv1; [|split; reflexivity].
  destruct (js_index hist (Z.of_nat (length hist) - 2) ≫= value) as [v2|];
    [|split; reflexivity].
  assert (Hne : non_null (map value (js_slice_from hist (-3))) <> []).
  { change (-3)%Z with (- Z.of_nat 3)%Z. rewrite js_slice_from_neg by lia.
    assert (Hlen : (0 < length hist)%nat).
    { destruct hist; [discriminate|cbn; lia]. }
    pose proof (js_index_last_skipn hist o1 (length hist - 3) H1 ltac:(lia)) as Hin.
    intros Hnil.
    assert (Hv : In v1 (non_null (map value (skipn (length hist - 3) hist)))).
    { apply non_null_In. rewrite <- Hv1. now apply in_map. }
    rewrite Hnil in Hv. destruct Hv. }
  destruct (non_null (map value (js_slice_from hist (-3)))) as [|a l]; [congruence|].
  cbn [mean_or]. split; discriminate.
Qed.

Lemma lags_present_snoc hist p v :
  lags_present hist = true -> value p = Some v -> lags_present (hist ++ [p]) = true.
Proof.
  unfold lags_present. cbv zeta. intros H Hp.
  rewrite js_index_last in H.
  destruct (last hist) as [o1|] eqn:Hl; [|discriminate].
  apply last_Some in Hl as [h' ->].
  rewrite !length_app. cbn [length].
  unfold js_index.
  destruct (Z.ltb_spec (Z.of_nat (length h' + 1 + 1) - 1) 0); [lia|].
  destruct (Z.ltb_spec (Z.of_nat (length h' + 1 + 1) - 2) 0); [lia|].
  replace (Z.to_nat (Z.of_nat (length h' + 1 + 1) - 1)) with (length (h' ++ [o1]) + 0)%nat
    by (rewrite length_app; cbn; lia).
  rewrite nth_error_app2 by lia.
  replace (length (h' ++ [o1]) + 0 - length (h' ++ [o1]))%nat with 0%nat by lia.
  cbn [nth_error]. change (Some p ≫= value) with (value p). rewrite Hp.
  replace (Z.to_nat (Z.of_nat (length h' + 1 + 1) - 2)) with (length h' + 0)%nat by lia.
  rewrite nth_error_app1 by (rewrite length_app; cbn; lia).
  rewrite nth_error_app2 by lia.
  replace (length h' + 0 - length h')%nat with 0%nat by lia.
  cbn [nth_error]. change (Some o1 ≫= value) with (value o1).
  change (Some o1 ≫= value) with (value o1) in H.
  destruct (value o1); [reflexivity|discriminate].
Qed.

Lemma forecast_loop_points model tC pC turns : forall d hist out d' hist' out',
  forecast_loop model tC pC turns (d, hist, out) = Ok (d', hist', out') ->
  exists new,
    out' = out ++ new /\ length new = turns
    /\ (forall p v, In p new -> value p = Some v -> -0.1 <= v <= 1)
    /\ (lags_present hist = true -> Forall (fun p => value p <> None) new)
    /\ (lags_present hist = false -> Forall (fun p => value p = None) new).
Proof.
  induction turns as [|k IH]; intros d hist out d' hist' out' H.
  - cbn in H. injection H as <- <- <-. exists []. rewrite app_nil_r.
    split; [reflexivity|]. split; [reflexivity|]. split; [intros ? ? []|].
    split; intros _; constructor.
  - cbn [forecast_loop] in H. unfold forecast_step in H.
    destruct (iso_of (next_day d)) as [iso|]; [|discriminate].
    cbn [rbind] in H.
    destruct (forecast_value model tC pC hist iso) as [c|] eqn:Hv; cbn [rbind] in H.
    + apply IH in H as (new & -> & Hlen & Hrange & Hyes & Hno).
      assert (Hl : lags_present hist = true).
      { destruct (lags_present hist) eqn:E; [reflexivity|].
        apply (proj2 (forecast_value_lags model tC pC hist iso)) in E. congruence. }
      exists ({| date := iso; value := Some c |} :: new).
      rewrite <- app_assoc. split; [reflexivity|]. split; [cbn; lia|].
      split; [|split].
      * intros q v [<-|Hin] Hpv; [|eauto].
        cbn in Hpv. injection Hpv as <-. eapply forecast_value_range; eauto.
      * intros _. constructor; [discriminate|]. apply Hyes.
        eapply lags_present_snoc; eauto.
      * congruence.
    + apply IH in H as (new & -> & Hlen & Hrange & Hyes & Hno).
      assert (Hl : lags_present hist = false) by (now apply (forecast_value_lags model tC pC hist iso)).
      exists ({| date := iso; value := None |} :: new).
      rewrite <- app_assoc. split; [reflexivity|]. split; [cbn; lia|].
      split; [|split].
      * intros q v [<-|Hin] Hpv; [discriminate|eauto].
      * congruence.
      * intros _. constructor; [reflexivity|]. now apply Hno.
Qed.

Lemma forecast_loop_invalid model tC pC turns hist out :
  forecast_loop model tC pC (S turns) (None, hist, out) = Throw RangeError.
Proof. reflexivity. Qed.

Lemma forecastNext30Days_points vi wx model out :
  _forecastNext30Days vi wx model = Ok out ->
  length out = 30%nat
  /\ (forall p v, In p out -> value p = Some v -> -0.1 <= v <= 1)
  /\ (lags_present vi = true -> Forall (fun p => value p <> None) out)
  /\ (lags_present vi = false -> Forall (fun p => value p = None) out).
Proof.
  unfold _forecastNext30Days, forecast_run.
  destruct (weather_proxies wx) as [tC pC]. rewrite js_slice_from_0.
  destruct (js_index vi (Z.of_nat (length vi) - 1)) as [o|]; [|discriminate].
  destruct (forecast_loop model tC pC 30 (Date_parse (date o ++ "T00:00:00Z"), vi, []))
    as [[[d' hist'] out']|] eqn:Hloop; [|discriminate].
  cbn [rbind snd]. intros [= <-].
  apply forecast_loop_points in Hloop as (new & -> & Hlen & Hr & Hyes & Hno).
  cbn [app]. auto.
Qed.

End RunFacts.

(** ** Singular matrices *)

Module KernelFacts.
Import JSDate JSDateFacts HelperFacts ForecastManager SpecWords Notions Examples.
Import DatasetFacts ForecastFacts LinearFacts JSString CalendarFacts.
Local Open Scope R_scope.

Lemma invSym_error (M : matrix) e : _invSym M = Throw e -> e = Error "Singular matrix".
Proof. intros H. apply invSym_fails in H as (i & A & I' & _ & _ & _ & ->). reflexivity. Qed.

(** A left inverse leaves no vector but 0 in the kernel. *)
Lemma left_inverse_kernel n (M J : matrix) (v : nat -> R) :
  (forall r c, (r < n)%nat -> (c < n)%nat -> product_entry n J M r c = delta r c) ->
  (forall r, (r < n)%nat -> sum_below n (fun c => entry M r c * v c) = 0) ->
  forall j, (j < n)%nat -> v j = 0.
Proof.
  intros Hleft Hker j Hj.
  rewrite <- (sum_below_delta_l n j v Hj).
  rewrite (sum_below_ext n _
             (fun c => sum_below n (fun k => entry J j k * (entry M k c * v c)))).
  2:{ intros c Hc. rewrite <- (Hleft j c Hj Hc). unfold product_entry.
      rewrite <- sum_below_scal_r. apply sum_below_ext. intros k _. lra. }
  rewrite sum_below_swap.
  apply sum_below_zero. intros k Hk. rewrite sum_below_scal_l, Hker by exact Hk. lra.
Qed.

Lemma invSym_singular (M : matrix) (v : nat -> R) j :
  square (length M) M -> (j < length M)%nat -> v j <> 0 ->
  (forall r, (r < length M)%nat ->
     sum_below (length M) (fun c => entry M r c * v c) = 0) ->
  _invSym M = Throw (Error "Singular matrix").
Proof.
  intros Hsq Hj Hv Hker.
  destruct (_invSym M) as [J|e] eqn:Hinv.
  - destruct (invSym_left_inverse M J Hsq Hinv) as [_ Hleft].
    exfalso. apply Hv. eapply left_inverse_kernel; eauto.
  - f_equal. now apply invSym_error in Hinv.
Qed.

Lemma standardized_constant_column (X : matrix) cols c j k :
  rows_cols (length X) cols X -> (j < cols)%nat -> (k < length X)%nat ->
  (forall row, In row X -> nth j row 0 = c) ->
  entry (standardized_x X cols) k j = 0.
Proof.
  intros [_ Hrows] Hj Hk Hc.
  rewrite entry_standardized by (rewrite ?Hrows; assumption).
  unfold feature_mu. rewrite nth_map_seq by exact Hj.
  rewrite (column_mean_constant c).
  - unfold entry. rewrite (Hc (nth k X [])) by now apply nth_In.
    unfold Rdiv. now rewrite Rminus_diag, Rmult_0_l.
  - unfold column. destruct X; [cbn in Hk; lia|discriminate].
  - intros b Hb. unfold column in Hb. apply in_map_iff in Hb as (row & <- & Hin).
    now apply Hc.
Qed.

Lemma trainModel_constant_column ds cfg X0 rest j c :
  x ds = X0 :: rest ->
  Forall (fun row => length row = length X0) (x ds) ->
  (j < length X0)%nat ->
  (forall row, In row (x ds) -> nth j row 0 = c) ->
  _trainModel None ds cfg = Throw (Error "Singular matrix").
Proof.
  intros HX Hrows Hj Hc.
  set (n := length X0). set (m := length (x ds)).
  assert (Hrc : rows_cols m n (x ds)).
  { split; [reflexivity|]. intros r Hr.
    rewrite List.Forall_forall in Hrows. apply Hrows. now apply nth_In. }
  assert (Hm : (1 <= m)%nat) by (unfold m; rewrite HX; cbn; lia).
  pose proof (rows_cols_standardized m n (x ds) Hrc) as HrcN.
  destruct (normal_matrix m n _ HrcN Hm) as (Hsq & Hent & _).
  apply (trainModel_throws ds cfg X0 rest _ HX). fold n.
  set (XTX := _matMul _ _) in *.
  assert (Hn : length XTX = n) by apply Hsq.
  apply (invSym_singular XTX (delta j) j); rewrite ?Hn; auto.
  - unfold delta. rewrite Nat.eqb_refl. lra.
  - intros r Hr.
    rewrite (sum_below_ext n _ (fun c => entry XTX r c * delta c j)).
    2:{ intros c' _. unfold delta. now rewrite Nat.eqb_sym. }
    rewrite sum_below_delta_r by exact Hj.
    rewrite Hent by assumption. apply sum_below_zero. intros k Hk.
    rewrite (standardized_constant_column (x ds) n c j k); auto. lra.
Qed.


End KernelFacts.

(** ** Standardized columns *)

Module StandardFacts.
Import JSDate JSDateFacts HelperFacts ForecastManager SpecWords Notions Examples.
Import DatasetFacts ForecastFacts LinearFacts JSString CalendarFacts.
Import KernelFacts.
Local Open Scope R_scope.

Lemma sum_acc l : forall a, fold_left Rplus l a = a + sum l.
Proof.
  unfold sum. induction l as [|b l IH]; intros a; cbn [fold_left]; [lra|].
  rewrite IH, (IH (0 + b)). lra.
Qed.

Lemma sum_cons b l : sum (b :: l) = b + sum l.
Proof. unfold sum. cbn [fold_left]. rewrite sum_acc. unfold sum. lra. Qed.

Lemma sum_map_affine (m s : R) l :
  sum (map (fun v => (v - m) / s) l) = (sum l - INR (length l) * m) / s.
Proof.
  induction l as [|b l IH].
  - cbn. unfold sum. cbn. lra.
  - cbn [map]. rewrite !sum_cons, IH. change (length (b :: l)) with (S (length l)).
    rewrite S_INR. unfold Rdiv. lra.
Qed.

Lemma sum_nonneg l : Forall (fun v => 0 <= v) l -> 0 <= sum l.
Proof.
  induction 1 as [|b l Hb _ IH]; [unfold sum; cbn; lra|]. rewrite sum_cons. lra.
Qed.

Lemma sum_zero_all l : Forall (fun v => 0 <= v) l -> sum l = 0 -> Forall (fun v => v = 0) l.
Proof.
  induction 1 as [|b l Hb Hl IH]; intros Hs; [constructor|].
  rewrite sum_cons in Hs. pose proof (sum_nonneg l Hl).
  constructor; [lra|]. apply IH. lra.
Qed.

Lemma sum_map_scal c (f : R -> R) l :
  sum (map (fun v => c * f v) l) = c * sum (map f l).
Proof.
  induction l as [|b l IH]; [unfold sum; cbn; lra|].
  cbn [map]. rewrite !sum_cons, IH. lra.
Qed.

Lemma column_mean_sum col : col <> [] -> sum col = INR (length col) * column_mean col.
Proof.
  intros Hne. unfold column_mean.
  assert (0 < INR (length col)).
  { apply lt_0_INR. destruct col; [congruence|cbn; lia]. }
  field. lra.
Qed.

(** The squared deviations of a column, as [column_sd] sums them. *)
Lemma column_sd_squares col :
  column_sd col
  = sqrt_or_1 (sum (map (fun b => (b - column_mean col) * (b - column_mean col)) col)
               / INR (Nat.max 1 (length col - 1))).
Proof. unfold column_sd. cbv zeta. now rewrite fold_left_plus_map. Qed.

Lemma standardized_mean col :
  col <> [] ->
  column_mean (map (fun v => (v - column_mean col) / column_sd col) col) = 0.
Proof.
  intros Hne. unfold column_mean at 1. rewrite sum_map_affine, length_map.
  rewrite <- column_mean_sum by exact Hne. unfold Rdiv. rewrite Rminus_diag. lra.
Qed.

Lemma sqrt_or_1_one : sqrt_or_1 1 = 1.
Proof. unfold sqrt_or_1. rewrite sqrt_1. destruct Req_dec_T; lra. Qed.

Lemma sqrt_or_1_zero : sqrt_or_1 0 = 1.
Proof. unfold sqrt_or_1. rewrite sqrt_0. destruct Req_dec_T; lra. Qed.

Lemma standardized_sd col :
  col <> [] ->
  column_sd (map (fun v => (v - column_mean col) / column_sd col) col) = 1.
Proof.
  intros Hne.
  rewrite column_sd_squares, length_map.
  rewrite (standardized_mean col Hne).
  set (m := column_mean col). set (s := column_sd col).
  set (d := INR (Nat.max 1 (length col - 1))).
  assert (Hd : 0 < d) by (apply lt_0_INR; lia).
  set (Q := sum (map (fun b => (b - m) * (b - m)) col)).
  assert (HQ : 0 <= Q).
  { apply sum_nonneg, List.Forall_forall. intros q Hq.
    apply in_map_iff in Hq as (b & <- & _).
    pose proof (Rle_0_sqr (b - m)) as Hsq. unfold Rsqr in Hsq. exact Hsq. }
  assert (Hs : s <> 0) by apply sqrt_or_1_nonzero.
  assert (Hz : sum (map (fun b => (b - 0) * (b - 0)) (map (fun v => (v - m) / s) col))
               = / (s * s) * Q).
  { rewrite map_map. unfold Q. rewrite <- sum_map_scal. f_equal.
    apply map_ext. intros b. field. exact Hs. }
  rewrite Hz.
  assert (Hsd : s = sqrt_or_1 (Q / d)) by (unfold s; now rewrite column_sd_squares).
  destruct (Req_dec_T Q 0) as [HQ0|HQ0].
  - rewrite HQ0. unfold Rdiv. rewrite Rmult_0_r, Rmult_0_l. apply sqrt_or_1_zero.
  - assert (Hpos : 0 < Q / d) by (apply Rdiv_lt_0_compat; lra).
    assert (Hsq : s * s = Q / d).
    { rewrite Hsd. unfold sqrt_or_1.
      destruct Req_dec_T as [E|E]; [|apply sqrt_def; lra].
      apply sqrt_eq_0 in E; lra. }
    rewrite Hsq. replace (/ (Q / d) * Q / d) with 1 by (field; lra).
    apply sqrt_or_1_one.
Qed.

Lemma standardized_y_fixed Y :
  Y <> [] ->
  column_mean (standardized_y Y) = 0 /\ column_sd (standardized_y Y) = 1
  /\ standardized_y (standardized_y Y) = standardized_y Y.
Proof.
  intros Hne. pose proof (standardized_mean Y Hne) as Hm.
  pose proof (standardized_sd Y Hne) as Hs.
  split; [exact Hm|]. split; [exact Hs|].
  unfold standardized_y at 1. fold (standardized_y Y) in Hm, Hs. rewrite Hm, Hs.
  transitivity (map (fun b : R => b) (standardized_y Y)); [|apply map_id].
  apply map_ext. intros b. field.
Qed.

Lemma column_standardized m n (X : matrix) j :
  rows_cols m n X -> (j < n)%nat ->
  column (standardized_x X n) j
  = map (fun v => (v - column_mean (column X j)) / column_sd (column X j)) (column X j).
Proof.
  intros Hrc Hj. destruct Hrc as [Hm Hrows].
  apply (list_ext_nth 0).
  - unfold column, standardized_x. now rewrite !length_map.
  - intros k Hk. unfold column at 1 in Hk. rewrite length_map in Hk.
    unfold standardized_x in Hk. rewrite length_map in Hk.
    unfold column at 1. rewrite (nth_map_default _ _ _ [] 0).
    destruct (Nat.ltb_spec k (length (standardized_x X n)));
      [|unfold standardized_x in *; rewrite length_map in *; lia].
    change (nth j (nth k (standardized_x X n) []) 0) with (entry (standardized_x X n) k j).
    rewrite entry_standardized by (rewrite ?Hrows; lia).
    rewrite (nth_map_default _ _ _ 0 0).
    destruct (Nat.ltb_spec k (length (column X j)));
      [|unfold column in *; rewrite length_map in *; lia].
    unfold feature_mu, feature_sig. rewrite !nth_map_seq by exact Hj.
    unfold column at 3. rewrite (nth_map_default _ _ _ [] 0).
    destruct (Nat.ltb_spec k (length X)); [reflexivity|lia].
Qed.

Lemma standardized_x_fixed m n (X : matrix) :
  rows_cols m n X -> (1 <= m)%nat ->
  (forall j, (j < n)%nat ->
     column_mean (column (standardized_x X n) j) = 0
     /\ column_sd (column (standardized_x X n) j) = 1)
  /\ standardized_x (standardized_x X n) n = standardized_x X n.
Proof.
  intros Hrc Hm.
  assert (Hcol : forall j, (j < n)%nat ->
            column_mean (column (standardized_x X n) j) = 0
            /\ column_sd (column (standardized_x X n) j) = 1).
  { intros j Hj. rewrite (column_standardized m n X j Hrc Hj).
    assert (Hne : column X j <> []).
    { unfold column. destruct Hrc as [HX _]. destruct X; [cbn in HX; lia|discriminate]. }
    split; [now apply standardized_mean|now apply standardized_sd]. }
  split; [exact Hcol|].
  pose proof (rows_cols_standardized m n X Hrc) as [HlN HrN].
  set (xN := standardized_x X n) in *.
  unfold standardized_x at 1.
  transitivity (map (fun r : list R => r) xN); [|apply map_id].
  apply map_ext_in. intros row Hrow.
  assert (Hlen : length row = n).
  { apply In_nth with (d := []) in Hrow as (k & Hk & <-). apply HrN. lia. }
  unfold standardize. apply (list_ext_nth 0); [apply length_imap'|].
  intros k Hk. rewrite length_imap' in Hk.
  rewrite (nth_imap_default _ _ _ 0 0).
  destruct (Nat.ltb_spec k (length row)); [|lia].
  unfold feature_mu, feature_sig. rewrite !nth_map_seq by lia.
  destruct (Hcol k ltac:(lia)) as [-> ->]. field.
Qed.

End StandardFacts.

(** ** The error of the linear baseline *)

Module ErrorFacts.
Import JSDate JSDateFacts HelperFacts ForecastManager SpecWords Notions Examples.
Import DatasetFacts ForecastFacts LinearFacts JSString CalendarFacts.
Import KernelFacts StandardFacts.
Local Open Scope R_scope.

Lemma fold_seq_sum_below n (f : nat -> R) :
  fold_left (fun s i => s + f i) (seq 0 n) 0 = sum_below n f.
Proof.
  induction n as [|n IH]; [reflexivity|].
  rewrite seq_S, fold_left_app, IH. reflexivity.
Qed.

Lemma mse_sum yhat y :
  _mse yhat y
  = sum_below (length y) (fun i => (nth i yhat 0 - nth i y 0) ^ 2)
    / INR (Nat.max 1 (length y)).
Proof. unfold _mse. cbv zeta. now rewrite fold_seq_sum_below. Qed.

Lemma sum_below_nonneg n f : (forall k, (k < n)%nat -> 0 <= f k) -> 0 <= sum_below n f.
Proof.
  induction n as [|n IH]; intros H; cbn [sum_below]; [lra|].
  pose proof (IH ltac:(intros; apply H; lia)). pose proof (H n ltac:(lia)). lra.
Qed.

Lemma mse_nonneg yhat y : 0 <= _mse yhat y.
Proof.
  rewrite mse_sum. apply Rmult_le_pos.
  - apply sum_below_nonneg. intros k _. apply pow2_ge_0.
  - apply Rlt_le, Rinv_0_lt_compat, lt_0_INR. lia.
Qed.

Lemma sqrt_or_1_pos q : 0 < sqrt_or_1 q.
Proof.
  unfold sqrt_or_1. destruct Req_dec_T; [lra|].
  pose proof (sqrt_pos q). lra.
Qed.

Lemma mse_scaled c yhat y yhat' y' :
  length y = length y' ->
  (forall i, (i < length y)%nat ->
     nth i yhat 0 - nth i y 0 = c * (nth i yhat' 0 - nth i y' 0)) ->
  _mse yhat y = c * c * _mse yhat' y'.
Proof.
  intros Hlen H. rewrite !mse_sum, <- Hlen.
  rewrite (sum_below_ext _ _ (fun i => c * c * (nth i yhat' 0 - nth i y' 0) ^ 2)).
  - rewrite sum_below_scal_l. unfold Rdiv. lra.
  - intros i Hi. rewrite (H i Hi). ring.
Qed.

Lemma linear_rmse_training ds cfg X0 rest model :
  x ds = X0 :: rest ->
  Forall (fun row => length row = length X0) (x ds) ->
  length (y ds) = length (x ds) ->
  _trainModel None ds cfg = Ok model ->
  rmse model = sqrt (_mse (map (infer model) (x ds)) (y ds)) /\ 0 <= rmse model.
Proof.
  intros HX Hrows Hy Hm.
  set (n := length X0) in *.
  assert (Hrc : rows_cols (length (x ds)) n (x ds)).
  { split; [reflexivity|]. intros r Hr.
    rewrite List.Forall_forall in Hrows. apply Hrows. now apply nth_In. }
  destruct (rows_cols_standardized _ _ _ Hrc) as [HlN HrN].
  rewrite (trainModel_linear _ _ _ _ HX) in Hm. fold n in Hm.
  destruct (linear_weights _ _) as [w|]; [|discriminate].
  cbn [rbind] in Hm. injection Hm as <-. cbn [rmse infer].
  set (xN := standardized_x (x ds) n) in *.
  set (yN := standardized_y (y ds)).
  set (ySig := column_sd (y ds)). set (yMu := column_mean (y ds)).
  assert (HS : 0 < ySig) by apply sqrt_or_1_pos.
  assert (Hscaled : _mse (map (linear_infer (feature_mu (x ds) n) (feature_sig (x ds) n)
                                 w yMu ySig) (x ds)) (y ds)
                    = ySig * ySig * _mse (_matVec xN w) yN).
  { apply mse_scaled; [unfold yN, standardized_y; now rewrite length_map|].
    intros i Hi.
    rewrite (nth_map_default _ _ _ [] 0).
    destruct (Nat.ltb_spec i (length (x ds))); [|lia].
    destruct Hrc as [_ Hr].
    assert (Hp : nth i (_matVec xN w) 0
                 = sum_below n
                     (fun j => (nth j (nth i (x ds) []) 0 - nth j (feature_mu (x ds) n) 0)
                               / nth j (feature_sig (x ds) n) 0 * nth j w 0)).
    { rewrite nth_matVec by (rewrite HlN; lia). rewrite HrN by lia.
      apply sum_below_ext. intros j Hj. unfold xN.
      rewrite entry_standardized by (rewrite ?Hr; lia). reflexivity. }
    rewrite Hp, linear_infer_value, Hr by lia.
    unfold yN, standardized_y. rewrite (nth_map_default _ _ _ 0 0).
    destruct (Nat.ltb_spec i (length (y ds))); [|lia].
    fold yMu ySig. field. lra. }
  split.
  - rewrite Hscaled, sqrt_mult_alt by nra.
    rewrite sqrt_square by lra. lra.
  - apply Rmult_le_pos; [apply sqrt_pos|lra].
Qed.

Lemma normal_inverse_two_sided m n (xN : matrix) XTXinv :
  rows_cols m n xN -> (1 <= m)%nat ->
  _invSym (_matMul (_transpose xN) xN) = Ok XTXinv ->
  _matMul XTXinv (_matMul (_transpose xN) xN) = identity n
  /\ _matMul (_matMul (_transpose xN) xN) XTXinv = identity n
  /\ (forall r c, (r < n)%nat -> (c < n)%nat ->
        entry (_matMul (_transpose xN) xN) r c = entry (_matMul (_transpose xN) xN) c r)
  /\ (forall r c, (r < n)%nat -> (c < n)%nat -> entry XTXinv r c = entry XTXinv c r).
Proof.
  intros Hx Hm1 Hinv.
  destruct (normal_matrix m n xN Hx Hm1) as (Hsq & Hent & _).
  set (XTX := _matMul (_transpose xN) xN) in *.
  assert (Hn : length XTX = n) by apply Hsq.
  rewrite <- Hn in Hsq.
  destruct (invSym_left_inverse XTX XTXinv Hsq Hinv) as [Hsi Hleft].
  pose proof (invSym_inverse XTX XTXinv Hsq Hinv) as Hid.
  rewrite Hn in *.
  assert (Hsym : forall r c, (r < n)%nat -> (c < n)%nat -> entry XTX r c = entry XTX c r).
  { intros r c Hr Hc. rewrite !Hent by assumption. apply sum_below_ext.
    intros k _. lra. }
  destruct (left_inverse_symmetric n XTX XTXinv Hsym Hleft) as [HJ Hright].
  split; [exact Hid|]. split; [|split; [exact Hsym|exact HJ]].
  apply (matrix_ext n).
  - now apply square_matMul.
  - apply square_identity.
  - intros r c Hr Hc. rewrite (matMul_product n), entry_identity by assumption.
    now apply Hright.
Qed.

Lemma sum_below_zero_all n f :
  (forall k, (k < n)%nat -> 0 <= f k) -> sum_below n f = 0 ->
  forall k, (k < n)%nat -> f k = 0.
Proof.
  induction n as [|n IH]; intros Hpos Hs k Hk; [lia|].
  cbn [sum_below] in Hs.
  pose proof (sum_below_nonneg n f ltac:(intros; apply Hpos; lia)) as H1.
  pose proof (Hpos n ltac:(lia)) as H2.
  destruct (Nat.eq_dec k n) as [->|Hne]; [lra|].
  apply IH; [intros; apply Hpos; lia|lra|lia].
Qed.

Lemma mse_zero yhat y :
  _mse yhat y = 0 <-> forall i, (i < length y)%nat -> nth i yhat 0 = nth i y 0.
Proof.
  rewrite mse_sum.
  assert (Hd : 0 < INR (Nat.max 1 (length y))) by (apply lt_0_INR; lia).
  split.
  - intros H i Hi.
    assert (Hs : sum_below (length y) (fun i => (nth i yhat 0 - nth i y 0) ^ 2) = 0).
    { apply Rmult_eq_reg_r with (/ INR (Nat.max 1 (length y))).
      - rewrite Rmult_0_l. exact H.
      - apply Rinv_neq_0_compat. lra. }
    pose proof (sum_below_zero_all _ _ (fun k _ => pow2_ge_0 _) Hs i Hi) as Hz.
    cbn beta in Hz. rewrite <- Rsqr_pow2 in Hz. apply Rsqr_0_uniq in Hz. lra.
  - intros H. rewrite sum_below_zero; [unfold Rdiv; lra|].
    intros k Hk. rewrite (H k Hk). ring.
Qed.

Lemma linear_rmse_zero ds cfg X0 rest model :
  x ds = X0 :: rest ->
  Forall (fun row => length row = length X0) (x ds) ->
  length (y ds) = length (x ds) ->
  _trainModel None ds cfg = Ok model ->
  (rmse model = 0 <->
   forall i, (i < length (x ds))%nat -> infer model (nth i (x ds) []) = nth i (y ds) 0).
Proof.
  intros HX Hrows Hy Hm.
  destruct (linear_rmse_training ds cfg X0 rest model HX Hrows Hy Hm) as [-> _].
  pose proof (mse_nonneg (map (infer model) (x ds)) (y ds)) as Hpos.
  split.
  - intros H i Hi. apply sqrt_eq_0 in H; [|exact Hpos].
    apply mse_zero with (i := i) in H; [|lia].
    rewrite (nth_map_default _ _ _ [] 0) in H.
    destruct (Nat.ltb_spec i (length (x ds))); [exact H|lia].
  - intros H. replace (_mse (map (infer model) (x ds)) (y ds)) with 0; [apply sqrt_0|].
    symmetry. apply mse_zero. intros i Hi.
    rewrite (nth_map_default _ _ _ [] 0).
    destruct (Nat.ltb_spec i (length (x ds))); [apply H; lia|lia].
Qed.

End ErrorFacts.

(** ** The code of src/app.js and vegetation-adapter.js *)

Module AppFacts.
Import JSDate JSDateFacts HelperFacts ForecastManager SpecWords Notions Examples.
Import DatasetFacts ForecastFacts LinearFacts JSString CalendarFacts.
Import Utils.
Local Open Scope R_scope.

Lemma clamp_num v a b :
  clamp (Num v) (Num a) (Num b) = Num (Rmax a (Rmin b v)).
Proof. reflexivity. Qed.

Lemma clamp_between v a b :
  a <= b -> a <= Rmax a (Rmin b v) <= b.
Proof. intros H. unfold Rmax, Rmin. repeat destruct Rle_dec; lra. Qed.

Lemma clamp_inside v a b : a <= v <= b -> Rmax a (Rmin b v) = v.
Proof. intros H. unfold Rmax, Rmin. repeat destruct Rle_dec; lra. Qed.

Lemma clamp_inverted v a b : b < a -> Rmax a (Rmin b v) = a.
Proof. intros H. unfold Rmax, Rmin. repeat destruct Rle_dec; lra. Qed.

Lemma clamp_monotone v v' a b : v <= v' -> Rmax a (Rmin b v) <= Rmax a (Rmin b v').
Proof. intros H. unfold Rmax, Rmin. repeat destruct Rle_dec; lra. Qed.

Lemma parseInt_finite s : Parse.parseInt s = NaN \/ exists x, Parse.parseInt s = Num x.
Proof.
  unfold Parse.parseInt.
  destruct (Parse.take_sign _) as [sign l].
  destruct (Parse.strip_hex l) as [l'|].
  - destruct (fst (Parse.take_digits Parse.hex_val l')); [now left|right; eauto].
  - destruct (fst (Parse.take_digits digit_val l)); [now left|right; eauto].
Qed.

Lemma or_number_clamped v d a b :
  a <= b ->
  exists c, clamp (PhotoManager.or_number (PhotoManager.parseInt_value v) d) (Num a) (Num b)
            = Num c /\ a <= c <= b.
Proof.
  intros Hab.
  assert (H : exists x, PhotoManager.or_number (PhotoManager.parseInt_value v) d = Num x).
  { unfold PhotoManager.parseInt_value. destruct v as [s|]; [|cbn; eauto].
    destruct (parseInt_finite s) as [-> | [x ->]]; cbn; [eauto|].
    destruct Req_dec_T; eauto. }
  destruct H as [x ->]. rewrite clamp_num. eexists. split; [reflexivity|].
  now apply clamp_between.
Qed.

(** the copy of [_invSym] *)

Lemma app_step_of_step n st i st' :
  gauss_jordan_step n st i = Ok st' -> AppForecastManager.gauss_jordan_step n st i = Ok st'.
Proof.
  destruct st as [A I']. unfold gauss_jordan_step, AppForecastManager.gauss_jordan_step.
  unfold singular_eps.
  destruct (Rlt_dec (Rabs (entry A (find_pivot A i n) i)) 1e-8); [discriminate|].
  destruct (Rlt_dec (Rabs (entry A (find_pivot A i n) i)) 1e-10); [lra|].
  auto.
Qed.

Lemma app_step_throws n st i e :
  AppForecastManager.gauss_jordan_step n st i = Throw e ->
  e = Error "Singular" /\ gauss_jordan_step n st i = Throw (Error "Singular matrix").
Proof.
  destruct st as [A I']. unfold gauss_jordan_step, AppForecastManager.gauss_jordan_step.
  unfold singular_eps.
  destruct (Rlt_dec (Rabs (entry A (find_pivot A i n) i)) 1e-10); [|discriminate].
  destruct (Rlt_dec (Rabs (entry A (find_pivot A i n) i)) 1e-8); [|lra].
  intros [= <-]. auto.
Qed.

Lemma app_loop_of_loop n steps : forall st st',
  gauss_jordan_loop n steps st = Ok st' ->
  fold_left (fun acc i => let! s := acc in AppForecastManager.gauss_jordan_step n s i)
            steps (Ok st) = Ok st'.
Proof.
  unfold gauss_jordan_loop.
  induction steps as [|i steps IH]; intros st st' H; [exact H|].
  cbn [fold_left rbind] in H |- *.
  destruct (gauss_jordan_step n st i) as [s1|e] eqn:Hs.
  - rewrite (app_step_of_step _ _ _ _ Hs). now apply IH.
  - rewrite gauss_jordan_loop_throw in H. discriminate.
Qed.

Lemma app_invSym_of_invSym M J : _invSym M = Ok J -> AppForecastManager._invSym M = Ok J.
Proof.
  unfold _invSym, AppForecastManager._invSym. cbv zeta.
  destruct (gauss_jordan_loop _ _ _) as [st|] eqn:H; [|discriminate].
  cbn [rbind]. intros [= <-]. now rewrite (app_loop_of_loop _ _ _ _ H).
Qed.

Lemma app_loop_throw n steps e :
  fold_left (fun acc i => let! s := acc in AppForecastManager.gauss_jordan_step n s i)
            steps (Throw e) = Throw e.
Proof. induction steps; cbn; auto. Qed.

Lemma app_loop_error n steps : forall acc e,
  (forall e0, acc = Throw e0 -> e0 = Error "Singular") ->
  fold_left (fun acc i => let! s := acc in AppForecastManager.gauss_jordan_step n s i)
            steps acc = Throw e ->
  e = Error "Singular".
Proof.
  induction steps as [|i steps IH]; intros acc e Hacc H; [now apply Hacc|].
  cbn [fold_left] in H. apply IH in H; [exact H|].
  intros e0 He0. destruct acc as [st|e1]; cbn [rbind] in He0.
  - now apply app_step_throws in He0.
  - apply Hacc. congruence.
Qed.

Lemma app_invSym_throws M e :
  AppForecastManager._invSym M = Throw e ->
  e = Error "Singular" /\ _invSym M = Throw (Error "Singular matrix").
Proof.
  intros H. split.
  - unfold AppForecastManager._invSym in H. cbv zeta in H.
    destruct (fold_left _ _ _) as [st|e'] eqn:Hf; [discriminate|].
    cbn [rbind] in H. injection H as <-.
    apply app_loop_error in Hf; [exact Hf|]. discriminate.
  - destruct (_invSym M) as [J|e'] eqn:HJ.
    + apply app_invSym_of_invSym in HJ. congruence.
    + f_equal. apply invSym_fails in HJ as (_ & _ & _ & _ & _ & _ & ->). reflexivity.
Qed.

(** the converters of tokens *)

Lemma app_toISO_same has token : AppForecastManager._toISO token = _toISO has token.
Proof.
  rewrite (toISO_same has false). unfold AppForecastManager._toISO, _toISO, _doyToDate.
  destruct (list_ascii_of_string token) as [|a [|b [|c [|d [|h [|e [|f [|g [|i [|j [|k l]]]]]]]]]]];
    try reflexivity.
  destruct (forallb is_digit [a; b; c; d; e; f; g] && Ascii.eqb h "-"); [|reflexivity].
  cbv zeta. destruct (toISOString _); reflexivity.
Qed.

Lemma modisToISO_toISO has md :
  VegetationAdapter.modisToISO md = let! r := _toISO has md in Ok (default md r).
Proof.
  rewrite (toISO_same has false). unfold VegetationAdapter.modisToISO, _toISO, _doyToDate.
  destruct (list_ascii_of_string md) as [|a [|b [|c [|d [|h [|e [|f [|g [|i [|j [|k l]]]]]]]]]]];
    try reflexivity.
  - destruct (forallb is_digit [a; b; c; d; e; f; g] && Ascii.eqb h "-"); [|reflexivity].
    cbv zeta. destruct (toISOString _); reflexivity.
  - destruct (_ && _); reflexivity.
Qed.

(** the copy of the weather constants *)

Lemma app_proxies_sum wx :
  NoDup (Object_keys wx) -> AppForecastManager.weather_proxies wx = spec_proxies wx.
Proof.
  intros Hnd. unfold AppForecastManager.weather_proxies, spec_proxies, Object_keys in *.
  cbv zeta. rewrite js_slice_from_last by lia. rewrite length_map.
  change (Z.to_nat 30) with 30%nat. rewrite skipn_map.
  rewrite !(map_wx_get wx _ _ Hnd); [reflexivity| |];
    intros kv Hin; eapply In_skipn_In; eauto.
Qed.

(** the scaling of raw values *)

Lemma vi_value_scaleValue bands viType :
  viType = "ndvi"%string \/ viType = "evi"%string ->
  vi_value bands viType
  = match find (fun b => includes (toLowerCase (default ""%string (band b))) viType) bands with
    | Some b =>
        VegetationManager.scaleValue (band b)
          (match data b with DataArray l => mjoin (head l) | DataValue v => v end)
    | None => None
    end.
Proof.
  intros Hv. unfold vi_value. cbv zeta.
  destruct (find _ bands) as [b|] eqn:Hf; [|reflexivity].
  apply find_some in Hf as [_ Hinc].
  unfold VegetationManager.scaleValue.
  destruct (match data b with DataArray l => mjoin (head l) | DataValue v => v end) as [raw|];
    [|reflexivity].
  destruct (Rle_dec raw (-9000)); [reflexivity|].
  destruct (includes (toLowerCase (default ""%string (band b))) "reflectance"); [reflexivity|].
  destruct Hv as [-> | ->]; rewrite Hinc; [reflexivity|].
  now rewrite orb_true_r.
Qed.

End AppFacts.

Module PhenologyFacts.
Import JSDate JSDateFacts HelperFacts ForecastManager SpecWords Notions Examples.
Import DatasetFacts ForecastFacts LinearFacts JSString CalendarFacts.
Import StandardFacts PhenologyManager.
Local Open Scope R_scope.

Lemma degree_days_nil base : degree_days base [] = 0.
Proof. reflexivity. Qed.

Lemma degree_days_none base temps : degree_days base (None :: temps) = degree_days base temps.
Proof. reflexivity. Qed.

Lemma degree_days_some base t temps :
  degree_days base (Some t :: temps) = Rmax 0 (t - base) + degree_days base temps.
Proof. unfold degree_days. cbn [non_null map]. apply sum_cons. Qed.


(** The result of the loop entered at index [i] with accumulation [acc]:
    the first day with a temperature where the accumulation reaches the
    threshold. *)
Lemma estimateGDD_from_spec base thr temps : forall i acc,
  let r := estimateGDD_from temps i base thr acc in
  days r = doy r
  /\ match doy r with
     | Some d =>
         exists k t, d = (i + 1 + Z.of_nat k)%Z /\ temps !! k = Some (Some t)
                     /\ gdd r = acc + degree_days base (firstn (S k) temps)
                     /\ gdd r >= thr
                     /\ forall j, (j < k)%nat -> temps !! j <> Some None ->
                          acc + degree_days base (firstn (S j) temps) < thr
     | None =>
         gdd r = acc + degree_days base temps
         /\ forall j, (j < length temps)%nat -> temps !! j <> Some None ->
              acc + degree_days base (firstn (S j) temps) < thr
     end.
Proof.
  induction temps as [|[t|] temps IH]; intros i acc; cbn zeta.
  - cbn [estimateGDD_from doy days gdd]. split; [reflexivity|].
    split; [rewrite degree_days_nil; lra|]. intros j Hj. cbn [length] in Hj. lia.
  - cbn [estimateGDD_from].
    destruct (Rge_dec (acc + Rmax 0 (t - base)) thr) as [Hge|Hlt].
    + cbn [doy days gdd]. split; [reflexivity|].
      exists 0%nat, t. split; [lia|]. split; [reflexivity|].
      cbn [firstn]. rewrite degree_days_some, degree_days_nil.
      split; [lra|]. split; [lra|]. intros j Hj. lia.
    + specialize (IH (i + 1)%Z (acc + Rmax 0 (t - base))). cbv zeta in IH.
      destruct IH as [Hd IH]. split; [exact Hd|].
      destruct (doy (estimateGDD_from temps (i + 1) base thr (acc + Rmax 0 (t - base))))
        as [d|].
      * destruct IH as (k & t' & Hk & Hl & Hg & Hge & Hmin).
        exists (S k), t'. split; [lia|]. split; [exact Hl|].
        change (firstn (S (S k)) (Some t :: temps)) with (Some t :: firstn (S k) temps).
        rewrite degree_days_some. split; [lra|]. split; [exact Hge|].
        intros [|j] Hj Hnn.
        -- cbn [firstn]. rewrite degree_days_some, degree_days_nil. lra.
        -- change (firstn (S (S j)) (Some t :: temps)) with (Some t :: firstn (S j) temps).
           rewrite degree_days_some.
           specialize (Hmin j ltac:(lia) Hnn). lra.
      * destruct IH as [Hg Hmin]. rewrite degree_days_some. split; [lra|].
        intros [|j] Hj Hnn.
        -- cbn [firstn]. rewrite degree_days_some, degree_days_nil. lra.
        -- change (firstn (S (S j)) (Some t :: temps)) with (Some t :: firstn (S j) temps).
           rewrite degree_days_some. cbn [length] in Hj.
           specialize (Hmin j ltac:(lia) Hnn). lra.
  - cbn [estimateGDD_from].
    specialize (IH (i + 1)%Z acc). cbv zeta in IH.
    destruct IH as [Hd IH]. split; [exact Hd|].
    destruct (doy (estimateGDD_from temps (i + 1) base thr acc)) as [d|].
    + destruct IH as (k & t' & Hk & Hl & Hg & Hge & Hmin).
      exists (S k), t'. split; [lia|]. split; [exact Hl|].
      change (firstn (S (S k)) (None :: temps)) with (None :: firstn (S k) temps).
      rewrite degree_days_none. split; [exact Hg|]. split; [exact Hge|].
      intros [|j] Hj Hnn; [cbn in Hnn; congruence|].
      change (firstn (S (S j)) (None :: temps)) with (None :: firstn (S j) temps).
      rewrite degree_days_none. apply Hmin; [lia|exact Hnn].
    + destruct IH as [Hg Hmin]. rewrite degree_days_none. split; [exact Hg|].
      intros [|j] Hj Hnn; [cbn in Hnn; congruence|].
      change (firstn (S (S j)) (None :: temps)) with (None :: firstn (S j) temps).
      rewrite degree_days_none. cbn [length] in Hj. apply Hmin; [lia|exact Hnn].
Qed.

Lemma estimate_from_estimateGDD year base thr temps : forall i acc,
  DataHub.estimate_from year temps i base thr acc
  = let r := estimateGDD_from temps i base thr acc in
    match doy r with
    | Some d => let! s := Utils.doyToDate year d in
                Ok {| DataHub.doy := Some d; DataHub.date := Some s; DataHub.gdd := gdd r |}
    | None => Ok {| DataHub.doy := None; DataHub.date := None; DataHub.gdd := gdd r |}
    end.
Proof.
  induction temps as [|[t|] temps IH]; intros i acc; cbn zeta.
  - reflexivity.
  - cbn [DataHub.estimate_from estimateGDD_from].
    destruct (Rge_dec (acc + Rmax 0 (t - base)) thr); [reflexivity|]. apply IH.
  - cbn [DataHub.estimate_from estimateGDD_from]. apply IH.
Qed.

End PhenologyFacts.

Module GenDatesFacts.
Import JSDate JSDateFacts HelperFacts ForecastManager SpecWords Notions Examples.
Import DatasetFacts ForecastFacts LinearFacts JSString CalendarFacts.
Import Utils.
Local Open Scope Z_scope.

Lemma setUTCDate_days n k :
  setUTCDate (Some (n * msPerDay))
             (option_map (fun g => g + k) (getUTCDate (Some (n * msPerDay))))
  = TimeClip ((n + k) * msPerDay).
Proof.
  unfold getUTCDate, option_map, setUTCDate.
  rewrite MakeDay_of_time, Day_midnight, TimeWithinDay_midnight.
  unfold MakeDate. now rewrite Z.add_0_r.
Qed.

Lemma iso_of_day_inj n n' :
  0 <= YearFromDay n <= 9999 -> 0 <= YearFromDay n' <= 9999 ->
  iso_of_day n = iso_of_day n' -> n = n'.
Proof.
  intros Hn Hn' He.
  pose proof (iso_of_day_date n Hn) as H1. pose proof (iso_of_day_date n' Hn') as H2.
  unfold iso_date in *. rewrite He in H1. rewrite H1 in H2.
  injection H2. unfold msPerDay. lia.
Qed.

Lemma last_day_of_year y :
  MakeDay y 11 31 = DayFromYear y + DaysInYear y - 1.
Proof.
  unfold MakeDay. change (11 / 12) with 0. change (11 mod 12) with 11.
  rewrite Z.add_0_r. change (DaysBeforeMonth ?l 11) with (334 + l).
  destruct (DaysInYear_cases y) as [-> | ->]; cbn [Z.eqb Pos.eqb]. all: lia.
Qed.

Lemma year_start_string y :
  1000 <= y <= 9999 ->
  Date_parse (Number_toString y ++ "-01-01T00:00:00Z") = Some (DayFromYear y * msPerDay).
Proof.
  intros Hy. rewrite Number_toString_4 by exact Hy.
  change (pad4 y ++ "-01-01T00:00:00Z")%string
    with (pad4 y ++ "-" ++ pad2 1 ++ "-" ++ pad2 1 ++ "T00:00:00Z")%string.
  assert (Hdm : DaysInMonth y (1 - 1) = 31) by reflexivity.
  rewrite Date_parse_pads by lia.
  rewrite MakeDay_january, MakeDate_midnight.
  replace (DayFromYear y + 1 - 1) with (DayFromYear y) by lia.
  apply TimeClip_small.
  assert (-719528 <= DayFromYear y <= 2932897).
  { change (-719528) with (DayFromYear 0). change 2932897 with (DayFromYear 10000).
    split; apply DayFromYear_le; lia. }
  unfold msPerDay. lia.
Qed.

Lemma year_end_string y :
  1000 <= y <= 9999 ->
  Date_parse (Number_toString y ++ "-12-31T00:00:00Z")
  = Some ((DayFromYear y + DaysInYear y - 1) * msPerDay)
  /\ (Number_toString y ++ "-12-31")%string = iso_of_day (DayFromYear y + DaysInYear y - 1).
Proof.
  intros Hy. rewrite Number_toString_4 by exact Hy.
  pose proof (DaysInYear_cases y) as Hc.
  assert (Hb : -719528 <= DayFromYear y <= 2932897).
  { change (-719528) with (DayFromYear 0). change 2932897 with (DayFromYear 10000).
    split; apply DayFromYear_le; lia. }
  split.
  - change (pad4 y ++ "-12-31T00:00:00Z")%string
      with (pad4 y ++ "-" ++ pad2 12 ++ "-" ++ pad2 31 ++ "T00:00:00Z")%string.
    assert (Hdm : DaysInMonth y (12 - 1) = 31) by reflexivity.
    rewrite Date_parse_pads by lia.
    change (12 - 1) with 11. rewrite last_day_of_year, MakeDate_midnight.
    apply TimeClip_small. unfold msPerDay. lia.
  - assert (Hdm : DaysInMonth y 11 = 31) by reflexivity.
    destruct (MakeDay_month_date y 11 31) as [HM HD]; [lia|lia|].
    rewrite last_day_of_year in HM, HD.
    unfold iso_of_day. rewrite HM, HD.
    rewrite (YearFromDay_unique _ y) by (rewrite DayFromYear_succ; lia).
    reflexivity.
Qed.

Lemma in_year_range y a :
  0 <= y <= 9999 -> 0 <= a < DaysInYear y -> 0 <= YearFromDay (DayFromYear y + a) <= 9999.
Proof.
  intros Hy Ha. rewrite (YearFromDay_unique _ y); [lia|].
  rewrite DayFromYear_succ. lia.
Qed.

Section Loop.
Variables (year step : Z).
Hypothesis Hyear : 1000 <= year <= 9999.
Hypothesis Hstep : 1 <= step.

Let first := DayFromYear year.
Let len := DaysInYear year.
Let d1 : Date := Some ((first + len - 1) * msPerDay).

Let count (a : Z) : nat := Z.to_nat ((len - 1 - a) / step + 1).

Lemma genDates_loop_days fuel : forall a arr,
  0 <= a -> (Z.to_nat (len - a) < fuel)%nat ->
  genDates_loop fuel step (Some ((first + a) * msPerDay)) d1 arr
  = Some (Ok (arr ++ map (fun i => iso_of_day (first + a + Z.of_nat i * step))
                         (seq 0 (count a)))).
Proof.
  induction fuel as [|fuel IH]; intros a arr Ha Hfuel; [lia|].
  cbn [genDates_loop]. unfold d1.
  destruct (Z.leb_spec ((first + a) * msPerDay) ((first + len - 1) * msPerDay)) as [Hle|Hgt].
  - assert (Hin : a <= len - 1) by (unfold msPerDay in Hle; lia).
    pose proof (in_year_range year a ltac:(lia) ltac:(lia)) as Hy. fold first in Hy.
    pose proof (iso_of_midnight _ Hy) as Hiso. unfold iso_of in Hiso. rewrite Hiso.
    rewrite setUTCDate_days.
    assert (Hcount : count a = S (count (a + step))).
    { unfold count. replace (len - 1 - a) with ((len - 1 - (a + step)) + 1 * step) by lia.
      rewrite Z.div_add by lia.
      assert (-1 <= (len - 1 - (a + step)) / step).
      { Z.div_mod_to_equations. nia. }
      lia. }
    rewrite Hcount. cbn [seq map]. rewrite <- seq_shift, map_map.
    replace (first + a + Z.of_nat 0 * step) with (first + a) by lia.
    destruct (Z.le_gt_cases (a + step) (len - 1)) as [Hnext|Hnext].
    + pose proof (in_year_range year (a + step) ltac:(lia) ltac:(lia)) as Hy'.
      fold first in Hy'. pose proof (year_range_day _ Hy') as Hr.
      rewrite TimeClip_small by (unfold msPerDay; lia).
      replace (first + a + step) with (first + (a + step)) by lia.
      rewrite IH by lia. rewrite <- app_assoc. cbn [app]. do 4 f_equal.
      apply map_ext. intros i. f_equal. lia.
    + assert (Hc0 : count (a + step) = 0%nat).
      { unfold count.
        assert ((len - 1 - (a + step)) / step < 0) by (Z.div_mod_to_equations; nia).
        lia. }
      rewrite Hc0. cbn [seq map].
      destruct fuel as [|fuel]; [lia|].
      destruct (TimeClip ((first + a + step) * msPerDay)) as [t'|] eqn:Ht.
      * apply TimeClip_Some in Ht. subst t'. cbn [genDates_loop].
        destruct (Z.leb_spec ((first + a + step) * msPerDay) ((first + len - 1) * msPerDay));
          [unfold msPerDay in *; lia|reflexivity].
      * reflexivity.
  - assert (Hc0 : count a = 0%nat).
    { unfold count. assert (len - 1 < a) by (unfold msPerDay in Hgt; lia).
      assert ((len - 1 - a) / step < 0) by (Z.div_mod_to_equations; nia). lia. }
    rewrite Hc0. cbn [seq map]. now rewrite app_nil_r.
Qed.

Lemma genDates_stepped fuel :
  (366 < fuel)%nat -> genDates fuel year step = Some (Ok (stepped_dates year step)).
Proof.
  intros Hfuel. unfold genDates. cbv zeta.
  rewrite (year_start_string year Hyear).
  destruct (year_end_string year Hyear) as [-> Hdec]. rewrite Hdec.
  pose proof (DaysInYear_cases year) as Hc. fold len in Hc.
  replace (DayFromYear year * msPerDay) with ((first + 0) * msPerDay)
    by (unfold first; f_equal; lia).
  fold first len d1.
  rewrite genDates_loop_days by lia. cbn [app].
  unfold stepped_dates. cbv zeta. fold first len.
  unfold count. rewrite Z.sub_0_r.
  rewrite (map_ext (fun i => iso_of_day (first + 0 + Z.of_nat i * step))
                   (fun i => iso_of_day (first + Z.of_nat i * step)))
    by (intros; f_equal; lia).
  set (k := Z.to_nat ((len - 1) / step + 1)).
  set (L := map (fun i => iso_of_day (first + Z.of_nat i * step)) (seq 0 k)).
  assert (Hdiv : 0 <= (len - 1) / step) by (apply Z.div_pos; lia).
  assert (Hk : Z.of_nat k = (len - 1) / step + 1) by (unfold k; lia).
  pose proof (Z.div_mod (len - 1) step ltac:(lia)) as Hdm.
  pose proof (Z.mod_pos_bound (len - 1) step ltac:(lia)) as Hmod.
  assert (Hl : last L = Some (iso_of_day (first + (len - 1 - (len - 1) mod step)))).
  { unfold L. destruct k as [|k']; [lia|].
    rewrite seq_S, map_app. cbn [map]. rewrite last_snoc. do 2 f_equal. nia. }
  rewrite Hl.
  destruct (Z.eqb_spec ((len - 1) mod step) 0) as [Hz|Hnz].
  - rewrite Hz, Z.sub_0_r.
    replace (first + (len - 1)) with (first + len - 1) by lia.
    now rewrite String.eqb_refl, app_nil_r.
  - destruct (String.eqb_spec (iso_of_day (first + (len - 1 - (len - 1) mod step)))
                              (iso_of_day (first + len - 1))) as [He|_]; [|reflexivity].
    apply iso_of_day_inj in He; [lia| |].
    + apply (in_year_range year (len - 1 - (len - 1) mod step)); lia.
    + replace (first + len - 1) with (first + (len - 1)) by lia.
      apply (in_year_range year (len - 1)); lia.
Qed.

End Loop.

End GenDatesFacts.

(** ** The dates of a year *)

Module YearFacts.
Import JSDate JSDateFacts HelperFacts ForecastManager SpecWords Notions Examples.
Import DatasetFacts ForecastFacts LinearFacts JSString CalendarFacts.
Import GenDatesFacts Utils.
Local Open Scope Z_scope.

Lemma year_start_iso y :
  1000 <= y <= 9999 -> iso_of_day (DayFromYear y) = (Number_toString y ++ "-01-01")%string.
Proof.
  intros Hy. rewrite Number_toString_4 by exact Hy.
  assert (Hdm : DaysInMonth y 0 = 31) by reflexivity.
  destruct (MakeDay_month_date y 0 1) as [HM HD]; [lia|lia|].
  rewrite MakeDay_january in HM, HD.
  replace (DayFromYear y + 1 - 1) with (DayFromYear y) in HM, HD by lia.
  unfold iso_of_day. rewrite HM, HD, YearFromDay_first. reflexivity.
Qed.

Lemma genDates_loop_stuck n n1 : forall fuel arr,
  n <= n1 -> 0 <= YearFromDay n <= 9999 ->
  genDates_loop fuel 0 (Some (n * msPerDay)) (Some (n1 * msPerDay)) arr = None.
Proof.
  intros fuel arr Hle Hy. revert arr.
  induction fuel as [|fuel IH]; intros arr; [reflexivity|].
  cbn [genDates_loop].
  destruct (Z.leb_spec (n * msPerDay) (n1 * msPerDay)) as [_|Hgt];
    [|unfold msPerDay in Hgt; lia].
  pose proof (iso_of_midnight _ Hy) as Hiso. unfold iso_of in Hiso. rewrite Hiso.
  rewrite setUTCDate_days, Z.add_0_r.
  pose proof (year_range_day _ Hy) as Hr.
  rewrite TimeClip_small by (unfold msPerDay; lia).
  apply IH.
Qed.

Lemma genDates_step_0 year fuel :
  1000 <= year <= 9999 -> genDates fuel year 0 = None.
Proof.
  intros Hyear. unfold genDates. cbv zeta.
  rewrite (year_start_string year Hyear).
  destruct (year_end_string year Hyear) as [-> _].
  pose proof (DaysInYear_cases year).
  rewrite genDates_loop_stuck; [reflexivity|lia|].
  rewrite YearFromDay_first. lia.
Qed.

Section Stepped.
Variables (year step : Z).
Hypothesis Hyear : 1000 <= year <= 9999.
Hypothesis Hstep : 1 <= step.

Let first := DayFromYear year.
Let len := DaysInYear year.

Lemma stepped_count : 0 <= (len - 1) / step /\ step * ((len - 1) / step) <= len - 1.
Proof.
  pose proof (DaysInYear_cases year) as Hc. fold len in Hc.
  split; [apply Z.div_pos; lia|]. apply Z.mul_div_le. lia.
Qed.

Lemma stepped_head :
  head (stepped_dates year step) = Some (Number_toString year ++ "-01-01")%string.
Proof.
  unfold stepped_dates. cbv zeta. fold first len.
  destruct stepped_count as [Hc _].
  destruct (Z.to_nat ((len - 1) / step + 1)) as [|k] eqn:Hk; [lia|].
  cbn [seq map app head]. rewrite Z.mul_0_l, Z.add_0_r.
  unfold first. now rewrite year_start_iso.
Qed.

Lemma stepped_last :
  last (stepped_dates year step) = Some (Number_toString year ++ "-12-31")%string.
Proof.
  destruct (year_end_string year Hyear) as [_ ->]. fold first len.
  unfold stepped_dates. cbv zeta. fold first len.
  destruct stepped_count as [Hc Hm].
  pose proof (Z.div_mod (len - 1) step ltac:(lia)) as Hdm.
  destruct (Z.eqb_spec ((len - 1) mod step) 0) as [Hz|Hnz].
  - rewrite app_nil_r.
    destruct (Z.to_nat ((len - 1) / step + 1)) as [|k] eqn:Hk; [lia|].
    rewrite seq_S, map_app. cbn [map]. rewrite last_snoc. do 2 f_equal.
    cbn [Nat.add]. nia.
  - now rewrite last_snoc.
Qed.

Lemma stepped_In s :
  In s (stepped_dates year step) ->
  exists a, 0 <= a < len /\ s = iso_of_day (first + a).
Proof.
  unfold stepped_dates. cbv zeta. fold first len.
  destruct stepped_count as [Hc Hm].
  pose proof (DaysInYear_cases year) as Hy. fold len in Hy.
  intros Hin. apply in_app_or in Hin as [Hin|Hin].
  - apply in_map_iff in Hin as (i & <- & Hi). apply in_seq in Hi.
    exists (Z.of_nat i * step). split; [|reflexivity]. nia.
  - destruct (Z.eqb_spec ((len - 1) mod step) 0); [destruct Hin|].
    destruct Hin as [<-|[]]. exists (len - 1). split; [lia|]. f_equal. lia.
Qed.

Lemma stepped_NoDup : NoDup (stepped_dates year step).
Proof.
  unfold stepped_dates. cbv zeta. fold first len.
  destruct stepped_count as [Hc Hm].
  pose proof (DaysInYear_cases year) as Hy. fold len in Hy.
  set (k := Z.to_nat ((len - 1) / step + 1)).
  assert (Hrange : forall i, (i < k)%nat ->
            0 <= YearFromDay (first + Z.of_nat i * step) <= 9999).
  { intros i Hi. apply (in_year_range year); [lia|]. unfold k in Hi. fold len. nia. }
  assert (Hmap : NoDup (map (fun i => iso_of_day (first + Z.of_nat i * step)) (seq 0 k))).
  { apply NoDup_fmap_2_strong; [|apply NoDup_seq].
    intros i j Hi Hj He. apply list_elem_of_In, in_seq in Hi, Hj.
    apply iso_of_day_inj in He; [nia| |]; apply Hrange; lia. }
  apply NoDup_app. split; [exact Hmap|]. split.
  - intros s Hs. destruct (Z.eqb_spec ((len - 1) mod step) 0) as [Hz|Hnz];
      [apply not_elem_of_nil|].
    intros Hin. apply list_elem_of_In in Hin as [<-|[]].
    apply list_elem_of_In, in_map_iff in Hs as (i & He & Hi). apply in_seq in Hi.
    apply iso_of_day_inj in He.
    + apply Hnz. replace (len - 1) with (Z.of_nat i * step) by lia.
      apply Z.mod_mul. lia.
    + apply Hrange. lia.
    + replace (first + len - 1) with (first + (len - 1)) by lia.
      apply (in_year_range year); [lia|]. fold len. lia.
  - destruct (Z.eqb_spec ((len - 1) mod step) 0); [constructor|].
    apply NoDup_singleton.
Qed.

Lemma stepped_length :
  Z.of_nat (length (stepped_dates year step))
  = (len - 1) / step + 1 + (if (len - 1) mod step =? 0 then 0 else 1).
Proof.
  unfold stepped_dates. cbv zeta. fold first len.
  destruct stepped_count as [Hc Hm].
  rewrite length_app, length_map, length_seq.
  destruct (Z.eqb_spec ((len - 1) mod step) 0); cbn [length]; lia.
Qed.

End Stepped.

Lemma stepped_daily year :
  1000 <= year <= 9999 ->
  stepped_dates year 1
  = map (fun i => iso_of_day (DayFromYear year + Z.of_nat i))
        (seq 0 (Z.to_nat (DaysInYear year))).
Proof.
  intros Hy. unfold stepped_dates. cbv zeta.
  pose proof (DaysInYear_cases year) as Hc.
  rewrite Z.mod_1_r, Z.div_1_r. cbn [Z.eqb]. rewrite app_nil_r.
  replace (DaysInYear year - 1 + 1) with (DaysInYear year) by lia.
  apply map_ext. intros i. f_equal. lia.
Qed.

End YearFacts.

(** ** Fetched histories *)

Module HistoryFacts.
Import JSDate JSDateFacts HelperFacts ForecastManager SpecWords Notions Examples.
Import DatasetFacts ForecastFacts LinearFacts JSString CalendarFacts.
Import SeriesFacts RunFacts.
Local Open Scope R_scope.

Lemma lags_present_valued (hist : list Observation) :
  Forall (fun o => value o <> None) hist ->
  lags_present hist = (2 <=? length hist)%nat.
Proof.
  intros Hall. unfold lags_present. cbv zeta.
  assert (Hidx : forall i, (i < length hist)%nat ->
            exists v, js_index hist (Z.of_nat i) ≫= value = Some v).
  { intros i Hi. unfold js_index.
    destruct (Z.ltb_spec (Z.of_nat i) 0); [lia|]. rewrite Nat2Z.id.
    destruct (nth_error hist i) as [o|] eqn:Ho; [|apply nth_error_None in Ho; lia].
    apply nth_error_In in Ho. rewrite List.Forall_forall in Hall. specialize (Hall o Ho).
    cbn. destruct (value o) as [v|]; [eauto|congruence]. }
  destruct (Nat.leb_spec 2 (length hist)) as [Hl|Hl].
  - destruct (Hidx (length hist - 1)%nat ltac:(lia)) as (v1 & H1).
    destruct (Hidx (length hist - 2)%nat ltac:(lia)) as (v2 & H2).
    replace (Z.of_nat (length hist) - 1)%Z with (Z.of_nat (length hist - 1)) by lia.
    replace (Z.of_nat (length hist) - 2)%Z with (Z.of_nat (length hist - 2)) by lia.
    now rewrite H1, H2.
  - assert (H2 : js_index hist (Z.of_nat (length hist) - 2) = None).
    { unfold js_index. destruct (Z.ltb_spec (Z.of_nat (length hist) - 2) 0); [reflexivity|lia]. }
    rewrite H2. cbn. now destruct (js_index hist (Z.of_nat (length hist) - 1) ≫= value).
Qed.

End HistoryFacts.

(** ** Targets that are an affine function of the features *)

Module ExactFacts.
Import JSDate JSDateFacts HelperFacts ForecastManager SpecWords Notions Examples.
Import DatasetFacts ForecastFacts LinearFacts JSString CalendarFacts.
Import KernelFacts StandardFacts ErrorFacts.
Local Open Scope R_scope.

Lemma sum_snoc l b : sum (l ++ [b]) = sum l + b.
Proof. unfold sum. rewrite fold_left_app. reflexivity. Qed.

Lemma sum_nth l : sum l = sum_below (length l) (fun i => nth i l 0).
Proof.
  induction l as [|b l IH] using rev_ind; [reflexivity|].
  rewrite sum_snoc, length_app. cbn [length]. rewrite Nat.add_1_r. cbn [sum_below].
  rewrite app_nth2 by lia. rewrite Nat.sub_diag. cbn [nth]. f_equal.
  rewrite IH. apply sum_below_ext. intros k Hk. now rewrite app_nth1.
Qed.

Lemma sum_below_const n c : sum_below n (fun _ => c) = INR n * c.
Proof.
  induction n as [|n IH]; [cbn; lra|].
  cbn [sum_below]. rewrite IH, S_INR. lra.
Qed.

Lemma column_sd_pos col : 0 < column_sd col.
Proof. unfold column_sd. cbv zeta. apply sqrt_or_1_pos. Qed.

Section Affine.
Variables (X : matrix) (Y : list R) (n : nat) (a : nat -> R) (c0 : R).
Hypothesis Hrows : rows_cols (length X) n X.
Hypothesis Hm : (1 <= length X)%nat.
Hypothesis HY : length Y = length X.
Hypothesis Hrel : forall k, (k < length X)%nat ->
  nth k Y 0 = c0 + sum_below n (fun j => a j * entry X k j).

Let m := length X.
Let mu (j : nat) := nth j (feature_mu X n) 0.
Let sig (j : nat) := nth j (feature_sig X n) 0.
Let yMu := column_mean Y.
Let ySig := column_sd Y.
Let xN := standardized_x X n.
Let yN := standardized_y Y.
Let b (j : nat) := a j * sig j / ySig.

Lemma affine_mu j : (j < n)%nat -> mu j = column_mean (column X j).
Proof. intros Hj. unfold mu, feature_mu. now rewrite (nth_map_seq _ n j 0 Hj). Qed.

Lemma affine_sig j : (j < n)%nat -> 0 < sig j.
Proof.
  intros Hj. unfold sig, feature_sig. rewrite (nth_map_seq _ n j 0 Hj). apply column_sd_pos.
Qed.

Lemma affine_ySig : 0 < ySig.
Proof. apply column_sd_pos. Qed.

Lemma affine_column_sum j :
  (j < n)%nat -> sum_below m (fun k => entry X k j) = INR m * mu j.
Proof.
  intros Hj. rewrite (affine_mu j Hj).
  assert (Hc : column X j <> []).
  { unfold column. destruct X; [cbn in Hm; lia|discriminate]. }
  assert (Hl : length (column X j) = m) by (unfold column, m; apply length_map).
  rewrite <- Hl at 2. rewrite <- (column_mean_sum _ Hc).
  rewrite sum_nth, Hl. apply sum_below_ext. intros k Hk.
  unfold column in *. unfold m in Hk.
  rewrite (nth_map_default _ _ _ [] 0).
  destruct (Nat.ltb_spec k (length X)); [reflexivity|lia].
Qed.

Lemma affine_yMu : yMu = c0 + sum_below n (fun j => a j * mu j).
Proof.
  unfold yMu, column_mean. rewrite sum_nth, HY. fold m.
  rewrite (sum_below_ext m _ (fun k => c0 + sum_below n (fun j => a j * entry X k j)))
    by (intros k Hk; now apply Hrel).
  rewrite sum_below_plus, sum_below_const, sum_below_swap.
  rewrite (sum_below_ext n _ (fun j => a j * mu j * INR m)).
  2:{ intros j Hj. rewrite sum_below_scal_l, (affine_column_sum j Hj). lra. }
  rewrite sum_below_scal_r.
  assert (0 < INR m) by (apply lt_0_INR; unfold m; lia).
  field. lra.
Qed.

Lemma affine_xN k j :
  (k < m)%nat -> (j < n)%nat -> entry xN k j = (entry X k j - mu j) / sig j.
Proof.
  intros Hk Hj. unfold xN. apply entry_standardized; [exact Hk|].
  destruct Hrows as [_ Hr]. rewrite Hr by exact Hk. exact Hj.
Qed.

Lemma affine_yN k :
  (k < m)%nat -> nth k yN 0 = sum_below n (fun j => entry xN k j * b j).
Proof.
  intros Hk. unfold yN, standardized_y.
  rewrite (nth_map_default _ _ _ 0 0). rewrite HY.
  destruct (Nat.ltb_spec k (length X)) as [_|]; [|unfold m in Hk; lia].
  fold yMu ySig. rewrite (Hrel k Hk), affine_yMu.
  pose proof affine_ySig as Hs.
  rewrite (sum_below_ext n (fun j => entry xN k j * b j)
             (fun j => (a j * entry X k j - a j * mu j) * / ySig)).
  2:{ intros j Hj. rewrite (affine_xN k j Hk Hj). unfold b.
      pose proof (affine_sig j Hj). field. split; lra. }
  rewrite sum_below_scal_r, sum_below_minus. field. lra.
Qed.

Lemma affine_weights w j :
  linear_weights xN yN = Ok w -> (j < n)%nat -> nth j w 0 = b j.
Proof.
  intros Hw Hj.
  assert (HxN : rows_cols m n xN) by (apply rows_cols_standardized; exact Hrows).
  destruct (linear_weights_normal m n xN yN w HxN Hm Hw)
    as (inv & Hinv & _ & _ & _ & Hnormal).
  destruct (normal_matrix m n xN HxN Hm) as (Hsq & Hentry & HXTy).
  set (XTX := _matMul (_transpose xN) xN) in *.
  assert (Hlen : length XTX = n) by apply Hsq.
  destruct (invSym_left_inverse XTX inv) as [_ Hleft];
    [rewrite Hlen; exact Hsq|exact Hinv|]. rewrite Hlen in Hleft.
  assert (Hz : nth j w 0 - b j = 0).
  { apply (left_inverse_kernel n XTX inv (fun c => nth c w 0 - b c) Hleft); [|exact Hj].
    intros r Hr.
    rewrite (sum_below_ext n _ (fun c => entry XTX r c * nth c w 0 - entry XTX r c * b c))
      by (intros; lra).
    rewrite sum_below_minus.
    change (sum_below n (fun c => entry XTX r c * nth c w 0)) with (apply_entry n XTX w r).
    rewrite (Hnormal r Hr), (HXTy yN r Hr).
    rewrite (sum_below_ext n (fun c => entry XTX r c * b c)
               (fun c => sum_below m (fun k => entry xN k r * (entry xN k c * b c)))).
    2:{ intros c Hc. rewrite (Hentry r c Hr Hc), <- sum_below_scal_r.
        apply sum_below_ext. intros; lra. }
    rewrite sum_below_swap.
    rewrite (sum_below_ext m (fun k => entry xN k r * nth k yN 0)
               (fun k => sum_below n (fun c => entry xN k r * (entry xN k c * b c)))).
    2:{ intros k Hk. rewrite (affine_yN k Hk), sum_below_scal_l. reflexivity. }
    lra. }
  lra.
Qed.

Lemma affine_infer w row :
  linear_weights xN yN = Ok w -> length row = n ->
  linear_infer (feature_mu X n) (feature_sig X n) w yMu ySig row
  = c0 + sum_below n (fun j => a j * nth j row 0).
Proof.
  intros Hw Hrow. rewrite linear_infer_value, Hrow.
  fold mu sig. pose proof affine_ySig as Hs.
  rewrite (sum_below_ext n _ (fun j => (a j * nth j row 0 - a j * mu j) * / ySig)).
  2:{ intros j Hj. rewrite (affine_weights w j Hw Hj). unfold b.
      pose proof (affine_sig j Hj). fold (mu j) (sig j). field. split; lra. }
  rewrite sum_below_scal_r, sum_below_minus, affine_yMu. field. lra.
Qed.

End Affine.

Lemma trainModel_affine ds cfg X0 rest model (a : nat -> R) c0 :
  x ds = X0 :: rest ->
  Forall (fun row => length row = length X0) (x ds) ->
  length (y ds) = length (x ds) ->
  (forall k, (k < length (x ds))%nat ->
     nth k (y ds) 0 = c0 + sum_below (length X0) (fun j => a j * entry (x ds) k j)) ->
  _trainModel None ds cfg = Ok model ->
  (forall row, length row = length X0 ->
     infer model row = c0 + sum_below (length X0) (fun j => a j * nth j row 0))
  /\ rmse model = 0.
Proof.
  intros HX Hall HY Hrel Hm.
  assert (Hrows : rows_cols (length (x ds)) (length X0) (x ds)).
  { split; [reflexivity|]. intros r Hr. rewrite List.Forall_forall in Hall.
    apply Hall, nth_In, Hr. }
  assert (H1 : (1 <= length (x ds))%nat) by (rewrite HX; cbn; lia).
  assert (Hinf : forall row, length row = length X0 ->
            infer model row = c0 + sum_below (length X0) (fun j => a j * nth j row 0)).
  { rewrite (trainModel_linear _ _ _ _ HX) in Hm.
    destruct (linear_weights _ _) as [w|] eqn:Hw; [|discriminate].
    cbn [rbind] in Hm. injection Hm as <-. cbn [infer].
    intros row Hrow.
    apply (affine_infer (x ds) (y ds) (length X0) a c0 Hrows H1 HY Hrel w row Hw Hrow). }
  split; [exact Hinf|].
  apply (linear_rmse_zero ds cfg X0 rest model HX Hall HY Hm).
  intros i Hi. rewrite Hinf, (Hrel i Hi); [reflexivity|].
  apply Hrows, Hi.
Qed.

End ExactFacts.

(** ** The target among the features *)

Module LeakFacts.
Import JSDate JSDateFacts HelperFacts ForecastManager SpecWords Notions Examples.
Import DatasetFacts ForecastFacts LinearFacts JSString CalendarFacts.
Import KernelFacts StandardFacts ErrorFacts ExactFacts.
Local Open Scope R_scope.


Lemma dataset_sample_mean vi wx i f v :
  NoDup (map date vi) -> (2 <= i < length vi)%nat ->
  dataset_sample vi wx i = Some (f, v) ->
  length f = 7%nat /\ nth 2 f 0 = (nth 1 f 0 + nth 0 f 0 + v) / 3.
Proof.
  intros Hnd Hi. unfold dataset_sample. cbv zeta.
  destruct (lookup_lt_is_Some_2 vi i ltac:(lia)) as [o Ho].
  destruct (lookup_lt_is_Some_2 vi (i - 1) ltac:(lia)) as [o1 Ho1].
  destruct (lookup_lt_is_Some_2 vi (i - 2) ltac:(lia)) as [o2 Ho2].
  rewrite (Map_get_date vi i o Hnd Ho), (Map_get_date vi (i - 1) o1 Hnd Ho1),
    (Map_get_date vi (i - 2) o2 Hnd Ho2).
  rewrite roll_recent3 by lia. unfold recent3.
  rewrite (window3 vi i o o1 o2 ltac:(lia) Ho Ho1 Ho2). cbn [map].
  destruct (value o) as [v0|]; [|discriminate].
  destruct (value o1) as [l1|]; [|discriminate].
  destruct (value o2) as [l2|]; [|discriminate].
  cbn [non_null]. rewrite mean3.
  destruct (wx_get wx (nth i (map date vi) ""%string) ≫= tMean) as [t|]; [|discriminate].
  destruct (wx_get wx (nth i (map date vi) ""%string) ≫= pSum) as [p|]; [|discriminate].
  intros [= <- <-]. split; reflexivity.
Qed.

Lemma buildDataset_lengths vi wx :
  length (y (_buildDataset vi wx)) = length (x (_buildDataset vi wx)).
Proof. rewrite buildDataset_samples. unfold samples_of. cbn [x y]. now rewrite !length_map. Qed.

Lemma buildDataset_target vi wx k :
  NoDup (map date vi) ->
  (k < length (x (_buildDataset vi wx)))%nat ->
  let f := nth k (x (_buildDataset vi wx)) [] in
  nth k (y (_buildDataset vi wx)) 0 = 3 * nth 2 f 0 - nth 0 f 0 - nth 1 f 0.
Proof.
  intros Hnd. rewrite buildDataset_samples. unfold samples_of. cbn [x y].
  set (L := non_null (map (dataset_sample vi wx) (seq 2 (length vi - 2)))).
  rewrite length_map. intros Hk. cbv zeta.
  rewrite (nth_map_default fst L k ([], 0) []), (nth_map_default snd L k ([], 0) 0).
  destruct (Nat.ltb_spec k (length L)); [|lia].
  assert (Hin : In (nth k L ([], 0)) L) by now apply nth_In.
  destruct (nth k L ([], 0)) as [f v]. cbn [fst snd].
  unfold L in Hin. apply non_null_In, in_map_iff in Hin as (i & Hs & Hi).
  apply in_seq in Hi.
  destruct (dataset_sample_mean vi wx i f v Hnd ltac:(lia) Hs) as [_ H2]. lra.
Qed.

Lemma sum_below_7 (g : nat -> R) :
  sum_below 7 g = g 0%nat + g 1%nat + g 2%nat + g 3%nat + g 4%nat + g 5%nat + g 6%nat.
Proof. cbn [sum_below]. lra. Qed.

Lemma trainModel_dataset vi wx cfg model :
  NoDup (map date vi) ->
  _trainModel None (_buildDataset vi wx) cfg = Ok model ->
  (forall f, length f = 7%nat -> infer model f = 3 * nth 2 f 0 - nth 0 f 0 - nth 1 f 0)
  /\ rmse model = 0.
Proof.
  intros Hnd Hm.
  destruct (x (_buildDataset vi wx)) as [|X0 rest] eqn:HX.
  { unfold _trainModel in Hm. rewrite HX in Hm. discriminate. }
  assert (Hall : Forall (fun row => length row = length X0) (x (_buildDataset vi wx))).
  { apply List.Forall_forall. intros row Hr.
    rewrite (dataset_rows_length vi wx row Hr).
    symmetry. apply (dataset_rows_length vi wx). rewrite HX. now left. }
  assert (H7 : length X0 = 7%nat).
  { apply (dataset_rows_length vi wx). rewrite HX. now left. }
  destruct (trainModel_affine (_buildDataset vi wx) cfg X0 rest model target_coefficient 0)
    as [Hinf Hr]; auto.
  - apply buildDataset_lengths.
  - intros k Hk. rewrite (buildDataset_target vi wx k Hnd Hk). cbv zeta.
    rewrite H7, sum_below_7. unfold entry. cbn [target_coefficient]. lra.
  - split; [|exact Hr]. intros f Hf. rewrite Hinf by congruence.
    rewrite H7, sum_below_7. cbn [target_coefficient]. lra.
Qed.

End LeakFacts.

(** ** The forecast of a model that has learnt the rolling mean *)

Module CycleFacts.
Import JSDate JSDateFacts HelperFacts ForecastManager SpecWords Notions Examples.
Import DatasetFacts ForecastFacts LinearFacts JSString CalendarFacts.
Import RunFacts.
Local Open Scope R_scope.

Lemma clip_inside v : -0.1 <= v <= 1 -> clip v = v.
Proof. intros Hv. unfold clip, Rmax, Rmin. repeat destruct Rle_dec; lra. Qed.

Lemma clip_clip v : clip (clip v) = clip v.
Proof. apply clip_inside, clip_range. Qed.

Lemma js_index_app_r {A} (h t : list A) (i : nat) :
  js_index (h ++ t) (Z.of_nat (length h + i)) = nth_error t i.
Proof.
  unfold js_index. destruct (Z.ltb_spec (Z.of_nat (length h + i)) 0); [lia|].
  rewrite Nat2Z.id, nth_error_app2 by lia. f_equal. lia.
Qed.

Lemma succ_mod_3 k :
  (S k mod 3 = match k mod 3 with 0 => 1 | 1 => 2 | _ => 0 end)%nat.
Proof.
  pose proof (Nat.mod_upper_bound k 3 ltac:(lia)) as Hb.
  rewrite <- Nat.add_1_r, Nat.Div0.add_mod.
  destruct (k mod 3)%nat as [|[|[|r]]]; try reflexivity. lia.
Qed.

Section Learnt.
Variable model : Model.
Hypothesis Hinfer : forall f, length f = 7%nat ->
  infer model f = 3 * nth 2 f 0 - nth 0 f 0 - nth 1 f 0.

Lemma forecast_value_last3 tC pC hist p3 p2 p1 u3 u2 u1 iso :
  value p3 = Some u3 -> value p2 = Some u2 -> value p1 = Some u1 ->
  forecast_value model tC pC (hist ++ [p3; p2; p1]) iso = Some (clip u3).
Proof.
  intros H3 H2 H1. unfold forecast_value. cbv zeta.
  rewrite length_app. cbn [length].
  replace (Z.of_nat (length hist + 3) - 1)%Z with (Z.of_nat (length hist + 2)) by lia.
  replace (Z.of_nat (length hist + 3) - 2)%Z with (Z.of_nat (length hist + 1)) by lia.
  rewrite !js_index_app_r. cbn [nth_error].
  change (Some p1 ≫= value) with (value p1). change (Some p2 ≫= value) with (value p2).
  rewrite H1, H2.
  change (-3)%Z with (- Z.of_nat 3)%Z. rewrite js_slice_from_neg by lia.
  rewrite length_app. cbn [length].
  replace (length hist + 3 - 3)%nat with (length hist + 0)%nat by lia.
  rewrite skipn_app, skipn_all2 by lia.
  replace (length hist + 0 - length hist)%nat with 0%nat by lia.
  cbn [skipn app map]. rewrite H3, H2, H1. cbn [non_null]. rewrite mean3.
  f_equal. f_equal. rewrite Hinfer by reflexivity.
  unfold feature_vector. cbn [nth]. lra.
Qed.

Lemma forecast_loop_cycle tC pC turns : forall d hist p3 p2 p1 u3 u2 u1 out d' hist' out',
  value p3 = Some u3 -> value p2 = Some u2 -> value p1 = Some u1 ->
  forecast_loop model tC pC turns (d, hist ++ [p3; p2; p1], out) = Ok (d', hist', out') ->
  exists new,
    out' = out ++ new /\ length new = turns
    /\ forall k, (k < turns)%nat ->
         exists p, new !! k = Some p
                   /\ value p = Some (clip (nth (k mod 3) [u3; u2; u1] 0)).
Proof.
  induction turns as [|n IH]; intros d hist p3 p2 p1 u3 u2 u1 out d' hist' out' H3 H2 H1 H.
  - cbn in H. injection H as <- <- <-. exists []. rewrite app_nil_r.
    split; [reflexivity|]. split; [reflexivity|]. intros k Hk. lia.
  - cbn [forecast_loop] in H. unfold forecast_step in H.
    destruct (iso_of (next_day d)) as [iso|]; [|discriminate].
    cbn [rbind] in H.
    rewrite (forecast_value_last3 tC pC hist p3 p2 p1 u3 u2 u1 iso H3 H2 H1) in H.
    cbn [rbind] in H.
    set (q := {| date := iso; value := Some (clip u3) |}) in H.
    replace ((hist ++ [p3; p2; p1]) ++ [q]) with ((hist ++ [p3]) ++ [p2; p1; q]) in H
      by (rewrite <- !app_assoc; reflexivity).
    apply (IH _ _ _ _ _ u2 u1 (clip u3)) in H as (new & -> & Hlen & Hk); auto.
    exists (q :: new). rewrite <- app_assoc. split; [reflexivity|].
    split; [cbn; lia|].
    intros [|k] Hlt.
    + exists q. split; reflexivity.
    + destruct (Hk k ltac:(lia)) as (p & Hp & Hv). exists p. split; [exact Hp|].
      rewrite Hv, succ_mod_3. f_equal.
      pose proof (Nat.mod_upper_bound k 3 ltac:(lia)) as Hb.
      destruct (k mod 3)%nat as [|[|[|r]]]; cbn [nth]; try reflexivity; [|lia].
      apply clip_clip.
Qed.

Lemma forecastNext30Days_cycle vi wx pre o3 o2 o1 v3 v2 v1 out :
  vi = pre ++ [o3; o2; o1] ->
  value o3 = Some v3 -> value o2 = Some v2 -> value o1 = Some v1 ->
  _forecastNext30Days vi wx model = Ok out ->
  length out = 30%nat
  /\ forall k, (k < 30)%nat ->
       exists p, out !! k = Some p
                 /\ value p = Some (clip (nth (k mod 3) [v3; v2; v1] 0)).
Proof.
  intros -> H3 H2 H1. unfold _forecastNext30Days, forecast_run.
  destruct (weather_proxies wx) as [tC pC]. rewrite js_slice_from_0.
  destruct (js_index _ _) as [o|]; [|discriminate].
  destruct (forecast_loop model tC pC 30 _) as [[[d' hist'] out']|] eqn:Hloop; [|discriminate].
  cbn [rbind snd]. intros [= <-].
  apply (forecast_loop_cycle tC pC 30 _ pre o3 o2 o1 v3 v2 v1 [] d' hist' out' H3 H2 H1)
    in Hloop as (new & -> & Hlen & Hk).
  cbn [app]. split; assumption.
Qed.

End Learnt.


Lemma forecastNext30Days_returns vi wx model o d0 :
  last vi = Some o -> iso_date (date o) d0 -> (YearFromDay (d0 + 30) <= 9999)%Z ->
  exists out,
    _forecastNext30Days vi wx model = Ok out
    /\ forall k, (k < 30)%nat ->
         exists p, out !! k = Some p /\ date p = iso_of_day (d0 + 1 + Z.of_nat k).
Proof.
  intros Hlast Hdate Hy.
  pose proof (iso_date_year _ _ Hdate) as Hy0.
  destruct (forecast_loop_days model (fst (weather_proxies wx)) (snd (weather_proxies wx))
              30 d0 vi []) as (out & Hrun & _ & Hk); [lia|exact Hy|].
  exists out. split.
  - unfold _forecastNext30Days, forecast_run.
    destruct (weather_proxies wx) as [tC pC]. rewrite js_slice_from_0.
    rewrite js_index_last, Hlast. unfold iso_date in Hdate. rewrite Hdate.
    cbn [fst snd] in Hrun.
    exact (f_equal (fun r => let! st := r in Ok (snd st)) Hrun).
  - intros k Hlt. destruct (Hk k Hlt) as (p & Hp & Hd & _). eauto.
Qed.

End CycleFacts.

(** ** The forecast when [infer] can return NaN *)

Module NaNFacts.
Import JSDate JSDateFacts HelperFacts ForecastManager SpecWords Examples.
Import DatasetFacts ForecastFacts NaNNotions.
Local Open Scope R_scope.

Lemma nan_clip_num x : NaNForecast.clip (Num x) = Num (clip x).
Proof. reflexivity. Qed.

Lemma nan_clip_cases v :
  match v with
  | NaN => NaNForecast.clip v = NaN
  | PosInf => NaNForecast.clip v = Num 1
  | NegInf => NaNForecast.clip v = Num (-0.1)
  | Num x => exists c, NaNForecast.clip v = Num c /\ -0.1 <= c <= 1
  end.
Proof.
  destruct v as [| | |q]; try reflexivity.
  - unfold NaNForecast.clip. cbn. f_equal. unfold Rmax. destruct Rle_dec; lra.
  - exists (clip q). split; [reflexivity|apply clip_range].
Qed.

Lemma nan_clip_range v c : NaNForecast.clip v = Num c -> -0.1 <= c <= 1.
Proof.
  pose proof (nan_clip_cases v) as H. destruct v as [| | |q].
  - rewrite H. discriminate.
  - rewrite H. intros [= <-]. lra.
  - rewrite H. intros [= <-]. lra.
  - destruct H as (c' & -> & Hc). now intros [= <-].
Qed.

Lemma nan_clip_nan v : NaNForecast.clip v = NaN <-> v = NaN.
Proof.
  pose proof (nan_clip_cases v) as H. destruct v as [| | |q].
  - tauto.
  - rewrite H. split; discriminate.
  - rewrite H. split; discriminate.
  - destruct H as (c & -> & _). split; discriminate.
Qed.

(** A value pushed is the clamp of what [infer] returned: NaN when that was
    NaN, a number of [-0.1, 1] otherwise. *)
Lemma nan_forecast_value_cases infer tC pC hist iso v :
  NaNForecast.forecast_value infer tC pC hist iso = Some v ->
  exists f, length f = 7%nat /\ v = NaNForecast.clip (infer f)
            /\ (infer f = NaN -> v = NaN)
            /\ (infer f <> NaN -> exists c, v = Num c /\ -0.1 <= c <= 1).
Proof.
  unfold NaNForecast.forecast_value. cbv zeta.
  destruct (js_index hist _ ≫= NaNForecast.value) as [l1|]; [|discriminate].
  destruct (js_index hist _ ≫= NaNForecast.value) as [l2|]; [|discriminate].
  destruct (NaNForecast.mean_or_null _) as [r3|]; [|discriminate].
  intros [= <-].
  set (f := [l1; l2; r3; NaNForecast.seasonal sin iso; NaNForecast.seasonal cos iso;
             Num tC; Num pC]).
  exists f. split; [reflexivity|]. split; [reflexivity|]. split.
  - intros ->. reflexivity.
  - intros Hn. pose proof (nan_clip_cases (infer f)) as H.
    destruct (infer f) as [| | |q]; [congruence| | |].
    + exists 1. split; [exact H|lra].
    + exists (-0.1). split; [exact H|lra].
    + destruct H as (c & H & Hc). exists c. split; assumption.
Qed.

Lemma valued_app a b : valued (a ++ b) = valued a ++ valued b.
Proof. unfold valued. apply List.filter_app. Qed.

Section Days.
Local Open Scope Z_scope.

Lemma nan_forecast_step_day infer tC pC n hist out :
  0 <= YearFromDay (n + 1) <= 9999 ->
  let p := {| NaNForecast.date := iso_of_day (n + 1);
              NaNForecast.value :=
                NaNForecast.forecast_value infer tC pC hist (iso_of_day (n + 1)) |} in
  NaNForecast.forecast_step infer tC pC (Some (n * msPerDay), hist, out)
  = Ok (Some ((n + 1) * msPerDay), hist ++ valued [p], out ++ [p]).
Proof.
  intros Hy p. unfold NaNForecast.forecast_step.
  rewrite (next_day_midnight _ Hy), (iso_of_midnight _ Hy).
  unfold rbind, p, valued. cbn [List.filter NaNForecast.value].
  destruct (NaNForecast.forecast_value infer tC pC hist (iso_of_day (n + 1)));
    cbn [List.filter NaNForecast.value]; [reflexivity|now rewrite app_nil_r].
Qed.

Lemma nan_forecast_loop_days infer tC pC turns : forall n hist out,
  0 <= YearFromDay n -> YearFromDay (n + Z.of_nat turns) <= 9999 ->
  exists out',
    NaNForecast.forecast_loop infer tC pC turns (Some (n * msPerDay), hist, out)
    = Ok (Some ((n + Z.of_nat turns) * msPerDay), hist ++ valued out', out ++ out')
    /\ length out' = turns
    /\ forall k, (k < turns)%nat ->
         exists p, out' !! k = Some p
                   /\ NaNForecast.date p = iso_of_day (n + 1 + Z.of_nat k)
                   /\ NaNForecast.value p
                      = NaNForecast.forecast_value infer tC pC
                          (hist ++ valued (firstn k out'))
                          (iso_of_day (n + 1 + Z.of_nat k)).
Proof.
  induction turns as [|turns IH]; intros n hist out Hlo Hhi.
  - exists []. cbn [NaNForecast.forecast_loop]. rewrite Z.add_0_r, !app_nil_r.
    split; [reflexivity|]. split; [reflexivity|]. intros k Hk. lia.
  - assert (Hy1 : 0 <= YearFromDay (n + 1) <= 9999).
    { pose proof (YearFromDay_mono n (n + 1)).
      pose proof (YearFromDay_mono (n + 1) (n + Z.of_nat (S turns))). lia. }
    cbn [NaNForecast.forecast_loop]. rewrite (nan_forecast_step_day _ _ _ _ _ _ Hy1).
    cbv zeta. unfold rbind at 1.
    set (p := {| NaNForecast.date := iso_of_day (n + 1);
                 NaNForecast.value :=
                   NaNForecast.forecast_value infer tC pC hist (iso_of_day (n + 1)) |}).
    destruct (IH (n + 1) (hist ++ valued [p]) (out ++ [p])) as (out' & Hrun & Hlen & Hk);
      [lia | replace (n + 1 + Z.of_nat turns) with (n + Z.of_nat (S turns)) by lia; exact Hhi |].
    exists (p :: out'). rewrite Hrun.
    split.
    { replace (n + 1 + Z.of_nat turns) with (n + Z.of_nat (S turns)) by lia.
      change (p :: out') with ([p] ++ out').
      now rewrite valued_app, <- !app_assoc. }
    split; [cbn; lia|].
    intros [|k] Hlt.
    + exists p. cbn [lookup list_lookup firstn]. rewrite Z.add_0_r.
      unfold valued at 1. cbn [List.filter]. rewrite app_nil_r. auto.
    + destruct (Hk k ltac:(lia)) as (q & Hq & Hd & Hv).
      exists q. cbn [lookup list_lookup]. split; [exact Hq|].
      replace (n + 1 + Z.of_nat (S k)) with (n + 1 + 1 + Z.of_nat k) by lia.
      split; [exact Hd|]. rewrite Hv. f_equal.
      cbn [firstn]. change (p :: firstn k out') with ([p] ++ firstn k out').
      now rewrite valued_app, <- !app_assoc.
Qed.

(** The count and the dates hold for every [infer]; a value is present at
    all points or at none. *)
Lemma nan_forecast_days vi wx infer o d0 :
  last vi = Some o -> iso_date (NaNForecast.date o) d0 -> YearFromDay (d0 + 30) <= 9999 ->
  exists out,
    NaNForecast._forecastNext30Days vi wx infer = Ok out
    /\ length out = 30%nat
    /\ forall k, (k < 30)%nat ->
         exists p, out !! k = Some p
                   /\ NaNForecast.date p = iso_of_day (d0 + 1 + Z.of_nat k)
                   /\ NaNForecast.value p
                      = NaNForecast.forecast_value infer (fst (weather_proxies wx))
                          (snd (weather_proxies wx))
                          (vi ++ valued (firstn k out)) (NaNForecast.date p).
Proof.
  intros Hlast Hdate Hy.
  pose proof (iso_date_year _ _ Hdate) as Hy0.
  destruct (nan_forecast_loop_days infer (fst (weather_proxies wx))
              (snd (weather_proxies wx)) 30 d0 vi [])
    as (out & Hrun & Hlen & Hk); [lia|exact Hy|].
  exists out. split.
  - unfold NaNForecast._forecastNext30Days.
    destruct (weather_proxies wx) as [tC pC]. rewrite js_slice_from_0.
    rewrite js_index_last, Hlast. unfold iso_date in Hdate. rewrite Hdate.
    cbn [fst snd] in Hrun.
    exact (f_equal (fun r => let! st := r in Ok (snd st)) Hrun).
  - split; [exact Hlen|]. intros k Hlt.
    destruct (Hk k Hlt) as (p & Hp & Hd & Hv). exists p.
    split; [exact Hp|]. split; [exact Hd|]. now rewrite Hd.
Qed.

End Days.

End NaNFacts.

Module NaNFacts2.
Import JSDate JSDateFacts HelperFacts ForecastManager SpecWords Notions Examples.
Import DatasetFacts ForecastFacts NaNFacts NaNNotions.
Local Open Scope R_scope.

Lemma js_index_snoc {A} (l : list A) (a : A) :
  js_index (l ++ [a]) (Z.of_nat (length (l ++ [a])) - 1) = Some a
  /\ js_index (l ++ [a]) (Z.of_nat (length (l ++ [a])) - 2)
     = js_index l (Z.of_nat (length l) - 1).
Proof.
  rewrite length_app. cbn [length]. unfold js_index. split.
  - destruct (Z.ltb_spec (Z.of_nat (length l + 1) - 1) 0); [lia|].
    replace (Z.to_nat (Z.of_nat (length l + 1) - 1)) with (length l + 0)%nat by lia.
    rewrite nth_error_app2 by lia.
    now replace (length l + 0 - length l)%nat with 0%nat by lia.
  - destruct l as [|b l]; [reflexivity|].
    destruct (Z.ltb_spec (Z.of_nat (length (b :: l) + 1) - 2) 0); [cbn in *; lia|].
    destruct (Z.ltb_spec (Z.of_nat (length (b :: l)) - 1) 0); [cbn in *; lia|].
    replace (Z.to_nat (Z.of_nat (length (b :: l) + 1) - 2))
      with (Z.to_nat (Z.of_nat (length (b :: l)) - 1)) by lia.
    apply nth_error_app1. cbn [length]. lia.
Qed.

Lemma lags_valued_snoc hist p v :
  lags_valued hist = true -> NaNForecast.value p = Some v ->
  lags_valued (hist ++ [p]) = true.
Proof.
  unfold lags_valued. cbv zeta. intros H Hp.
  destruct (js_index_snoc hist p) as [-> ->].
  change (Some p ≫= NaNForecast.value) with (NaNForecast.value p). rewrite Hp.
  destruct (js_index hist (Z.of_nat (length hist) - 1) ≫= NaNForecast.value);
    [reflexivity|discriminate].
Qed.

Lemma nan_forecast_value_lags infer tC pC hist iso :
  NaNForecast.forecast_value infer tC pC hist iso = None <-> lags_valued hist = false.
Proof.
  unfold NaNForecast.forecast_value, lags_valued. cbv zeta.
  destruct (js_index hist (Z.of_nat (length hist) - 1)) as [o1|] eqn:H1;
    cbn [mbind option_bind]; [|split; reflexivity].
  change (Some o1 ≫= NaNForecast.value) with (NaNForecast.value o1).
  destruct (NaNForecast.value o1) as [v1|] eqn:Hv1; [|split; reflexivity].
  destruct (js_index hist (Z.of_nat (length hist) - 2) ≫= NaNForecast.value) as [v2|];
    [|split; reflexivity].
  assert (Hne : non_null (map NaNForecast.value (js_slice_from hist (-3))) <> []).
  { change (-3)%Z with (- Z.of_nat 3)%Z. rewrite RunFacts.js_slice_from_neg by lia.
    assert (Hlen : (0 < length hist)%nat).
    { destruct hist; [discriminate|cbn; lia]. }
    pose proof (RunFacts.js_index_last_skipn hist o1 (length hist - 3) H1 ltac:(lia)) as Hin.
    intros Hnil.
    assert (Hv : In v1 (non_null (map NaNForecast.value (skipn (length hist - 3) hist)))).
    { apply non_null_In. rewrite <- Hv1. now apply in_map. }
    rewrite Hnil in Hv. destruct Hv. }
  unfold NaNForecast.mean_or_null.
  destruct (non_null (map NaNForecast.value (js_slice_from hist (-3)))) as [|a l];
    [congruence|].
  split; discriminate.
Qed.

(** With an [infer] that returns NaN every point of the forecast is NaN. *)
Lemma nan_forecast_loop_nan tC pC turns : forall d hist out d' hist' out',
  lags_valued hist = true ->
  NaNForecast.forecast_loop (fun _ => NaN) tC pC turns (d, hist, out) = Ok (d', hist', out') ->
  exists new,
    out' = out ++ new /\ length new = turns
    /\ Forall (fun p => NaNForecast.value p = Some NaN) new.
Proof.
  induction turns as [|k IH]; intros d hist out d' hist' out' Hl H.
  - cbn in H. injection H as <- <- <-. exists []. rewrite app_nil_r.
    split; [reflexivity|]. split; [reflexivity|constructor].
  - cbn [NaNForecast.forecast_loop] in H. unfold NaNForecast.forecast_step in H.
    destruct (iso_of (next_day d)) as [iso|]; [|discriminate].
    cbn [rbind] in H.
    destruct (NaNForecast.forecast_value (fun _ => NaN) tC pC hist iso) as [c|] eqn:Hv.
    + assert (Hc : c = NaN).
      { apply nan_forecast_value_cases in Hv as (f & _ & _ & Hn & _). now apply Hn. }
      subst c. cbn [rbind] in H.
      apply IH in H as (new & -> & Hlen & Hall).
      * exists ({| NaNForecast.date := iso; NaNForecast.value := Some NaN |} :: new).
        rewrite <- app_assoc. split; [reflexivity|]. split; [cbn; lia|].
        constructor; [reflexivity|exact Hall].
      * now apply (lags_valued_snoc hist _ NaN).
    + apply nan_forecast_value_lags in Hv. congruence.
Qed.

End NaNFacts2.

Module NaNFacts3.
Import JSDate JSDateFacts HelperFacts ForecastManager SpecWords Notions Examples.
Import DatasetFacts ForecastFacts NaNFacts NaNNotions NaNFacts2.
Local Open Scope R_scope.

Lemma js_index_map {A B} (g : A -> B) (l : list A) i :
  js_index (map g l) i = option_map g (js_index l i).
Proof.
  unfold js_index. destruct (i <? 0)%Z; [reflexivity|]. apply nth_error_map.
Qed.

Lemma js_slice_from_map {A B} (g : A -> B) (l : list A) k :
  js_slice_from (map g l) k = map g (js_slice_from l k).
Proof.
  unfold js_slice_from, js_slice. rewrite length_map. cbv zeta.
  now rewrite skipn_map, firstn_map.
Qed.

Lemma non_null_of_observation l :
  non_null (map NaNForecast.value (map NaNForecast.of_observation l))
  = map Num (non_null (map value l)).
Proof.
  induction l as [|o l IH]; [reflexivity|].
  cbn [map NaNForecast.of_observation NaNForecast.value].
  destruct (value o); cbn [option_map non_null map]; now rewrite IH.
Qed.

Lemma fold_add_num l : forall a,
  fold_left NaNForecast.add (map Num l) (Num a) = Num (fold_left Rplus l a).
Proof. induction l as [|b l IH]; intros a; [reflexivity|]. cbn. apply IH. Qed.

Lemma mean_or_null_num l :
  NaNForecast.mean_or_null (map Num l) = option_map Num (mean_or None Some l).
Proof.
  destruct l as [|b l]; [reflexivity|].
  unfold NaNForecast.mean_or_null, mean_or, sum.
  change (map Num (b :: l)) with (Num b :: map Num l).
  cbv iota. rewrite <- (map_cons Num b l), fold_add_num, length_map. reflexivity.
Qed.

(** On real numbers the two readings of one turn agree. *)
Lemma forecast_value_agrees infer model tC pC hist iso n :
  returns_reals infer (ForecastManager.infer model) -> _doy iso = Some n ->
  NaNForecast.forecast_value infer tC pC (map NaNForecast.of_observation hist) iso
  = option_map Num (forecast_value model tC pC hist iso).
Proof.
  intros Hinf Hdoy. unfold NaNForecast.forecast_value, forecast_value. cbv zeta.
  rewrite length_map, !js_index_map, js_slice_from_map, non_null_of_observation,
    mean_or_null_num.
  destruct (js_index hist (Z.of_nat (length hist) - 1)) as [o1|]; [|reflexivity].
  cbn [option_map mbind option_bind NaNForecast.of_observation NaNForecast.value].
  destruct (value o1) as [v1|]; [|reflexivity]. cbn [option_map].
  destruct (js_index hist (Z.of_nat (length hist) - 2)) as [o2|]; [|reflexivity].
  cbn [option_map mbind option_bind NaNForecast.of_observation NaNForecast.value].
  destruct (value o2) as [v2|]; [|reflexivity]. cbn [option_map].
  destruct (mean_or None Some (non_null (map value (js_slice_from hist (-3))))) as [r3|];
    [|reflexivity].
  cbn [option_map]. f_equal.
  unfold NaNForecast.seasonal, feature_vector, doy_num. rewrite Hdoy.
  change [Num v1; Num v2; Num r3; Num (sin (2 * PI * IZR n / 365));
          Num (cos (2 * PI * IZR n / 365)); Num tC; Num pC]
    with (map Num [v1; v2; r3; sin (2 * PI * IZR n / 365);
                   cos (2 * PI * IZR n / 365); tC; pC]).
  rewrite Hinf. reflexivity.
Qed.

Lemma valued_of_observation l :
  valued (map NaNForecast.of_observation l) = map NaNForecast.of_observation (present l).
Proof.
  induction l as [|o l IH]; [reflexivity|].
  unfold valued, present in *. cbn [map List.filter NaNForecast.of_observation NaNForecast.value].
  destruct (value o); cbn [option_map map]; now rewrite IH.
Qed.

Section Days.
Local Open Scope Z_scope.

Lemma forecast_loop_agrees infer model tC pC turns : forall n hist out,
  returns_reals infer (ForecastManager.infer model) ->
  100 <= YearFromDay n -> YearFromDay (n + Z.of_nat turns) <= 9999 ->
  NaNForecast.forecast_loop infer tC pC turns
    (Some (n * msPerDay), map NaNForecast.of_observation hist,
     map NaNForecast.of_observation out)
  = (let! st := forecast_loop model tC pC turns (Some (n * msPerDay), hist, out) in
     Ok (fst (fst st), map NaNForecast.of_observation (snd (fst st)),
         map NaNForecast.of_observation (snd st))).
Proof.
  intros n hist out Hinf. revert n hist out.
  induction turns as [|turns IH]; intros n hist out Hlo Hhi; [reflexivity|].
  assert (Hy1 : 100 <= YearFromDay (n + 1) <= 9999).
  { pose proof (YearFromDay_mono n (n + 1)).
    pose proof (YearFromDay_mono (n + 1) (n + Z.of_nat (S turns))). lia. }
  cbn [NaNForecast.forecast_loop forecast_loop].
  assert (Hy0 : 0 <= YearFromDay (n + 1) <= 9999) by lia.
  rewrite (nan_forecast_step_day _ _ _ _ _ _ Hy0), (forecast_step_day _ _ _ _ _ _ Hy0).
  cbv zeta. cbn [rbind].
  assert (Hdoy : _doy (iso_of_day (n + 1)) = Some (day_of_year (n + 1))).
  { apply doy_of_iso_date; [apply iso_of_day_date|]; lia. }
  rewrite (forecast_value_agrees infer model tC pC hist _ _ Hinf Hdoy).
  set (p := {| date := iso_of_day (n + 1);
               value := forecast_value model tC pC hist (iso_of_day (n + 1)) |}).
  change {| NaNForecast.date := iso_of_day (n + 1);
            NaNForecast.value := option_map Num (forecast_value model tC pC hist
                                                   (iso_of_day (n + 1))) |}
    with (NaNForecast.of_observation p).
  change [NaNForecast.of_observation p] with (map NaNForecast.of_observation [p]).
  rewrite valued_of_observation, <- !map_app.
  apply IH; [lia|].
  replace (n + 1 + Z.of_nat turns) with (n + Z.of_nat (S turns)) by lia. exact Hhi.
Qed.

(** For a model that returns real numbers and a history of real values that
    ends on a calendar date, the function on JS numbers returns what the
    function on real numbers returns. *)
Lemma forecastNext30Days_agrees infer model vi wx o d0 :
  returns_reals infer (ForecastManager.infer model) ->
  last vi = Some o -> iso_date (date o) d0 ->
  100 <= YearFromDay d0 -> YearFromDay (d0 + 30) <= 9999 ->
  NaNForecast._forecastNext30Days (map NaNForecast.of_observation vi) wx infer
  = (let! out := _forecastNext30Days vi wx model in
     Ok (map NaNForecast.of_observation out)).
Proof.
  intros Hinf Hlast Hdate Hlo Hhi.
  unfold NaNForecast._forecastNext30Days, _forecastNext30Days, forecast_run.
  destruct (weather_proxies wx) as [tC pC].
  rewrite !js_slice_from_0, length_map, js_index_map, js_index_last, Hlast.
  cbn [option_map NaNForecast.of_observation NaNForecast.date].
  unfold iso_date in Hdate. rewrite Hdate.
  pose proof (forecast_loop_agrees infer model tC pC 30 d0 vi [] Hinf Hlo Hhi) as Hag.
  assert (Hgen : forall (a : result NaNForecast.forecast_state) (b : result forecast_state),
            a = (let! st := b in
                 Ok (fst (fst st), map NaNForecast.of_observation (snd (fst st)),
                     map NaNForecast.of_observation (snd st))) ->
            (let! st := a in Ok (snd st))
            = (let! out := (let! st := b in Ok (snd st)) in
               Ok (map NaNForecast.of_observation out))).
  { intros a b ->. destruct b as [[[d' hist'] out']|e]; reflexivity. }
  exact (Hgen _ _ Hag).
Qed.

End Days.

(** The forecast of a model that returns NaN, from the three composites. *)
Lemma nan_forecast_three wx :
  exists out,
    NaNForecast._forecastNext30Days (map NaNForecast.of_observation three) wx (fun _ => NaN)
    = Ok out
    /\ length out = 30%nat
    /\ forall k, (k < 30)%nat ->
         exists p, out !! k = Some p
                   /\ NaNForecast.date p = iso_of_day (18294 + 1 + Z.of_nat k)
                   /\ NaNForecast.value p = Some NaN.
Proof.
  destruct (nan_forecast_days (map NaNForecast.of_observation three) wx (fun _ => NaN)
              (NaNForecast.of_observation {| date := "2020-02-02"; value := Some 0.5 |})
              18294) as (out & Hout & Hlen & Hk).
  - reflexivity.
  - vm_compute. reflexivity.
  - vm_compute. discriminate.
  - exists out. split; [exact Hout|]. split; [exact Hlen|].
    assert (Hall : Forall (fun p => NaNForecast.value p = Some NaN) out).
    { unfold NaNForecast._forecastNext30Days in Hout.
      destruct (weather_proxies wx) as [tC pC]. rewrite js_slice_from_0 in Hout.
      destruct (js_index _ _) as [o|]; [|discriminate].
      destruct (NaNForecast.forecast_loop _ tC pC 30 _) as [[[d' hist'] out']|] eqn:Hloop;
        [|discriminate].
      cbn [rbind snd] in Hout. injection Hout as <-.
      apply nan_forecast_loop_nan in Hloop as (new & -> & _ & Hall); [exact Hall|].
      reflexivity. }
    intros k Hlt. destruct (Hk k Hlt) as (p & Hp & Hd & _).
    exists p. split; [exact Hp|]. split; [exact Hd|].
    rewrite List.Forall_forall in Hall. apply Hall.
    apply list_elem_of_In, list_elem_of_lookup. eauto.
Qed.

End NaNFacts3.

(** ** What a turn of [_invSym] leaves in the two matrices *)

Module TurnFacts.
Import JSDate ForecastManager SpecWords Examples TurnWords.
Import LinearFacts KernelFacts.
Local Open Scope R_scope.

Lemma gauss_jordan_step_entries n (A J A' J' : matrix) i :
  square n A -> square n J -> (i < n)%nat ->
  gauss_jordan_step n (A, J) i = Ok (A', J') ->
  let p := find_pivot A i n in
  square n A' /\ square n J'
  /\ forall r c, (r < n)%nat -> (c < n)%nat ->
       entry A' r c = turn_entry A A i p r c
       /\ entry J' r c = turn_entry A J i p r c.
Proof.
  intros HsA HsJ Hi Hstep p.
  unfold gauss_jordan_step in Hstep. cbv zeta in Hstep. fold p in Hstep.
  destruct (find_pivot_spec A i n Hi) as [Hp _]. fold p in Hp.
  destruct (Rlt_dec (Rabs (entry A p i)) singular_eps) as [|Hbig]; [discriminate|].
  injection Hstep as <- <-.
  assert (HlenA : length A = n) by apply HsA.
  assert (HlenJ : length J = n) by apply HsJ.
  set (A1 := swap_rows A i p). set (J1 := swap_rows J i p).
  assert (Ha1 : entry A1 i i = entry A p i).
  { unfold A1. rewrite entry_swap_rows by lia. now rewrite Nat.eqb_refl. }
  set (k := 1 / entry A1 i i).
  set (A2 := scale_row n i k A1). set (J2 := scale_row n i k J1).
  assert (HsA1 : square n A1) by (apply square_swap_rows; auto; lia).
  assert (HsJ1 : square n J1) by (apply square_swap_rows; auto; lia).
  assert (HsA2 : square n A2) by now apply square_scale_row.
  assert (HsJ2 : square n J2) by now apply square_scale_row.
  split; [now apply square_eliminate|]. split; [now apply square_eliminate|].
  intros r c Hr Hc.
  assert (HA2 : forall r' c', (r' < n)%nat -> (c' < n)%nat ->
            entry A2 r' c'
            = if Nat.eqb r' i then entry A p c' * k
              else entry A (if Nat.eqb r' p then i else r') c').
  { intros r' c' Hr' Hc'. unfold A2. rewrite entry_scale_row by lia.
    unfold A1. rewrite entry_swap_rows by lia.
    destruct (Nat.eqb_spec r' i); reflexivity. }
  assert (HJ2 : forall r' c', (r' < n)%nat -> (c' < n)%nat ->
            entry J2 r' c'
            = if Nat.eqb r' i then entry J p c' * k
              else entry J (if Nat.eqb r' p then i else r') c').
  { intros r' c' Hr' Hc'. unfold J2. rewrite entry_scale_row by lia.
    unfold J1. rewrite entry_swap_rows by lia.
    destruct (Nat.eqb_spec r' i); reflexivity. }
  destruct HsA2 as [HlA2 HrA2]. destruct HsJ2 as [HlJ2 HrJ2].
  rewrite !entry_eliminate by (rewrite ?HrA2, ?HrJ2; lia).
  unfold turn_entry. cbv zeta. rewrite <- Ha1. fold k.
  rewrite !HA2, !HJ2 by lia. rewrite Nat.eqb_refl.
  destruct (Nat.eqb_spec r i); split; reflexivity.
Qed.

(** [[1, 1], [1, 1]] is refused at the second turn, after the first has
    cleared the column below its pivot. *)
Lemma invSym_ones_2x2 : _invSym [[1; 1]; [1; 1]] = Throw (Error "Singular matrix").
Proof.
  apply (invSym_singular [[1; 1]; [1; 1]] (fun c => match c with O => 1 | _ => -1 end) 0).
  - split; [reflexivity|]. intros [|[|r]] Hr; cbn in *; (reflexivity || lia).
  - cbn. lia.
  - lra.
  - intros [|[|r]] Hr; cbn in *; try lia; unfold entry; cbn; lra.
Qed.

Lemma square_2 (J : matrix) :
  square 2 J ->
  J = [[entry J 0 0; entry J 0 1]; [entry J 1 0; entry J 1 1]].
Proof.
  intros [Hl Hr].
  destruct J as [|r0 [|r1 [|r2 J]]]; try discriminate.
  pose proof (Hr 0%nat ltac:(lia)) as H0. pose proof (Hr 1%nat ltac:(lia)) as H1.
  cbn [nth] in H0, H1.
  destruct r0 as [|a [|b [|? ?]]]; try discriminate.
  destruct r1 as [|c [|d [|? ?]]]; try discriminate.
  reflexivity.
Qed.

(** [[0, 1], [1, 1]] needs the swap of its two rows: the result is its
    inverse. *)
Lemma invSym_swap_2x2 : _invSym [[0; 1]; [1; 1]] = Ok [[-1; 1]; [1; 0]].
Proof.
  set (M := [[0; 1]; [1; 1]]).
  assert (HM : square 2 M).
  { split; [reflexivity|]. intros [|[|r]] Hr; cbn in *; (reflexivity || lia). }
  assert (H10 : Rabs 1 = 1) by (apply Rabs_pos_eq; lra).
  destruct (_invSym M) as [J|e] eqn:E.
  - destruct (invSym_left_inverse M J HM E) as [HJ Hleft].
    change (length M) with 2%nat in Hleft.
    rewrite (square_2 J HJ). 
    pose proof (Hleft 0%nat 0%nat ltac:(lia) ltac:(lia)) as H00.
    pose proof (Hleft 0%nat 1%nat ltac:(lia) ltac:(lia)) as H01.
    pose proof (Hleft 1%nat 0%nat ltac:(lia) ltac:(lia)) as H10'.
    pose proof (Hleft 1%nat 1%nat ltac:(lia) ltac:(lia)) as H11.
    unfold product_entry, delta in *. cbn [sum_below Nat.eqb] in *.
    change (entry M 0 0) with 0 in *. change (entry M 0 1) with 1 in *.
    change (entry M 1 0) with 1 in *. change (entry M 1 1) with 1 in *.
    repeat f_equal; lra.
  - exfalso. apply invSym_fails in E as (i & A & I' & Hi & Hreach & Hlt & _).
    change (length M) with 2%nat in *. unfold singular_eps in *.
    destruct (find_pivot_spec M 0 2 ltac:(lia)) as [Hp0 Hmax0].
    assert (Hp : find_pivot M 0 2 = 1%nat).
    { pose proof (Hmax0 1%nat ltac:(lia)) as H. change (entry M 1 0) with 1 in H.
      destruct (find_pivot M 0 2) as [|[|q]]; [|reflexivity|lia].
      change (entry M 0 0) with 0 in H. rewrite Rabs_R0, H10 in H. lra. }
    destruct i as [|[|i]]; [| |lia].
    + cbn in Hreach. injection Hreach as <- <-.
      rewrite Hp in Hlt. change (entry M 1 0) with 1 in Hlt. rewrite H10 in Hlt. lra.
    + change (seq 0 1) with [0%nat] in Hreach. cbn [gauss_jordan_loop fold_left rbind] in Hreach.
      destruct (gauss_jordan_step_entries 2 M (identity 2) A I' 0 HM (square_identity 2)
                  ltac:(lia) Hreach) as (HA & _ & Hent).
      rewrite Hp in Hent.
      destruct (find_pivot_spec A 1 2 ltac:(lia)) as [Hp1 _].
      assert (Hp1' : find_pivot A 1 2 = 1%nat) by lia.
      rewrite Hp1' in Hlt.
      destruct (Hent 1%nat 1%nat ltac:(lia) ltac:(lia)) as [Ha _].
      rewrite Ha in Hlt. unfold turn_entry in Hlt. cbn [Nat.eqb] in Hlt.
      change (entry M 0 0) with 0 in Hlt. change (entry M 0 1) with 1 in Hlt.
      change (entry M 1 0) with 1 in Hlt. change (entry M 1 1) with 1 in Hlt.
      replace (1 - 0 * (1 * (1 / 1))) with 1 in Hlt by field.
      rewrite H10 in Hlt. lra.
Qed.

End TurnFacts.

(** ** The linear baseline over exact real numbers *)

Module BaselineFacts.
Import JSDate ForecastManager SpecWords Examples.
Import HelperFacts LinearFacts ExactFacts.
Local Open Scope R_scope.

Lemma length_column (X : matrix) j : length (column X j) = length X.
Proof. unfold column. apply length_map. Qed.

Lemma nth_column (X : matrix) j k : nth k (column X j) 0 = entry X k j.
Proof.
  unfold column, entry. rewrite (nth_map_default _ _ _ [] 0).
  destruct (Nat.ltb_spec k (length X)) as [|Hge]; [reflexivity|].
  rewrite (nth_overflow X) by exact Hge. now destruct j.
Qed.

Lemma sum_of_map (f : R -> R) l :
  sum (map f l) = sum_below (length l) (fun k => f (nth k l 0)).
Proof.
  rewrite sum_nth, length_map. apply sum_below_ext. intros k Hk.
  rewrite (nth_map_default _ _ _ 0 0).
  destruct (Nat.ltb_spec k (length l)); [reflexivity|lia].
Qed.

(** Over exact reals, without tf.js, on a dataset of two samples or more
    whose feature vectors have the same length: means are sums over the
    number of samples, deviations are square roots of the squared
    deviations over [n - 1], replaced by 1 where that root is 0; the
    entries of [XTX] and [XTy] are the sums of products of the standardized
    data; the weights are [XTXinv XTy] with [XTXinv XTX] the identity; and
    [infer] standardizes, applies the weights and un-standardizes. *)
Lemma linear_baseline_over_reals ds cfg X0 rest :
  x ds = X0 :: rest ->
  Forall (fun row => length row = length X0) (x ds) ->
  (2 <= length (x ds))%nat -> length (y ds) = length (x ds) ->
  let m := length (x ds) in
  let cols := length X0 in
  let mu := feature_mu (x ds) cols in
  let sig := feature_sig (x ds) cols in
  let xN := standardized_x (x ds) cols in
  let yN := standardized_y (y ds) in
  let yMu := sum_below m (fun k => nth k (y ds) 0) / INR m in
  let yDev := sqrt (sum_below m (fun k => (nth k (y ds) 0 - yMu) * (nth k (y ds) 0 - yMu))
                    / (INR m - 1)) in
  let ySig := if Req_dec_T yDev 0 then 1 else yDev in
  (forall j, (j < cols)%nat ->
      let dev := sqrt (sum_below m (fun k => (entry (x ds) k j - nth j mu 0)
                                             * (entry (x ds) k j - nth j mu 0))
                       / (INR m - 1)) in
      nth j mu 0 = sum_below m (fun k => entry (x ds) k j) / INR m
      /\ nth j sig 0 = if Req_dec_T dev 0 then 1 else dev)
  /\ (forall k j, (k < m)%nat -> (j < cols)%nat ->
        entry xN k j = (entry (x ds) k j - nth j mu 0) / nth j sig 0)
  /\ (length yN = m
      /\ forall k, (k < m)%nat -> nth k yN 0 = (nth k (y ds) 0 - yMu) / ySig)
  /\ (forall e, _trainModel None ds cfg = Throw e
                <-> _invSym (_matMul (_transpose xN) xN) = Throw e)
  /\ (forall model, _trainModel None ds cfg = Ok model ->
        exists w XTX XTy XTXinv,
          (forall r c, (r < cols)%nat -> (c < cols)%nat ->
              entry XTX r c = sum_below m (fun k => entry xN k r * entry xN k c))
          /\ (forall r, (r < cols)%nat ->
                nth r XTy 0 = sum_below m (fun k => entry xN k r * nth k yN 0))
          /\ (forall r c, (r < cols)%nat -> (c < cols)%nat ->
                sum_below cols (fun k => entry XTXinv r k * entry XTX k c)
                = if Nat.eqb r c then 1 else 0)
          /\ length w = cols
          /\ (forall r, (r < cols)%nat ->
                nth r w 0 = sum_below cols (fun c => entry XTXinv r c * nth c XTy 0))
          /\ (forall r, (r < cols)%nat ->
                sum_below cols (fun c => entry XTX r c * nth c w 0) = nth r XTy 0)
          /\ type model = lin_model
          /\ forall row,
               infer model row
               = sum_below (length row)
                   (fun j => (nth j row 0 - nth j mu 0) / nth j sig 0 * nth j w 0)
                 * ySig + yMu).
Proof.
  intros HX Hrows Hn Hy m cols mu sig xN yN yMu yDev ySig.
  assert (Hrc : rows_cols m cols (x ds)).
  { split; [reflexivity|]. intros r Hr.
    rewrite List.Forall_forall in Hrows. apply Hrows. now apply nth_In. }
  assert (HxN : rows_cols m cols xN) by now apply rows_cols_standardized.
  assert (HyMu : column_mean (y ds) = yMu).
  { unfold column_mean, yMu. now rewrite sum_nth, Hy. }
  assert (HySig : column_sd (y ds) = ySig).
  { rewrite column_sd_sample by lia. unfold sqrt_or_1, ySig, yDev.
    rewrite HyMu, sum_of_map, Hy. reflexivity. }
  split; [|split; [|split; [|split]]].
  - intros j Hj dev. unfold mu, sig, feature_mu, feature_sig.
    rewrite !nth_map_seq by exact Hj.
    assert (Hmean : column_mean (column (x ds) j)
                    = sum_below m (fun k => entry (x ds) k j) / INR m).
    { unfold column_mean. rewrite sum_nth, length_column.
      f_equal. apply sum_below_ext. intros k _. apply nth_column. }
    split; [exact Hmean|].
    rewrite column_sd_sample by (now rewrite length_column).
    unfold sqrt_or_1, dev, mu, feature_mu. rewrite nth_map_seq by exact Hj.
    rewrite sum_of_map, length_column.
    fold m.
    rewrite (sum_below_ext m
               (fun k => (nth k (column (x ds) j) 0 - column_mean (column (x ds) j))
                         * (nth k (column (x ds) j) 0 - column_mean (column (x ds) j)))
               (fun k => (entry (x ds) k j - column_mean (column (x ds) j))
                         * (entry (x ds) k j - column_mean (column (x ds) j))));
      [reflexivity|].
    intros k _. now rewrite nth_column.
  - intros k j Hk Hj. apply entry_standardized; [exact Hk|].
    destruct Hrc as [_ Hr]. rewrite Hr by exact Hk. exact Hj.
  - split; [unfold yN, standardized_y; now rewrite length_map|].
    intros k Hk. unfold yN, standardized_y.
    rewrite (nth_map_default _ _ _ 0 0), HyMu, HySig.
    destruct (Nat.ltb_spec k (length (y ds))); [reflexivity|lia].
  - intros e. now apply trainModel_throws with (rest := rest).
  - intros model Hm. rewrite (trainModel_linear _ _ _ _ HX) in Hm.
    fold cols mu sig xN yN in Hm.
    destruct (linear_weights xN yN) as [w|] eqn:Hw; [|discriminate].
    cbn [rbind] in Hm. injection Hm as <-.
    destruct (linear_weights_normal m cols xN yN w HxN ltac:(lia) Hw)
      as (inv & Hinv & _ & Hwv & Hlen & Hnormal).
    destruct (normal_matrix m cols xN HxN ltac:(lia)) as (Hsq & HXTX & HXTy).
    pose proof Hsq as [HsqL HsqR].
    rewrite <- HsqL in Hsq.
    destruct (invSym_left_inverse _ inv Hsq Hinv) as [[HiL HiR] Hleft].
    rewrite HsqL in HiL, HiR, Hleft.
    exists w, (_matMul (_transpose xN) xN), (_matVec (_transpose xN) yN), inv.
    split; [exact HXTX|]. split; [apply HXTy|]. split; [exact Hleft|].
    split; [exact Hlen|]. split.
    { intros r Hr. rewrite Hwv, nth_matVec by lia. now rewrite HiR. }
    split; [exact Hnormal|]. split; [reflexivity|].
    intros row. cbn [infer]. rewrite linear_infer_value, HyMu, HySig. reflexivity.
Qed.

End BaselineFacts.

(** * The claims *)

Module Claims.
Import JSDate JSDateFacts ForecastManager HelperFacts.
Import SpecWords Examples DatasetFacts ForecastFacts LinearFacts.
Import NaNNotions TurnWords KernelFacts NaNFacts NaNFacts2 NaNFacts3 TurnFacts.

Section DayOfYearConverters.
Local Open Scope Z_scope.

(** C10.  [Utils.doyToDate] (app.js) and [ForecastManager._doyToDate]
    (forecast.js) return the same result for every year and day of year, so
    [_toISO] does not depend on which of the two it calls.  For a year
    from 100 on and [doy >= 1] the result is the ISO date of the [doy]-th
    day counted from 1 January of that year (as long as the year reached
    has four digits), and that string reads back as that very day. *)
Theorem doyToDate_converters_agree :
  (forall year doy, Utils.doyToDate year doy = _doyToDate year doy) /\
  (forall has1 has2 token, _toISO has1 token = _toISO has2 token) /\
  (forall year doy,
      100 <= year -> 1 <= doy ->
      YearFromDay (DayFromYear year + (doy - 1)) <= 9999 ->
      _doyToDate year doy = Ok (iso_of_day (DayFromYear year + (doy - 1))) /\
      iso_date (iso_of_day (DayFromYear year + (doy - 1)))
               (DayFromYear year + (doy - 1))).
Proof.
  split; [exact doyToDate_same|]. split; [exact toISO_same|].
  intros year doy Hyear Hdoy Hy. split.
  - now apply doyToDate_value.
  - apply iso_of_day_date. split; [|exact Hy].
    rewrite <- (YearFromDay_first year) in Hyear.
    pose proof (YearFromDay_mono (DayFromYear year) (DayFromYear year + (doy - 1))).
    lia.
Qed.

Lemma doyToDate_converters_agree_witness :
  _doyToDate 2020 60 = Ok "2020-02-29"%string /\
  Utils.doyToDate 2020 60 = Ok "2020-02-29"%string.
Proof.
  destruct doyToDate_converters_agree as (Hsame & _ & Hval).
  destruct (Hval 2020 60) as [Hv _]; [lia | lia | vm_compute; discriminate |].
  split; [|rewrite Hsame]; exact Hv.
Defined.

End DayOfYearConverters.

Section FeatureBuilder.
Local Open Scope R_scope.

(** C3.  For an observation sequence with distinct calendar dates (from year
    100 on), [_buildDataset] is the list, over the indices [i = 2, 3, ...] in
    order, of the samples that section 4.3 describes, each index giving at
    most one: the target is the value at [i] and the seven features are the
    values at [i-1] and [i-2], the mean of the values at [i-2..i] (all three
    are present when a sample is emitted), the sine and cosine of
    [2*PI*dayOfYear/365], and the mean temperature and total precipitation
    at the date of [i].  An index where one of them is absent gives no
    sample, every feature vector has 7 entries, and the sample at [i] does
    not change when observations after [i] do. *)
Theorem buildDataset_features vi wx days :
  NoDup (map date vi) -> Forall2 dated vi days ->
  let ds := _buildDataset vi wx in
  ds = samples_of (map (spec_sample vi wx days) (seq 2 (length vi - 2)))
  /\ length (x ds) = length (y ds)
  /\ (length (x ds) <= length vi - 2)%nat
  /\ (forall f, In f (x ds) -> length f = 7%nat)
  /\ (forall i f v, (2 <= i)%nat -> spec_sample vi wx days i = Some (f, v) ->
        exists o o1 o2 v1 v2 n w t p,
          vi !! i = Some o /\ vi !! (i - 1)%nat = Some o1 /\
          vi !! (i - 2)%nat = Some o2 /\
          value o = Some v /\ value o1 = Some v1 /\ value o2 = Some v2 /\
          days !! i = Some n /\ wx_get wx (date o) = Some w /\
          tMean w = Some t /\ pSum w = Some p /\
          f = [v1; v2; (v2 + v1 + v) / 3;
               sin (2 * PI * IZR (day_of_year n) / 365);
               cos (2 * PI * IZR (day_of_year n) / 365); t; p])
  /\ (forall vi' i, firstn (S i) vi' = firstn (S i) vi ->
        spec_sample vi' wx days i = spec_sample vi wx days i).
Proof.
  intros Hnd Hdays ds.
  assert (Hds : ds = samples_of (map (spec_sample vi wx days) (seq 2 (length vi - 2)))).
  { unfold ds. rewrite buildDataset_samples. f_equal.
    apply map_ext_seq. intros i Hi. apply dataset_sample_spec; auto. lia. }
  split; [exact Hds|]. rewrite Hds. unfold samples_of. cbn [x y].
  split; [now rewrite !length_map|].
  split.
  { rewrite length_map.
    etransitivity; [apply non_null_length|]. now rewrite length_map, length_seq. }
  split.
  { intros f Hf. apply in_map_iff in Hf as ([f' v] & <- & Hin).
    apply non_null_In, in_map_iff in Hin as (i & Hi & _).
    eapply spec_sample_length; eauto. }
  split.
  - intros i f v. apply spec_sample_closed.
  - intros vi' i. apply spec_sample_prefix.
Qed.

Lemma buildDataset_features_witness :
  _buildDataset three (weather 3)
  = {| x := [[0.4; 0.3; (0.3 + 0.4 + 0.5) / 3;
              sin (2 * PI * 33 / 365); cos (2 * PI * 33 / 365); 20; 30]];
       y := [0.5] |}.
Proof.
  assert (Hnd : NoDup (map date three)).
  { apply (bool_decide_unpack (NoDup (map date three))). vm_compute. exact I. }
  assert (Hd : Forall2 dated three (composite_days 3)).
  { repeat constructor; vm_compute; congruence. }
  destruct (buildDataset_features three (weather 3) (composite_days 3) Hnd Hd)
    as (Heq & _).
  rewrite Heq. unfold samples_of.
  assert (Hs : map (spec_sample three (weather 3) (composite_days 3))
                   (seq 2 (length three - 2))
               = [Some ([0.4; 0.3; (0.3 + 0.4 + 0.5) / 3;
                         sin (2 * PI * 33 / 365); cos (2 * PI * 33 / 365); 20; 30],
                        0.5)]).
  { cbn [three length Nat.sub seq map]. f_equal. unfold spec_sample, recent3.
    cbn -[mean_or]. rewrite mean3. reflexivity. }
  rewrite Hs. reflexivity.
Defined.

End FeatureBuilder.

Section RunThreshold.

(** C5.  When the history and the weather have been fetched, a dataset of
    fewer than 24 samples (23 in particular) ends [run] with the text
    'Insufficient samples for training.': no training text is shown, nothing
    is forecast and nothing is drawn.  With 24 samples or more the training
    text is shown and [_trainModel] decides what follows. *)
Theorem run_needs_24_samples env vi wx :
  has_managers env = true ->
  fetchVISeries env (run_years env) = Ok vi -> vi <> [] ->
  fetchWeatherByDate env vi = Ok wx ->
  let ds := _buildDataset vi wx in
  let cfg := {| epochs := run_epochs env; lr := run_lr env |} in
  ((length (x ds) < 24)%nat ->
     run env = shown (before_training ++ [InsufficientSamples])
     /\ chart (run env) = None
     /\ ~ In TrainingLinear (stats (run env))
     /\ ~ In TrainingTF (stats (run env))
     /\ ~ In Forecasting (stats (run env)))
  /\ ((24 <= length (x ds))%nat ->
        exists training rest,
          (training = TrainingLinear \/ training = TrainingTF) /\
          stats (run env) = before_training ++ training :: rest /\
          match _trainModel (tf env) ds cfg with
          | Throw e => rest = [Failed e] /\ chart (run env) = None
          | Ok model => exists rest', rest = Forecasting :: rest'
          end).
Proof.
  intros Hm Hvi Hne Hwx ds cfg.
  assert (Hlen : Nat.eqb (length vi) 0 = false).
  { destruct vi; [congruence|reflexivity]. }
  unfold run. rewrite Hm, Hvi, Hlen, Hwx. cbn [negb].
  fold ds. fold cfg. split.
  - intros Hlt. destruct (Nat.ltb_spec (length (x ds)) 24) as [_|]; [|lia].
    split; [reflexivity|]. cbn.
    repeat split; try reflexivity; intros H;
      repeat (destruct H as [H|H]; [discriminate|]); exact H.
  - intros Hge. destruct (Nat.ltb_spec (length (x ds)) 24) as [|_]; [lia|].
    exists (match tf env with Some _ => TrainingTF | None => TrainingLinear end).
    destruct (_trainModel (tf env) ds cfg) as [model|e].
    + destruct (_forecastNext30Days vi wx model) as [fc|e].
      * destruct (_plot env vi fc) as [drawn|e];
          (eexists; split; [destruct (tf env); auto|];
           split; [reflexivity|]; eexists; reflexivity).
      * eexists. split; [destruct (tf env); auto|].
        split; [reflexivity|]. eexists. reflexivity.
    + eexists. split; [destruct (tf env); auto|].
      split; [reflexivity|]. split; reflexivity.
Qed.

Lemma run_needs_24_samples_witness :
  run (station 25) = shown (before_training ++ [InsufficientSamples]) /\
  exists training rest,
    stats (run (station 26)) = before_training ++ training :: rest.
Proof.
  split.
  - apply (run_needs_24_samples (station 25) (series 25) (weather 25));
      try reflexivity.
    + discriminate.
    + apply Nat.ltb_lt. vm_compute. reflexivity.
  - destruct (run_needs_24_samples (station 26) (series 26) (weather 26))
      as [_ H]; try reflexivity.
    + discriminate.
    + destruct H as (training & rest & _ & Hs & _).
      * apply Nat.leb_le. vm_compute. reflexivity.
      * exists training, rest. exact Hs.
Defined.

End RunThreshold.

Section Configuration.
Local Open Scope R_scope.

(** C7, at the inputs where it fails.  With the text [abc] (or [.5]) in the
    epochs field [parseInt] gives NaN, and [Math.min] and [Math.max] pass
    NaN on: the epochs value handed to training is NaN, outside [20, 1000].
    The same holds for the learning rate with [abc] and [parseFloat]. *)
Theorem run_config_not_a_number :
  run_epochs (form "3" "abc" "0.01") = NaN /\
  run_epochs (form "3" ".5" "0.01") = NaN /\
  run_lr (form "3" "120" "abc") = NaN.
Proof. repeat split; reflexivity. Qed.

End Configuration.

Section Standardization.
Local Open Scope R_scope.

(** C8.  For every column (a feature column or the targets) the standard
    deviation kept by the trainer is not zero, and un-standardizing a
    standardized value with the mean and deviation of that column gives the
    value back: [((v - m) / s) * s + m = v]. *)
Theorem standardize_roundtrip (col : list R) (v : R) :
  column_sd col <> 0
  /\ (v - column_mean col) / column_sd col * column_sd col + column_mean col = v
  /\ map (fun z => z * column_sd col + column_mean col) (standardized_y col) = col.
Proof.
  assert (H : column_sd col <> 0) by apply sqrt_or_1_nonzero.
  split; [exact H|]. split; [field; exact H|].
  unfold standardized_y. rewrite map_map.
  transitivity (map (fun b : R => b) col); [|apply map_id].
  apply map_ext. intros b. field. exact H.
Qed.

End Standardization.

Section Forecaster.
Local Open Scope Z_scope.

(** C1.  [Math.max(-0.1, Math.min(1.0, vhat))] does not clamp NaN: it
    returns NaN, which is not [null], so the point is pushed with value NaN
    to the output and to the rolling history.  For a history that ends on a
    calendar date [d0] (the 30 following days staying within year 9999) and
    every [infer], [_forecastNext30Days] returns 30 points, the point of
    rank [k] dated on day [d0 + 1 + k], each value computed from the input
    history followed by the earlier points that carry a value; a value is
    [null], or NaN where [infer] returned NaN, or a number of [-0.1, 1]
    where it returned anything else.  From the three composites, a model
    whose [infer] returns NaN gives 30 points whose values are all NaN:
    none of them is absent and none lies in [-0.1, 1]. *)
Theorem forecast_clamp_passes_nan :
  (forall vi wx infer o d0,
     last vi = Some o -> iso_date (NaNForecast.date o) d0 ->
     YearFromDay (d0 + 30) <= 9999 ->
     exists out,
       NaNForecast._forecastNext30Days vi wx infer = Ok out
       /\ length out = 30%nat
       /\ forall k, (k < 30)%nat ->
            exists p, out !! k = Some p
              /\ NaNForecast.date p = iso_of_day (d0 + 1 + Z.of_nat k)
              /\ NaNForecast.value p
                 = NaNForecast.forecast_value infer (fst (weather_proxies wx))
                     (snd (weather_proxies wx))
                     (vi ++ valued (firstn k out)) (NaNForecast.date p)
              /\ (NaNForecast.value p = None
                  \/ (exists f, infer f = NaN /\ NaNForecast.value p = Some NaN)
                  \/ (exists f c, infer f <> NaN
                        /\ NaNForecast.value p = Some (Num c)
                        /\ (-0.1 <= c <= 1)%R)))
  /\ NaNForecast.clip NaN = NaN
  /\ (forall wx, exists out,
        NaNForecast._forecastNext30Days (map NaNForecast.of_observation three) wx
          (fun _ => NaN) = Ok out
        /\ length out = 30%nat
        /\ forall k, (k < 30)%nat ->
             exists p, out !! k = Some p
               /\ NaNForecast.date p = iso_of_day (18294 + 1 + Z.of_nat k)
               /\ NaNForecast.value p = Some NaN
               /\ forall c, NaNForecast.value p = Some (Num c) -> (-0.1 <= c <= 1)%R -> False).
Proof.
  split; [|split; [reflexivity|]].
  - intros vi wx infer o d0 Hlast Hdate Hy.
    destruct (nan_forecast_days vi wx infer o d0 Hlast Hdate Hy) as (out & Hout & Hlen & Hk).
    exists out. split; [exact Hout|]. split; [exact Hlen|].
    intros k Hlt. destruct (Hk k Hlt) as (p & Hp & Hd & Hv).
    exists p. split; [exact Hp|]. split; [exact Hd|]. split; [exact Hv|].
    destruct (NaNForecast.value p) as [v|] eqn:Ev; [|now left]. right.
    symmetry in Hv.
    destruct (nan_forecast_value_cases _ _ _ _ _ _ Hv) as (f & _ & _ & Hnan & Hnum).
    destruct (infer f) as [| | |q] eqn:Ef.
    + left. exists f. split; [exact Ef|]. now rewrite Hnan.
    + right. destruct Hnum as (c & -> & Hc); [discriminate|].
      exists f, c. rewrite Ef. repeat split; try discriminate; apply Hc.
    + right. destruct Hnum as (c & -> & Hc); [discriminate|].
      exists f, c. rewrite Ef. repeat split; try discriminate; apply Hc.
    + right. destruct Hnum as (c & -> & Hc); [discriminate|].
      exists f, c. rewrite Ef. repeat split; try discriminate; apply Hc.
  - intros wx. destruct (nan_forecast_three wx) as (out & Hout & Hlen & Hk).
    exists out. split; [exact Hout|]. split; [exact Hlen|].
    intros k Hlt. destruct (Hk k Hlt) as (p & Hp & Hd & Hv).
    exists p. split; [exact Hp|]. split; [exact Hd|]. split; [exact Hv|].
    intros c Hc. rewrite Hv in Hc. discriminate.
Qed.

End Forecaster.

Section WeatherProxies.
Local Open Scope R_scope.

(** C2, at an input where it fails.  With two weather aggregates whose
    precipitation totals are 2 and 4, [_forecastNext30Days] of forecast.js
    takes 3 as its precipitation constant, the mean of the totals, where
    section 4.5 (and the copy of the function in app.js) takes their sum 6.
    The temperature constant is the mean 10 in both.  (What forecast.js
    computes in general is [weather_proxies_means].) *)
Theorem precipitation_proxy_is_a_mean :
  weather_proxies two_aggregates = (10, 3)
  /\ spec_proxies two_aggregates = (10, 6)
  /\ snd (weather_proxies two_aggregates) <> snd (spec_proxies two_aggregates).
Proof.
  assert (Hnd : NoDup (Object_keys two_aggregates)).
  { apply (bool_decide_unpack (NoDup (Object_keys two_aggregates))). vm_compute. exact I. }
  assert (Hw : weather_proxies two_aggregates = (10, 3)).
  { rewrite (weather_proxies_means _ Hnd). unfold mean_proxies, mean_or, sum.
    cbn. f_equal; lra. }
  assert (Hs : spec_proxies two_aggregates = (10, 6)).
  { unfold spec_proxies, mean_or, sum. cbn. f_equal; lra. }
  split; [exact Hw|]. split; [exact Hs|]. rewrite Hw, Hs. cbn. lra.
Qed.

End WeatherProxies.

Section InputHistory.

(** C9.  [_forecastNext30Days] run on a store of arrays leaves the array
    [viSeries] as it was (same length, same entries), and every other array
    that existed before the call: the rolling history is a new array.  The
    value returned is the one of the function on the contents of
    [viSeries]. *)
Theorem forecast_keeps_input (h : store) (viSeries : loc) a wx model :
  h !! viSeries = Some a ->
  let r := _forecastNext30Days_store viSeries wx model h in
  snd r !! viSeries = Some a
  /\ (forall l, is_Some (h !! l) -> snd r !! l = h !! l)
  /\ fst r = _forecastNext30Days a wx model.
Proof.
  intros Ha r.
  assert (Hfresh : h !! fresh (dom h) = None).
  { apply not_elem_of_dom, is_fresh. }
  assert (Hr : exists a1,
             snd r = <[fresh (dom h) := a1]> h
             /\ fst r = _forecastNext30Days a wx model).
  { unfold r, _forecastNext30Days_store, _forecastNext30Days, forecast_run, alloc.
    destruct (weather_proxies wx) as [tC pC]. cbv beta iota zeta.
    unfold array_read. rewrite Ha. change (default [] (Some a)) with a.
    rewrite js_slice_from_0, lookup_insert_eq.
    change (default [] (Some a)) with a.
    destruct (js_index a (Z.of_nat (length a) - 1)) as [last|].
    - set (d := Date_parse (date last ++ "T00:00:00Z")).
      destruct (forecast_loop_store_sim model tC pC (fresh (dom h)) 30 d []
                  (<[fresh (dom h) := a]> h) a) as (a1 & Hs & Hf & _);
        [apply lookup_insert_eq|].
      destruct (forecast_loop_store model tC pC (fresh (dom h)) 30 (d, [])
                  (<[fresh (dom h) := a]> h)) as [res h'].
      cbn [fst snd] in Hs, Hf. subst h'. rewrite insert_insert_eq.
      exists a1. rewrite Hf.
      destruct (forecast_loop model tC pC 30 (d, a, [])) as [[[d' a'] out']|e];
        cbn [rbind fst snd]; split; reflexivity.
    - exists a. cbn [rbind fst snd]. split; reflexivity. }
  destruct Hr as (a1 & Hs & Hf).
  assert (Hframe : forall l, is_Some (h !! l) -> snd r !! l = h !! l).
  { intros l [b Hl]. rewrite Hs. apply lookup_insert_ne. intros <-. congruence. }
  split; [rewrite Hframe by eauto; exact Ha|]. split; [exact Hframe|exact Hf].
Qed.

Lemma forecast_keeps_input_witness :
  snd (_forecastNext30Days_store 0%nat two_aggregates
         {| type := lin_model; infer := fun _ => 5%R; rmse := 0%R |}
         {[ 0%nat := three ]}) !! 0%nat = Some three.
Proof.
  apply forecast_keeps_input. apply lookup_singleton_eq.
Defined.

End InputHistory.

Section MatrixInversion.
Local Open Scope R_scope.

(** C4.  On a square matrix [M] of size [n], [_invSym] performs
    Gauss-Jordan elimination with partial pivoting.  Before turn [i] the
    working matrix [A] is [I'] times [M] and its first [i] columns are
    those of the identity.  At turn [i] the row [p] chosen has the largest
    absolute value of column [i] among the rows [i..n-1]; the turn throws,
    with the message 'Singular matrix', exactly when that largest value is
    below 1e-8; otherwise rows [i] and [p] change places, the new row [i] is
    divided by the pivot and its multiples are taken from all other rows, in
    both matrices ([turn_entry]).  [_invSym] throws exactly when one of its
    turns does, and what it returns is an inverse of [M]: an [n] by [n]
    matrix whose product with [M] is the identity.  The 2x2 zero matrix
    makes it throw, at the first turn; [[1, 1], [1, 1]] makes it throw at
    the second, after an elimination; [[0, 1], [1, 1]], which needs the
    swap, is inverted.  The exception leaves [_trainModel] as it is, and
    [run] ends on 'Failed: Singular matrix' with nothing forecast or
    drawn. *)
Theorem invSym_partial_pivoting (M : matrix) :
  Forall (fun row => length row = length M) M ->
  let n := length M in
  (forall i A I', (i < n)%nat ->
     gauss_jordan_loop n (seq 0 i) (M, identity n) = Ok (A, I') ->
     let p := find_pivot A i n in
     (forall r c, (r < n)%nat -> (c < n)%nat ->
        entry A r c = sum_below n (fun k => entry I' r k * entry M k c))
     /\ (forall r c, (r < n)%nat -> (c < i)%nat ->
           entry A r c = if Nat.eqb r c then 1 else 0)
     /\ (i <= p < n)%nat
     /\ (forall r, (i <= r < n)%nat -> Rabs (entry A r i) <= Rabs (entry A p i))
     /\ nth i (swap_rows A i p) [] = nth p A []
     /\ nth p (swap_rows A i p) [] = nth i A []
     /\ (gauss_jordan_step n (A, I') i = Throw (Error "Singular matrix")
         <-> Rabs (entry A p i) < 1e-8)
     /\ (forall e, gauss_jordan_step n (A, I') i = Throw e -> e = Error "Singular matrix")
     /\ (forall A' I'', gauss_jordan_step n (A, I') i = Ok (A', I'') ->
           forall r c, (r < n)%nat -> (c < n)%nat ->
             entry A' r c = turn_entry A A i p r c
             /\ entry I'' r c = turn_entry A I' i p r c))
  /\ (forall e, _invSym M = Throw e <->
        exists i A I', (i < n)%nat
          /\ gauss_jordan_loop n (seq 0 i) (M, identity n) = Ok (A, I')
          /\ Rabs (entry A (find_pivot A i n) i) < 1e-8
          /\ e = Error "Singular matrix")
  /\ (forall Minv, _invSym M = Ok Minv ->
        length Minv = n
        /\ (forall r, (r < n)%nat -> length (nth r Minv []) = n)
        /\ forall r c, (r < n)%nat -> (c < n)%nat ->
             sum_below n (fun k => entry Minv r k * entry M k c)
             = if Nat.eqb r c then 1 else 0)
  /\ _invSym [[0; 0]; [0; 0]] = Throw (Error "Singular matrix")
  /\ _invSym [[1; 1]; [1; 1]] = Throw (Error "Singular matrix")
  /\ _invSym [[0; 1]; [1; 1]] = Ok [[-1; 1]; [1; 0]]
  /\ (forall ds cfg X0 rest e,
        x ds = X0 :: rest ->
        _invSym (_matMul (_transpose (standardized_x (x ds) (length X0)))
                         (standardized_x (x ds) (length X0))) = Throw e ->
        _trainModel None ds cfg = Throw e)
  /\ (forall env vi wx e,
        has_managers env = true ->
        fetchVISeries env (run_years env) = Ok vi -> vi <> [] ->
        fetchWeatherByDate env vi = Ok wx ->
        (24 <= length (x (_buildDataset vi wx)))%nat ->
        tf env = None ->
        _trainModel None (_buildDataset vi wx)
          {| epochs := run_epochs env; lr := run_lr env |} = Throw e ->
        run env = shown (before_training ++ [TrainingLinear; Failed e])).
Proof.
  intros Hrows n.
  assert (HM : square n M).
  { split; [reflexivity|]. intros r Hr. rewrite List.Forall_forall in Hrows.
    apply Hrows. now apply nth_In. }
  split; [|split; [|split; [|split; [|split; [|split; [|split]]]]]].
  - intros i A I' Hi Hreach p.
    destruct (find_pivot_spec A i n Hi) as [Hp Hmax].
    destruct (gauss_jordan_loop_length _ _ _ _ _ _ Hreach) as [HA _].
    destruct (gauss_jordan_loop_state n M i (A, I') ltac:(lia) HM Hreach)
      as (HsA & HsJ & HL & HC).
    cbn [fst snd] in HsA, HsJ, HL, HC.
    split; [exact HL|]. split; [exact HC|].
    split; [exact Hp|]. split; [exact Hmax|].
    destruct (swap_rows_pivot A i p) as [Hs1 Hs2]; [fold n in HA; lia|fold n in HA; unfold p; lia|].
    split; [exact Hs1|]. split; [exact Hs2|].
    split; [|split].
    + rewrite gauss_jordan_step_throws. unfold singular_eps. tauto.
    + intros e He. now apply gauss_jordan_step_throws in He.
    + intros A' I'' Hstep.
      now destruct (gauss_jordan_step_entries n A I' A' I'' i HsA HsJ Hi Hstep) as (_ & _ & H).
  - intros e. apply invSym_fails.
  - intros Minv Hinv. destruct (invSym_left_inverse M Minv HM Hinv) as [[Hl Hr] Hleft].
    split; [exact Hl|]. split; [exact Hr|exact Hleft].
  - exact invSym_zero_2x2.
  - exact invSym_ones_2x2.
  - exact invSym_swap_2x2.
  - intros ds cfg X0 rest e HX Hinv.
    rewrite (trainModel_linear _ _ _ _ HX). unfold linear_weights. cbv zeta.
    now rewrite Hinv.
  - intros env vi wx e Hm Hvi Hne Hwx Hn Htf Ht.
    rewrite (run_training_fails env vi wx e); auto; rewrite Htf; auto.
Qed.

Lemma invSym_partial_pivoting_witness :
  find_pivot [[0; 1]; [1; 1]] 0 2 = 1%nat
  /\ (exists A' I'',
        gauss_jordan_step 2 ([[0; 1]; [1; 1]], identity 2) 0 = Ok (A', I'')
        /\ entry A' 0 0 = 1 /\ entry A' 1 0 = 0 /\ entry A' 1 1 = 1)
  /\ run (station 26)
     = shown (before_training ++ [TrainingLinear; Failed (Error "Singular matrix")]).
Proof.
  set (M := [[0; 1]; [1; 1]]).
  destruct (invSym_partial_pivoting M)
    as (Hturn & _ & _ & _ & _ & _ & _ & Hrun); [repeat constructor|].
  change (length M) with 2%nat in Hturn.
  destruct (Hturn 0%nat M (identity 2) ltac:(lia) eq_refl)
    as (_ & _ & Hp & Hmax & _ & _ & Hiff & _ & Hent).
  assert (H1 : Rabs 1 = 1) by (apply Rabs_pos_eq; lra).
  assert (Hpiv : find_pivot M 0 2 = 1%nat).
  { pose proof (Hmax 1%nat ltac:(lia)) as H. change (entry M 1 0) with 1 in H.
    destruct (find_pivot M 0 2) as [|[|q]]; [|reflexivity|lia].
    change (entry M 0 0) with 0 in H. rewrite Rabs_R0, H1 in H. lra. }
  split; [exact Hpiv|]. split.
  - destruct (gauss_jordan_step 2 (M, identity 2) 0) as [[A' I'']|e] eqn:E.
    + exists A', I''. split; [reflexivity|].
      specialize (Hent A' I'' eq_refl). rewrite Hpiv in Hent.
      destruct (Hent 0%nat 0%nat ltac:(lia) ltac:(lia)) as [H00 _].
      destruct (Hent 1%nat 0%nat ltac:(lia) ltac:(lia)) as [H10 _].
      destruct (Hent 1%nat 1%nat ltac:(lia) ltac:(lia)) as [H11 _].
      rewrite H00, H10, H11. unfold turn_entry. cbn [Nat.eqb].
      change (entry M 0 0) with 0. change (entry M 0 1) with 1.
      change (entry M 1 0) with 1. change (entry M 1 1) with 1.
      repeat split; field.
    + exfalso.
      assert (He : e = Error "Singular matrix").
      { destruct (Hturn 0%nat M (identity 2) ltac:(lia) eq_refl)
          as (_ & _ & _ & _ & _ & _ & _ & Hmsg & _). now apply Hmsg. }
      subst e. pose proof (proj1 Hiff eq_refl) as Hlow. rewrite Hpiv in Hlow.
      change (entry M 1 0) with 1 in Hlow. rewrite H1 in Hlow. lra.
  - apply (Hrun (station 26) (series 26) (weather 26)).
    + reflexivity.
    + reflexivity.
    + discriminate.
    + reflexivity.
    + apply Nat.leb_le. vm_compute. reflexivity.
    + reflexivity.
    + apply station_26_training.
Defined.

End MatrixInversion.

Section LinearBaseline.
Import PrimFloat.
#[local] Set Warnings "-inexact-float".

(** C6.  [|| 1] floors a deviation to 1 only where the square root computed
    is 0 (or NaN), and in binary64 it is not 0 for every constant column.
    For a column of 24 samples that are all 0.1 (the literal: its nearest
    binary64 number) the rounded sum gives the mean 0.10000000000000003,
    the squared deviations sum to more than 0, and the deviation is
    2.8352538009326866e-17, not 1; the standardized entries of the column
    are then -0.97894501037256076 instead of 0.  Columns that are constant
    0.5 or 0, whose sums are exact, get the deviation 1, and so does every
    constant column over exact real numbers. *)
Theorem constant_column_not_floored :
  let col := repeat 0.1%float 24 in
  Binary64.column_mean col = 0.10000000000000003%float
  /\ (0 <? Binary64.squared_deviations col (Binary64.column_mean col))%float = true
  /\ Binary64.column_sd col = 2.8352538009326866e-17%float
  /\ Binary64.column_sd col <> 1%float
  /\ Binary64.standardize 0.1 (Binary64.column_mean col) (Binary64.column_sd col)
     = (-0.97894501037256076)%float
  /\ Binary64.column_sd (repeat 0.5%float 24) = 1%float
  /\ Binary64.column_sd (repeat 0%float 24) = 1%float
  /\ (forall (c : R) n, ForecastManager.column_sd (repeat c n) = 1%R).
Proof.
  cbv zeta. repeat split; try (vm_compute; reflexivity).
  - vm_compute. discriminate.
  - intros c n. apply (column_sd_constant c). intros b Hb. now apply repeat_spec in Hb.
Qed.

End LinearBaseline.

End Claims.

(** * Further properties of the code *)

Module Properties.
Import JSDate JSDateFacts HelperFacts ForecastManager SpecWords Notions Examples.
Import DatasetFacts ForecastFacts LinearFacts JSString CalendarFacts.
Import WeatherFacts SeriesFacts SortFacts RunFacts KernelFacts StandardFacts ErrorFacts.
Import AppFacts PhenologyFacts GenDatesFacts YearFacts HistoryFacts ExactFacts LeakFacts.
Import CycleFacts.

(** ** Dates: [_doy], [_doyToDate], [_toISO], [_ymd] *)

Section DayOfYear.
Local Open Scope Z_scope.

(** X1.  [_doyToDate] and [_doy] are inverse of each other, for the years 100 to
    9999: the date of day [doy] of a year has [doy] as its day of year, and
    a calendar date is the date of its day of year in its year. *)
Theorem doy_date_roundtrip :
  (forall year doy, 100 <= year <= 9999 -> 1 <= doy <= DaysInYear year ->
     exists iso, _doyToDate year doy = Ok iso /\ _doy iso = Some doy) /\
  (forall s n, iso_date s n -> 100 <= YearFromDay n ->
     exists doy, _doy s = Some doy /\ 1 <= doy <= DaysInYear (YearFromDay n)
                 /\ _doyToDate (YearFromDay n) doy = Ok s).
Proof.
  split.
  - intros year doy Hy Hd. destruct (doy_roundtrip year doy Hy Hd) as (iso & H1 & H2 & _).
    eauto.
  - exact date_roundtrip.
Qed.

Lemma doy_date_roundtrip_witness :
  (exists iso, _doyToDate 2020 60 = Ok iso /\ _doy iso = Some 60) /\
  (exists doy, _doy "2020-02-29" = Some doy /\ 1 <= doy <= DaysInYear (YearFromDay 18321)
               /\ _doyToDate (YearFromDay 18321) doy = Ok "2020-02-29"%string).
Proof.
  destruct doy_date_roundtrip as [H1 H2]. split.
  - apply H1; [lia|vm_compute; split; discriminate].
  - apply H2; [vm_compute; reflexivity|vm_compute; discriminate].
Defined.

(** X2.  A day of year beyond the end of the year is carried into the next year,
    and day 0 is 31 December of the year before: [_doyToDate] fails on
    neither. *)
Theorem doyToDate_carry year :
  100 <= year <= 9997 ->
  (forall k, 1 <= k <= 366 ->
     _doyToDate year (DaysInYear year + k) = _doyToDate (year + 1) k) /\
  (exists iso, _doyToDate (year + 1) 0 = Ok iso
               /\ iso_date iso (DayFromYear (year + 1) - 1)
               /\ _doy iso = Some (DaysInYear year)).
Proof.
  intros Hy.
  pose proof (DaysInYear_cases year). pose proof (DaysInYear_cases (year + 1)).
  pose proof (DayFromYear_succ year) as Hs1.
  pose proof (DayFromYear_succ (year + 1)) as Hs2.
  pose proof (DayFromYear_succ (year + 1 + 1)) as Hs3.
  pose proof (DaysInYear_cases (year + 1 + 1)).
  split.
  - intros k Hk.
    assert (Hyear : 0 <= YearFromDay (DayFromYear (year + 1) + (k - 1)) <= 9999).
    { pose proof (YearFromDay_mono (DayFromYear (year + 1)) (DayFromYear (year + 1) + (k - 1))).
      pose proof (YearFromDay_mono (DayFromYear (year + 1) + (k - 1))
                    (DayFromYear (year + 1 + 1 + 1) - 1)).
      rewrite YearFromDay_first in *.
      rewrite (YearFromDay_unique (DayFromYear (year + 1 + 1 + 1) - 1) (year + 1 + 1)) in * by lia.
      lia. }
    rewrite (doyToDate_day (year + 1) k) by (lia || exact Hyear).
    rewrite doyToDate_day.
    + f_equal. f_equal. lia.
    + lia.
    + replace (DayFromYear year + (DaysInYear year + k - 1))
        with (DayFromYear (year + 1) + (k - 1)) by lia. exact Hyear.
  - assert (Hin : YearFromDay (DayFromYear (year + 1) - 1) = year).
    { apply YearFromDay_unique. lia. }
    exists (iso_of_day (DayFromYear (year + 1) - 1)).
    assert (Hd : iso_date (iso_of_day (DayFromYear (year + 1) - 1)) (DayFromYear (year + 1) - 1)).
    { apply iso_of_day_date. lia. }
    split; [|split; [exact Hd|]].
    + rewrite doyToDate_day.
      * f_equal.
      * lia.
      * replace (DayFromYear (year + 1) + (0 - 1)) with (DayFromYear (year + 1) - 1) by lia.
        lia.
    + rewrite (doy_of_iso_date _ _ Hd) by lia. unfold day_of_year. rewrite Hin.
      f_equal. lia.
Qed.

Lemma doyToDate_carry_witness :
  _doyToDate 2021 (DaysInYear 2021 + 1) = _doyToDate 2022 1
  /\ exists iso, _doyToDate 2022 0 = Ok iso /\ _doy iso = Some 365.
Proof.
  destruct (doyToDate_carry 2021) as [H1 (iso & H2 & _ & H3)]; [lia|].
  split; [apply (H1 1); lia|]. exists iso. split; [exact H2|exact H3].
Defined.

(** X3.  [_toISO] never throws.  It turns the token [YYYY-DOY] of day [DOY] of
    year [YYYY] into the calendar date of that day, whose day of year
    ([_doy]) is [DOY], and it returns a calendar date [YYYY-MM-DD] as it
    is: applied to its own result it changes nothing. *)
Theorem toISO_conversion has :
  (forall token, exists r, _toISO has token = Ok r) /\
  (forall y doy, 100 <= y <= 9999 -> 1 <= doy <= DaysInYear y ->
     exists iso, _toISO has (pad4 y ++ "-" ++ pad3 doy) = Ok (Some iso)
                 /\ iso_date iso (DayFromYear y + (doy - 1))
                 /\ _doy iso = Some doy
                 /\ _toISO has iso = Ok (Some iso)) /\
  (forall s n, iso_date s n -> _toISO has s = Ok (Some s)).
Proof.
  split; [apply toISO_total|]. split.
  - intros y doy Hy Hd. pose proof (DaysInYear_cases y).
    destruct (doy_roundtrip y doy Hy Hd) as (iso & H1 & H2 & H3).
    exists iso. rewrite toISO_doy_token, H1 by lia.
    repeat split; auto.
    rewrite (iso_date_canonical _ _ H3). apply toISO_date.
  - intros s n Hs. rewrite (iso_date_canonical _ _ Hs). apply toISO_date.
Qed.

Lemma toISO_conversion_witness :
  _toISO false "2020-060" = Ok (Some "2020-02-29"%string)
  /\ _toISO true "2020-02-29" = Ok (Some "2020-02-29"%string).
Proof.
  split.
  - destruct (toISO_conversion false) as (_ & H & _).
    destruct (H 2020 60) as (iso & H1 & H2 & _); [lia|vm_compute; split; discriminate|].
    rewrite (iso_date_canonical _ _ H2) in H1. exact H1.
  - destruct (toISO_conversion true) as (_ & _ & H).
    apply (H _ 18321). vm_compute. reflexivity.
Defined.

(** X4.  For a calendar date of the years 1000 to 9999, [_ymd] of the Date is the
    date string without its dashes, the form of [start], [end] and the
    keys of POWER's reply; before year 1000 it is shorter, the year not
    being padded. *)
Theorem ymd_of_date s n :
  iso_date s n ->
  (1000 <= YearFromDay n ->
     _ymd (Date_parse (s ++ "T00:00:00Z")) = remove_dashes s
     /\ String.length (remove_dashes s) = 8%nat) /\
  (YearFromDay n < 1000 ->
     (String.length (_ymd (Date_parse (s ++ "T00:00:00Z"))) < 8)%nat).
Proof.
  intros Hs. pose proof (iso_date_year _ _ Hs) as Hy. split.
  - intros H. split; [now apply (ymd_date s n)|].
    rewrite (iso_date_canonical _ _ Hs). unfold iso_of_day.
    rewrite remove_dashes_date. reflexivity.
  - intros H. unfold iso_date in Hs. rewrite Hs. now apply ymd_short.
Qed.

Lemma ymd_of_date_witness :
  _ymd (Date_parse ("2020-02-29" ++ "T00:00:00Z")) = "20200229"%string.
Proof.
  destruct (ymd_of_date "2020-02-29" 18321) as [H _]; [vm_compute; reflexivity|].
  destruct H as [H _]; [vm_compute; discriminate|]. exact H.
Defined.

End DayOfYear.

(** ** Weather: [_fetchWeatherByDate] *)

Section Weather.
Local Open Scope Z_scope.

(** X5.  The keys [_fetchWeatherByDate] reads for a composite dated on day [n]
    are those of the 17 consecutive days [n - 8 .. n + 8], across the ends
    of months and years, the date itself in the middle (dates of the years
    1000 to 9999). *)
Theorem weather_window s n :
  iso_date s n -> 1000 <= YearFromDay (n - 8) -> YearFromDay (n + 8) <= 9999 ->
  window_keys s = map (fun k => remove_dashes (iso_of_day (n + k))) day_offsets
  /\ day_offsets = [-8; -7; -6; -5; -4; -3; -2; -1; 0; 1; 2; 3; 4; 5; 6; 7; 8]
  /\ nth 8 (window_keys s) ""%string = remove_dashes s.
Proof.
  intros Hs Hlo Hhi.
  pose proof (window_keys_days s n Hs Hlo Hhi) as Hw.
  split; [exact Hw|]. split; [reflexivity|].
  rewrite Hw.
  change (nth 8 (map (fun k => remove_dashes (iso_of_day (n + k))) day_offsets) ""%string)
    with (remove_dashes (iso_of_day (n + 0))).
  now rewrite Z.add_0_r, <- (iso_date_canonical _ _ Hs).
Qed.

Lemma weather_window_witness :
  window_keys "2020-01-03"
  = map (fun k => remove_dashes (iso_of_day (18264 + k))) day_offsets
  /\ nth 0 (window_keys "2020-01-03") ""%string = "20191226"%string.
Proof.
  destruct (weather_window "2020-01-03" 18264) as (H & _ & _).
  - vm_compute. reflexivity.
  - vm_compute. discriminate.
  - vm_compute. discriminate.
  - split; [exact H|]. rewrite H. vm_compute. reflexivity.
Defined.

End Weather.

Section WeatherObject.
Local Open Scope R_scope.

(** X6.  [_fetchWeatherByDate] sends no request for an empty series and returns
    the empty object.  For a series of calendar dates it throws
    'POWER error <status>' when the reply is not ok, and passes on the
    exception of the request; otherwise the object holds, for the date of
    every observation, the aggregate of that date, under keys that are the
    dates of the series, each once; when the dates are distinct the keys
    are the dates in the order of the series (a calendar date is no array
    index, so the keys come in the order they were written). *)
Theorem fetchWeatherByDate_entries fetch first rest :
  Forall (fun o => exists n, iso_date (date o) n) (first :: rest) ->
  let vi := first :: rest in
  let start := remove_dashes (date first) in
  let end' := remove_dashes (date (List.last vi first)) in
  (forall f, _fetchWeatherByDate f [] = Ok [])
  /\ (forall e, fetch start end' = Throw e -> _fetchWeatherByDate fetch vi = Throw e)
  /\ (forall r, fetch start end' = Ok r -> reply_ok r = false ->
        _fetchWeatherByDate fetch vi
        = Throw (Error ("POWER error " ++ Number_toString (reply_status r))))
  /\ (forall r, fetch start end' = Ok r -> reply_ok r = true ->
        exists wx,
          _fetchWeatherByDate fetch vi = Ok wx
          /\ (forall o, In o vi ->
                wx_get wx (date o)
                = Some (aggregate (default ∅ (T2M r)) (default ∅ (PRECTOTCORR r)) (date o)))
          /\ NoDup (Object_keys wx)
          /\ (forall k, In k (Object_keys wx) <-> In k (map date vi))
          /\ (NoDup (map date vi) -> Object_keys wx = map date vi)).
Proof.
  intros _ vi start end'. split; [reflexivity|]. split; [|split].
  - intros e He. unfold _fetchWeatherByDate, vi. fold vi. fold start. fold end'.
    now rewrite He.
  - intros r Hr Hok. unfold _fetchWeatherByDate, vi. fold vi. fold start. fold end'.
    rewrite Hr. cbn [rbind]. now rewrite Hok.
  - intros r Hr Hok. unfold _fetchWeatherByDate, vi. fold vi. fold start. fold end'.
    rewrite Hr. cbn [rbind]. rewrite Hok. cbn [negb].
    set (g := aggregate (default ∅ (T2M r)) (default ∅ (PRECTOTCORR r))).
    eexists. split; [reflexivity|]. split; [|split; [|split]].
    + intros o Ho. apply (build_get_in g). now apply in_map.
    + apply (build_keys_nodup g). constructor.
    + intros k. rewrite (build_keys_in g). cbn. tauto.
    + intros Hnd. apply (build_keys_distinct g vi []). exact Hnd.
Qed.

Lemma fetchWeatherByDate_entries_witness :
  exists wx,
    _fetchWeatherByDate (fun _ _ => Ok power_reply) three = Ok wx
    /\ Object_keys wx = ["2020-01-01"; "2020-01-17"; "2020-02-02"]%string
    /\ wx_get wx "2020-01-01"
       = Some (aggregate (default ∅ (T2M power_reply))
                         (default ∅ (PRECTOTCORR power_reply)) "2020-01-01").
Proof.
  destruct (fetchWeatherByDate_entries (fun _ _ => Ok power_reply)
              {| date := "2020-01-01"; value := Some 0.3 |}
              [ {| date := "2020-01-17"; value := Some 0.4 |};
                {| date := "2020-02-02"; value := Some 0.5 |} ])
    as (_ & _ & _ & H).
  { constructor; [exists 18262%Z; vm_compute; reflexivity|].
    constructor; [exists 18278%Z; vm_compute; reflexivity|].
    constructor; [exists 18294%Z; vm_compute; reflexivity|]. constructor. }
  destruct (H power_reply) as (wx & Hwx & Hget & _ & _ & Hkeys); [reflexivity|reflexivity|].
  exists wx. split; [exact Hwx|]. split.
  - apply Hkeys. apply (bool_decide_unpack (NoDup _)). vm_compute. exact I.
  - apply (Hget {| date := "2020-01-01"; value := Some 0.3 |}). left. reflexivity.
Defined.

(** X7.  No fill value enters an aggregate: the mean temperature is the mean of
    the values above -900 found in the window, so it is above -900 and
    within any bounds those values keep; the precipitation sum is not
    negative when those values are not; and each is [null] exactly when the
    window holds no such value. *)
Theorem aggregate_valid_values T P s :
  let a := aggregate T P s in
  (forall t, tMean a = Some t -> t > -900)
  /\ (forall lo hi t,
        (forall k v, In k (window_keys s) -> T !! k = Some v -> v > -900 -> lo <= v <= hi) ->
        tMean a = Some t -> lo <= t <= hi)
  /\ (forall p,
        (forall k v, In k (window_keys s) -> P !! k = Some v -> v > -900 -> 0 <= v) ->
        pSum a = Some p -> 0 <= p)
  /\ (tMean a = None <-> forall k, In k (window_keys s) -> get T k = None)
  /\ (pSum a = None <-> forall k, In k (window_keys s) -> get P k = None).
Proof.
  cbv zeta. unfold aggregate. cbn [tMean pSum].
  set (keys := window_keys s).
  assert (Hval : forall obj v, In v (non_null (map (get obj) keys)) ->
                 exists k, In k keys /\ obj !! k = Some v /\ v > -900).
  { intros obj v Hv. apply non_null_In, in_map_iff in Hv as (k & Hk & Hin).
    apply get_Some in Hk. exists k. tauto. }
  assert (Hnone : forall obj, non_null (map (get obj) keys) = []
                  <-> forall k, In k keys -> get obj k = None).
  { intros obj. rewrite non_null_nil, List.Forall_forall. split.
    - intros H k Hk. apply H. now apply in_map.
    - intros H o Ho. apply in_map_iff in Ho as (k & <- & Hk). now apply H. }
  split; [|split; [|split; [|split]]].
  - intros t Ht. apply (mean_gt (-900) _ _) in Ht; [lra|].
    apply List.Forall_forall. intros v Hv. destruct (Hval T v Hv) as (k & _ & _ & H). lra.
  - intros lo hi t Hb Ht. eapply mean_bounds; [|exact Ht].
    apply List.Forall_forall. intros v Hv. destruct (Hval T v Hv) as (k & Hk & Hl & H).
    eauto.
  - intros p Hb. destruct (non_null (map (get P) keys)) as [|v l] eqn:Hl; [discriminate|].
    intros [= <-]. unfold sum.
    pose proof (sum_bounds 0 (fold_left Rplus (v :: l) 0 + 1) (v :: l) 0) as Hs.
    assert (Hall : Forall (fun q => 0 <= q) (v :: l)).
    { apply List.Forall_forall. intros q Hq. rewrite <- Hl in Hq.
      destruct (Hval P q Hq) as (k & Hk & Hlk & H). eauto. }
    clear Hs. revert Hall. generalize (v :: l). intros l0 Hall.
    assert (Hg : forall a, 0 <= a -> 0 <= fold_left Rplus l0 a).
    { induction Hall as [|q l1 Hq _ IH]; intros a Ha; cbn; [exact Ha|]. apply IH. lra. }
    apply Hg. lra.
  - rewrite mean_or_None. apply Hnone.
  - rewrite <- Hnone. destruct (non_null (map (get P) keys)); split; congruence.
Qed.

Lemma aggregate_valid_values_witness :
  tMean (aggregate power_T power_P "2020-01-01") = Some 20 /\ 0 <= 20 <= 40.
Proof.
  destruct (aggregate_valid_values power_T power_P "2020-01-01") as (_ & Hb & _ & _ & _).
  assert (Hkeys : window_keys "2020-01-01"
                  = ["20191224"; "20191225"; "20191226"; "20191227"; "20191228";
                     "20191229"; "20191230"; "20191231"; "20200101"; "20200102";
                     "20200103"; "20200104"; "20200105"; "20200106"; "20200107";
                     "20200108"; "20200109"]%string).
  { rewrite (window_keys_days _ 18262); vm_compute; (reflexivity || discriminate). }
  assert (Hlook : forall k v, power_T !! k = Some v -> v = 20 \/ v = -999).
  { intros k v. unfold power_T.
    destruct (decide (k = "20200101"%string)) as [->|H1].
    - rewrite lookup_insert_eq. intros [= <-]. now left.
    - rewrite lookup_insert_ne by congruence.
      destruct (decide (k = "20200102"%string)) as [->|H2].
      + rewrite lookup_singleton_eq. intros [= <-]. now right.
      + rewrite lookup_singleton_ne by congruence. discriminate. }
  assert (H1 : get power_T "20200101" = Some 20).
  { unfold get, power_T. rewrite lookup_insert_eq.
    destruct (Rgt_dec 20 (-900)); [reflexivity|lra]. }
  assert (H2 : get power_T "20200102" = None).
  { unfold get, power_T. rewrite lookup_insert_ne by discriminate.
    rewrite lookup_singleton_eq. destruct (Rgt_dec (-999) (-900)); [lra|reflexivity]. }
  assert (H3 : forall k, k <> "20200101"%string -> k <> "20200102"%string ->
                         get power_T k = None).
  { intros k Hk1 Hk2. unfold get, power_T.
    rewrite lookup_insert_ne by congruence. now rewrite lookup_singleton_ne by congruence. }
  assert (Ht : tMean (aggregate power_T power_P "2020-01-01") = Some 20).
  { unfold aggregate. cbn [tMean]. rewrite Hkeys. cbn [map].
    rewrite H1, H2, !H3 by discriminate.
    cbn [non_null]. unfold mean_or, sum. cbn [fold_left length INR]. f_equal. lra. }
  split; [exact Ht|].
  apply (Hb 0 40 20); [|exact Ht].
  intros k v _ Hv Hgt. destruct (Hlook k v Hv) as [-> | ->]; lra.
Defined.

End WeatherObject.

(** ** History: [_fetchVISeries] *)

Section VegetationSeries.
Local Open Scope R_scope.

(** X8.  [_fetchVISeries] fails only when the list of dates cannot be fetched: a
    date whose subset cannot be fetched is skipped.  Every observation of
    the series comes from an entry of the list, is dated by [_toISO] of its
    token and carries a value, [raw * 0.0001] for a raw value above -9000
    (a fill value gives no observation).  The series is no longer than
    the list, and for [years = k] it holds at most [ceil(365 k / 16)]
    observations, the most recent entries of the list. *)
Theorem fetchVISeries_observations sort fetchDates fetchSubset has viType years :
  (forall l, Permutation l (sort l)) ->
  (forall e, fetchDates = Throw e ->
     _fetchVISeries sort fetchDates fetchSubset has viType years = Throw e)
  /\ (forall datesJson, fetchDates = Ok datesJson ->
      exists series,
        _fetchVISeries sort fetchDates fetchSubset has viType years = Ok series
        /\ (forall o, In o series ->
              exists d md subset raw,
                In d (default [] datesJson) /\ entry_md d = Some md
                /\ fetchSubset md = Ok subset
                /\ _toISO has md = Ok (Some (date o))
                /\ raw > -9000 /\ value o = Some (raw * 0.0001))
        /\ (length series <= length (default [] datesJson))%nat
        /\ (forall k, (1 <= k)%Z -> years = Num (IZR k) ->
              (Z.of_nat (length series) <= (365 * k + 15) / 16)%Z)).
Proof.
  intros Hperm. split.
  - intros e He. unfold _fetchVISeries. now rewrite He.
  - intros datesJson Hd. now apply fetchVISeries_In.
Qed.

Lemma fetchVISeries_observations_witness :
  exists series,
    _fetchVISeries sort_by_date (Ok (Some two_dates)) subset_of false "ndvi" (Num 3)
    = Ok series
    /\ (length series <= 2)%nat
    /\ forall o, In o series -> exists raw, raw > -9000 /\ value o = Some (raw * 0.0001).
Proof.
  destruct (fetchVISeries_observations sort_by_date (Ok (Some two_dates)) subset_of
              false "ndvi" (Num 3) sort_by_date_perm) as [_ H].
  destruct (H (Some two_dates) eq_refl) as (series & Hs & Hin & Hlen & _).
  exists series. split; [exact Hs|]. split; [exact Hlen|].
  intros o Ho. destruct (Hin o Ho) as (d & md & subset & raw & _ & _ & _ & _ & Hr & Hv).
  exists raw. split; assumption.
Defined.

End VegetationSeries.

Section History.
Local Open Scope R_scope.

(** X9.  Every observation of a series returned by [_fetchVISeries] carries a
    value.  A forecast made from such a series therefore has a value at
    each of its 30 points when the series holds two observations or more,
    and at none of them when it holds one. *)
Theorem fetched_series_values sort fetchDates fetchSubset has viType years series :
  (forall l, Permutation l (sort l)) ->
  _fetchVISeries sort fetchDates fetchSubset has viType years = Ok series ->
  Forall (fun o => value o <> None) series
  /\ (forall wx model out, _forecastNext30Days series wx model = Ok out ->
        length out = 30%nat
        /\ ((2 <= length series)%nat -> Forall (fun p => value p <> None) out)
        /\ ((length series < 2)%nat -> Forall (fun p => value p = None) out)).
Proof.
  intros Hperm Hs.
  assert (Hall : Forall (fun o => value o <> None) series).
  { destruct fetchDates as [datesJson|e] eqn:Hd.
    - destruct (fetchVISeries_In sort (Ok datesJson) fetchSubset has viType years
                  datesJson Hperm eq_refl) as (s' & Hs' & Hin & _).
      rewrite Hs in Hs'. injection Hs' as <-.
      apply List.Forall_forall. intros o Ho.
      destruct (Hin o Ho) as (d & md & subset & raw & _ & _ & _ & _ & _ & Hv).
      congruence.
    - unfold _fetchVISeries in Hs. discriminate. }
  split; [exact Hall|].
  intros wx model out Hout.
  destruct (forecastNext30Days_points series wx model out Hout) as (H30 & _ & Hyes & Hno).
  rewrite (lags_present_valued series Hall) in Hyes, Hno.
  split; [exact H30|]. split.
  - intros Hl. apply Hyes. now apply Nat.leb_le.
  - intros Hl. apply Hno. apply Nat.leb_gt. lia.
Qed.

Lemma fetched_series_values_witness :
  exists series,
    _fetchVISeries sort_by_date (Ok (Some two_dates)) subset_of false "ndvi" (Num 3)
    = Ok series
    /\ Forall (fun o => value o <> None) series.
Proof.
  destruct (_fetchVISeries sort_by_date (Ok (Some two_dates)) subset_of false "ndvi" (Num 3))
    as [series|e] eqn:E.
  - exists series. split; [reflexivity|].
    destruct (fetched_series_values sort_by_date (Ok (Some two_dates)) subset_of false
                "ndvi" (Num 3) series sort_by_date_perm E) as [H _].
    exact H.
  - exfalso.
    destruct (fetchVISeries_In sort_by_date (Ok (Some two_dates)) subset_of false "ndvi"
                (Num 3) (Some two_dates) sort_by_date_perm eq_refl) as (s' & Hs' & _).
    congruence.
Defined.

End History.

(** ** Forecast and [run] *)

Section ForecastEdges.
Local Open Scope R_scope.

(** X10.  [_forecastNext30Days] throws a TypeError on an empty history and a
    RangeError when the last date of the history is no calendar date.  When
    it returns, it returns 30 points whose values lie in [-0.1, 1] and are
    all present or all absent: present exactly when the last two
    observations of the history carry a value. *)
Theorem forecast_edge_cases wx model :
  _forecastNext30Days [] wx model = Throw TypeError
  /\ (forall vi o, last vi = Some o -> Date_parse (date o ++ "T00:00:00Z") = None ->
        _forecastNext30Days vi wx model = Throw RangeError)
  /\ (forall vi out, _forecastNext30Days vi wx model = Ok out ->
        length out = 30%nat
        /\ (forall p v, In p out -> value p = Some v -> -0.1 <= v <= 1)
        /\ (lags_present vi = true -> Forall (fun p => value p <> None) out)
        /\ (lags_present vi = false -> Forall (fun p => value p = None) out)).
Proof.
  split; [|split].
  - unfold _forecastNext30Days, forecast_run. destruct (weather_proxies wx). reflexivity.
  - intros vi o Hl Hd. unfold _forecastNext30Days, forecast_run.
    destruct (weather_proxies wx) as [tC pC].
    rewrite js_slice_from_0, js_index_last, Hl, Hd. reflexivity.
  - intros vi out. apply forecastNext30Days_points.
Qed.

Lemma forecast_edge_cases_witness :
  _forecastNext30Days [ {| date := "2020-02-30"; value := Some 0.5 |} ] two_aggregates
    {| type := lin_model; infer := fun _ => 5; rmse := 0 |} = Throw RangeError.
Proof.
  destruct (forecast_edge_cases two_aggregates
              {| type := lin_model; infer := fun _ => 5; rmse := 0 |}) as (_ & H & _).
  apply (H _ {| date := "2020-02-30"; value := Some 0.5 |}).
  - reflexivity.
  - vm_compute. reflexivity.
Defined.

End ForecastEdges.

Section RunOutcomes.
Local Open Scope R_scope.




End RunOutcomes.

(** ** The linear baseline *)

Section Trainer.
Local Open Scope R_scope.

(** X12.  [_invSym] inverts no matrix that has a column of zeros: on a
    square matrix whose column [j] is 0 in every row it throws 'Singular
    matrix' (the column stays 0 through every turn, so no pivot is found
    for it). *)
Theorem invSym_rejects_zero_column (M : matrix) j :
  square (length M) M -> (j < length M)%nat ->
  (forall r, (r < length M)%nat -> entry M r j = 0) ->
  _invSym M = Throw (Error "Singular matrix").
Proof.
  intros Hsq Hj Hzero.
  apply (invSym_singular M (fun c => delta c j) j Hsq Hj).
  - unfold delta. rewrite Nat.eqb_refl. lra.
  - intros r Hr. rewrite (sum_below_delta_r _ j (fun c => entry M r c)) by exact Hj.
    now apply Hzero.
Qed.

Lemma invSym_rejects_zero_column_witness :
  _invSym [[1; 0]; [2; 0]] = Throw (Error "Singular matrix").
Proof.
  apply (invSym_rejects_zero_column [[1; 0]; [2; 0]] 1).
  - split; [reflexivity|]. intros [|[|r]] Hr; cbn in *; (reflexivity || lia).
  - cbn. lia.
  - intros [|[|r]] Hr; cbn in *; try lia; reflexivity.
Defined.

(** X13.  A feature that is 0 in every sample (no precipitation in any
    window, say) makes the linear baseline fail: its mean is 0, its
    deviation is replaced by 1, its standardized column is 0, the normal
    matrix has a column of zeros and [_trainModel] throws 'Singular
    matrix'. *)
Theorem zero_feature_fails ds cfg X0 rest j :
  x ds = X0 :: rest ->
  Forall (fun row => length row = length X0) (x ds) ->
  (j < length X0)%nat ->
  (forall row, In row (x ds) -> nth j row 0 = 0) ->
  _trainModel None ds cfg = Throw (Error "Singular matrix").
Proof. intros HX Hrows Hj Hzero. now apply (trainModel_constant_column ds cfg X0 rest j 0). Qed.

Lemma zero_feature_fails_witness :
  _trainModel None {| x := [[1; 0]; [2; 0]; [4; 0]]; y := [1; 2; 3] |}
              {| epochs := Num 120; lr := Num 0.01 |}
  = Throw (Error "Singular matrix").
Proof.
  apply (zero_feature_fails _ _ [1; 0] [[2; 0]; [4; 0]] 1).
  - reflexivity.
  - repeat constructor.
  - cbn. lia.
  - cbn. intros row [<-|[<-|[<-|[]]]]; reflexivity.
Defined.

(** X14.  When no feature column and not the targets are constant, the
    standardized features and targets have mean 0 and deviation 1 in every
    column, and standardizing them again changes nothing (over exact
    reals, so up to rounding in the program). *)
Theorem standardization_fixed_point m n (X : matrix) (Y : list R) :
  rows_cols m n X -> (1 <= m)%nat -> Y <> [] ->
  (forall j, (j < n)%nat ->
     exists r1 r2, (r1 < m)%nat /\ (r2 < m)%nat /\ entry X r1 j <> entry X r2 j) ->
  (exists k1 k2, nth k1 Y 0 <> nth k2 Y 0) ->
  (forall j, (j < n)%nat ->
     column_mean (column (standardized_x X n) j) = 0
     /\ column_sd (column (standardized_x X n) j) = 1)
  /\ standardized_x (standardized_x X n) n = standardized_x X n
  /\ column_mean (standardized_y Y) = 0
  /\ column_sd (standardized_y Y) = 1
  /\ standardized_y (standardized_y Y) = standardized_y Y.
Proof.
  intros HX Hm HY _ _.
  destruct (standardized_x_fixed m n X HX Hm) as [H1 H2].
  destruct (standardized_y_fixed Y HY) as (H3 & H4 & H5).
  repeat split; auto; now apply H1.
Qed.

Lemma standardization_fixed_point_witness :
  standardized_x (standardized_x (x three_points) 1) 1 = standardized_x (x three_points) 1
  /\ column_mean (standardized_y (y three_points)) = 0.
Proof.
  destruct (standardization_fixed_point 3 1 (x three_points) (y three_points))
    as (_ & H1 & H2 & _).
  - split; [reflexivity|]. intros [|[|[|r]]] Hr; cbn in *; (reflexivity || lia).
  - lia.
  - discriminate.
  - intros j Hj. exists 0%nat, 1%nat. split; [lia|]. split; [lia|].
    assert (j = 0)%nat as -> by lia. unfold entry. cbn. lra.
  - exists 0%nat, 1%nat. cbn. lra.
  - split; assumption.
Defined.

(** X15.  The [rmse] the linear baseline reports is the root mean squared error
    of its own [infer] on the samples it was trained on, in the units of
    the targets; it is not negative, and it is 0 exactly when [infer]
    returns the target of every sample. *)
Theorem linear_rmse_of_training ds cfg X0 rest model :
  x ds = X0 :: rest ->
  Forall (fun row => length row = length X0) (x ds) ->
  length (y ds) = length (x ds) ->
  _trainModel None ds cfg = Ok model ->
  rmse model = sqrt (_mse (map (infer model) (x ds)) (y ds))
  /\ 0 <= rmse model
  /\ (rmse model = 0 <->
      forall i, (i < length (x ds))%nat ->
        infer model (nth i (x ds) []) = nth i (y ds) 0).
Proof.
  intros HX Hrows Hlen Hm.
  destruct (linear_rmse_training ds cfg X0 rest model HX Hrows Hlen Hm) as [H1 H2].
  split; [exact H1|]. split; [exact H2|].
  now apply (linear_rmse_zero ds cfg X0 rest).
Qed.

Lemma linear_rmse_of_training_witness :
  exists model,
    _trainModel None three_points {| epochs := Num 120; lr := Num 0.01 |} = Ok model
    /\ rmse model = sqrt (_mse (map (infer model) (x three_points)) (y three_points)).
Proof.
  destruct (_trainModel None three_points {| epochs := Num 120; lr := Num 0.01 |})
    as [model|e] eqn:E.
  - exists model. split; [reflexivity|].
    destruct (linear_rmse_of_training three_points
                {| epochs := Num 120; lr := Num 0.01 |} [0] [[1]; [2]] model)
      as (H & _).
    + reflexivity.
    + repeat constructor.
    + reflexivity.
    + exact E.
    + exact H.
  - exfalso. exact (three_points_fit _ _ E).
Defined.

(** X16.  The normal matrix [XTX] is symmetric, and when [_invSym] returns on it
    the result is its inverse on both sides and symmetric too. *)
Theorem normal_inverse_symmetric m n (xN : matrix) XTXinv :
  rows_cols m n xN -> (1 <= m)%nat ->
  _invSym (_matMul (_transpose xN) xN) = Ok XTXinv ->
  _matMul XTXinv (_matMul (_transpose xN) xN) = identity n
  /\ _matMul (_matMul (_transpose xN) xN) XTXinv = identity n
  /\ (forall r c, (r < n)%nat -> (c < n)%nat ->
        entry (_matMul (_transpose xN) xN) r c = entry (_matMul (_transpose xN) xN) c r)
  /\ (forall r c, (r < n)%nat -> (c < n)%nat -> entry XTXinv r c = entry XTXinv c r).
Proof. apply normal_inverse_two_sided. Qed.

Lemma normal_inverse_symmetric_witness :
  exists XTXinv,
    let xN := standardized_x (x three_points) 1 in
    _invSym (_matMul (_transpose xN) xN) = Ok XTXinv
    /\ _matMul (_matMul (_transpose xN) xN) XTXinv = identity 1.
Proof.
  destruct (_invSym (_matMul (_transpose (standardized_x (x three_points) 1))
                             (standardized_x (x three_points) 1)))
    as [inv|e] eqn:E.
  - exists inv. cbv zeta. split; [exact E|].
    destruct (normal_inverse_symmetric 3 1 (standardized_x (x three_points) 1) inv)
      as (_ & H & _).
    + apply rows_cols_standardized. split; [reflexivity|].
      intros [|[|[|r]]] Hr; cbn in *; (reflexivity || lia).
    + lia.
    + exact E.
    + exact H.
  - exfalso. apply (three_points_fit {| epochs := Num 120; lr := Num 0.01 |} e).
    apply (trainModel_throws _ _ [0] [[1]; [2]]); [reflexivity|exact E].
Defined.

End Trainer.

Section ExactFit.
Local Open Scope R_scope.

(** X17.  When every target is the same affine function of its features,
    [c0 + a0 x0 + a1 x1 + ...], a linear baseline that trains has learnt
    that function: [infer] returns it on every row, seen or not, and the
    [rmse] reported is 0 (over exact reals). *)
Theorem affine_targets_fit_exactly ds cfg X0 rest model (a : nat -> R) c0 :
  x ds = X0 :: rest ->
  Forall (fun row => length row = length X0) (x ds) ->
  length (y ds) = length (x ds) ->
  (forall k, (k < length (x ds))%nat ->
     nth k (y ds) 0 = c0 + sum_below (length X0) (fun j => a j * entry (x ds) k j)) ->
  _trainModel None ds cfg = Ok model ->
  (forall row, length row = length X0 ->
     infer model row = c0 + sum_below (length X0) (fun j => a j * nth j row 0))
  /\ rmse model = 0.
Proof. apply trainModel_affine. Qed.

Lemma affine_targets_fit_exactly_witness :
  exists model,
    _trainModel None three_points {| epochs := Num 120; lr := Num 0.01 |} = Ok model
    /\ infer model [7] = 7 /\ rmse model = 0.
Proof.
  destruct (_trainModel None three_points {| epochs := Num 120; lr := Num 0.01 |})
    as [model|e] eqn:E.
  - exists model. split; [reflexivity|].
    destruct (affine_targets_fit_exactly three_points
                {| epochs := Num 120; lr := Num 0.01 |} [0] [[1]; [2]] model
                (fun _ => 1) 0) as [Hinf Hr].
    + reflexivity.
    + repeat constructor.
    + reflexivity.
    + intros [|[|[|k]]] Hk; cbn in Hk; try lia; unfold entry; cbn; lra.
    + exact E.
    + split; [|exact Hr]. rewrite (Hinf [7] eq_refl). cbn. lra.
  - exfalso. exact (three_points_fit _ _ E).
Defined.

(** X18.  The target of every sample of [_buildDataset] can be read off its
    features: the rolling mean (feature 2) is the mean of the two lags
    (features 0 and 1) and of the target itself, so the target is
    [3 * f[2] - f[0] - f[1]] (distinct calendar dates).  A linear baseline
    trained on such a dataset has therefore learnt exactly that: [infer]
    returns [3 * f[2] - f[0] - f[1]] on every vector of 7 features,
    whatever the season and the weather in it, and reports an [rmse] of 0
    (over exact reals). *)
Theorem dataset_target_in_features vi wx days :
  NoDup (map date vi) -> Forall2 dated vi days ->
  let ds := _buildDataset vi wx in
  length (y ds) = length (x ds)
  /\ (forall k, (k < length (x ds))%nat ->
        let f := nth k (x ds) [] in
        length f = 7%nat
        /\ nth k (y ds) 0 = 3 * nth 2 f 0 - nth 0 f 0 - nth 1 f 0)
  /\ (forall cfg model, _trainModel None ds cfg = Ok model ->
        (forall f, length f = 7%nat ->
           infer model f = 3 * nth 2 f 0 - nth 0 f 0 - nth 1 f 0)
        /\ rmse model = 0).
Proof.
  intros Hnd _ ds. split; [apply buildDataset_lengths|]. split.
  - intros k Hk. split.
    + apply (dataset_rows_length vi wx). now apply nth_In.
    + now apply buildDataset_target.
  - intros cfg model. now apply trainModel_dataset.
Qed.

Lemma dataset_target_in_features_witness :
  let ds := _buildDataset three (weather 3) in
  length (y ds) = length (x ds)
  /\ forall k, (k < length (x ds))%nat ->
       nth k (y ds) 0
       = 3 * nth 2 (nth k (x ds) []) 0 - nth 0 (nth k (x ds) []) 0 - nth 1 (nth k (x ds) []) 0.
Proof.
  assert (Hnd : NoDup (map date three)).
  { apply (bool_decide_unpack (NoDup (map date three))). vm_compute. exact I. }
  assert (Hd : Forall2 dated three (composite_days 3)).
  { repeat constructor; vm_compute; congruence. }
  destruct (dataset_target_in_features three (weather 3) (composite_days 3) Hnd Hd)
    as (H1 & H2 & _).
  split; [exact H1|]. intros k Hk. apply (H2 k Hk).
Defined.

End ExactFit.

Section Cycle.
Local Open Scope R_scope.

(** X19.  With a model that has learnt [3 * f[2] - f[0] - f[1]], the forecast
    repeats the last three values of the history, clamped to [-0.1, 1]:
    the rolling mean of the forecast is the mean of the last three values
    (no longer of two lags and the target), so the model returns the value
    three steps back, and the 30 points, dated on the 30 days after the
    history, carry the last three values of the history over and over,
    whatever the season and the weather (a history that ends on a calendar
    date, the 30 days staying within year 9999). *)
Theorem forecast_repeats_last_three vi wx model pre o3 o2 o1 v3 v2 v1 d0 :
  (forall f, length f = 7%nat ->
     infer model f = 3 * nth 2 f 0 - nth 0 f 0 - nth 1 f 0) ->
  vi = pre ++ [o3; o2; o1] ->
  value o3 = Some v3 -> value o2 = Some v2 -> value o1 = Some v1 ->
  iso_date (date o1) d0 -> (YearFromDay (d0 + 30) <= 9999)%Z ->
  exists out,
    _forecastNext30Days vi wx model = Ok out
    /\ length out = 30%nat
    /\ forall k, (k < 30)%nat ->
         exists p, out !! k = Some p
                   /\ date p = iso_of_day (d0 + 1 + Z.of_nat k)
                   /\ value p = Some (clip (nth (k mod 3) [v3; v2; v1] 0)).
Proof.
  intros Hinf Hvi H3 H2 H1 Hdate Hy.
  assert (Hlast : last vi = Some o1).
  { rewrite Hvi.
    replace (pre ++ [o3; o2; o1]) with ((pre ++ [o3; o2]) ++ [o1])
      by (rewrite <- app_assoc; reflexivity).
    apply last_snoc. }
  destruct (forecastNext30Days_returns vi wx model o1 d0 Hlast Hdate Hy)
    as (out & Hout & Hdates).
  destruct (forecastNext30Days_cycle model Hinf vi wx pre o3 o2 o1 v3 v2 v1 out
              Hvi H3 H2 H1 Hout) as [Hlen Hvals].
  exists out. split; [exact Hout|]. split; [exact Hlen|].
  intros k Hk. destruct (Hdates k Hk) as (p & Hp & Hd).
  destruct (Hvals k Hk) as (p' & Hp' & Hv).
  assert (Some p = Some p') as [= <-] by (rewrite <- Hp; exact Hp').
  exists p. split; [exact Hp|]. split; [exact Hd|exact Hv].
Qed.

Lemma forecast_repeats_last_three_witness :
  exists out,
    _forecastNext30Days three (weather 3) leaking_model = Ok out
    /\ exists p, out !! 4%nat = Some p /\ value p = Some (clip 0.4).
Proof.
  destruct (forecast_repeats_last_three three (weather 3) leaking_model []
              {| date := "2020-01-01"; value := Some 0.3 |}
              {| date := "2020-01-17"; value := Some 0.4 |}
              {| date := "2020-02-02"; value := Some 0.5 |} 0.3 0.4 0.5 18294)
    as (out & Hout & _ & H); try reflexivity.
  - vm_compute. discriminate.
  - exists out. split; [exact Hout|].
    destruct (H 4%nat ltac:(lia)) as (p & Hp & _ & Hv). exists p. split; assumption.
Defined.

End Cycle.

(** ** src/app.js and vegetation-adapter.js *)

Section Clamp.
Import Utils.
Local Open Scope R_scope.

(** X20.  For bounds [a <= b], [Utils.clamp] returns a number of [[a, b]] for
    every number and every infinity, returns a number of [[a, b]] as it
    is, and does not decrease when its argument grows; NaN is not clamped:
    it comes back as NaN. *)
Theorem clamp_range a b :
  a <= b ->
  (forall v, exists c, clamp (Num v) (Num a) (Num b) = Num c /\ a <= c <= b
                       /\ (a <= v <= b -> c = v))
  /\ (forall v v' c c', v <= v' -> clamp (Num v) (Num a) (Num b) = Num c ->
        clamp (Num v') (Num a) (Num b) = Num c' -> c <= c')
  /\ clamp PosInf (Num a) (Num b) = Num b
  /\ clamp NegInf (Num a) (Num b) = Num a
  /\ clamp NaN (Num a) (Num b) = NaN.
Proof.
  intros Hab. split; [|split; [|split; [|split]]].
  - intros v. exists (Rmax a (Rmin b v)). split; [apply clamp_num|].
    split; [now apply clamp_between|]. apply clamp_inside.
  - intros v v' c c' Hv. rewrite !clamp_num. intros [= <-] [= <-].
    now apply clamp_monotone.
  - unfold clamp. cbn. f_equal. now apply Rmax_right.
  - reflexivity.
  - reflexivity.
Qed.

Lemma clamp_range_witness :
  clamp (Num 25) (Num 1) (Num 20) = Num 20 /\ clamp NaN (Num 1) (Num 20) = NaN.
Proof.
  destruct (clamp_range 1 20) as (H & _ & _ & _ & Hn); [lra|].
  split; [|exact Hn].
  destruct (H 25) as (c & Hc & Hr & _). rewrite Hc. f_equal.
  rewrite clamp_num in Hc. injection Hc as <-.
  unfold Rmin, Rmax. repeat destruct Rle_dec; lra.
Defined.

(** X21.  Whatever the text of the two photo fields (missing, empty, not a
    number, 0, negative or huge), [maxPages] is a number of [[1, 20]]
    and [radiusKm] one of [[1, 200]]: the default taken by [||] keeps NaN
    away from [Utils.clamp].  The three heat map weights [norm], [normT] and
    [normP] are numbers of [[0, 1]], 0 for a missing value. *)
Theorem clamped_inputs_in_range :
  (forall v, exists c, PhotoManager.maxPages v = Num c /\ 1 <= c <= 20)
  /\ (forall v, exists c, PhotoManager.radiusKm v = Num c /\ 1 <= c <= 200)
  /\ (forall v, exists c, HeatmapHelper.norm v = Num c /\ 0 <= c <= 1)
  /\ (forall v, exists c, HeatmapHelper.normT v = Num c /\ 0 <= c <= 1)
  /\ (forall v, exists c, HeatmapHelper.normP v = Num c /\ 0 <= c <= 1)
  /\ PhotoManager.maxPages None = Num 5
  /\ PhotoManager.radiusKm (Some "abc"%string) = Num 25.
Proof.
  assert (Hn : forall q, exists c, clamp (Num q) (Num 0) (Num 1) = Num c /\ 0 <= c <= 1).
  { intros q. exists (Rmax 0 (Rmin 1 q)). split; [apply clamp_num|].
    apply clamp_between. lra. }
  split; [|split; [|split; [|split; [|split; [|split]]]]].
  - intros v. apply or_number_clamped. lra.
  - intros v. apply or_number_clamped. lra.
  - intros [v|]; [apply Hn|]. exists 0. split; [reflexivity|lra].
  - intros [v|]; [apply Hn|]. exists 0. split; [reflexivity|lra].
  - intros [v|]; [apply Hn|]. exists 0. split; [reflexivity|lra].
  - unfold PhotoManager.maxPages. cbn [PhotoManager.parseInt_value PhotoManager.or_number].
    rewrite clamp_num. f_equal. unfold Rmin, Rmax. repeat destruct Rle_dec; lra.
  - unfold PhotoManager.radiusKm.
    replace (PhotoManager.parseInt_value (Some "abc"%string)) with NaN
      by (vm_compute; reflexivity).
    cbn [PhotoManager.or_number].
    rewrite clamp_num. f_equal. unfold Rmin, Rmax. repeat destruct Rle_dec; lra.
Qed.

End Clamp.

Section Copies.
Local Open Scope R_scope.

(** X22.  The two copies of [_invSym] differ in the threshold (1e-8 in
    forecast.js, 1e-10 in app.js) and in the message: where forecast.js
    returns an inverse app.js returns the same one, and where app.js throws
    ('Singular') forecast.js throws too ('Singular matrix'). *)
Theorem invSym_copies (M : matrix) :
  (forall J, _invSym M = Ok J -> AppForecastManager._invSym M = Ok J)
  /\ (forall e, AppForecastManager._invSym M = Throw e ->
        e = Error "Singular" /\ _invSym M = Throw (Error "Singular matrix")).
Proof.
  split.
  - intros J. apply app_invSym_of_invSym.
  - intros e. apply app_invSym_throws.
Qed.

Lemma invSym_copies_witness :
  exists J,
    let xN := standardized_x (x three_points) 1 in
    AppForecastManager._invSym (_matMul (_transpose xN) xN) = Ok J.
Proof.
  destruct (_invSym (_matMul (_transpose (standardized_x (x three_points) 1))
                             (standardized_x (x three_points) 1)))
    as [inv|e] eqn:E.
  - exists inv. cbv zeta.
    destruct (invSym_copies (_matMul (_transpose (standardized_x (x three_points) 1))
                                     (standardized_x (x three_points) 1))) as [H _].
    apply H. exact E.
  - exfalso. apply (three_points_fit {| epochs := Num 120; lr := Num 0.01 |} e).
    apply (trainModel_throws _ _ [0] [[1]; [2]]); [reflexivity|exact E].
Defined.

(** X23.  The three converters of a MODIS date agree: [_toISO] of app.js is
    [_toISO] of forecast.js, with or without [Utils], and [modisToISO] of
    vegetation-adapter.js returns the same date where they return one, and
    its argument where they return [null]. *)
Theorem toISO_copies has token :
  AppForecastManager._toISO token = _toISO has token
  /\ VegetationAdapter.modisToISO token
     = (let! r := _toISO has token in Ok (default token r)).
Proof. split; [apply app_toISO_same|apply modisToISO_toISO]. Qed.

(** X24.  For the indices NDVI and EVI the value [_fetchVISeries] computes from a
    subset is the one [scaleValue] of app.js gives for the band found and
    its first value: the same fill test and the same factor 0.0001. *)
Theorem scaleValue_agrees bands viType :
  viType = "ndvi"%string \/ viType = "evi"%string ->
  vi_value bands viType
  = match find (fun b => includes (toLowerCase (default ""%string (band b))) viType) bands with
    | Some b =>
        VegetationManager.scaleValue (band b)
          (match data b with DataArray l => mjoin (head l) | DataValue v => v end)
    | None => None
    end.
Proof. apply vi_value_scaleValue. Qed.

Lemma scaleValue_agrees_witness :
  vi_value [ {| band := Some "250m_16_days_NDVI"%string; data := DataArray [Some 4321] |} ]
           "ndvi"
  = VegetationManager.scaleValue (Some "250m_16_days_NDVI"%string) (Some 4321).
Proof.
  rewrite (scaleValue_agrees _ "ndvi"); [|left; reflexivity].
  reflexivity.
Defined.

End Copies.

Section Phenology.
Import PhenologyManager.
Local Open Scope R_scope.


(** X26.  [DataHub._buildPhenology] and [PhenologyManager] estimate alike: the
    [estimate] of the first has the [doy] and [gdd] of [estimateGDD], with
    the date of that day of the year, and that date is what
    [calculateFlowerPredictions] writes; 'Not Reached' is written exactly
    when [doy] is [null], the test [if (result.doy)] never meeting 0. *)
Theorem phenology_estimates_agree year temps base thr :
  let r := estimateGDD temps base thr in
  DataHub.estimate year temps base thr
  = match doy r with
    | Some d => let! s := Utils.doyToDate year d in
                Ok {| DataHub.doy := Some d; DataHub.date := Some s; DataHub.gdd := gdd r |}
    | None => Ok {| DataHub.doy := None; DataHub.date := None; DataHub.gdd := gdd r |}
    end
  /\ prediction year temps base thr
     = (let! e := DataHub.estimate year temps base thr in Ok (DataHub.date e))
  /\ (prediction year temps base thr = Ok None <-> doy r = None).
Proof.
  cbv zeta.
  pose proof (estimate_from_estimateGDD year base thr temps 0 0) as He. cbv zeta in He.
  fold (DataHub.estimate year temps base thr) in He.
  fold (estimateGDD temps base thr) in He.
  pose proof (estimateGDD_from_spec base thr temps 0 0) as [_ Hs]. cbv zeta in Hs.
  fold (estimateGDD temps base thr) in Hs.
  split; [exact He|].
  unfold prediction. rewrite He.
  destruct (doy (estimateGDD temps base thr)) as [d|].
  - destruct Hs as (k & t & Hd & _).
    destruct (Z.eqb_spec d 0) as [H0|_]; [lia|].
    destruct (Utils.doyToDate year d) as [s|e]; cbn [rbind DataHub.date];
      (split; [reflexivity|split; discriminate]).
  - cbn [rbind DataHub.date]. split; [reflexivity|]. split; reflexivity.
Qed.

End Phenology.

Section Years.
Import Utils.
Local Open Scope Z_scope.

(** X27.  For a year of 1000 to 9999 and a step of one day or more, [genDates]
    returns (366 turns are enough) the dates of that year taken every
    [step] days from 1 January, followed by 31 December when the steps do
    not end on it: the first date is 1 January, the last 31 December, no
    date comes twice and every date is a day of the year; with step 1 these
    are all the days of the year in order.  With step 0 the loop never
    ends. *)
Theorem genDates_year year step fuel :
  1000 <= year <= 9999 -> 1 <= step -> (366 < fuel)%nat ->
  genDates fuel year step = Some (Ok (stepped_dates year step))
  /\ head (stepped_dates year step) = Some (Number_toString year ++ "-01-01")%string
  /\ last (stepped_dates year step) = Some (Number_toString year ++ "-12-31")%string
  /\ NoDup (stepped_dates year step)
  /\ (forall s, In s (stepped_dates year step) ->
        exists a, 0 <= a < DaysInYear year /\ s = iso_of_day (DayFromYear year + a))
  /\ Z.of_nat (length (stepped_dates year step))
     = (DaysInYear year - 1) / step + 1
       + (if (DaysInYear year - 1) mod step =? 0 then 0 else 1)
  /\ stepped_dates year 1
     = map (fun i => iso_of_day (DayFromYear year + Z.of_nat i))
           (seq 0 (Z.to_nat (DaysInYear year)))
  /\ (forall fuel', genDates fuel' year 0 = None).
Proof.
  intros Hy Hs Hf.
  split; [now apply genDates_stepped|].
  split; [now apply stepped_head|].
  split; [now apply stepped_last|].
  split; [now apply stepped_NoDup|].
  split; [intros s; now apply stepped_In|].
  split; [now apply stepped_length|].
  split; [now apply stepped_daily|].
  intros fuel'. now apply genDates_step_0.
Qed.

Lemma genDates_year_witness :
  genDates 400 2020 16 = Some (Ok (stepped_dates 2020 16))
  /\ last (stepped_dates 2020 16) = Some "2020-12-31"%string
  /\ Z.of_nat (length (stepped_dates 2020 16)) = 24.
Proof.
  destruct (genDates_year 2020 16 400) as (H1 & _ & H2 & _ & _ & H3 & _); [lia|lia|lia|].
  split; [exact H1|]. split; [exact H2|]. rewrite H3. vm_compute. reflexivity.
Defined.

End Years.

End Properties.
